(* ===== verification/_CoqProject ===== *)
-Q . S2P
Prelude.v
GoStrings.v
GoErrors.v
Storage.v
Memory.v
CircuitBreaker.v
Cache.v
UserService.v
Gateway.v
Config.v
Rpc.v
Auth.v
Interceptors.v
ClientRetry.v
Chain.v
Server.v
Retry.v
Engine.v
Database.v
Postgres.v
Transactions.v
Migrations.v
Observability.v
Client.v
Demo.v
Transport.v
Serving.v
Lifecycle.v
System.v
Accountability.v
Forwarding.v
EndToEnd.v
