(* ===== verification/Prelude.v ===== *)
(** * A model of the gRPC user service

    The repository is a Go service that manages users: a gRPC server with a chain
    of interceptors, a REST gateway, a repository of users in memory or in
    PostgreSQL behind an optional circuit breaker and cache, and a client. This
    development translates its hand-written code to definitions that compute,
    and proves what makes the parts and their composition correct. Names follow
    the source; a module is named after the type or package it models.

    ** The parts and their files

    - [Prelude] (this file): machine integers with their wrap-around, the result
      of a Go call, the state monad [M S A] over a [World] (clock readings and
      random bytes, by a counter of observations), tactics and hints.
    - [GoStrings]: what the code uses of [strings], [strconv], hex and base64, on
      bytes, with the Unicode spaces of [strings.TrimSpace].
    - [GoErrors]: error values, wrapping, [errors.Is] and [errors.As],
      [pkg/errors], gRPC statuses.
    - [Storage]: [internal/storage/storage.go]; the record [Repository] of
      operations and two contracts its clients are proved against: the class
      [RepositoryLaws], and the weaker [RepositorySafety], which trusts no answer
      and says which changes of the users an operation can make at all.
    - [Memory], [CircuitBreaker], [Cache]: the files of the same names under
      [internal/storage]; each implements the contract, the last two over any
      repository that does.
    - [Retry], [Engine], [Database], [Postgres], [Migrations]:
      [internal/storage/postgres.go]. [Engine] states what the code relies on of
      [database/sql] and PostgreSQL as a class with laws, [Database] has the
      statements of the repository with their meaning on tables, [Postgres] the
      operations, [Retry] the loop around them, [Migrations] the schema, its
      start-up and roll backs, over its own statements.
    - [Transactions]: the transactions of [Postgres] as scripts of statements
      (shown to be the same code), and any number of them on one server, statement
      by statement, with its locks.
    - [UserService]: [internal/service/user.go], every handler over any
      repository that keeps the contract.
    - [Config]: [pkg/config/config.go], loading, overrides and validation.
    - [Rpc], [Auth], [Interceptors]: [pkg/interceptors] on the server's side:
      contexts, request ids and audit; authentication and authorization; the
      other interceptors. A handler returns or panics ([outcome]).
    - [Chain], [Server], [Lifecycle]: [cmd/server/main.go]: the chains, the opened
      repository and readiness, and a run from validation to exit.
    - [Serving]: the goroutines of that run, from the start of the servers to the
      return, as they interleave; [Transport]: the options of the gRPC server, TLS,
      the HTTP servers, and [pkg/tracing].
    - [Gateway]: [pkg/pb/service.pb.gw.go] and CORS: the REST handlers on the
      vendored router of grpc-gateway, down to its compiled path patterns.
    - [Observability]: [pkg/metrics], [pkg/logging] and the reload of the level.
    - [ClientRetry], [Client], [Demo]: [pkg/interceptors/client_retry.go] and
      [client.go], and the connection and the scenarios of [cmd/client/main.go].
    - [System]: the whole server: the generated handlers of [service_grpc.pb.go]
      behind the chain of the gRPC server, and the gateway, over one repository.
    - [Accountability]: what the chains leave in the audit trail; [Forwarding]: the
      other registration of the gateway, over a client of the gRPC server, with
      its streams. The program never uses it, and it is the one that would have
      been accountable.
    - [EndToEnd]: PostgreSQL under the decorators, and the service over it behind
      the client's retries.

    Operations that lock a mutex are atomic steps; where the code leaves a gap
    (a cache fill, the two halves of a guarded call, of the concurrency limiter,
    of the gauge of streams) the halves are steps of their own and the theorems
    quantify over interleavings.

    ** What the theorems show

    - Repositories: the memory repository, the breaker and, over one that answers
      reliably, the cache keep the contract, operation after operation ([memory_refines_contract], [opened_repository_keeps_contract],
      [cache_refines_contract]), with invariants of all reachable states
      ([memory_reachable_inv], [breaker_reachable_inv], [cache_bounded]), and the
      corners in which they do not do what is expected
      ([wedged_breaker_rejects_forever], next to [open_breaker_recovers];
      [unavailable_write_reported_done],
      [stale_fill_hides_update]).
    - PostgreSQL: what each operation leaves in the tables when connections fail,
      acknowledgements are lost and attempts are repeated
      ([postgres_create_is_atomic], [postgres_keyed_create_is_exactly_once],
      [postgres_mutations_are_chained], [postgres_delete_is_atomic]), pages, and
      the price of a create without a key ([lost_acknowledgement_needs_a_key]). Transactions that
      overlap do what they do one after another ([transactions_serialize]), keep
      the capacity together and never wait in a circle.
    - Migrations: starts and roll backs refine a pure specification, the schema
      never leaves the chain of its four stages, a start outlasts an outage, a
      roll back is undone by the next start, and the first migration cannot be
      rolled back.
    - Service: valid users whatever clients send, also through the two doors of
      the whole server ([served_users_valid]), safe errors over a repository
      that keeps the contract, what CreateUser and UpdateUser store, and that following page tokens enumerates the users.
    - Server: a call reaches its handler only for a principal that is
      authenticated and authorized, the gateway bypasses this, limits hold, a run
      releases what it acquires but for a watcher, a collector and, on one path,
      a goroutine, which are accounted for ([run_accounts_for_resources]). The gateway's router answers as a table of
      routes ([gateway_routes]). Every change of a user by a gRPC call is audited
      under its principal's name ([changes_are_attributed]); so would every change
      through a gateway that forwards to the server
      ([forwarded_changes_are_attributed]), which answers as the one in use does
      but for the streams ([registrations_agree], [streams_are_forwarded]). The
      shutdown ends however long clients hold their calls, leaves no gRPC call
      running ([shutdown_terminates], [shutdown_leaves_no_call]), and the transport security that is configured is
      in force.
    - Client: retries are bounded and restricted to their codes, the token reaches
      the authenticator, the bidirectional scenario leaves no goroutine waiting
      and succeeds only on a complete conversation.
    - End to end ([EndToEnd]): requests with an idempotency key store one user
      through every layer of retries; without a key one call stores two when the
      commit is lost with an error the storage layer does not repeat
      ([client_retry_duplicates_user]). Under
      any decorators the repository opened for PostgreSQL keeps the contract
      without reliable answers ([opened_postgres_is_safe]), with which the service
      keeps every user valid ([service_users_valid]); an update whose
      acknowledgement is lost is hidden by the cache.

    ** Parameters, bounds and fuel

    Library code is a parameter: cryptography, JSON, YAML, URL and address parsing
    ([Auth.Libraries], [Auth.PublicKeys] and section variables), the token bucket
    ([Interceptors.RateLimiter]), the SQL engine ([Engine]), timers and jitter
    ([Retry.Waiting]). Each class has an instance over which the witnesses run;
    that of the engine is a database in memory behind a connection that fails as
    a function says. Loops run on the structure of their input or on a number of
    attempts computed as the code does; the search of [Migrations.first_gap] has
    the number of files and one as fuel, which [first_gap_missing] shows to be
    enough; streams run over the list of what the peer sends, up to their limit, or
    for as many messages as an HTTP peer listens to, which forwards the whole of a
    stream with fewer ([streams_are_forwarded]).
    Integers are [Z] with the wrap-around written out where the code can overflow;
    counters of metrics count exactly.

    ** Not modelled, and why

    Of the generated code in [pkg/pb] the messages' descriptors and encoding; what
    only hands on to a library and keeps no state (spans and their export, the
    text of log lines, TLS handshakes, keepalive timers, the Prometheus handler);
    functions that only tests call; the frontend, scripts and manifests.
    [Postgres] runs the transactions of one caller; how callers overlap is in
    [Transactions], where a waiting statement is evaluated when it is granted (as
    one that waited for a row is evaluated again at READ COMMITTED). Deadlines
    that expire inside a call of the driver appear as its error. *)
From stdpp Require Export base tactics option list strings gmap sorting fin_maps.
From Stdlib Require Export ZArith Lia.
From Stdlib Require Import Ascii.

#[global] Open Scope Z_scope.

(** * Proof automation shared by the development *)

Create HintDb go discriminated.
Create Rewrite HintDb go.

(** [step_match] splits the innermost [match]/[if] of the goal or of a
    hypothesis and simplifies; [go_cases] iterates it.  They are the case
    analysis used for handlers written as chains of early returns. *)
Ltac step_match :=
  match goal with
  | |- context [match ?x with _ => _ end] =>
      lazymatch x with context [match _ with _ => _ end] => fail | _ => destruct x eqn:? end
  | H : context [match ?x with _ => _ end] |- _ =>
      lazymatch x with context [match _ with _ => _ end] => fail | _ => destruct x eqn:? end
  end.

Ltac go_cases := repeat (step_match; simplify_eq/=); try done.

(** Turn boolean comparisons in the context into arithmetic facts. *)
Ltac bools :=
  repeat match goal with
  | H : (_ || _) = true |- _ => apply orb_true_iff in H
  | H : (_ || _) = false |- _ => apply orb_false_iff in H; destruct H
  | H : (_ && _) = true |- _ => apply andb_true_iff in H; destruct H
  | H : (_ && _) = false |- _ => apply andb_false_iff in H
  | H : negb _ = true |- _ => apply negb_true_iff in H
  | H : negb _ = false |- _ => apply negb_false_iff in H
  | H : (_ <? _) = true |- _ => apply Z.ltb_lt in H
  | H : (_ <? _) = false |- _ => apply Z.ltb_ge in H
  | H : (_ <=? _) = true |- _ => apply Z.leb_le in H
  | H : (_ <=? _) = false |- _ => apply Z.leb_gt in H
  | H : (_ =? _) = true |- _ => apply Z.eqb_eq in H
  | H : (_ =? _) = false |- _ => apply Z.eqb_neq in H
  | H : (_ >=? _) = _ |- _ => rewrite Z.geb_leb in H
  | H : (_ >? _) = _ |- _ => rewrite Z.gtb_ltb in H
  | H : bool_decide _ = true |- _ => apply bool_decide_eq_true in H
  | H : bool_decide _ = false |- _ => apply bool_decide_eq_false in H
  end.

(** * Machine integers *)

(** Go's [int], [int64] and [time.Duration] are 64-bit two's complement, [int32]
    is 32-bit: arithmetic on them wraps silently. *)
Definition wrap64 (z : Z) : Z := (z + 2 ^ 63) mod 2 ^ 64 - 2 ^ 63.
Definition wrap32 (z : Z) : Z := (z + 2 ^ 31) mod 2 ^ 32 - 2 ^ 31.

Definition min_int64 : Z := - 2 ^ 63.
Definition max_int64 : Z := 2 ^ 63 - 1.

(** [1 << n] at type [int64] for [n >= 0]: the bits shifted past the width
    are lost. *)
Definition shl1_64 (n : Z) : Z := wrap64 (Z.shiftl 1 n).

Lemma wrap64_small z : min_int64 <= z <= max_int64 -> wrap64 z = z.
Proof.
  unfold wrap64, min_int64, max_int64. intros H.
  rewrite Z.mod_small by lia. lia.
Qed.

Lemma wrap64_range z : min_int64 <= wrap64 z <= max_int64.
Proof.
  unfold wrap64, min_int64, max_int64.
  pose proof (Z.mod_pos_bound (z + 2 ^ 63) (2 ^ 64) ltac:(lia)). lia.
Qed.

Lemma wrap32_small z : - 2 ^ 31 <= z < 2 ^ 31 -> wrap32 z = z.
Proof. unfold wrap32. intros H. rewrite Z.mod_small by lia. lia. Qed.

#[export] Hint Rewrite wrap64_small wrap32_small using lia : go.

(** * Result values *)

(** A Go call that returns [(T, error)]: every such function of the
    repository returns the zero value next to a non-nil error, so the pair is
    a sum. *)
Inductive result (E A : Type) : Type :=
| Ok (a : A)
| Err (e : E).
Arguments Ok {E A} a.
Arguments Err {E A} e.

#[export] Instance result_eq_dec {E A} `{EqDecision E, EqDecision A} :
  EqDecision (result E A).
Proof. solve_decision. Defined.

Definition is_ok {E A} (r : result E A) : bool :=
  match r with Ok _ => true | Err _ => false end.

(** * The world and the state monad *)

(** Everything a handler observes that is not its own state: the successive
    readings of [time.Now] (nanoseconds) and of [crypto/rand] ([None] is the
    read error).  [w_tick] counts the observations made so far, so two
    readings in one call may differ, as they do at run time. *)
Record World := mkWorld {
  w_now : nat -> Z;
  w_rand : nat -> option string;
  w_tick : nat
}.

Definition tick (w : World) : World :=
  {| w_now := w_now w; w_rand := w_rand w; w_tick := S (w_tick w) |}.

(** Effectful code over a state [S] in a world. *)
Definition M (S A : Type) : Type := World * S -> A * (World * S).

Definition retM {S A} (a : A) : M S A := fun ws => (a, ws).
Definition bindM {S A B} (m : M S A) (k : A -> M S B) : M S B :=
  fun ws => let '(a, ws') := m ws in k a ws'.
Definition getM {S} : M S S := fun ws => (snd ws, ws).
Definition putM {S} (s : S) : M S unit := fun ws => (tt, (fst ws, s)).
Definition modifyM {S} (f : S -> S) : M S unit :=
  fun ws => (tt, (fst ws, f (snd ws))).

(** [time.Now()] in nanoseconds, and one read of [crypto/rand]. *)
Definition nowM {S} : M S Z :=
  fun ws => (w_now (fst ws) (w_tick (fst ws)), (tick (fst ws), snd ws)).
Definition randM {S} : M S (option string) :=
  fun ws => (w_rand (fst ws) (w_tick (fst ws)), (tick (fst ws), snd ws)).

(** Run code of an embedded component: a decorator's state is its own record
    next to the state of what it wraps. *)
Definition innerM {T S A} (m : M S A) : M (T * S) A :=
  fun ws => let '(w, (t, s)) := ws in
            let '(a, (w', s')) := m (w, s) in (a, (w', (t, s'))).
Definition outerM {T S A} (m : M T A) : M (T * S) A :=
  fun ws => let '(w, (t, s)) := ws in
            let '(a, (w', t')) := m (w, t) in (a, (w', (t', s))).

Declare Scope go_scope.
Delimit Scope go_scope with go.
Notation "x <-- c ;; k" := (bindM c (fun x => k))
  (at level 100, c at next level, right associativity) : go_scope.
Notation "c ;;; k" := (bindM c (fun _ => k))
  (at level 100, right associativity) : go_scope.
#[global] Open Scope go_scope.

(** [runM m w s]: result, final world and final state. *)
Definition runM {S A} (m : M S A) (w : World) (s : S) : A * (World * S) := m (w, s).
Definition result_of {S A} (m : M S A) (w : World) (s : S) : A := fst (m (w, s)).
Definition state_of {S A} (m : M S A) (w : World) (s : S) : S := snd (snd (m (w, s))).

Ltac unfold_monad :=
  unfold runM, result_of, state_of, retM, bindM, getM, putM, modifyM, nowM, randM,
    innerM, outerM in *; cbn [fst snd] in *.

(** Code that reads the clock or random bytes but leaves its state alone. *)
Definition keeps_state {S A} (m : M S A) : Prop := forall w s, snd (snd (m (w, s))) = s.

Lemma keeps_ret {S A} (a : A) : keeps_state (S := S) (retM a).
Proof. done. Qed.
Lemma keeps_now {S} : keeps_state (S := S) nowM.
Proof. done. Qed.
Lemma keeps_rand {S} : keeps_state (S := S) randM.
Proof. done. Qed.
Lemma keeps_bind {S A B} (m : M S A) (k : A -> M S B) :
  keeps_state m -> (forall a, keeps_state (k a)) -> keeps_state (bindM m k).
Proof.
  intros Hm Hk w s. unfold bindM. specialize (Hm w s). destruct (m (w, s)) as [a [w' s']].
  cbn in Hm. subst. apply Hk.
Qed.
#[export] Hint Resolve keeps_ret keeps_now keeps_rand : go.

(** Prove [keeps_state] of code built from these by binds and case analyses. *)
Ltac keeps_state_tac :=
  repeat first [ solve [auto with go]
               | apply keeps_bind; [|intros]
               | match goal with |- keeps_state (match ?x with _ => _ end) => destruct x end ].

(** * Lists *)

Section lists.
Context {A : Type}.
Implicit Types (l : list A) (n : nat).

Lemma take_drop_cons l n x : l !! n = Some x -> drop n l = x :: drop (S n) l.
Proof. apply drop_S. Qed.

Lemma Forall_take_drop (P : A -> Prop) l n :
  Forall P l -> Forall P (take n l) /\ Forall P (drop n l).
Proof. intros H. split; [by apply Forall_take | by apply Forall_drop]. Qed.
End lists.
