(* ===== verification/GoStrings.v ===== *)
(** The part of Go's [strings], [strconv], [encoding/hex] and
    [encoding/base64] that the service uses, on byte strings.  A Go string is a
    sequence of bytes, here a [string] of [ascii]; the functions that look at
    runes ([TrimSpace], [Fields]) recognise the UTF-8 encodings of the Unicode
    white space characters. *)
From S2P Require Import Prelude.
From stdpp Require Export pretty.
From Stdlib Require Import Ascii.
From Stdlib Require String.

#[global] Open Scope Z_scope.


Abbreviation bytes_of := String.list_ascii_of_string.
Abbreviation of_bytes := String.string_of_list_ascii.

(** [len(s)] at type [int]. *)
Definition slen (s : string) : Z := Z.of_nat (String.length s).

(** [s > t] on Go strings: byte-wise lexicographic order. *)
Definition str_gt (s t : string) : bool := String.ltb t s.

Definition byte (a : ascii) : N := N_of_ascii a.

(** * White space *)

(** [unicode.IsSpace], on the UTF-8 encoding of the rune: the one-byte
    spaces, U+0085 and U+00A0, and U+1680, U+2000-U+200A, U+2028, U+2029,
    U+202F, U+205F, U+3000. *)
Definition space1 (a : ascii) : bool :=
  ((9 <=? byte a) && (byte a <=? 13))%N || (byte a =? 32)%N.
Definition space2 (a b : ascii) : bool :=
  ((byte a =? 0xC2) && ((byte b =? 0x85) || (byte b =? 0xA0)))%N.
Definition space3 (a b c : ascii) : bool :=
  (((byte a =? 0xE1) && (byte b =? 0x9A) && (byte c =? 0x80)) ||
   ((byte a =? 0xE2) && (byte b =? 0x80) &&
      (((0x80 <=? byte c) && (byte c <=? 0x8A)) || (byte c =? 0xA8) ||
       (byte c =? 0xA9) || (byte c =? 0xAF))) ||
   ((byte a =? 0xE2) && (byte b =? 0x81) && (byte c =? 0x9F)) ||
   ((byte a =? 0xE3) && (byte b =? 0x80) && (byte c =? 0x80)))%N.

(** Each byte with a mark that says whether it belongs to a space rune. *)
Fixpoint mark (s : list ascii) : list (ascii * bool) :=
  match s with
  | [] => []
  | a :: s1 =>
      if space1 a then (a, true) :: mark s1 else
      match s1 with
      | [] => [(a, false)]
      | b :: s2 =>
          if space2 a b then (a, true) :: (b, true) :: mark s2 else
          match s2 with
          | [] => (a, false) :: mark s1
          | c :: s3 =>
              if space3 a b c
              then (a, true) :: (b, true) :: (c, true) :: mark s3
              else (a, false) :: mark s1
          end
      end
  end.

Fixpoint drop_space (l : list (ascii * bool)) : list (ascii * bool) :=
  match l with
  | (_, true) :: l' => drop_space l'
  | _ => l
  end.

(** [strings.TrimSpace]. *)
Definition TrimSpace (s : string) : string :=
  of_bytes (map fst (rev (drop_space (rev (drop_space (mark (bytes_of s))))))).

(** [strings.Fields]: the maximal runs of non-space runes. *)
Fixpoint fields_go (cur : list ascii) (l : list (ascii * bool)) : list string :=
  match l with
  | [] => if cur is [] then [] else [of_bytes (rev cur)]
  | (_, true) :: l' =>
      (if cur is [] then [] else [of_bytes (rev cur)]) ++ fields_go [] l'
  | (a, false) :: l' => fields_go (a :: cur) l'
  end.
Definition Fields (s : string) : list string := fields_go [] (mark (bytes_of s)).

Definition blank (s : string) : bool := bool_decide (TrimSpace s = "").

(** * Searching and splitting *)

Definition HasPrefix (s p : string) : bool := String.prefix p s.
Definition HasSuffix (s p : string) : bool :=
  (String.length p <=? String.length s)%nat &&
  (String.substring (String.length s - String.length p) (String.length p) s =? p)%string.
Definition TrimSuffix (s p : string) : string :=
  if HasSuffix s p then String.substring 0 (String.length s - String.length p) s else s.
Definition Contains (s sub : string) : bool :=
  match String.index 0 sub s with Some _ => true | None => false end.
Definition ContainsAny (s chars : string) : bool :=
  existsb (fun a => existsb (Ascii.eqb a) (bytes_of chars)) (bytes_of s).

(** [strings.Split(s, sep)] for a one-byte separator. *)
Fixpoint split_go (sep : ascii) (cur l : list ascii) : list string :=
  match l with
  | [] => [of_bytes (rev cur)]
  | a :: l' => if Ascii.eqb a sep then of_bytes (rev cur) :: split_go sep [] l'
               else split_go sep (a :: cur) l'
  end.
Definition Split (s : string) (sep : ascii) : list string := split_go sep [] (bytes_of s).

(** [s[strings.LastIndex(s, sep)+1:]] for a one-byte separator. *)
Fixpoint after_last_go (sep : ascii) (best l : list ascii) : list ascii :=
  match l with
  | [] => best
  | a :: l' => after_last_go sep (if Ascii.eqb a sep then l' else best) l'
  end.
Definition after_last (s : string) (sep : ascii) : string :=
  of_bytes (after_last_go sep (bytes_of s) (bytes_of s)).

(** * Letter case *)

Definition lower_ascii (a : ascii) : ascii :=
  if ((65 <=? byte a) && (byte a <=? 90))%N then ascii_of_N (byte a + 32) else a.

(** [strings.EqualFold(s, t)] for a [t] whose letters have no simple case
    folding outside ASCII (no 'k', no 's'). *)
Definition EqualFold_ascii (s t : string) : bool :=
  (of_bytes (map lower_ascii (bytes_of s)) =? of_bytes (map lower_ascii (bytes_of t)))%string.

(** [strings.ToLower], exact whenever the result is ASCII: the two non-ASCII
    runes whose lower case is ASCII are U+0130 (to "i") and U+212A (to "k"). *)
Fixpoint lower_go (l : list ascii) : list ascii :=
  match l with
  | [] => []
  | a :: l1 =>
      match l1 with
      | b :: l2 =>
          if ((byte a =? 0xC4) && (byte b =? 0xB0))%N then "i"%char :: lower_go l2 else
          match l2 with
          | c :: l3 =>
              if ((byte a =? 0xE2) && (byte b =? 0x84) && (byte c =? 0xAA))%N
              then "k"%char :: lower_go l3
              else lower_ascii a :: lower_go l1
          | [] => lower_ascii a :: lower_go l1
          end
      | [] => [lower_ascii a]
      end
  end.
Definition ToLower (s : string) : string := of_bytes (lower_go (bytes_of s)).

Definition upper_ascii (a : ascii) : ascii :=
  if ((97 <=? byte a) && (byte a <=? 122))%N then ascii_of_N (byte a - 32) else a.

(** [strings.ToUpper], exact whenever the result is ASCII: the two non-ASCII
    runes whose upper case is ASCII are U+0131 (to "I") and U+017F (to "S"). *)
Fixpoint upper_go (l : list ascii) : list ascii :=
  match l with
  | [] => []
  | a :: l1 =>
      match l1 with
      | b :: l2 =>
          if ((byte a =? 0xC4) && (byte b =? 0xB1))%N then "I"%char :: upper_go l2 else
          if ((byte a =? 0xC5) && (byte b =? 0xBF))%N then "S"%char :: upper_go l2 else
          upper_ascii a :: upper_go l1
      | [] => [upper_ascii a]
      end
  end.
Definition ToUpper (s : string) : string := of_bytes (upper_go (bytes_of s)).

(** * Numbers *)

Definition digit (a : ascii) : option Z :=
  if ((48 <=? byte a) && (byte a <=? 57))%N then Some (Z.of_N (byte a) - 48) else None.

Fixpoint digits_go (acc : Z) (l : list ascii) : option Z :=
  match l with
  | [] => Some acc
  | a :: l' => match digit a with
               | Some d => digits_go (acc * 10 + d) l'
               | None => None
               end
  end.

(** [strconv.ParseInt(s, 10, 64)] and [strconv.Atoi]: an optional sign, at
    least one decimal digit, and a value that fits 64 bits. *)
Definition ParseInt (s : string) : option Z :=
  let '(neg, ds) := match bytes_of s with
                    | a :: l => if Ascii.eqb a "-" then (true, l)
                                else if Ascii.eqb a "+" then (false, l)
                                else (false, a :: l)
                    | [] => (false, [])
                    end in
  match ds with
  | [] => None
  | _ => match digits_go 0 ds with
         | Some n => let v := if neg : bool then - n else n in
                     if (min_int64 <=? v) && (v <=? max_int64) then Some v else None
         | None => None
         end
  end.

(** [strconv.ParseBool]. *)
Definition ParseBool (s : string) : option bool :=
  if existsb (String.eqb s) ["1"; "t"; "T"; "TRUE"; "true"; "True"] then Some true
  else if existsb (String.eqb s) ["0"; "f"; "F"; "FALSE"; "false"; "False"] then Some false
  else None.

(** * Hexadecimal *)

Definition hexdigit (n : N) : ascii :=
  if (n <? 10)%N then ascii_of_N (48 + n) else ascii_of_N (87 + n).
Definition hex_byte (a : ascii) : list ascii :=
  [hexdigit (byte a / 16); hexdigit (byte a mod 16)].
(** [hex.EncodeToString]. *)
Definition HexEncode (s : string) : string := of_bytes (flat_map hex_byte (bytes_of s)).

(** * Base64, [base64.RawURLEncoding] *)

Definition b64_alphabet : list ascii :=
  bytes_of "ABCDEFGHIJKLMNOPQRSTUVWXYZabcdefghijklmnopqrstuvwxyz0123456789-_".
Definition b64_char (n : N) : ascii := nth (N.to_nat n) b64_alphabet "A"%char.

Fixpoint index_of (a : ascii) (l : list ascii) : option N :=
  match l with
  | [] => None
  | b :: l' => if Ascii.eqb a b then Some 0%N
               else match index_of a l' with Some n => Some (n + 1)%N | None => None end
  end.
Definition b64_value (a : ascii) : option N := index_of a b64_alphabet.

Fixpoint b64_encode_go (l : list N) : list ascii :=
  match l with
  | a :: b :: c :: l' =>
      b64_char (a / 4) :: b64_char ((a mod 4) * 16 + b / 16) ::
      b64_char ((b mod 16) * 4 + c / 64) :: b64_char (c mod 64) :: b64_encode_go l'
  | [a; b] => [b64_char (a / 4); b64_char ((a mod 4) * 16 + b / 16); b64_char ((b mod 16) * 4)]
  | [a] => [b64_char (a / 4); b64_char ((a mod 4) * 16)]
  | [] => []
  end%N.

(** Groups of four symbols; a final group of two or three symbols is allowed
    (no padding) and its unused low bits are dropped. *)
Fixpoint b64_decode_go (l : list N) : option (list N) :=
  match l with
  | w :: x :: y :: z :: l' =>
      match b64_decode_go l' with
      | Some r => Some (w * 4 + x / 16 :: (x mod 16) * 16 + y / 4 :: (y mod 4) * 64 + z :: r)
      | None => None
      end
  | [w; x; y] => Some [w * 4 + x / 16; (x mod 16) * 16 + y / 4]
  | [w; x] => Some [w * 4 + x / 16]
  | [_] => None
  | [] => Some []
  end%N.

Definition not_newline (a : ascii) : bool := negb ((byte a =? 10)%N || (byte a =? 13)%N).

Definition B64Encode (s : string) : string := of_bytes (b64_encode_go (map byte (bytes_of s))).
(** The decoder skips CR and LF and rejects every other foreign byte. *)
Definition B64Decode (s : string) : option string :=
  match mapM b64_value (List.filter not_newline (bytes_of s)) with
  | Some vs => match b64_decode_go vs with
               | Some r => Some (of_bytes (map ascii_of_N r))
               | None => None
               end
  | None => None
  end.

(** * Lemmas *)

(** ** Base64 *)

Lemma b64_value_char n : (n < 64)%N -> b64_value (b64_char n) = Some n.
Proof.
  intros H.
  assert (Hall : forallb (fun i => bool_decide (b64_value (b64_char (N.of_nat i)) = Some (N.of_nat i)))
    (List.seq 0 64) = true) by (vm_compute; reflexivity).
  rewrite forallb_forall in Hall. specialize (Hall (N.to_nat n)).
  rewrite N2Nat.id in Hall. eapply bool_decide_eq_true_1, Hall, in_seq. lia.
Qed.

Lemma b64_char_not_newline n : (n < 64)%N -> not_newline (b64_char n) = true.
Proof.
  intros H.
  assert (Hall : forallb (fun i => not_newline (b64_char (N.of_nat i))) (List.seq 0 64) = true)
    by (vm_compute; reflexivity).
  rewrite forallb_forall in Hall. specialize (Hall (N.to_nat n)).
  rewrite N2Nat.id in Hall. apply Hall, in_seq. lia.
Qed.

(** The sextets the encoder emits, before they are turned into symbols. *)
Fixpoint sextets (l : list N) : list N :=
  match l with
  | a :: b :: c :: l' =>
      a / 4 :: (a mod 4) * 16 + b / 16 :: (b mod 16) * 4 + c / 64 :: c mod 64 :: sextets l'
  | [a; b] => [a / 4; (a mod 4) * 16 + b / 16; (b mod 16) * 4]
  | [a] => [a / 4; (a mod 4) * 16]
  | [] => []
  end%N.

(** Induction in steps of three, the block size of the encoder. *)
Lemma list_ind3 {A} (P : list A -> Prop) :
  P [] -> (forall a, P [a]) -> (forall a b, P [a; b]) ->
  (forall a b c l, P l -> P (a :: b :: c :: l)) -> forall l, P l.
Proof.
  intros H0 H1 H2 H3. fix IH 1.
  intros [|a [|b [|c l]]]; [exact H0|apply H1|apply H2|apply H3, IH].
Qed.

Lemma b64_encode_sextets l : b64_encode_go l = map b64_char (sextets l).
Proof. induction l using list_ind3; cbn; congruence. Qed.

Lemma sextets_range l :
  Forall (fun b => b < 256)%N l -> Forall (fun x => x < 64)%N (sextets l).
Proof.
  induction l using list_ind3; cbn [sextets]; intros Hl;
    repeat match goal with H : Forall _ (_ :: _) |- _ => inversion_clear H end;
    repeat apply Forall_cons_2; try apply Forall_nil_2; auto; cbn beta in *; zify; Z.to_euclidean_division_equations; lia.
Qed.

Lemma b64_decode_sextets l :
  Forall (fun b => b < 256)%N l -> b64_decode_go (sextets l) = Some l.
Proof.
  induction l using list_ind3; cbn [sextets b64_decode_go]; intros Hl;
    repeat match goal with H : Forall _ (_ :: _) |- _ => inversion_clear H end;
    try rewrite IHl by done; repeat f_equal; cbn beta in *; zify; Z.to_euclidean_division_equations; lia.
Qed.

Lemma byte_lt a : (byte a < 256)%N.
Proof. apply N_ascii_bounded. Qed.

Lemma map_byte_ascii s : map ascii_of_N (map byte s) = s.
Proof.
  rewrite map_map. rewrite <- (map_id s) at 2. apply map_ext, ascii_N_embedding.
Qed.

Lemma map_byte_range s : Forall (fun b => b < 256)%N (map byte s).
Proof. apply Forall_forall. intros x (a & -> & _)%list_elem_of_fmap. apply byte_lt. Qed.

Lemma filter_not_newline l :
  Forall (fun x => x < 64)%N l -> List.filter not_newline (map b64_char l) = map b64_char l.
Proof.
  induction 1; cbn [map List.filter]; [done|].
  by rewrite b64_char_not_newline, IHForall by done.
Qed.

Lemma mapM_b64_value l :
  Forall (fun x => x < 64)%N l -> mapM b64_value (map b64_char l) = Some l.
Proof.
  induction 1 as [|x l Hx Hl IH]; [done|].
  cbn [map mapM]. rewrite b64_value_char by done. cbn. by rewrite IH.
Qed.

Lemma B64Decode_Encode s : B64Decode (B64Encode s) = Some s.
Proof.
  unfold B64Decode, B64Encode. rewrite String.list_ascii_of_string_of_list_ascii, b64_encode_sextets.
  pose proof (sextets_range _ (map_byte_range (bytes_of s))) as Hr.
  rewrite filter_not_newline, mapM_b64_value by done.
  rewrite b64_decode_sextets by apply map_byte_range.
  by rewrite map_byte_ascii, String.string_of_list_ascii_of_string.
Qed.

Lemma B64Encode_nonempty s : s <> ""%string -> B64Encode s <> ""%string.
Proof.
  intros Hs Heq. apply Hs. apply (inj Some). rewrite <- B64Decode_Encode, Heq. reflexivity.
Qed.

(** ** Trimming *)

Lemma drop_space_length l : (length (drop_space l) <= length l)%nat.
Proof. induction l as [|[? []] ? IH]; cbn; lia. Qed.

Lemma mark_cons a s1 :
  mark (a :: s1) =
    if space1 a then (a, true) :: mark s1 else
    match s1 with
    | [] => [(a, false)]
    | b :: s2 =>
        if space2 a b then (a, true) :: (b, true) :: mark s2 else
        match s2 with
        | [] => (a, false) :: mark s1
        | c :: s3 => if space3 a b c
                     then (a, true) :: (b, true) :: (c, true) :: mark s3
                     else (a, false) :: mark s1
        end
    end.
Proof. reflexivity. Qed.

Lemma mark_fst n l : (length l <= n)%nat -> map fst (mark l) = l.
Proof.
  revert l. induction n as [|n IH]; intros [|a l] Hl; try done; [cbn in Hl; lia|].
  rewrite mark_cons. cbn [length] in Hl.
  repeat case_match; subst; cbn [map fst length] in *; repeat f_equal; try done;
    apply IH; cbn [length] in *; lia.
Qed.

(** Concatenation is a monoid. *)
#[export] Instance append_assoc : Assoc (=) String.append.
Proof.
  intros s t u. induction s as [|c s IH]; [done|].
  change (String c (s +:+ t +:+ u) = String c ((s +:+ t) +:+ u)). by rewrite IH.
Qed.
#[export] Instance append_empty_r : RightId (=) "" String.append.
Proof. intros s. induction s as [|c s IH]; [done|]. change (String c (s +:+ "") = String c s). by rewrite IH. Qed.

Lemma of_bytes_length l : String.length (of_bytes l) = length l.
Proof. induction l; cbn; lia. Qed.

Lemma bytes_of_length s : length (bytes_of s) = String.length s.
Proof. induction s; cbn; lia. Qed.

(** Trimming never lengthens a string. *)
Lemma slen_TrimSpace s : slen (TrimSpace s) <= slen s.
Proof.
  unfold slen, TrimSpace. rewrite of_bytes_length, length_map, length_rev.
  pose proof (drop_space_length (rev (drop_space (mark (bytes_of s))))) as H1.
  pose proof (drop_space_length (mark (bytes_of s))) as H2.
  rewrite length_rev in H1.
  pose proof (f_equal length (mark_fst _ (bytes_of s) (le_n _))) as H3.
  rewrite length_map, bytes_of_length in H3. lia.
Qed.

Lemma slen_nonneg s : 0 <= slen s.
Proof. unfold slen. lia. Qed.

Lemma slen_zero s : slen s = 0 -> s = ""%string.
Proof. unfold slen. destruct s; cbn; [done|lia]. Qed.

Lemma blank_false s : blank s = false <-> TrimSpace s <> ""%string.
Proof. unfold blank. by rewrite bool_decide_eq_false. Qed.

Lemma blank_true s : blank s = true <-> TrimSpace s = ""%string.
Proof. unfold blank. by rewrite bool_decide_eq_true. Qed.

Lemma not_blank_nonempty s : blank s = false -> s <> ""%string.
Proof. intros H ->. by vm_compute in H. Qed.

(** ** Hexadecimal *)

Lemma HexEncode_length s : slen (HexEncode s) = 2 * slen s.
Proof.
  unfold slen, HexEncode. rewrite of_bytes_length.
  enough (Hl : length (flat_map hex_byte (bytes_of s)) = (2 * length (bytes_of s))%nat)
    by (rewrite Hl, bytes_of_length; lia).
  induction (bytes_of s); cbn in *; lia.
Qed.

(** ** String order *)

Lemma compare_spec_lt (s t : string) : String.ltb s t = true <-> String.compare s t = Lt.
Proof. unfold String.ltb. destruct (String.compare s t); naive_solver. Qed.

Lemma str_gt_le s t : str_gt s t = negb (String.leb s t).
Proof.
  unfold str_gt, String.ltb, String.leb. rewrite (String.compare_antisym s t).
  by destruct (String.compare t s).
Qed.

Lemma str_gt_irrefl s : str_gt s s = false.
Proof. rewrite str_gt_le. pose proof (reflexivity (R := String.le) s) as H.
  unfold String.le in H. by destruct (String.leb s s). Qed.

Lemma str_gt_true s t : str_gt s t = true <-> String.le t s /\ s <> t.
Proof.
  rewrite str_gt_le. unfold String.le. split.
  - intros H. apply negb_true_iff in H. split.
    + destruct (String.leb_total s t) as [?| ->]; [congruence|done].
    + intros ->. pose proof (reflexivity (R := String.le) t) as H'.
      unfold String.le in H'. by rewrite H in H'.
  - intros [H1 H2]. apply negb_true_iff. destruct (String.leb s t) eqn:E; [|done].
    exfalso. apply H2. apply String.leb_antisym; [done|]. by apply Is_true_true.
Qed.

Lemma str_gt_empty s : s <> ""%string -> str_gt s "" = true.
Proof. intros H. unfold str_gt, String.ltb. by destruct s. Qed.

#[export] Hint Resolve slen_nonneg : go.
