(* ===== verification/GoErrors.v ===== *)
(** Go [error] values as the service builds, wraps and inspects them, the
    client-safe application errors of [pkg/errors], and the gRPC status that is
    read back from an error ([status.FromError], [status.Code]). *)
From S2P Require Import Prelude GoStrings.

(** * Status codes ([google.golang.org/grpc/codes], an [uint32]) *)

Module codes.
Definition OK : Z := 0.
Definition Canceled : Z := 1.
Definition Unknown : Z := 2.
Definition InvalidArgument : Z := 3.
Definition DeadlineExceeded : Z := 4.
Definition NotFound : Z := 5.
Definition AlreadyExists : Z := 6.
Definition PermissionDenied : Z := 7.
Definition ResourceExhausted : Z := 8.
Definition Aborted : Z := 10.
Definition Internal : Z := 13.
Definition FailedPrecondition : Z := 9.
Definition OutOfRange : Z := 11.
Definition Unimplemented : Z := 12.
Definition DataLoss : Z := 15.
Definition Unavailable : Z := 14.
Definition Unauthenticated : Z := 16.
End codes.

Definition code_names : list string :=
  ["OK"; "Canceled"; "Unknown"; "InvalidArgument"; "DeadlineExceeded"; "NotFound";
   "AlreadyExists"; "PermissionDenied"; "ResourceExhausted"; "FailedPrecondition";
   "Aborted"; "OutOfRange"; "Unimplemented"; "Internal"; "Unavailable"; "DataLoss";
   "Unauthenticated"].

(** [Code.String]. *)
Definition code_String (c : Z) : string :=
  match (if 0 <=? c then code_names !! Z.to_nat c else None) with
  | Some s => s
  | None => "Code(" +:+ pretty c +:+ ")"
  end.

(** * Error values *)

Module storage.
(** The sentinel errors of [internal/storage/storage.go]. *)
Inductive sentinel :=
| ErrNotFound | ErrCapacity | ErrAlreadyExists | ErrInvalid | ErrUnavailable
| ErrCircuitOpen.
#[global] Instance sentinel_eq_dec : EqDecision sentinel.
Proof. solve_decision. Defined.
End storage.

Record FieldViolation := mkFieldViolation { Field : string; Description : string }.
#[export] Instance FieldViolation_eq_dec : EqDecision FieldViolation.
Proof. solve_decision. Defined.

Record AppError := mkAppError {
  Code : Z;
  Message : string;
  Reason : string;
  Metadata : gmap string string;
  FieldViolations : list FieldViolation
}.
#[export] Instance AppError_eq_dec : EqDecision AppError.
Proof. solve_decision. Defined.

(** The errors that occur: the sentinels, those of the standard library and of
    the PostgreSQL driver that the code tests for, application and gRPC status
    errors, [fmt.Errorf("msg: %w", err)], and any other error by its text. *)
Inductive error :=
| EStorage (s : storage.sentinel)
| ECanceled
| EDeadlineExceeded
| EEOF
| EUnexpectedEOF
| ENoRows
| EPg (code text : string)
| EServerStopped
| EServerClosed
| EApp (a : AppError)
| EStatus (code : Z) (msg : string)
| EWrap (msg : string) (e : error)
| EOther (text : string).
#[export] Instance error_eq_dec : EqDecision error.
Proof. solve_decision. Defined.

Abbreviation res A := (result error A).

Definition sentinel_text (s : storage.sentinel) : string :=
  match s with
  | storage.ErrNotFound => "user not found"
  | storage.ErrCapacity => "user capacity reached"
  | storage.ErrAlreadyExists => "user already exists"
  | storage.ErrInvalid => "invalid persisted user"
  | storage.ErrUnavailable => "storage unavailable"
  | storage.ErrCircuitOpen => "circuit breaker open"
  end.

(** [err.Error()]. *)
Fixpoint error_text (e : error) : string :=
  match e with
  | EStorage s => sentinel_text s
  | ECanceled => "context canceled"
  | EDeadlineExceeded => "context deadline exceeded"
  | EEOF => "EOF"
  | EUnexpectedEOF => "unexpected EOF"
  | ENoRows => "sql: no rows in result set"
  | EPg _ text => text
  | EServerStopped => "grpc: the server has been stopped"
  | EServerClosed => "http: Server closed"
  | EApp a => Message a
  | EStatus c m => "rpc error: code = " +:+ code_String c +:+ " desc = " +:+ m
  | EWrap m e' => m +:+ ": " +:+ error_text e'
  | EOther t => t
  end.

(** [errors.Is(err, target)] for a sentinel target. *)
Fixpoint Is (e target : error) : bool :=
  bool_decide (e = target) ||
  match e with EWrap _ e' => Is e' target | _ => false end.

(** [errors.As(err, &pgErr)]: the SQLSTATE of the first wrapped driver error. *)
Fixpoint as_pg (e : error) : option string :=
  match e with
  | EPg c _ => Some c
  | EWrap _ e' => as_pg e'
  | _ => None
  end.

(** [errors.As(err, &appErr)]. *)
Fixpoint as_app (e : error) : option AppError :=
  match e with
  | EApp a => Some a
  | EWrap _ e' => as_app e'
  | _ => None
  end.

(** [IsContextError] and the same disjunction elsewhere. *)
Definition IsContextError (e : error) : bool := Is e ECanceled || Is e EDeadlineExceeded.

(** * [pkg/errors] *)

Definition Domain : string := "userservice.example.v1".

Module appErrors.
Definition mk (c : Z) (msg : string) : AppError :=
  {| Code := c; Message := msg; Reason := ""; Metadata := ∅; FieldViolations := [] |}.

Definition WithReason (e : AppError) (reason : string) : AppError :=
  {| Code := Code e; Message := Message e; Reason := reason;
     Metadata := Metadata e; FieldViolations := FieldViolations e |}.
Definition WithMetadata (e : AppError) (key value : string) : AppError :=
  {| Code := Code e; Message := Message e; Reason := Reason e;
     Metadata := <[key := value]> (Metadata e); FieldViolations := FieldViolations e |}.
Definition WithField (e : AppError) (field description : string) : AppError :=
  {| Code := Code e; Message := Message e; Reason := Reason e; Metadata := Metadata e;
     FieldViolations := FieldViolations e ++ [mkFieldViolation field description] |}.

Definition ErrInvalidArgument := mk codes.InvalidArgument.
Definition ErrNotFound := mk codes.NotFound.
Definition ErrAlreadyExists := mk codes.AlreadyExists.
Definition ErrUnauthenticated := mk codes.Unauthenticated.
Definition ErrPermissionDenied := mk codes.PermissionDenied.
Definition ErrInternal := mk codes.Internal.
Definition ErrResourceExhausted := mk codes.ResourceExhausted.
Definition ErrUnavailable := mk codes.Unavailable.

(** Code and client-safe message of an error; [None] is the nil error. *)
Definition FromError (e : option error) : Z * string :=
  match e with
  | None => (codes.OK, "")
  | Some e => match as_app e with
              | Some a => (Code a, Message a)
              | None => (codes.Unknown, "internal server error")
              end
  end.

Definition reasonOrDefault (e : AppError) : string :=
  if bool_decide (Reason e <> "") then Reason e else code_String (Code e).
End appErrors.

(** ** The gRPC status of an application error *)

Inductive Detail :=
| ErrorInfo (reason domain : string) (metadata : gmap string string)
| BadRequest (violations : list FieldViolation).

Record Status := mkStatus {
  st_code : Z;
  st_message : string;
  st_details : list Detail
}.

(** [Status.WithDetails] refuses a status with code [OK] and a detail that does
    not marshal; marshalling is the protobuf library's. *)
Definition WithDetails (marshals : Detail -> bool) (st : Status) (ds : list Detail)
  : option Status :=
  if st_code st =? codes.OK then None
  else if forallb marshals ds
  then Some {| st_code := st_code st; st_message := st_message st;
               st_details := st_details st ++ ds |}
  else None.

Definition GRPCStatus (marshals : Detail -> bool) (e : AppError) : Status :=
  let st := {| st_code := Code e; st_message := Message e; st_details := [] |} in
  let details :=
    (if bool_decide (Reason e <> "") || bool_decide (0 < size (Metadata e))%nat
     then [ErrorInfo (appErrors.reasonOrDefault e) Domain (Metadata e)] else []) ++
    (if bool_decide (0 < length (FieldViolations e))%nat
     then [BadRequest (FieldViolations e)] else []) in
  if bool_decide (length details = 0%nat) then st
  else match WithDetails marshals st details with
       | Some withDetails => withDetails
       | None => st
       end.

(** [status.FromError]: the code and whether the error carries a status. *)
Fixpoint FromError_code (e : error) : Z * bool :=
  match e with
  | EStatus c _ => (c, true)
  | EApp a => (Code a, true)
  | EWrap _ e' => FromError_code e'
  | _ => (codes.Unknown, false)
  end.

(** [status.Code]. *)
Definition status_Code (e : option error) : Z :=
  match e with None => codes.OK | Some e => fst (FromError_code e) end.

(** * Lemmas *)

Lemma Is_refl e : Is e e = true.
Proof. destruct e; cbn; rewrite bool_decide_eq_true_2; done. Qed.

Lemma Is_wrap m e t : (forall m' e', t <> EWrap m' e') -> Is (EWrap m e) t = Is e t.
Proof.
  intros Ht. cbn. rewrite bool_decide_eq_false_2; [done|]. intros Heq. by eapply Ht.
Qed.

(** A status never loses its code or its message, whatever the details do. *)
Lemma GRPCStatus_code marshals e :
  st_code (GRPCStatus marshals e) = Code e /\ st_message (GRPCStatus marshals e) = Message e.
Proof. unfold GRPCStatus, WithDetails. cbn. by repeat case_match; simplify_eq/=. Qed.
