(* ===== verification/Storage.v ===== *)
(** The persistence contract: the stored [User] message, request contexts,
    the [Repository] interface of [internal/storage/storage.go] as a record of
    effectful operations, and the laws a repository promises to the service
    layer ([RepositoryLaws]), stated over the abstract view of its state: a
    finite map from user id to user. *)
From S2P Require Import Prelude GoStrings GoErrors.

(** * Data *)

(** [timestamppb.Timestamp]. *)
Record Timestamp := mkTimestamp { Seconds : Z; Nanos : Z }.
#[export] Instance Timestamp_eq_dec : EqDecision Timestamp.
Proof. solve_decision. Defined.

(** [timestamppb.New] of a clock reading in nanoseconds since the epoch. *)
Definition timestamp_of_ns (ns : Z) : Timestamp :=
  {| Seconds := ns / 10 ^ 9; Nanos := ns mod 10 ^ 9 |}.

(** [pb.User]; a nil timestamp is [None]. *)
Record User := mkUser {
  Id : string;
  Name : string;
  Email : string;
  Age : Z;
  CreatedAt : option Timestamp;
  UpdatedAt : option Timestamp
}.
#[export] Instance User_eq_dec : EqDecision User.
Proof. solve_decision. Defined.

(** * Contexts *)

(** A [context.Context] is asked for its error at successive moments; the
    model indexes them by the world's observation counter.  The error of a
    context is [context.Canceled] or [context.DeadlineExceeded]. *)
Inductive ctx_status := CtxCanceled | CtxDeadlineExceeded.
Definition ctx_error (e : ctx_status) : error :=
  match e with
  | CtxCanceled => ECanceled
  | CtxDeadlineExceeded => EDeadlineExceeded
  end.

Record Ctx := mkCtx { ctx_err_at : nat -> option ctx_status }.
Definition Background : Ctx := {| ctx_err_at := fun _ => None |}.
Definition CanceledCtx : Ctx := {| ctx_err_at := fun _ => Some CtxCanceled |}.

(** [ctx.Err()]. *)
Definition ctxErrM {S} (c : Ctx) : M S (option error) :=
  fun ws => (ctx_error <$> ctx_err_at c (w_tick (fst ws)), (tick (fst ws), snd ws)).

(** [contextError]: the nil context is refused. *)
Definition contextError {S} (ctx : option Ctx) : M S (option error) :=
  match ctx with
  | None => retM (Some (EStorage storage.ErrInvalid))
  | Some c => ctxErrM c
  end.

(** * The repository interface *)

(** [ReadModifyUpdateFn]: the callback mutates a private copy of the user (here
    it returns the mutated copy) or fails; it may read the clock. *)
Definition ReadModifyUpdateFn : Type := User -> World -> res User * World.

(** Run a callback inside an operation. *)
Definition worldM {S A} (f : World -> A * World) : M S A :=
  fun ws => let '(a, w') := f (fst ws) in (a, (w', snd ws)).

Record Repository (S : Type) := mkRepository {
  Create : option Ctx -> option User -> Z -> M S (option error);
  CreateWithIdempotency :
    option Ctx -> option User -> Z -> string -> M S (res (User * bool));
  Get : option Ctx -> string -> M S (res User);
  Update : option Ctx -> option User -> M S (option error);
  ReadModifyUpdate :
    option Ctx -> string -> option ReadModifyUpdateFn -> M S (res User);
  Delete : option Ctx -> string -> M S (option error);
  List : option Ctx -> Z -> string -> M S (res (list User * string));
  Ping : option Ctx -> M S (option error);
  Close : M S (option error)
}.
Arguments mkRepository {S}.
Arguments Create {S}.
Arguments CreateWithIdempotency {S}.
Arguments Get {S}.
Arguments Update {S}.
Arguments ReadModifyUpdate {S}.
Arguments Delete {S}.
Arguments List {S}.
Arguments Ping {S}.
Arguments Close {S}.

(** * Specifications of effectful code *)

(** [spec pre m post]: from a state satisfying [pre], [m] ends in a result and
    a state related to the initial one by [post]. *)
Definition spec {S A} (pre : S -> Prop) (m : M S A) (post : S -> A -> S -> Prop) : Prop :=
  forall w s, pre s -> post s (result_of m w s) (state_of m w s).

Lemma spec_inner {T S A} (pre : S -> Prop) (m : M S A) post :
  spec pre m post ->
  spec (fun ts : T * S => pre (snd ts)) (innerM m)
       (fun ts a ts' => post (snd ts) a (snd ts') /\ fst ts' = fst ts).
Proof.
  intros H w [t s] Hp. specialize (H w s Hp). unfold_monad.
  destruct (m (w, s)) as [a [w' s']]. done.
Qed.

Lemma spec_consequence {S A} (pre pre' : S -> Prop) (m : M S A) (post post' : S -> A -> S -> Prop) :
  spec pre m post -> (forall s, pre' s -> pre s) ->
  (forall s a s', pre' s -> post s a s' -> post' s a s') -> spec pre' m post'.
Proof. intros H H1 H2 w s Hs. apply H2; [done|]. by apply H, H1. Qed.

(** * Keyset pages *)

(** [is_page v limit after us next]: [us] are the users of the first [limit]
    ids strictly above [after], in increasing order of id, and [next] is the
    last of these ids when more follow, [""] otherwise. *)
Definition is_page (v : gmap string User) (limit : Z) (after : string)
    (us : list User) (next : string) : Prop :=
  exists ids,
    StronglySorted String.le ids /\ NoDup ids /\
    (forall id, id ∈ ids <-> is_Some (v !! id) /\ str_gt id after = true) /\
    mapM (fun id => v !! id) (take (Z.to_nat limit) ids) = Some us /\
    next = (if limit <? Z.of_nat (length ids)
            then default "" (last (take (Z.to_nat limit) ids)) else "").

(** * The contract *)

Section contract.
Context {S : Type} (view : S -> gmap string User).

(** An operation that may only leave the view alone. *)
Definition keeps (s s' : S) : Prop := view s' = view s.

Definition create_post (user : User) (maxUsers : Z) (s : S) (r : res (User * bool)) (s' : S)
  : Prop :=
  match r with
  | Ok (st, false) =>
      st = user /\ Id user <> "" /\ view s !! Id user = None /\
      Z.of_nat (size (view s)) < maxUsers /\ view s' = <[Id user := user]> (view s)
  | Ok (st, true) => (exists k, view s !! k = Some st) /\ keeps s s'
  | Err _ => keeps s s'
  end.

Definition get_post (id : string) (s : S) (r : res User) (s' : S) : Prop :=
  keeps s s' /\
  match r with
  | Ok u => view s !! id = Some u
  | Err e => e = EStorage storage.ErrNotFound -> view s !! id = None
  end.

(** A read-modify-write that reports success has stored the callback's result;
    a [lossy] repository may instead report the user it had, without storing
    anything. *)
Definition rmu_post (lossy : bool) (id : string) (mutate : ReadModifyUpdateFn)
    (s : S) (r : res User) (s' : S) : Prop :=
  match r with
  | Ok u' => (exists u w0 w1, view s !! id = Some u /\ mutate u w0 = (Ok u', w1) /\
                         view s' = <[id := u']> (view s)) \/
             (lossy = true /\ view s !! id = Some u' /\ keeps s s')
  | Err e => keeps s s'
  end.

Definition update_post (user : User) (s : S) (r : option error) (s' : S) : Prop :=
  match r with
  | None => is_Some (view s !! Id user) /\ view s' = <[Id user := user]> (view s)
  | Some e => keeps s s'
  end.

Definition delete_post (id : string) (s : S) (r : option error) (s' : S) : Prop :=
  match r with
  | None => is_Some (view s !! id) /\ view s' = delete id (view s)
  | Some e => keeps s s'
  end.

Definition list_post (limit : Z) (after : string)
    (s : S) (r : res (list User * string)) (s' : S) : Prop :=
  keeps s s' /\
  match r with Ok (us, next) => 0 < limit /\ is_page (view s) limit after us next
  | Err _ => True end.
End contract.

(** The callbacks the contract is stated for leave the id of the user alone. *)
Definition keeps_id (mutate : ReadModifyUpdateFn) : Prop :=
  forall u w u' w', mutate u w = (Ok u', w') -> Id u' = Id u.

(** What a repository promises to its client: an invariant of its state that
    every operation preserves, under which the operations act on the view as
    stated. *)
Class RepositoryLaws {S} (R : Repository S) (view : S -> gmap string User)
    (inv : S -> Prop) (lossy : bool) := {
  law_ids : forall s id u, inv s -> view s !! id = Some u -> Id u = id /\ id <> "";
  law_create : forall ctx user maxUsers key,
    spec inv (CreateWithIdempotency R ctx (Some user) maxUsers key)
      (fun s r s' => inv s' /\ create_post view user maxUsers s r s');
  law_get : forall ctx id,
    spec inv (Get R ctx id) (fun s r s' => inv s' /\ get_post view id s r s');
  law_rmu : forall ctx id mutate, keeps_id mutate ->
    spec inv (ReadModifyUpdate R ctx id (Some mutate))
      (fun s r s' => inv s' /\ rmu_post view lossy id mutate s r s');
  law_update : forall ctx user,
    spec inv (Update R ctx (Some user))
      (fun s r s' => inv s' /\ update_post view user s r s');
  law_ping : forall ctx, spec inv (Ping R ctx) (fun s _ s' => inv s' /\ keeps view s s');
  law_close : spec inv (Close R) (fun s _ s' => inv s' /\ keeps view s s');
  law_create_plain : forall ctx user maxUsers,
    spec inv (Create R ctx (Some user) maxUsers)
      (fun s r s' => inv s' /\ create_post view user maxUsers s
                       (match r with None => Ok (user, false) | Some e => Err e end) s');
  law_delete : forall ctx id,
    spec inv (Delete R ctx id) (fun s r s' => inv s' /\ delete_post view id s r s');
  law_list : forall ctx limit after,
    spec inv (List R ctx limit after)
      (fun s r s' => inv s' /\ list_post view limit after s r s')
}.

(** ** The contract without reliable answers *)

(** A repository whose store may have carried out an operation that it reports
    to have failed, that may repeat one, and that reads back a user as [norm]
    makes of it. What remains is which changes of the stored users an operation
    can make at all. *)
Section transitions.
Context (norm : User -> User).
Implicit Types (v : gmap string User).

Definition may_insert (user : User) (maxUsers : Z) v v' : Prop :=
  v' = v \/ (Id user <> "" /\ v !! Id user = None /\ Z.of_nat (size v) < maxUsers /\
             v' = <[Id user := norm user]> v).

Definition may_replace (user : User) v v' : Prop :=
  v' = v \/ (is_Some (v !! Id user) /\ v' = <[Id user := norm user]> v).

(** The callback applied once to the stored user. *)
Inductive mutation (id : string) (mutate : ReadModifyUpdateFn) v : gmap string User -> Prop :=
| mutation_of u w u' w' : v !! id = Some u -> mutate u w = (Ok u', w') ->
    mutation id mutate v (<[id := norm u']> v).

Definition may_delete (id : string) v v' : Prop := v' = v \/ v' = delete id v.
End transitions.

Class RepositorySafety {S} (R : Repository S) (view : S -> gmap string User)
    (inv : S -> Prop) (norm : User -> User) := {
  safe_norm : forall u, Id (norm u) = Id u /\ Name (norm u) = Name u /\
    Email (norm u) = Email u /\ Age (norm u) = Age u;
  safe_ids : forall s id u, inv s -> view s !! id = Some u -> Id u = id /\ id <> "";
  safe_create : forall ctx user maxUsers key,
    spec inv (CreateWithIdempotency R ctx (Some user) maxUsers key)
      (fun s _ s' => inv s' /\ may_insert norm user maxUsers (view s) (view s'));
  safe_create_plain : forall ctx user maxUsers,
    spec inv (Create R ctx (Some user) maxUsers)
      (fun s _ s' => inv s' /\ may_insert norm user maxUsers (view s) (view s'));
  safe_get : forall ctx id, spec inv (Get R ctx id) (fun s _ s' => inv s' /\ keeps view s s');
  safe_rmu : forall ctx id mutate, keeps_id mutate ->
    spec inv (ReadModifyUpdate R ctx id (Some mutate))
      (fun s _ s' => inv s' /\ rtc (mutation norm id mutate) (view s) (view s'));
  safe_update : forall ctx user,
    spec inv (Update R ctx (Some user))
      (fun s _ s' => inv s' /\ may_replace norm user (view s) (view s'));
  safe_delete : forall ctx id,
    spec inv (Delete R ctx id) (fun s _ s' => inv s' /\ may_delete id (view s) (view s'));
  safe_list : forall ctx limit after,
    spec inv (List R ctx limit after) (fun s _ s' => inv s' /\ keeps view s s');
  safe_ping : forall ctx, spec inv (Ping R ctx) (fun s _ s' => inv s' /\ keeps view s s');
  safe_close : spec inv (Close R) (fun s _ s' => inv s' /\ keeps view s s')
}.

(** * Lemmas *)

(** A context check leaves the state alone and yields no storage error other
    than [ErrInvalid]. *)
Definition ctx_like (e : error) : Prop :=
  e = ECanceled \/ e = EDeadlineExceeded \/ e = EStorage storage.ErrInvalid.

Lemma contextError_run {S} ctx w (s : S) :
  exists e w', contextError ctx (w, s) = (e, (w', s)) /\
    match e with Some e => ctx_like e | None => True end.
Proof.
  destruct ctx as [c|]; unfold contextError, ctxErrM, ctx_like; unfold_monad.
  2:{ eexists (Some _), w. split; [done|]. cbn. auto. }
  do 2 eexists. split; [done|]. destruct (ctx_err_at c _) as [[]|]; cbn; auto.
Qed.

Lemma contextError_Background {S} w (s : S) :
  contextError (Some Background) (w, s) = (None, (tick w, s)).
Proof. done. Qed.

(** ** The full contract is a safe one *)

Lemma contract_safety {S} (R : Repository S) view inv lossy :
  RepositoryLaws R view inv lossy -> RepositorySafety R view inv (fun u => u).
Proof.
  intros HL. constructor.
  - done.
  - intros s id u. apply law_ids.
  - intros ctx user max key. eapply spec_consequence; [apply law_create|done|]. cbn.
    intros s [[st []]|e] s' _ [Hi Hp]; (split; [done|]); [left; apply Hp| |by left].
    destruct Hp as (-> & Hne & Hf & Hsz & Hv). by right.
  - intros ctx user max. eapply spec_consequence; [apply law_create_plain|done|]. cbn.
    intros s [e|] s' _ [Hi Hp]; (split; [done|]); [by left|].
    destruct Hp as (_ & Hne & Hf & Hsz & Hv). by right.
  - intros ctx id. eapply spec_consequence; [apply law_get|done|]. cbn. intros s r s' _ (Hi & Hk & _). by split.
  - intros ctx id mutate Hm. eapply spec_consequence; [by apply law_rmu|done|]. cbn.
    intros s [u'|e] s' _ [Hi Hp]; (split; [done|]); [|by rewrite Hp].
    destruct Hp as [(u & w0 & w1 & Hu & Hmu & ->)|(_ & _ & ->)]; [|done]. apply rtc_once.
    exact (mutation_of (fun u => u) id mutate (view s) u w0 u' w1 Hu Hmu).
  - intros ctx user. eapply spec_consequence; [apply law_update|done|]. cbn.
    intros s [e|] s' _ [Hi Hp]; (split; [done|]); [by left|by right].
  - intros ctx id. eapply spec_consequence; [apply law_delete|done|]. cbn.
    intros s [e|] s' _ [Hi Hp]; (split; [done|]); [by left|right; apply Hp].
  - intros ctx limit after. eapply spec_consequence; [apply law_list|done|]. cbn.
    intros s r s' _ (Hi & Hk & _). by split.
  - apply law_ping.
  - apply law_close.
Qed.

(** ** Sorted id lists *)

Lemma merge_sort_elem (l : list string) x : x ∈ merge_sort String.le l <-> x ∈ l.
Proof. by rewrite (merge_sort_Permutation String.le l). Qed.

Lemma merge_sort_NoDup (l : list string) : NoDup l -> NoDup (merge_sort String.le l).
Proof. by rewrite (merge_sort_Permutation String.le l). Qed.

Lemma merge_sort_sorted (l : list string) : StronglySorted String.le (merge_sort String.le l).
Proof. apply (StronglySorted_merge_sort _). Qed.

(** Two strictly sorted lists with the same elements are equal. *)
Lemma sorted_ids_unique (l1 l2 : list string) :
  StronglySorted String.le l1 -> StronglySorted String.le l2 ->
  NoDup l1 -> NoDup l2 -> (forall x, x ∈ l1 <-> x ∈ l2) -> l1 = l2.
Proof.
  intros. apply (StronglySorted_unique String.le); [done..|]. by apply NoDup_Permutation.
Qed.

(** In a strictly sorted list, the ids above the last element of a prefix are
    the rest of the list. *)
Lemma sorted_after_take (l1 l2 : list string) x y :
  StronglySorted String.le (l1 ++ [x] ++ l2) -> NoDup (l1 ++ [x] ++ l2) ->
  (y ∈ l2 <-> y ∈ l1 ++ [x] ++ l2 /\ str_gt y x = true).
Proof.
  intros Hs Hnd. apply StronglySorted_app in Hs as (Hb & _ & Hs).
  apply NoDup_app in Hnd as (_ & Hd & Hnd).
  apply StronglySorted_cons in Hs as [Hx Hs]. apply NoDup_cons in Hnd as [Hnx Hnd].
  rewrite str_gt_true. split.
  - intros Hy. split; [set_solver|]. rewrite Forall_forall in Hx.
    split; [by apply Hx|]. by intros ->.
  - intros [Hy [Hle Hne]]. rewrite !elem_of_app, list_elem_of_singleton in Hy.
    destruct Hy as [Hy|[->|Hy]]; [|done|done]. exfalso. apply Hne.
    apply (anti_symm String.le); [|done]. apply Hb; [done|set_solver].
Qed.
