(* ===== verification/Memory.v ===== *)
(** [MemoryRepository] of [internal/storage/memory.go]: the process-local
    repository.  Each operation takes its lock for its whole body, so an
    operation is one atomic transition of the state. *)
From S2P Require Import Prelude GoStrings GoErrors Storage.

Module MemoryRepository.

(** * State *)

Record State := mkState {
  users : gmap string User;
  idem : gmap string string;   (* idempotency key -> user id *)
  closed : bool
}.

Definition NewMemoryRepository : State := {| users := ∅; idem := ∅; closed := false |}.

Definition set_users (r : State) (m : gmap string User) : State :=
  {| users := m; idem := idem r; closed := closed r |}.
Definition set_idem (r : State) (m : gmap string string) : State :=
  {| users := users r; idem := m; closed := closed r |}.

(** [len(r.users)] at type [int]. *)
Definition len_users (r : State) : Z := Z.of_nat (size (users r)).

(** * Operations *)

Definition Create (ctx : option Ctx) (user : option User) (maxUsers : Z)
  : M State (option error) :=
  err <-- contextError ctx ;;
  match err with
  | Some err => retM (Some err)
  | None =>
      match user with
      | None => retM (Some (EStorage storage.ErrInvalid))
      | Some user =>
          if bool_decide (Id user = "") then retM (Some (EStorage storage.ErrInvalid)) else
          r <-- getM ;;
          if closed r then retM (Some (EStorage storage.ErrUnavailable)) else
          if maxUsers <=? len_users r then retM (Some (EStorage storage.ErrCapacity)) else
          match users r !! Id user with
          | Some _ => retM (Some (EStorage storage.ErrAlreadyExists))
          | None =>
              putM (set_users r (<[Id user := user]> (users r))) ;;;
              retM None
          end
      end
  end.

(** The locked section that inserts a fresh user for an idempotency key. *)
Definition create_fresh (user : User) (maxUsers : Z) (idempotencyKey : string) (r : State)
  : M State (res (User * bool)) :=
  if maxUsers <=? len_users r then retM (Err (EStorage storage.ErrCapacity)) else
  match users r !! Id user with
  | Some _ => retM (Err (EStorage storage.ErrAlreadyExists))
  | None =>
      putM (set_idem (set_users r (<[Id user := user]> (users r)))
                     (<[idempotencyKey := Id user]> (idem r))) ;;;
      retM (Ok (user, false))
  end.

Definition CreateWithIdempotency (ctx : option Ctx) (user : option User) (maxUsers : Z)
    (idempotencyKey : string) : M State (res (User * bool)) :=
  err <-- contextError ctx ;;
  match err with
  | Some err => retM (Err err)
  | None =>
      if bool_decide (idempotencyKey = "") then
        err <-- Create ctx user maxUsers ;;
        match err, user with
        | Some err, _ => retM (Err err)
        | None, Some user => retM (Ok (user, false))
        | None, None => retM (Err (EStorage storage.ErrInvalid))
        end
      else
        match user with
        | None => retM (Err (EStorage storage.ErrInvalid))
        | Some user =>
            if bool_decide (Id user = "") then retM (Err (EStorage storage.ErrInvalid)) else
            r <-- getM ;;
            if closed r then retM (Err (EStorage storage.ErrUnavailable)) else
            match idem r !! idempotencyKey with
            | Some existingID =>
                match users r !! existingID with
                | Some existing => retM (Ok (existing, true))
                | None => create_fresh user maxUsers idempotencyKey r
                end
            | None => create_fresh user maxUsers idempotencyKey r
            end
        end
  end.

Definition Get (ctx : option Ctx) (id : string) : M State (res User) :=
  err <-- contextError ctx ;;
  match err with
  | Some err => retM (Err err)
  | None =>
      r <-- getM ;;
      if closed r then retM (Err (EStorage storage.ErrUnavailable)) else
      match users r !! id with
      | None => retM (Err (EStorage storage.ErrNotFound))
      | Some user => retM (Ok user)
      end
  end.

Definition Update (ctx : option Ctx) (user : option User) : M State (option error) :=
  err <-- contextError ctx ;;
  match err with
  | Some err => retM (Some err)
  | None =>
      match user with
      | None => retM (Some (EStorage storage.ErrInvalid))
      | Some user =>
          if bool_decide (Id user = "") then retM (Some (EStorage storage.ErrInvalid)) else
          r <-- getM ;;
          if closed r then retM (Some (EStorage storage.ErrUnavailable)) else
          match users r !! Id user with
          | None => retM (Some (EStorage storage.ErrNotFound))
          | Some _ =>
              putM (set_users r (<[Id user := user]> (users r))) ;;;
              retM None
          end
      end
  end.

Definition ReadModifyUpdate (ctx : option Ctx) (id : string)
    (mutate : option ReadModifyUpdateFn) : M State (res User) :=
  err <-- contextError ctx ;;
  match err with
  | Some err => retM (Err err)
  | None =>
      if bool_decide (TrimSpace id = "") then retM (Err (EStorage storage.ErrInvalid)) else
      match mutate with
      | None => retM (Err (EStorage storage.ErrInvalid))
      | Some mutate =>
          r <-- getM ;;
          if closed r then retM (Err (EStorage storage.ErrUnavailable)) else
          match users r !! id with
          | None => retM (Err (EStorage storage.ErrNotFound))
          | Some existing =>
              working <-- worldM (mutate existing) ;;
              match working with
              | Err err => retM (Err err)
              | Ok working =>
                  putM (set_users r (<[id := working]> (users r))) ;;;
                  retM (Ok working)
              end
          end
      end
  end.

Definition Delete (ctx : option Ctx) (id : string) : M State (option error) :=
  err <-- contextError ctx ;;
  match err with
  | Some err => retM (Some err)
  | None =>
      r <-- getM ;;
      if closed r then retM (Some (EStorage storage.ErrUnavailable)) else
      match users r !! id with
      | None => retM (Some (EStorage storage.ErrNotFound))
      | Some _ =>
          putM (set_users r (delete id (users r))) ;;;
          retM None
      end
  end.

(** The ids above [afterID], sorted. *)
Definition ids_after (m : gmap string User) (afterID : string) : list string :=
  merge_sort String.le (List.filter (fun id => str_gt id afterID) (map_to_list m).*1).

Definition List (ctx : option Ctx) (limit : Z) (afterID : string)
  : M State (res (list User * string)) :=
  err <-- contextError ctx ;;
  match err with
  | Some err => retM (Err err)
  | None =>
      if limit <=? 0 then retM (Err (EStorage storage.ErrInvalid)) else
      r <-- getM ;;
      if closed r then retM (Err (EStorage storage.ErrUnavailable)) else
      let ids := ids_after (users r) afterID in
      let end_ := if Z.of_nat (length ids) <? limit then Z.of_nat (length ids) else limit in
      let page := take (Z.to_nat end_) ids in
      let us := omap (fun id => users r !! id) page in
      let next := if limit <? Z.of_nat (length ids)
                  then default "" (page !! pred (length page)) else "" in
      retM (Ok (us, next))
  end.

Definition Ping (ctx : option Ctx) : M State (option error) := contextError ctx.

Definition Close : M State (option error) :=
  r <-- getM ;;
  putM {| users := users r; idem := idem r; closed := true |} ;;;
  retM None.

Definition repository : Repository State := {|
  Storage.Create := Create;
  Storage.CreateWithIdempotency := CreateWithIdempotency;
  Storage.Get := Get;
  Storage.Update := Update;
  Storage.ReadModifyUpdate := ReadModifyUpdate;
  Storage.Delete := Delete;
  Storage.List := List;
  Storage.Ping := Ping;
  Storage.Close := Close
|}.

(** * Steps: one operation of one caller *)

Inductive step (maxUsers : Z) : State -> State -> Prop :=
| step_create w ctx user s :
    step maxUsers s (state_of (Create ctx user maxUsers) w s)
| step_create_idem w ctx user key s :
    step maxUsers s (state_of (CreateWithIdempotency ctx user maxUsers key) w s)
| step_get w ctx id s : step maxUsers s (state_of (Get ctx id) w s)
| step_update w ctx user s : step maxUsers s (state_of (Update ctx user) w s)
| step_rmu w ctx id mutate s : keeps_id mutate ->
    step maxUsers s (state_of (ReadModifyUpdate ctx id (Some mutate)) w s)
| step_delete w ctx id s : step maxUsers s (state_of (Delete ctx id) w s)
| step_list w ctx limit after s : step maxUsers s (state_of (List ctx limit after) w s)
| step_ping w ctx s : step maxUsers s (state_of (Ping ctx) w s)
| step_close w s : step maxUsers s (state_of Close w s).

Definition reachable (maxUsers : Z) : State -> Prop :=
  rtc (step maxUsers) NewMemoryRepository.

(** * Invariant *)

(** Users are stored under their own, non-empty id. *)
Definition wf (s : State) : Prop :=
  forall id u, users s !! id = Some u -> Id u = id /\ id <> "".

(** The capacity bound. *)
Definition bounded (maxUsers : Z) (s : State) : Prop := len_users s <= Z.max 0 maxUsers.

(** * Lemmas *)

(** Run an operation of the repository: settle the context check, then split on
    the guards of the body. *)
Ltac exec_ctx :=
  repeat match goal with
  | |- context [contextError ?c (?w, ?s)] =>
      let E := fresh "Ectx" in let H := fresh "Hctx" in
      destruct (contextError_run c w s) as (? & ? & E & H); rewrite E; clear E;
      cbn [fst snd]
  end.

Ltac exec_op :=
  unfold_monad; exec_ctx;
  repeat (step_match; unfold_monad; exec_ctx; simplify_eq/=); bools; try done.

(** The three updates of the user map that the operations perform. *)
Lemma wf_insert s u :
  wf s -> Id u <> "" -> wf (set_users s (<[Id u := u]> (users s))).
Proof.
  intros H Hne id u'. cbn. rewrite lookup_insert. case_decide; [naive_solver|apply H].
Qed.

Lemma wf_insert_idem s u m :
  wf s -> Id u <> "" -> wf (set_idem (set_users s (<[Id u := u]> (users s))) m).
Proof. intros H Hne. apply (wf_insert _ _ H Hne). Qed.

Lemma wf_delete s id : wf s -> wf (set_users s (delete id (users s))).
Proof. intros H id' u. cbn. rewrite lookup_delete_Some. intros [_ ?]. by apply H. Qed.

#[local] Hint Resolve wf_insert wf_insert_idem wf_delete : go.

Lemma insert_size (m : gmap string User) id u :
  (size (<[id := u]> m) <= S (size m))%nat.
Proof. rewrite map_size_insert. destruct (m !! id); cbn; lia. Qed.

Lemma insert_size_same (m : gmap string User) id u u' :
  m !! id = Some u -> size (<[id := u']> m) = size m.
Proof. intros H. rewrite map_size_insert. by rewrite H. Qed.

(** ** The laws, operation by operation *)

Lemma create_fresh_spec user maxUsers key :
  Id user <> "" -> forall r, wf r ->
  spec (fun s => s = r) (create_fresh user maxUsers key r)
    (fun s r s' => wf s' /\ create_post users user maxUsers s r s').
Proof.
  intros Hne r Hwf w s ->. unfold create_fresh, create_post, keeps. exec_op;
    eauto 10 with go.
Qed.

Lemma law_create ctx user maxUsers key :
  spec wf (CreateWithIdempotency ctx (Some user) maxUsers key)
    (fun s r s' => wf s' /\ create_post users user maxUsers s r s').
Proof.
  intros w s Hwf.
  unfold CreateWithIdempotency, Create.
  unfold_monad. exec_ctx. step_match; [done|].
  case_bool_decide; [unfold create_post, keeps; exec_op; eauto with go|].
  { split; [by apply wf_insert|]. unfold len_users in *. done. }
  case_bool_decide; [done|]. unfold_monad.
  destruct (closed s); [done|].
  pose proof (create_fresh_spec user maxUsers key ltac:(done) s Hwf) as Hf.
  repeat case_match; unfold_monad; simplify_eq/=; try apply (Hf _ _ eq_refl).
  all: split; [done|]; cbn; unfold keeps; eauto.
Qed.

Lemma law_get ctx id :
  spec wf (Get ctx id) (fun s r s' => wf s' /\ get_post users id s r s').
Proof. intros w s Hwf. unfold Get, get_post, keeps. exec_op; split_and!; try done.
  intros ->. by destruct Hctx as [|[]].
Qed.

Lemma law_rmu ctx id mutate :
  keeps_id mutate ->
  spec wf (ReadModifyUpdate ctx id (Some mutate))
    (fun s r s' => wf s' /\ rmu_post users false id mutate s r s').
Proof.
  intros Hk w s Hwf. unfold ReadModifyUpdate, rmu_post, keeps, worldM. exec_op; try done.
  match goal with H : mutate _ _ = _ |- _ => pose proof H as Hm; apply Hk in H as Heq end.
  match goal with H : users s !! id = Some _ |- _ => destruct (Hwf _ _ H) as [Hid Hne] end.
  split; [|by left; eauto 10]. rewrite <- Hid, <- Heq. apply wf_insert; [done|congruence].
Qed.

Lemma law_delete ctx id :
  spec wf (Delete ctx id) (fun s r s' => wf s' /\ delete_post users id s r s').
Proof.
  intros w s Hwf. unfold Delete, delete_post, keeps. exec_op; eauto with go.
Qed.

Lemma elem_of_ids_after m after id :
  id ∈ ids_after m after <-> is_Some (m !! id) /\ str_gt id after = true.
Proof.
  unfold ids_after. rewrite merge_sort_elem, list_elem_of_In, filter_In, <- list_elem_of_In.
  rewrite list_elem_of_fmap. split.
  - intros [([? u] & -> & Hin%elem_of_map_to_list) ?]. by eauto.
  - intros [[u Hu] ?]. split; [|done]. exists (id, u). by rewrite elem_of_map_to_list.
Qed.

Lemma NoDup_ids_after m after : NoDup (ids_after m after).
Proof.
  apply merge_sort_NoDup. apply NoDup_ListNoDup, List.NoDup_filter, NoDup_ListNoDup.
  apply NoDup_fst_map_to_list.
Qed.

Lemma mapM_lookup_omap (m : gmap string User) ids :
  Forall (fun id => is_Some (m !! id)) ids ->
  mapM (fun id => m !! id) ids = Some (omap (fun id => m !! id) ids).
Proof. induction 1 as [|id ids [u Hu] _ IH]; cbn; [done|]. by rewrite Hu, IH. Qed.

Lemma law_list ctx limit after :
  spec wf (List ctx limit after) (fun s r s' => wf s' /\ list_post users limit after s r s').
Proof.
  intros w s Hwf. unfold List, list_post, keeps. unfold_monad. exec_ctx.
  repeat (case_match; unfold_monad; [done|]). bools. do 2 (split; [done|]). split; [lia|].
  set (ids := ids_after (users s) after).
  replace (take _ ids) with (take (Z.to_nat limit) ids).
  2:{ destruct (Z.ltb_spec (Z.of_nat (length ids)) limit); [|done].
      rewrite !take_ge by lia. done. }
  exists ids. split_and!; [apply merge_sort_sorted|apply NoDup_ids_after
    |apply elem_of_ids_after| |by rewrite last_lookup].
  apply mapM_lookup_omap, Forall_take, Forall_forall. intros id Hid.
  by apply elem_of_ids_after in Hid as [? _].
Qed.

Lemma law_update ctx user :
  spec wf (Update ctx (Some user)) (fun s r s' => wf s' /\ update_post users user s r s').
Proof. intros w s Hwf. unfold Update, update_post, keeps. exec_op; eauto with go. Qed.

Lemma law_create_plain ctx user maxUsers :
  spec wf (Create ctx (Some user) maxUsers)
    (fun s r s' => wf s' /\ create_post users user maxUsers s
                     (match r with None => Ok (user, false) | Some e => Err e end) s').
Proof.
  intros w s Hwf. unfold Create, create_post, keeps. exec_op.
  split; [auto with go|]. unfold len_users in *. done.
Qed.

#[global] Instance memory_laws : RepositoryLaws repository users wf false.
Proof.
  constructor; [by intros ? ? ? H; apply H|exact law_create|exact law_get|exact law_rmu
    |exact law_update| | |exact law_create_plain|exact law_delete|exact law_list].
  - intros ctx w s Hwf. cbn. unfold Ping, keeps. exec_op.
  - by intros w s Hwf.
Qed.

(** ** Reachable states *)

Lemma wf_step maxUsers s s' : wf s -> step maxUsers s s' -> wf s'.
Proof.
  intros Hwf Hs. destruct Hs; try by first [apply law_get|apply law_rmu|apply law_delete|apply law_list].
  - unfold Create. exec_op; auto with go.
  - destruct user as [user|]; [by apply law_create|].
    unfold CreateWithIdempotency, Create. exec_op.
  - unfold Update. exec_op; auto with go.
  - unfold Ping. exec_op.
  - done.
Qed.

Lemma bounded_insert maxUsers s id u :
  len_users s < maxUsers -> bounded maxUsers (set_users s (<[id := u]> (users s))).
Proof. unfold bounded, len_users. cbn. pose proof (insert_size (users s) id u). lia. Qed.

Lemma bounded_replace maxUsers s id u u' :
  bounded maxUsers s -> users s !! id = Some u ->
  bounded maxUsers (set_users s (<[id := u']> (users s))).
Proof. unfold bounded, len_users. intros H Hu. cbn. by erewrite insert_size_same. Qed.

Lemma bounded_step maxUsers s s' : bounded maxUsers s -> step maxUsers s s' -> bounded maxUsers s'.
Proof.
  intros Hb Hs. destruct Hs.
  - unfold Create. exec_op; auto using bounded_insert.
  - unfold CreateWithIdempotency, Create, create_fresh. exec_op;
      auto; by apply bounded_insert.
  - unfold Get. exec_op.
  - unfold Update. exec_op; eauto using bounded_replace.
  - unfold ReadModifyUpdate, worldM. exec_op; eauto using bounded_replace.
  - unfold Delete. exec_op. unfold bounded, len_users in *. cbn.
    rewrite map_size_delete. destruct (users s !! id); cbn; lia.
  - unfold List. exec_op.
  - unfold Ping. exec_op.
  - done.
Qed.

Lemma reachable_ind_inv (P : State -> Prop) maxUsers :
  P NewMemoryRepository -> (forall s s', P s -> step maxUsers s s' -> P s') ->
  forall s, reachable maxUsers s -> P s.
Proof.
  intros H0 Hstep s H. unfold reachable in H. revert H0.
  generalize NewMemoryRepository s H. clear s H.
  intros s0 s H. induction H; eauto.
Qed.

(** ** Idempotency keys *)

(** While the user a key was recorded for stays stored, no step rebinds the
    key. *)
Definition bound (key id : string) (s : State) : Prop :=
  idem s !! key = Some id /\ is_Some (users s !! id).

Lemma bound_step maxUsers key id s s' :
  key <> "" -> bound key id s -> step maxUsers s s' -> is_Some (users s' !! id) -> bound key id s'.
Proof.
  intros Hk [Hb Hu] Hs Hu'. split; [|done]. clear Hu'. destruct Hs; try (done || (revert Hb;
    unfold Create, Get, Update, ReadModifyUpdate, Delete, List, Ping, worldM; exec_op; done)).
  unfold CreateWithIdempotency, Create, create_fresh.
  destruct Hu as [u Hu]. exec_op.
  all: rewrite lookup_insert_ne; [done|intros ->; congruence].
Qed.

(** The steps of a run during which the user [id] is never missing. *)
Definition step_keeping (maxUsers : Z) (id : string) (s s' : State) : Prop :=
  step maxUsers s s' /\ is_Some (users s' !! id).

Lemma bound_run maxUsers key id s s' :
  key <> "" -> bound key id s -> rtc (step_keeping maxUsers id) s s' -> bound key id s'.
Proof.
  intros Hk Hb H. induction H as [|s s' s'' [Hs Hu] _ IH]; eauto using bound_step.
Qed.

Lemma create_binds ctx user maxUsers key w s u w' s' :
  key <> "" -> CreateWithIdempotency ctx (Some user) maxUsers key (w, s) = (Ok (u, false), (w', s')) ->
  u = user /\ users s !! Id user = None /\ bound key (Id user) s'.
Proof.
  intros Hk. unfold CreateWithIdempotency, create_fresh, bound. exec_op.
  all: intros; simplify_eq/=; rewrite !lookup_insert_eq; eauto.
Qed.

Lemma create_ok_bound ctx user maxUsers key w s u b w' s' :
  key <> "" -> CreateWithIdempotency ctx (Some user) maxUsers key (w, s) = (Ok (u, b), (w', s')) ->
  exists id, bound key id s' /\ users s' !! id = Some u.
Proof.
  intros Hk. unfold CreateWithIdempotency, create_fresh, bound. exec_op.
  all: intros; simplify_eq/=; rewrite ?lookup_insert_eq; eauto.
  all: eexists; rewrite !lookup_insert_eq; eauto.
Qed.

Lemma replay_bound user maxUsers key id w s :
  key <> "" -> closed s = false -> Id user <> "" -> bound key id s ->
  exists u, users s !! id = Some u /\
    CreateWithIdempotency (Some Background) (Some user) maxUsers key (w, s)
      = (Ok (u, true), (tick w, s)).
Proof.
  intros Hk Hc Hid [Hb [u Hu]]. exists u. split; [done|].
  unfold CreateWithIdempotency. unfold_monad. rewrite contextError_Background.
  rewrite !bool_decide_eq_false_2 by done. unfold_monad. by rewrite Hc, Hb, Hu.
Qed.

(** * Properties *)

(** C10: In every state that any sequence of repository operations can reach
    from the empty repository, users are stored under their own non-empty id
    and their number does not exceed the capacity the operations were called
    with. *)
Theorem memory_reachable_inv maxUsers s :
  reachable maxUsers s -> wf s /\ len_users s <= Z.max 0 maxUsers.
Proof.
  revert s. apply reachable_ind_inv.
  - split; [done|]. unfold len_users. cbn [users NewMemoryRepository]. rewrite map_size_empty. lia.
  - intros s s' [Hwf Hb] Hs. split; [by eapply wf_step|by eapply bounded_step].
Qed.

Definition alice : User := mkUser "user-a" "Alice" "a@b" 30 (Some (mkTimestamp 1 0)) (Some (mkTimestamp 1 0)).
Definition bob : User := mkUser "user-b" "Bob" "b@c" 31 (Some (mkTimestamp 2 0)) (Some (mkTimestamp 2 0)).
Definition world0 : World :=
  {| w_now := fun n => Z.of_nat n; w_rand := fun _ => Some "0123456789abcdef"; w_tick := 0 |}.
Definition state_a : State :=
  state_of (CreateWithIdempotency (Some Background) (Some alice) 1 "key") world0 NewMemoryRepository.

Lemma state_a_reachable : reachable 1 state_a.
Proof. apply rtc_once, step_create_idem. Qed.

Lemma memory_reachable_inv_witness :
  users state_a !! "user-a" = Some alice /\ wf state_a /\ len_users state_a <= Z.max 0 1.
Proof.
  split; [vm_compute; reflexivity|]. apply (memory_reachable_inv 1), state_a_reachable.
Defined.

(** C2: The memory repository implements the repository contract: under its
    invariant every operation acts on the map of users as the contract says
    (insertion on a fresh id below capacity, replay of a stored user, reads
    that change nothing, atomic read-modify-update of one entry, removal,
    ordered keyset pages), and every error leaves the users as they were. *)
Theorem memory_refines_contract : RepositoryLaws repository users wf false.
Proof. exact _. Qed.

(** At most one user per idempotency key: after a create with key [key]
    stored a user, and after any further operations during which that user is
    not removed, a retry with the same key and any payload answers with the
    stored user, marked as a replay, and changes nothing, even at capacity. *)
Theorem create_with_key_replays maxUsers max' ctx user retry key w s w1 s1 s2 w2 :
  key <> "" -> Id retry <> "" ->
  CreateWithIdempotency ctx (Some user) maxUsers key (w, s) = (Ok (user, false), (w1, s1)) ->
  rtc (step_keeping maxUsers (Id user)) s1 s2 -> closed s2 = false ->
  exists u, users s2 !! Id user = Some u /\
    CreateWithIdempotency (Some Background) (Some retry) max' key (w2, s2)
      = (Ok (u, true), (tick w2, s2)).
Proof.
  intros Hk Hr (_ & _ & Hb)%create_binds Hrun Hc; [|done].
  apply replay_bound; eauto using bound_run.
Qed.

Lemma create_with_key_replays_witness :
  exists u, users state_a !! "user-a" = Some u /\
    CreateWithIdempotency (Some Background) (Some bob) 1 "key" (world0, state_a)
      = (Ok (u, true), (tick world0, state_a)).
Proof.
  apply (create_with_key_replays 1 1 (Some Background) alice bob "key" world0 NewMemoryRepository
           (tick world0) state_a state_a world0); [done|done| |apply rtc_refl|done].
  vm_compute. reflexivity.
Defined.

(** [Create] with a live context on an open repository succeeds exactly
    when there is room and the id is free, and otherwise reports the capacity
    first and the conflict second, without changing the state. *)
Theorem create_decides user maxUsers w s :
  Id user <> "" -> closed s = false ->
  runM (Create (Some Background) (Some user) maxUsers) w s =
    if maxUsers <=? len_users s then (Some (EStorage storage.ErrCapacity), (tick w, s))
    else match users s !! Id user with
         | Some _ => (Some (EStorage storage.ErrAlreadyExists), (tick w, s))
         | None => (None, (tick w, set_users s (<[Id user := user]> (users s))))
         end.
Proof.
  intros Hid Hc. unfold Create. unfold_monad. rewrite contextError_Background.
  rewrite bool_decide_eq_false_2 by done. unfold_monad. rewrite Hc.
  by repeat case_match.
Qed.

Lemma create_decides_witness :
  runM (Create (Some Background) (Some bob) 1) world0 state_a
    = (Some (EStorage storage.ErrCapacity), (tick world0, state_a)).
Proof. rewrite (create_decides bob 1 world0 state_a); [vm_compute; reflexivity|done|done]. Defined.

(** After [Close] every operation with a live context and well-formed
    arguments is refused with [ErrUnavailable] and changes nothing, and no
    operation reopens the repository; [Ping] alone still answers that the
    repository is healthy. *)
Theorem closed_refuses s user maxUsers key id mutate limit after w :
  closed s = true -> Id user <> "" -> TrimSpace id <> "" -> 0 < limit ->
  let ctx := Some Background in
  runM (Create ctx (Some user) maxUsers) w s = (Some (EStorage storage.ErrUnavailable), (tick w, s)) /\
  (fst (runM (CreateWithIdempotency ctx (Some user) maxUsers key) w s)
     = Err (EStorage storage.ErrUnavailable)) /\
  runM (Get ctx id) w s = (Err (EStorage storage.ErrUnavailable), (tick w, s)) /\
  runM (Update ctx (Some user)) w s = (Some (EStorage storage.ErrUnavailable), (tick w, s)) /\
  runM (ReadModifyUpdate ctx id (Some mutate)) w s = (Err (EStorage storage.ErrUnavailable), (tick w, s)) /\
  runM (Delete ctx id) w s = (Some (EStorage storage.ErrUnavailable), (tick w, s)) /\
  runM (List ctx limit after) w s = (Err (EStorage storage.ErrUnavailable), (tick w, s)) /\
  runM (Ping ctx) w s = (None, (tick w, s)) /\
  (forall m s', step m s s' -> s' = s).
Proof.
  intros Hc Hu Hi Hl ctx. subst ctx.
  assert (Hl' : (limit <=? 0) = false) by lia.
  split_and!; try (unfold CreateWithIdempotency, Create, Get, Update, ReadModifyUpdate,
    Delete, List, Ping; repeat (unfold_monad; rewrite ?contextError_Background, ?Hc, ?Hl';
      try done; try case_bool_decide; try done)).
  - intros m s' Hs. destruct Hs as [| | | | | | | |w' [us im cl]]; try (unfold CreateWithIdempotency,
      create_fresh, Create, Get, Update, ReadModifyUpdate, worldM, Delete, List, Ping;
      exec_op; congruence).
    cbn in *. by subst cl.
Qed.

Definition state_closed : State := state_of Close world0 state_a.

Lemma closed_refuses_witness :
  runM (Get (Some Background) "user-a") world0 state_closed
    = (Err (EStorage storage.ErrUnavailable), (tick world0, state_closed)) /\
  runM (Ping (Some Background)) world0 state_closed = (None, (tick world0, state_closed)).
Proof.
  pose proof (closed_refuses state_closed alice 1 "k" "user-a" (fun u w => (Ok u, w)) 1 ""
    world0 eq_refl ltac:(done) ltac:(vm_compute; discriminate) eq_refl) as H.
  cbn zeta in H. split; apply H.
Defined.

(** One client creating a user with a fresh key and deleting it again. *)
Definition churn_key (n : nat) : string := "key-" +:+ pretty n.
Definition churn (n : nat) (s : State) : State :=
  state_of (Delete (Some Background) (Id alice)) world0
    (state_of (CreateWithIdempotency (Some Background) (Some alice) 1 (churn_key n)) world0 s).

Lemma create_fresh_run user maxUsers key w s :
  key <> "" -> Id user <> "" -> closed s = false -> idem s !! key = None ->
  len_users s < maxUsers -> users s !! Id user = None ->
  CreateWithIdempotency (Some Background) (Some user) maxUsers key (w, s) =
    (Ok (user, false), (tick w, set_idem (set_users s (<[Id user := user]> (users s)))
                                         (<[key := Id user]> (idem s)))).
Proof.
  intros Hk Hi Hc Hf Hl Hu. unfold CreateWithIdempotency, create_fresh. unfold_monad.
  rewrite contextError_Background, !bool_decide_eq_false_2 by done. unfold_monad.
  rewrite Hc, Hf. rewrite (proj2 (Z.leb_gt _ _) Hl). by rewrite Hu.
Qed.

Lemma delete_run id u w s :
  closed s = false -> users s !! id = Some u ->
  Delete (Some Background) id (w, s) = (None, (tick w, set_users s (delete id (users s)))).
Proof.
  intros Hc Hu. unfold Delete. unfold_monad. rewrite contextError_Background. unfold_monad.
  by rewrite Hc, Hu.
Qed.

Lemma churn_run n s :
  users s = ∅ -> closed s = false -> idem s !! churn_key n = None ->
  churn n s = set_idem s (<[churn_key n := Id alice]> (idem s)).
Proof.
  intros Hu Hc Hf. unfold churn, state_of.
  rewrite create_fresh_run; try done; [|by unfold len_users; rewrite Hu|by rewrite Hu].
  cbn [snd]. erewrite delete_run; [|done|apply lookup_insert_eq].
  destruct s as [us im cl]; cbn in *. unfold set_users, set_idem. cbn. subst.
  by rewrite delete_insert_id by apply lookup_empty.
Qed.

Lemma churn_reachable n s : reachable 1 s -> reachable 1 (churn n s).
Proof.
  intros H. eapply rtc_r; [eapply rtc_r; [exact H|apply step_create_idem]|apply step_delete].
Qed.

(** The idempotency table is not bounded by the user capacity: for every
    [n] a repository of capacity one can reach a state that stores no user at
    all and holds [n] idempotency keys. *)
Theorem idempotency_keys_unbounded n :
  exists s, reachable 1 s /\ users s = ∅ /\ size (idem s) = n.
Proof.
  enough (H : exists s, reachable 1 s /\ users s = ∅ /\ closed s = false /\ size (idem s) = n /\
    forall i, (n <= i)%nat -> idem s !! churn_key i = None) by naive_solver.
  induction n as [|n (s & Hr & Hu & Hc & Hn & Hf)].
  { exists NewMemoryRepository. split_and!; try done; apply rtc_refl. }
  exists (churn n s). pose proof (Hf n (le_n _)) as Hfn.
  split; [by apply churn_reachable|]. rewrite churn_run by done. cbn.
  split_and!; try done.
  - by rewrite map_size_insert_None, Hn.
  - intros i Hi. rewrite lookup_insert_ne; [apply Hf; lia|]. unfold churn_key.
    intros ?%(inj _)%(inj _). lia.
Qed.

End MemoryRepository.
