(* ===== verification/CircuitBreaker.v ===== *)
(** [CircuitBreakerRepository] of [internal/storage/circuitbreaker.go]: a
    decorator that rejects calls while the wrapped repository is failing.

    [beforeCall] and [afterCall] each run under the breaker's mutex, so they are
    the atomic steps; the wrapped call runs between them without the mutex.
    The sequential decorator ([wrap]) composes them around the wrapped
    operation; [run] interleaves the steps of any number of concurrent callers. *)
From S2P Require Import Prelude GoStrings GoErrors Storage.

Module CircuitBreakerRepository.

(** * Configuration *)

(** [CircuitBreakerState], an [int32]. *)
Definition CircuitBreakerClosed : Z := 0.
Definition CircuitBreakerOpen : Z := 1.
Definition CircuitBreakerHalfOpen : Z := 2.

Definition state_String (s : Z) : string :=
  if s =? CircuitBreakerClosed then "closed"
  else if s =? CircuitBreakerOpen then "open"
  else if s =? CircuitBreakerHalfOpen then "half-open"
  else "unknown".

Record Config := mkConfig {
  Enabled : bool;
  FailureThreshold : Z;
  SuccessThreshold : Z;
  OpenTimeout : Z;           (* nanoseconds *)
  MaxHalfOpenRequests : Z
}.

Definition DefaultCircuitBreakerConfig : Config := {|
  Enabled := false;
  FailureThreshold := 5;
  SuccessThreshold := 2;
  OpenTimeout := 30 * 10 ^ 9;
  MaxHalfOpenRequests := 2
|}.

(** * State *)

Record State := mkState {
  cfg : Config;
  state : Z;
  failureCount : Z;
  successCount : Z;
  halfOpenCount : Z;
  lastFailureAt : Z;
  openSince : Z
}.

Definition or_default (v d : Z) : Z := if v <=? 0 then d else v.

Definition NewCircuitBreakerRepository (c : Config) : State :=
  let defaults := DefaultCircuitBreakerConfig in
  {| cfg := {| Enabled := Enabled c;
               FailureThreshold := or_default (FailureThreshold c) (FailureThreshold defaults);
               SuccessThreshold := or_default (SuccessThreshold c) (SuccessThreshold defaults);
               OpenTimeout := or_default (OpenTimeout c) (OpenTimeout defaults);
               MaxHalfOpenRequests :=
                 or_default (MaxHalfOpenRequests c) (MaxHalfOpenRequests defaults) |};
     state := CircuitBreakerClosed;
     failureCount := 0; successCount := 0; halfOpenCount := 0;
     lastFailureAt := 0; openSince := 0 |}.

Definition set_state (v : Z) (cb : State) : State :=
  {| cfg := cfg cb; state := v; failureCount := failureCount cb;
     successCount := successCount cb; halfOpenCount := halfOpenCount cb;
     lastFailureAt := lastFailureAt cb; openSince := openSince cb |}.
Definition set_failureCount (v : Z) (cb : State) : State :=
  {| cfg := cfg cb; state := state cb; failureCount := v;
     successCount := successCount cb; halfOpenCount := halfOpenCount cb;
     lastFailureAt := lastFailureAt cb; openSince := openSince cb |}.
Definition set_successCount (v : Z) (cb : State) : State :=
  {| cfg := cfg cb; state := state cb; failureCount := failureCount cb;
     successCount := v; halfOpenCount := halfOpenCount cb;
     lastFailureAt := lastFailureAt cb; openSince := openSince cb |}.
Definition set_halfOpenCount (v : Z) (cb : State) : State :=
  {| cfg := cfg cb; state := state cb; failureCount := failureCount cb;
     successCount := successCount cb; halfOpenCount := v;
     lastFailureAt := lastFailureAt cb; openSince := openSince cb |}.
Definition set_lastFailureAt (v : Z) (cb : State) : State :=
  {| cfg := cfg cb; state := state cb; failureCount := failureCount cb;
     successCount := successCount cb; halfOpenCount := halfOpenCount cb;
     lastFailureAt := v; openSince := openSince cb |}.
Definition set_openSince (v : Z) (cb : State) : State :=
  {| cfg := cfg cb; state := state cb; failureCount := failureCount cb;
     successCount := successCount cb; halfOpenCount := halfOpenCount cb;
     lastFailureAt := lastFailureAt cb; openSince := v |}.

(** [Add(1)] on an atomic [int64]. *)
Definition add1 (z : Z) : Z := wrap64 (z + 1).

(** [time.Since(time.Unix(0, openSince))]: subtraction of times saturates. *)
Definition since (now t : Z) : Z := Z.max min_int64 (Z.min max_int64 (now - t)).

Definition ResetCounts (cb : State) : State :=
  set_halfOpenCount 0 (set_successCount 0 (set_failureCount 0 cb)).

Definition ResetForce (cb : State) : State := ResetCounts (set_state CircuitBreakerClosed cb).

Definition Counts (cb : State) : Z * Z * Z :=
  (failureCount cb, successCount cb, halfOpenCount cb).

(** * The two atomic steps of a call *)

Definition beforeCall : M State (option error) :=
  cb <-- getM ;;
  if state cb =? CircuitBreakerOpen then
    now <-- nowM ;;
    if OpenTimeout (cfg cb) <? since now (openSince cb) then
      putM (let cb := set_state CircuitBreakerHalfOpen cb in
            let cb := set_successCount 0 cb in
            let cb := set_halfOpenCount 0 cb in
            set_halfOpenCount (add1 (halfOpenCount cb)) cb) ;;;
      retM None
    else retM (Some (EStorage storage.ErrCircuitOpen))
  else if state cb =? CircuitBreakerHalfOpen then
    if MaxHalfOpenRequests (cfg cb) <=? halfOpenCount cb
    then retM (Some (EStorage storage.ErrCircuitOpen))
    else putM (set_halfOpenCount (add1 (halfOpenCount cb)) cb) ;;; retM None
  else retM None.

Definition afterCall (err : option error) : M State unit :=
  cb <-- getM ;;
  let st := state cb in
  match err with
  | None =>
      if st =? CircuitBreakerHalfOpen then
        let cb := set_successCount (add1 (successCount cb)) cb in
        if SuccessThreshold (cfg cb) <=? successCount cb
        then putM (ResetCounts (set_state CircuitBreakerClosed cb))
        else putM cb
      else if st =? CircuitBreakerClosed then putM (set_failureCount 0 cb)
      else retM tt
  | Some err =>
      (* Go's [err == ErrUnavailable]: identity, not [errors.Is] *)
      if bool_decide (err = EStorage storage.ErrUnavailable) then retM tt else
      now <-- nowM ;;
      let cb := set_lastFailureAt now cb in
      if st =? CircuitBreakerHalfOpen then
        now <-- nowM ;;
        putM (set_openSince now (set_state CircuitBreakerOpen (set_failureCount 0 cb)))
      else
        let cb := set_failureCount (add1 (failureCount cb)) cb in
        if (st =? CircuitBreakerClosed) && (FailureThreshold (cfg cb) <=? failureCount cb) then
          now <-- nowM ;;
          putM (set_openSince now (set_state CircuitBreakerOpen cb))
        else putM cb
  end.

(** * The decorator *)

Section wrap.
Context {S : Type} (R : Repository S).

(** The shape of every delegated method: the guard, the wrapped call, the
    accounting of its error. *)
Definition guarded {A} (reject : error -> A) (err_of : A -> option error) (call : M S A)
  : M (State * S) A :=
  err <-- outerM beforeCall ;;
  match err with
  | Some err => retM (reject err)
  | None =>
      r <-- innerM call ;;
      outerM (afterCall (err_of r)) ;;;
      retM r
  end.

Definition res_err {A} (r : res A) : option error :=
  match r with Ok _ => None | Err e => Some e end.

Definition Create ctx user maxUsers : M (State * S) (option error) :=
  guarded Some id (Storage.Create R ctx user maxUsers).
Definition CreateWithIdempotency ctx user maxUsers key : M (State * S) (res (User * bool)) :=
  guarded Err res_err (Storage.CreateWithIdempotency R ctx user maxUsers key).
Definition Get ctx id : M (State * S) (res User) :=
  guarded Err res_err (Storage.Get R ctx id).
Definition Update ctx user : M (State * S) (option error) :=
  guarded Some id (Storage.Update R ctx user).
Definition ReadModifyUpdate ctx id fn : M (State * S) (res User) :=
  guarded Err res_err (Storage.ReadModifyUpdate R ctx id fn).
Definition List ctx limit afterID : M (State * S) (res (list User * string)) :=
  guarded Err res_err (Storage.List R ctx limit afterID).
Definition Delete ctx id : M (State * S) (option error) :=
  guarded Some Datatypes.id (Storage.Delete R ctx id).
Definition Ping ctx : M (State * S) (option error) :=
  guarded Some id (Storage.Ping R ctx).
Definition Close : M (State * S) (option error) :=
  outerM (modifyM ResetForce) ;;;
  innerM (Storage.Close R).

Definition wrap : Repository (State * S) := {|
  Storage.Create := Create;
  Storage.CreateWithIdempotency := CreateWithIdempotency;
  Storage.Get := Get;
  Storage.Update := Update;
  Storage.ReadModifyUpdate := ReadModifyUpdate;
  Storage.Delete := Delete;
  Storage.List := List;
  Storage.Ping := Ping;
  Storage.Close := Close
|}.
End wrap.

(** * Interleaved callers *)

(** What one caller does to the breaker: it is admitted, it is rejected, an
    admitted call returns with its error, or an operator resets the breaker. *)
Inductive event :=
| Admit
| Reject
| Return (err : option error)
| Reset.

#[global] Instance event_eq_dec : EqDecision event.
Proof. solve_decision. Defined.

(** The breaker and the number of admitted calls that have not returned. *)
Definition Sys : Type := State * nat.

Inductive step : Sys -> event -> Sys -> Prop :=
| step_admit w w' cb cb' n :
    beforeCall (w, cb) = (None, (w', cb')) -> step (cb, n) Admit (cb', S n)
| step_reject w w' cb cb' n e :
    beforeCall (w, cb) = (Some e, (w', cb')) -> step (cb, n) Reject (cb', n)
| step_return w w' cb cb' n err :
    afterCall err (w, cb) = (tt, (w', cb')) -> step (cb, S n) (Return err) (cb', n)
| step_reset cb n : step (cb, n) Reset (ResetForce cb, n).

Inductive run : Sys -> list event -> Sys -> Prop :=
| run_nil s : run s [] s
| run_cons s1 e s2 es s3 : step s1 e s2 -> run s2 es s3 -> run s1 (e :: es) s3.

(** * Invariant *)

Definition cfg_ok (c : Config) : Prop :=
  1 <= FailureThreshold c <= max_int64 /\ 1 <= SuccessThreshold c <= max_int64 /\
  1 <= OpenTimeout c <= max_int64 /\ 1 <= MaxHalfOpenRequests c <= max_int64.

Definition inv (cb : State) : Prop :=
  cfg_ok (cfg cb) /\
  ((state cb = CircuitBreakerClosed /\ 0 <= failureCount cb < FailureThreshold (cfg cb) /\
    successCount cb = 0 /\ halfOpenCount cb = 0) \/
   state cb = CircuitBreakerOpen \/
   (state cb = CircuitBreakerHalfOpen /\
    1 <= halfOpenCount cb <= MaxHalfOpenRequests (cfg cb) /\
    0 <= successCount cb < SuccessThreshold (cfg cb))).

(** * Lemmas *)

#[local] Arguments beforeCall : simpl never.
#[local] Arguments afterCall : simpl never.

Create HintDb breaker.
#[local] Hint Unfold inv cfg_ok CircuitBreakerClosed CircuitBreakerOpen CircuitBreakerHalfOpen
  set_state set_failureCount set_successCount set_halfOpenCount set_lastFailureAt set_openSince
  ResetCounts ResetForce add1 min_int64 max_int64 : breaker.

(** Run one atomic step of the breaker and turn its guards into arithmetic. *)
Ltac exec_cb :=
  unfold_monad; intros; repeat (step_match; unfold_monad; simplify_eq/=); simplify_eq/=; bools.

Lemma inv_beforeCall w cb r w' cb' :
  inv cb -> beforeCall (w, cb) = (r, (w', cb')) -> inv cb'.
Proof.
  unfold beforeCall. intros Hi. exec_cb; try done;
    autounfold with breaker in *; cbn in *; rewrite wrap64_small by (unfold min_int64, max_int64; lia); lia.
Qed.

Lemma inv_afterCall w cb err w' cb' :
  inv cb -> afterCall err (w, cb) = (tt, (w', cb')) -> inv cb'.
Proof.
  unfold afterCall. intros Hi. exec_cb; try done;
    autounfold with breaker in *; cbn in *;
    rewrite ?wrap64_small in * by (unfold min_int64, max_int64; lia); try lia.
  destruct (decide (state cb = 0)) as [Hz|]; [|lia].
  rewrite wrap64_small in * by (unfold min_int64, max_int64; lia). lia.
Qed.

Lemma inv_New c :
  FailureThreshold c <= max_int64 -> SuccessThreshold c <= max_int64 ->
  OpenTimeout c <= max_int64 -> MaxHalfOpenRequests c <= max_int64 ->
  inv (NewCircuitBreakerRepository c).
Proof.
  intros. unfold inv, cfg_ok, NewCircuitBreakerRepository, or_default. cbn.
  unfold max_int64 in *. repeat case_match; bools; lia.
Qed.

Lemma inv_ResetForce cb : inv cb -> inv (ResetForce cb).
Proof. autounfold with breaker. cbn. lia. Qed.

Lemma inv_step s e s' : inv s.1 -> step s e s' -> inv s'.1.
Proof. destruct 2; cbn [fst] in *; eauto using inv_beforeCall, inv_afterCall, inv_ResetForce. Qed.

Lemma run_invariant (P : Sys -> Prop) s es s' :
  (forall s e s', P s -> step s e s' -> P s') -> P s -> run s es s' -> P s'.
Proof. intros Hstep H Hr. induction Hr; eauto. Qed.

(** ** The decorator and the contract *)

Section laws.
Context {S : Type} (R : Repository S) (view : S -> gmap string User) (rinv : S -> Prop)
  (lossy : bool).

(** A guarded call leaves the wrapped state alone when rejected and is the
    wrapped call otherwise. *)
Lemma guarded_spec {A} (reject : error -> A) err_of (call : M S A) post :
  spec rinv call (fun s r s' => rinv s' /\ post s r s') ->
  (forall s, post s (reject (EStorage storage.ErrCircuitOpen)) s) ->
  spec (fun cs : State * S => rinv cs.2) (guarded reject err_of call)
    (fun cs r cs' => rinv cs'.2 /\ post cs.2 r cs'.2).
Proof.
  intros Hcall Hrej w [cb s] Hs. cbn in Hs.
  unfold guarded. unfold_monad.
  destruct (beforeCall (w, cb)) as [[e|] [w1 cb1]] eqn:Hb; cbn.
  - assert (e = EStorage storage.ErrCircuitOpen) as ->; [|done].
    revert Hb. unfold beforeCall. exec_cb; done.
  - specialize (Hcall w1 s Hs). unfold_monad. destruct (call (w1, s)) as [r [w2 s2]]. cbn in *.
    by destruct (afterCall (err_of r) (w2, cb1)) as [? [? ?]].
Qed.

Context `{!RepositoryLaws R view rinv lossy}.

#[global] Instance breaker_laws :
  RepositoryLaws (wrap R) (fun cs => view cs.2) (fun cs => rinv cs.2) lossy.
Proof.
  constructor; cbn; intros.
  - by eapply law_ids.
  - apply (guarded_spec _ _ _ (create_post view user maxUsers)); [by apply law_create|done].
  - apply (guarded_spec _ _ _ (get_post view id)); [by apply law_get|done].
  - apply (guarded_spec _ _ _ (rmu_post view lossy id mutate)); [by apply law_rmu|done].
  - apply (guarded_spec _ _ _ (update_post view user)); [by apply law_update|done].
  - apply (guarded_spec _ _ _ (fun s _ s' => keeps view s s')); [by apply law_ping|done].
  - intros w [cb s] Hs. cbn in Hs. pose proof (law_close w s Hs) as H.
    unfold Close. unfold_monad. by destruct (Storage.Close R (w, s)) as [? [? ?]].
  - apply (guarded_spec _ _ _ (fun s r s' => create_post view user maxUsers s
      (match r with None => Ok (user, false) | Some e => Err e end) s')); [by apply law_create_plain|done].
  - apply (guarded_spec _ _ _ (delete_post view id)); [by apply law_delete|done].
  - apply (guarded_spec _ _ _ (list_post view limit after)); [by apply law_list|done].
Qed.
End laws.

(** The same for the contract without reliable answers. *)
Section safety.
Context {S : Type} (R : Repository S) (view : S -> gmap string User) (rinv : S -> Prop)
  (norm : User -> User) `{!RepositorySafety R view rinv norm}.

#[global] Instance breaker_safety :
  RepositorySafety (wrap R) (fun cs => view cs.2) (fun cs => rinv cs.2) norm.
Proof.
  constructor; cbn; intros.
  - apply safe_norm.
  - by eapply safe_ids.
  - apply (guarded_spec _ _ _ _ (fun s _ s' => may_insert norm user maxUsers (view s) (view s')));
      [by apply safe_create|by left].
  - apply (guarded_spec _ _ _ _ (fun s _ s' => may_insert norm user maxUsers (view s) (view s')));
      [by apply safe_create_plain|by left].
  - apply (guarded_spec _ _ _ _ (fun s _ s' => keeps view s s')); [by apply safe_get|done].
  - apply (guarded_spec _ _ _ _ (fun s _ s' => rtc (mutation norm id mutate) (view s) (view s')));
      [by apply safe_rmu|done].
  - apply (guarded_spec _ _ _ _ (fun s _ s' => may_replace norm user (view s) (view s')));
      [by apply safe_update|by left].
  - apply (guarded_spec _ _ _ _ (fun s _ s' => may_delete id (view s) (view s')));
      [by apply safe_delete|by left].
  - apply (guarded_spec _ _ _ _ (fun s _ s' => keeps view s s')); [by apply safe_list|done].
  - apply (guarded_spec _ _ _ _ (fun s _ s' => keeps view s s')); [by apply safe_ping|done].
  - intros w [cb s] Hs. cbn in Hs. pose proof (safe_close w s Hs) as H.
    unfold Close. unfold_monad. by destruct (Storage.Close R (w, s)) as [? [? ?]].
Qed.
End safety.

(** ** Half-open episodes *)

(** A run that never leaves the half-open state. *)
Inductive probing : Sys -> list event -> Sys -> Prop :=
| probing_nil s : probing s [] s
| probing_cons s1 e s2 es s3 :
    state s1.1 = CircuitBreakerHalfOpen -> step s1 e s2 -> state s2.1 = CircuitBreakerHalfOpen ->
    probing s2 es s3 -> probing s1 (e :: es) s3.

Definition is_admit (e : event) : bool := match e with Admit => true | _ => false end.
Definition admitted (es : list event) : Z := Z.of_nat (length (List.filter is_admit es)).

Lemma half_open_step s e s' :
  inv s.1 -> state s.1 = CircuitBreakerHalfOpen -> step s e s' ->
  state s'.1 = CircuitBreakerHalfOpen ->
  cfg s'.1 = cfg s.1 /\
  halfOpenCount s'.1 = halfOpenCount s.1 + (if is_admit e then 1 else 0).
Proof.
  intros Hi Hs Hstep Hs'. destruct Hstep as [w w' cb cb' n H|w w' cb cb' n e H|w w' cb cb' n err H|cb n];
    cbn [fst is_admit] in *; [revert H Hs'; unfold beforeCall..|revert H Hs'; unfold afterCall|done];
    exec_cb; try done; autounfold with breaker in *; cbn in *;
    (split; [done|]); rewrite ?wrap64_small by (unfold min_int64, max_int64; lia); lia.
Qed.

Lemma probing_count s es s' :
  inv s.1 -> probing s es s' -> halfOpenCount s'.1 = halfOpenCount s.1 + admitted es /\ inv s'.1.
Proof.
  intros Hi Hp. unfold admitted. induction Hp as [s|s1 e s2 es s3 H1 Hs H2 _ IH]; [split; [cbn; lia|done]|].
  destruct (half_open_step _ _ _ Hi H1 Hs H2) as [_ Hc].
  destruct (IH (inv_step _ _ _ Hi Hs)) as [Hc' ?]. split; [|done].
  cbn [List.filter]. destruct (is_admit e); cbn [length]; lia.
Qed.

(** ** A call of the wrapped repository through the breaker *)

Definition failing (e : error) : Prop := e <> EStorage storage.ErrUnavailable.

(** A call whose wrapped operation would return [err]: whether it is admitted, and
    only then the accounting of its error. *)
Definition call_ending (err : option error) : M State bool :=
  rejected <-- beforeCall ;;
  match rejected with
  | Some _ => retM false
  | None => afterCall err ;;; retM true
  end.

(** [n] of them one after the other, and how many were admitted. *)
Fixpoint calls (n : nat) (err : option error) : M State nat :=
  match n with
  | O => retM 0%nat
  | S n =>
      admitted <-- call_ending err ;;
      k <-- calls n err ;;
      retM (if admitted : bool then S k else k)
  end.

Lemma closed_failure w cb e :
  inv cb -> state cb = CircuitBreakerClosed -> failing e ->
  exists w' cb', call_ending (Some e) (w, cb) = (true, (w', cb')) /\
    cfg cb' = cfg cb /\
    (if FailureThreshold (cfg cb) <=? failureCount cb + 1
     then state cb' = CircuitBreakerOpen
     else state cb' = CircuitBreakerClosed /\ failureCount cb' = failureCount cb + 1).
Proof.
  intros Hi Hc Hf. unfold call_ending, beforeCall, afterCall. unfold_monad. rewrite Hc. cbn.
  rewrite Hc. rewrite bool_decide_eq_false_2 by done. cbn. unfold_monad.
  assert (Ha : add1 (failureCount cb) = failureCount cb + 1).
  { autounfold with breaker in *. rewrite wrap64_small; [done|]. unfold min_int64, max_int64. lia. }
  rewrite Ha. destruct (FailureThreshold (cfg cb) <=? failureCount cb + 1); cbn; by eauto 10.
Qed.

Lemma inv_call_ending err w cb : inv cb -> inv (call_ending err (w, cb)).2.2.
Proof.
  intros Hi. unfold call_ending. unfold_monad. destruct (beforeCall (w, cb)) as [[e|] [w1 cb1]] eqn:Hb.
  - by eapply inv_beforeCall.
  - destruct (afterCall err (w1, cb1)) as [[] [w2 cb2]] eqn:Ha. eauto using inv_beforeCall, inv_afterCall.
Qed.

(** An admitted call, and the calls after it. *)
Lemma calls_admitted n err w cb w1 cb1 :
  call_ending err (w, cb) = (true, (w1, cb1)) ->
  calls (Datatypes.S n) err (w, cb) =
    (Datatypes.S (calls n err (w1, cb1)).1, (calls n err (w1, cb1)).2).
Proof. intros Hc. cbn [calls]. unfold_monad. rewrite Hc. by destruct (calls n err (w1, cb1)) as [k [? ?]]. Qed.

Lemma closed_failures n w cb e :
  inv cb -> state cb = CircuitBreakerClosed -> failing e ->
  FailureThreshold (cfg cb) = failureCount cb + Z.of_nat n -> (0 < n)%nat ->
  state (calls n (Some e) (w, cb)).2.2 = CircuitBreakerOpen.
Proof.
  revert w cb. induction n as [|n IH]; intros w cb Hi Hc Hf Hn Hpos; [lia|].
  destruct (closed_failure w cb e Hi Hc Hf) as (w1 & cb1 & Hrun & Hcfg & Hst).
  pose proof (inv_call_ending (Some e) w cb Hi) as Hi1. rewrite (calls_admitted _ _ _ _ _ _ Hrun). rewrite Hrun in Hi1.
  cbn [snd] in *.
  destruct (Z.leb_spec (FailureThreshold (cfg cb)) (failureCount cb + 1)) as [Hle|Hlt].
  - assert (n = 0%nat) as -> by lia. done.
  - destruct Hst as [Hst Hfc]. apply IH; try done; rewrite ?Hcfg, ?Hfc; lia.
Qed.

(** ** Recovery *)

Lemma half_open_success w cb :
  inv cb -> state cb = CircuitBreakerHalfOpen -> halfOpenCount cb < MaxHalfOpenRequests (cfg cb) ->
  exists cb', call_ending None (w, cb) = (true, (w, cb')) /\
    cfg cb' = cfg cb /\
    (if SuccessThreshold (cfg cb) <=? successCount cb + 1
     then cb' = ResetForce (set_successCount (successCount cb + 1) (set_halfOpenCount (halfOpenCount cb + 1) cb))
     else state cb' = CircuitBreakerHalfOpen /\ successCount cb' = successCount cb + 1 /\
          halfOpenCount cb' = halfOpenCount cb + 1).
Proof.
  intros Hi Hs Hlt.
  assert (Ha : add1 (halfOpenCount cb) = halfOpenCount cb + 1 /\ add1 (successCount cb) = successCount cb + 1).
  { autounfold with breaker in *. unfold CircuitBreakerHalfOpen in *.
    rewrite !wrap64_small by (unfold min_int64, max_int64; lia). done. }
  destruct Ha as [Ha Hb].
  unfold call_ending, beforeCall, afterCall. unfold_monad. rewrite Hs. cbn.
  rewrite (proj2 (Z.leb_gt _ _) Hlt). cbn. rewrite Hs. cbn. rewrite Ha, Hb.
  destruct (SuccessThreshold (cfg cb) <=? successCount cb + 1); cbn; by eauto 10.
Qed.

Lemma half_open_successes n w cb :
  inv cb -> state cb = CircuitBreakerHalfOpen ->
  SuccessThreshold (cfg cb) = successCount cb + Z.of_nat n -> (0 < n)%nat ->
  halfOpenCount cb + Z.of_nat n <= MaxHalfOpenRequests (cfg cb) ->
  (calls n None (w, cb)).1 = n /\
  state (calls n None (w, cb)).2.2 = CircuitBreakerClosed /\
  Counts (calls n None (w, cb)).2.2 = (0, 0, 0).
Proof.
  revert w cb. induction n as [|n IH]; intros w cb Hi Hs Hn Hpos Hm; [lia|].
  destruct (half_open_success w cb Hi Hs ltac:(lia)) as (cb1 & Hrun & Hcfg & Hst).
  pose proof (inv_call_ending None w cb Hi) as Hi1. rewrite (calls_admitted _ _ _ _ _ _ Hrun). rewrite Hrun in Hi1.
  cbn [fst snd] in *.
  destruct (Z.leb_spec (SuccessThreshold (cfg cb)) (successCount cb + 1)) as [Hle|Hlt].
  - assert (n = 0%nat) as -> by lia. by rewrite Hst.
  - destruct Hst as (Hst & Hsc & Hhc). destruct (IH w cb1) as (-> & ? & ?); try done; rewrite ?Hcfg, ?Hsc, ?Hhc; lia.
Qed.

(** The breaker is half-open, has used up its probes, and none is in flight. *)
Definition wedged (s : Sys) : Prop :=
  state s.1 = CircuitBreakerHalfOpen /\ MaxHalfOpenRequests (cfg s.1) <= halfOpenCount s.1 /\
  s.2 = 0%nat.

(** With fewer probes than successes asked for, probes are admitted up to their
    number and the rest is rejected. *)
Lemma half_open_rejects w cb err :
  state cb = CircuitBreakerHalfOpen -> MaxHalfOpenRequests (cfg cb) <= halfOpenCount cb ->
  call_ending err (w, cb) = (false, (w, cb)).
Proof.
  intros Hs Hm. unfold call_ending, beforeCall. unfold_monad. rewrite Hs. cbn. by rewrite (proj2 (Z.leb_le _ _) Hm).
Qed.

Lemma half_open_exhausted n w cb :
  inv cb -> state cb = CircuitBreakerHalfOpen -> MaxHalfOpenRequests (cfg cb) < SuccessThreshold (cfg cb) ->
  successCount cb <= halfOpenCount cb ->
  let '(k, (_, cb')) := calls n None (w, cb) in
  Z.of_nat k = Z.min (Z.of_nat n) (MaxHalfOpenRequests (cfg cb) - halfOpenCount cb) /\
  state cb' = CircuitBreakerHalfOpen /\ cfg cb' = cfg cb /\ halfOpenCount cb' = halfOpenCount cb + Z.of_nat k.
Proof.
  revert w cb. induction n as [|n IH]; intros w cb Hi Hs Hm Hsc;
    (assert (Hmax : halfOpenCount cb <= MaxHalfOpenRequests (cfg cb))
      by (autounfold with breaker in *; unfold CircuitBreakerHalfOpen in *; lia)).
  { cbn. split_and?; try done; lia. }
  destruct (Z.leb_spec (MaxHalfOpenRequests (cfg cb)) (halfOpenCount cb)) as [Hle|Hlt].
  - cbn [calls]. unfold_monad. rewrite half_open_rejects by done.
    specialize (IH w cb Hi Hs Hm Hsc). destruct (calls n None (w, cb)) as [k [w' cb']].
    destruct IH as (Hk & ? & ? & ?). split_and?; try done. lia.
  - destruct (half_open_success w cb Hi Hs Hlt) as (cb1 & Hrun & Hcfg & Hst).
    pose proof (inv_call_ending None w cb Hi) as Hi1. rewrite (calls_admitted _ _ _ _ _ _ Hrun). rewrite Hrun in Hi1.
    cbn [snd] in Hi1. rewrite (proj2 (Z.leb_gt _ _)) in Hst by lia. destruct Hst as (Hs1 & Hsc1 & Hhc1).
    specialize (IH w cb1 Hi1 Hs1). rewrite Hcfg, Hsc1, Hhc1 in IH. specialize (IH Hm ltac:(lia)).
    destruct (calls n None (w, cb1)) as [k [w' cb']]. cbn [fst snd]. destruct IH as (Hk & ? & ? & ?).
    split_and?; try done; lia.
Qed.

Lemma open_probe w cb :
  state cb = CircuitBreakerOpen ->
  OpenTimeout (cfg cb) < since (w_now w (w_tick w)) (openSince cb) ->
  beforeCall (w, cb) = (None, (tick w,
    set_halfOpenCount 1 (set_halfOpenCount 0 (set_successCount 0 (set_state CircuitBreakerHalfOpen cb))))).
Proof.
  intros Hs Ht. unfold beforeCall. unfold_monad. rewrite Hs. cbn.
  by rewrite (proj2 (Z.ltb_lt _ _) Ht).
Qed.

(** The first call after the timeout, when it succeeds. *)
Lemma first_probe w cb :
  inv cb -> state cb = CircuitBreakerOpen ->
  OpenTimeout (cfg cb) < since (w_now w (w_tick w)) (openSince cb) ->
  exists cb', call_ending None (w, cb) = (true, (tick w, cb')) /\ inv cb' /\ cfg cb' = cfg cb /\
    (if SuccessThreshold (cfg cb) <=? 1 then state cb' = CircuitBreakerClosed /\ Counts cb' = (0, 0, 0)
     else state cb' = CircuitBreakerHalfOpen /\ successCount cb' = 1 /\ halfOpenCount cb' = 1).
Proof.
  intros Hi Hs Ht.
  assert (H : exists cb', call_ending None (w, cb) = (true, (tick w, cb')) /\ cfg cb' = cfg cb /\
    (if SuccessThreshold (cfg cb) <=? 1 then state cb' = CircuitBreakerClosed /\ Counts cb' = (0, 0, 0)
     else state cb' = CircuitBreakerHalfOpen /\ successCount cb' = 1 /\ halfOpenCount cb' = 1)).
  { unfold call_ending, bindM. rewrite open_probe by done. unfold afterCall. unfold_monad. cbn. change (add1 0) with 1.
    destruct (SuccessThreshold (cfg cb) <=? 1); cbn; by eauto 10. }
  destruct H as (cb' & Hrun & H). exists cb'. split; [exact Hrun|]. split; [|exact H].
  pose proof (inv_call_ending None w cb Hi) as Hi'. by rewrite Hrun in Hi'.
Qed.

(** * Properties *)

(** Worlds whose clock stands still at [t]. *)
Definition at_time (t : Z) : World :=
  {| w_now := fun _ => t; w_rand := fun _ => None; w_tick := 0 |}.

Definition NotFound : option error := Some (EStorage storage.ErrNotFound).
Definition Unavailable : option error := Some (EStorage storage.ErrUnavailable).
Definition breaker0 : State := NewCircuitBreakerRepository DefaultCircuitBreakerConfig.

(** Five calls that fail, the first at time 0, then two probes after the
    timeout that both end in [ErrUnavailable]. *)
Definition trip_events : list event :=
  concat (repeat [Admit; Return NotFound] 5).
Definition wedge_events : list event :=
  trip_events ++ [Admit; Return Unavailable; Admit; Return Unavailable].

Definition open_breaker : State := Eval vm_compute in state_of (calls 5 NotFound) (at_time 0) breaker0.
Definition wedged_breaker : State := Eval vm_compute in
  state_of (calls 2 Unavailable) (at_time (31 * 10 ^ 9)) open_breaker.

(** Replace a closed term by its value. *)
Ltac computed t :=
  let v := eval vm_compute in t in replace t with v by (vm_compute; reflexivity).

Ltac run_steps w :=
  repeat first
    [ apply run_nil
    | eapply run_cons; [eapply (step_admit w); vm_compute; reflexivity|]
    | eapply run_cons; [eapply (step_return w); vm_compute; reflexivity|] ].

Lemma run_app s1 es1 s2 es2 s3 : run s1 es1 s2 -> run s2 es2 s3 -> run s1 (es1 ++ es2) s3.
Proof. induction 1; cbn; eauto using run. Qed.

Lemma trip_run : run (breaker0, 0%nat) trip_events (open_breaker, 0%nat).
Proof.
  unfold trip_events. cbn [repeat concat app]. computed open_breaker. computed breaker0.
  run_steps (at_time 0).
Qed.

Lemma wedge_run : run (breaker0, 0%nat) wedge_events (wedged_breaker, 0%nat).
Proof.
  eapply run_app; [apply trip_run|]. computed open_breaker. computed wedged_breaker.
  run_steps (at_time (31 * 10 ^ 9)).
Qed.

(** C11: For any interleaving of concurrent callers, clock readings and operator
    resets, a breaker built by its constructor stays consistent: while closed
    its failure count is below the threshold and the probe counters are zero,
    while half-open it has admitted between one and [MaxHalfOpenRequests] probes
    and counted fewer successes than [SuccessThreshold]; no other state value
    occurs. *)
Theorem breaker_reachable_inv c es s :
  FailureThreshold c <= max_int64 -> SuccessThreshold c <= max_int64 ->
  OpenTimeout c <= max_int64 -> MaxHalfOpenRequests c <= max_int64 ->
  run (NewCircuitBreakerRepository c, 0%nat) es s -> inv s.1.
Proof.
  intros H1 H2 H3 H4 Hr.
  refine (run_invariant (fun s => inv s.1) _ _ _ _ _ Hr); [|by apply inv_New].
  intros ? ? ? Hi Hs. by eapply inv_step.
Qed.

Lemma breaker_reachable_inv_witness : inv open_breaker.
Proof.
  apply (breaker_reachable_inv DefaultCircuitBreakerConfig trip_events (open_breaker, 0%nat));
    [vm_compute; discriminate..|apply trip_run].
Defined.

(** One half-open episode lets at most [MaxHalfOpenRequests] calls through,
    counting the one that started it, whatever the callers' interleaving. *)
Theorem half_open_probes_bounded s es s' :
  inv s.1 -> state s.1 = CircuitBreakerHalfOpen -> probing s es s' ->
  halfOpenCount s.1 + admitted es <= MaxHalfOpenRequests (cfg s.1).
Proof.
  intros Hi Hs Hp.
  destruct (probing_count _ _ _ Hi Hp) as [Hc Hi'].
  assert (Hcfg : cfg s'.1 = cfg s.1 /\ state s'.1 = CircuitBreakerHalfOpen).
  { clear Hc Hi'. induction Hp as [s|s1 e s2 es s3 H1 Hst H2 _ IH]; [done|].
    destruct (half_open_step _ _ _ Hi H1 Hst H2) as [<- _].
    apply IH; [by eapply inv_step|done]. }
  destruct Hcfg as [Hcfg Hst]. rewrite <- Hcfg.
  autounfold with breaker in Hi'. unfold CircuitBreakerHalfOpen in *. lia.
Qed.

Definition probing_breaker : State := Eval vm_compute in
  state_of beforeCall (at_time (31 * 10 ^ 9)) open_breaker.

Lemma probing_breaker_run : probing (probing_breaker, 1%nat) [Admit; Return Unavailable; Return Unavailable]
  (wedged_breaker, 0%nat).
Proof.
  eapply probing_cons; [reflexivity|eapply (step_admit (at_time 0)); vm_compute; reflexivity
    |reflexivity|].
  do 2 (eapply probing_cons; [reflexivity|eapply (step_return (at_time 0)); vm_compute; reflexivity
    |reflexivity|]).
  apply probing_nil.
Qed.

Lemma half_open_probes_bounded_witness :
  halfOpenCount probing_breaker + admitted [Admit; Return Unavailable; Return Unavailable]
    <= MaxHalfOpenRequests (cfg probing_breaker).
Proof.
  apply (half_open_probes_bounded (probing_breaker, 1%nat) [Admit; Return Unavailable; Return Unavailable]
    (wedged_breaker, 0%nat)); [|vm_compute; reflexivity|apply probing_breaker_run].
  vm_compute. intuition discriminate.
Defined.

(** An open breaker whose timeout has not passed rejects every operation
    with [ErrCircuitOpen], without calling the wrapped repository. *)
Theorem open_rejects {S A} (reject : error -> A) err_of (call : M S A) w cb (s : S) :
  state cb = CircuitBreakerOpen ->
  since (w_now w (w_tick w)) (openSince cb) <= OpenTimeout (cfg cb) ->
  guarded reject err_of call (w, (cb, s))
    = (reject (EStorage storage.ErrCircuitOpen), (tick w, (cb, s))).
Proof.
  intros Hs Ht. unfold guarded, beforeCall. unfold_monad. rewrite Hs. cbn.
  by rewrite (proj2 (Z.ltb_ge _ _) Ht).
Qed.

Lemma open_rejects_witness :
  guarded Err res_err (retM (Ok 1)) (at_time 5, (open_breaker, tt))
    = (Err (EStorage storage.ErrCircuitOpen), (tick (at_time 5), (open_breaker, tt))).
Proof. apply open_rejects; vm_compute; congruence. Defined.

(** A closed breaker is transparent: every operation returns exactly what
    the wrapped repository returns and leaves it in exactly the state the
    wrapped call leaves it in. *)
Theorem closed_transparent {S A} (reject : error -> A) err_of (call : M S A) w cb (s : S) :
  state cb = CircuitBreakerClosed ->
  let r := guarded reject err_of call (w, (cb, s)) in
  fst r = fst (call (w, s)) /\ snd (snd (snd r)) = snd (snd (call (w, s))).
Proof.
  intros Hs. cbn zeta. unfold guarded, beforeCall. unfold_monad. rewrite Hs. cbn.
  destruct (call (w, s)) as [r [w2 s2]]. cbn.
  by destruct (afterCall (err_of r) (w2, cb)) as [? [? ?]].
Qed.

Lemma closed_transparent_witness :
  fst (guarded Err res_err (putM 7 ;;; retM (Ok 1)) (at_time 0, (breaker0, 3))) = Ok 1.
Proof. apply (closed_transparent Err res_err (putM 7 ;;; retM (Ok 1)) (at_time 0) breaker0 3). reflexivity. Defined.

(** C32: Recovery: once its timeout has passed, an open breaker admits the next
    [SuccessThreshold] sequential calls, and when they succeed it is closed with
    all its counters cleared, provided the configuration admits that many probes
    ([SuccessThreshold <= MaxHalfOpenRequests]); with one that admits fewer, the
    breaker is wedged after them, the last ones rejected. *)
Theorem open_breaker_recovers w cb :
  inv cb -> state cb = CircuitBreakerOpen ->
  OpenTimeout (cfg cb) < since (w_now w (w_tick w)) (openSince cb) ->
  let n := Z.to_nat (SuccessThreshold (cfg cb)) in
  let cb' := state_of (calls n None) w cb in
  if SuccessThreshold (cfg cb) <=? MaxHalfOpenRequests (cfg cb)
  then result_of (calls n None) w cb = n /\ state cb' = CircuitBreakerClosed /\ Counts cb' = (0, 0, 0)
  else Z.of_nat (result_of (calls n None) w cb) = MaxHalfOpenRequests (cfg cb) /\ wedged (cb', 0%nat).
Proof.
  intros Hi Hs Ht n. assert (Hpos : 1 <= SuccessThreshold (cfg cb) /\ 1 <= MaxHalfOpenRequests (cfg cb)) by (split; apply Hi).
  destruct (first_probe w cb Hi Hs Ht) as (cb1 & Hrun & Hi1 & Hc1 & Hst). unfold result_of, state_of, n.
  destruct (Z.to_nat (SuccessThreshold (cfg cb))) as [|k] eqn:Hk; [lia|].
  rewrite (calls_admitted _ _ _ _ _ _ Hrun). cbn [fst snd].
  destruct (Z.leb_spec (SuccessThreshold (cfg cb)) (MaxHalfOpenRequests (cfg cb))) as [Hle|Hlt].
  - destruct (Z.leb_spec (SuccessThreshold (cfg cb)) 1).
    + assert (k = 0%nat) as -> by lia. by destruct Hst.
    + destruct Hst as (Hs1 & Hsc & Hhc).
      destruct (half_open_successes k (tick w) cb1) as (-> & ? & ?); rewrite ?Hc1; try done; lia.
  - rewrite (proj2 (Z.leb_gt _ _)) in Hst by lia. destruct Hst as (Hs1 & Hsc & Hhc).
    pose proof (half_open_exhausted k (tick w) cb1 Hi1 Hs1) as H. rewrite Hc1, Hsc, Hhc in H.
    specialize (H Hlt ltac:(lia)). unfold wedged. destruct (calls k None (tick w, cb1)) as [m [w' cb']].
    destruct H as (Hm & Hs' & Hc' & Hh'). cbn [fst snd]. rewrite Hc', Hh'. split_and?; try done; lia.
Qed.

Lemma open_breaker_recovers_witness :
  state open_breaker = CircuitBreakerOpen /\
  result_of (calls 2 None) (at_time (31 * 10 ^ 9)) open_breaker = 2%nat /\
  state (state_of (calls 2 None) (at_time (31 * 10 ^ 9)) open_breaker) = CircuitBreakerClosed.
Proof.
  split; [vm_compute; reflexivity|].
  assert (H : result_of (calls 2 None) (at_time (31 * 10 ^ 9)) open_breaker = 2%nat /\
    state (state_of (calls 2 None) (at_time (31 * 10 ^ 9)) open_breaker) = CircuitBreakerClosed /\
    Counts (state_of (calls 2 None) (at_time (31 * 10 ^ 9)) open_breaker) = (0, 0, 0)).
  { apply (open_breaker_recovers (at_time (31 * 10 ^ 9)) open_breaker);
      [vm_compute; intuition discriminate|vm_compute; reflexivity|vm_compute; reflexivity]. }
  split; apply H.
Defined.

(** What trips the breaker: from a closed breaker without recorded failures,
    [FailureThreshold] consecutive calls that end in any one error other than
    [ErrUnavailable] open it, a missing user included; calls that end in
    [ErrUnavailable] never change it, however many there are. *)
Theorem breaker_counts_every_other_error n w cb e :
  inv cb -> state cb = CircuitBreakerClosed -> failureCount cb = 0 ->
  (failing e -> state (state_of (calls (Z.to_nat (FailureThreshold (cfg cb))) (Some e)) w cb)
                 = CircuitBreakerOpen) /\
  state_of (calls n (Some (EStorage storage.ErrUnavailable))) w cb = cb.
Proof.
  intros Hi Hs Hf. split.
  - intros He. assert (1 <= FailureThreshold (cfg cb)) by apply Hi.
    unfold state_of. apply closed_failures; try done; lia.
  - clear Hf. revert w. induction n as [|n IH]; intros w; [done|].
    assert (Hc : call_ending (Some (EStorage storage.ErrUnavailable)) (w, cb) = (true, (w, cb))).
    { unfold call_ending, beforeCall, afterCall. unfold_monad. by rewrite Hs. }
    unfold state_of. rewrite (calls_admitted _ _ _ _ _ _ Hc). apply IH.
Qed.

Lemma breaker_counts_every_other_error_witness :
  state (state_of (calls 5 NotFound) (at_time 0) breaker0) = CircuitBreakerOpen.
Proof.
  apply (breaker_counts_every_other_error 0 (at_time 0) breaker0 (EStorage storage.ErrNotFound));
    [vm_compute; intuition discriminate|reflexivity|reflexivity|discriminate].
Defined.

(** C31: A half-open breaker that has used up its probes without deciding never
    recovers by itself: from then on, at whatever time, every call is rejected
    and the state does not change, until an operator resets it; with the default
    configuration two probes that end in [ErrUnavailable] lead there. *)
Theorem wedged_breaker_rejects_forever :
  (forall s es s', wedged s -> Reset ∉ es -> run s es s' ->
    s' = s /\ Forall (fun e => e = Reject) es) /\
  (exists es s, run (breaker0, 0%nat) es s /\ Reset ∉ es /\ wedged s).
Proof.
  split.
  - intros s es s' Hw Hr Hrun. induction Hrun as [s|s1 e s2 es s3 Hs _ IH]; [done|].
    rewrite not_elem_of_cons in Hr. destruct Hr as [Hne Hr], Hw as (H1 & H2 & H3).
    assert (s2 = s1 /\ e = Reject) as [-> ->].
    { destruct Hs as [w w' cb cb' n H|w w' cb cb' n e H|w w' cb cb' n err H|cb n];
        cbn [fst snd] in *; try done; revert H; unfold beforeCall; unfold_monad; rewrite H1; cbn;
        rewrite (proj2 (Z.leb_le _ _) H2); intros; by simplify_eq. }
    destruct (IH (conj H1 (conj H2 H3)) Hr) as [-> HF]. auto.
  - exists wedge_events, (wedged_breaker, 0%nat). split; [apply wedge_run|].
    split; [|vm_compute; intuition discriminate].
    apply (bool_decide_unpack (Reset ∉ wedge_events)). vm_compute. done.
Qed.

End CircuitBreakerRepository.
