(* ===== verification/Cache.v ===== *)
(** [CacheRepository] of [internal/storage/cache.go]: a bounded read-through
    cache in front of a repository, which answers with stale entries when the
    repository is unavailable.

    The cache lock protects the map alone: it is not held during the wrapped
    call, so [Get] is the lookup, the wrapped call and [Get_finish], three
    steps between which other callers run. *)
From S2P Require Import Prelude GoStrings GoErrors Storage Memory.

Module CacheRepository.

(** * State *)

Record cacheEntry := mkEntry { user : User; exp : Z }.

Record State := mkState {
  ttl : Z;
  maxEntries : Z;
  m : gmap string cacheEntry
}.

Definition defaultCacheMaxEntries : Z := 10000.

Definition NewCacheRepositoryWithLimit (ttl maxEntries : Z) : State :=
  {| ttl := if ttl <=? 0 then 30 * 10 ^ 9 else ttl;
     maxEntries := if maxEntries <=? 0 then defaultCacheMaxEntries else maxEntries;
     m := ∅ |}.

Definition NewCacheRepository (ttl : Z) : State :=
  NewCacheRepositoryWithLimit ttl defaultCacheMaxEntries.

Definition set_m (v : gmap string cacheEntry) (c : State) : State :=
  {| ttl := ttl c; maxEntries := maxEntries c; m := v |}.

Definition size_of (c : State) : Z := Z.of_nat (size (m c)).

(** * Operations on the map *)

Section cache.
(** The order in which a [range] over the map visits its entries: Go leaves it
    open, and may choose differently each time. *)
Context (range : nat -> gmap string cacheEntry -> list (string * cacheEntry)).

Definition get (key : string) : M State (option User) :=
  c <-- getM ;;
  match m c !! key with
  | None => retM None
  | Some e =>
      now <-- nowM ;;
      if exp e <? now then retM None else retM (Some (user e))
  end.

Definition getStale (key : string) : M State (option User) :=
  c <-- getM ;;
  match m c !! key with
  | None => retM None
  | Some e => retM (Some (user e))
  end.

(** The scan for the entry closest to expiring; [""] stands for no candidate. *)
Definition oldest_step (acc : string * Z) (ke : string * cacheEntry) : string * Z :=
  let '(oldestKey, oldestExp) := acc in
  let '(k, e) := ke in
  if bool_decide (oldestKey = "") || (exp e <? oldestExp) then (k, exp e) else acc.

Definition drop_expired (now : Z) (mm : gmap string cacheEntry) : gmap string cacheEntry :=
  filter (fun ke => now <= exp ke.2) mm.

Definition evictLocked : M State unit :=
  c <-- getM ;;
  if size_of c <? maxEntries c then retM tt else
  now <-- nowM ;;
  putM (set_m (drop_expired now (m c)) c) ;;;
  c <-- getM ;;
  if size_of c <? maxEntries c then retM tt else
  (fun ws =>
     let '(oldestKey, _) :=
       fold_left oldest_step (range (w_tick (fst ws)) (m c)) ("", 0) in
     (if bool_decide (oldestKey <> "")
      then putM (set_m (delete oldestKey (m c)) c)
      else retM tt) ws).

Definition set (key : string) (u : User) : M State unit :=
  c <-- getM ;;
  (match m c !! key with None => evictLocked | Some _ => retM tt end) ;;;
  now <-- nowM ;;
  modifyM (fun c => set_m (<[key := {| user := u; exp := now + ttl c |}]> (m c)) c).

Definition del (key : string) : M State unit :=
  modifyM (fun c => set_m (delete key (m c)) c).

(** * The decorator *)

Section wrap.
Context {S : Type} (R : Repository S).

(** What [Get] does with the result of the wrapped call. *)
Definition Get_finish (id : string) (r : res User) : M State (res User) :=
  match r with
  | Err err =>
      if Is err (EStorage storage.ErrUnavailable) || Is err ECanceled || Is err EDeadlineExceeded
      then
        stale <-- getStale id ;;
        match stale with
        | Some stale => retM (Ok stale)
        | None => retM (Err err)
        end
      else retM (Err err)
  | Ok u => set id u ;;; retM (Ok u)
  end.

Definition Get (ctx : option Ctx) (id : string) : M (State * S) (res User) :=
  hit <-- outerM (get id) ;;
  match hit with
  | Some u => retM (Ok u)
  | None =>
      r <-- innerM (Storage.Get R ctx id) ;;
      outerM (Get_finish id r)
  end.

Definition Create ctx user maxUsers : M (State * S) (option error) :=
  innerM (Storage.Create R ctx user maxUsers).

Definition Update ctx (user : option User) : M (State * S) (option error) :=
  err <-- innerM (Storage.Update R ctx user) ;;
  match err with
  | None => outerM (del (from_option Id "" user)) ;;; retM None
  | Some err => retM (Some err)
  end.

Definition ReadModifyUpdate ctx id fn : M (State * S) (res User) :=
  r <-- innerM (Storage.ReadModifyUpdate R ctx id fn) ;;
  match r with
  | Ok u => outerM (del id) ;;; retM (Ok u)
  | Err err =>
      if Is err (EStorage storage.ErrUnavailable) then
        stale <-- outerM (getStale id) ;;
        match stale with
        | Some stale => retM (Ok stale)
        | None => retM (Err err)
        end
      else retM (Err err)
  end.

Definition Delete ctx id : M (State * S) (option error) :=
  err <-- innerM (Storage.Delete R ctx id) ;;
  match err with
  | None => outerM (del id) ;;; retM None
  | Some err => retM (Some err)
  end.

(** The embedded [Repository] supplies the other methods. *)
Definition wrap : Repository (State * S) := {|
  Storage.Create := Create;
  Storage.CreateWithIdempotency ctx user maxUsers key :=
    innerM (Storage.CreateWithIdempotency R ctx user maxUsers key);
  Storage.Get := Get;
  Storage.Update := Update;
  Storage.ReadModifyUpdate := ReadModifyUpdate;
  Storage.Delete := Delete;
  Storage.List ctx limit after := innerM (Storage.List R ctx limit after);
  Storage.Ping ctx := innerM (Storage.Ping R ctx);
  Storage.Close := innerM (Storage.Close R)
|}.
End wrap.

(** * Invariants *)

(** The cache is within its bound and holds no entry under the empty key, which
    [evictLocked] cannot tell from the absence of a candidate. *)
Definition bounded (c : State) : Prop :=
  1 <= maxEntries c /\ size_of c <= maxEntries c /\ m c !! "" = None.

(** Every entry is what the repository holds for its key. *)
Definition coherent (v : gmap string User) (c : State) : Prop :=
  forall k e, m c !! k = Some e -> v !! k = Some (user e).

(** * Lemmas *)

#[local] Arguments get : simpl never.
#[local] Arguments set : simpl never.
#[local] Arguments getStale : simpl never.
#[local] Arguments Get_finish : simpl never.

Lemma drop_expired_subseteq now mm : drop_expired now mm ⊆ mm.
Proof. apply map_filter_subseteq. Qed.

Lemma oldest_step_ne k0 x0 k1 e1 :
  k0 <> "" -> oldest_step (k0, x0) (k1, e1) = if exp e1 <? x0 then (k1, exp e1) else (k0, x0).
Proof. intros H. unfold oldest_step. by rewrite bool_decide_eq_false_2. Qed.

(** The scan from a real candidate keeps a real, minimal one. *)
Lemma oldest_scan l k0 x0 k x :
  Forall (fun ke => ke.1 <> "") l -> k0 <> "" ->
  fold_left oldest_step l (k0, x0) = (k, x) ->
  k <> "" /\ x <= x0 /\ Forall (fun ke => x <= exp ke.2) l /\
  ((k, x) = (k0, x0) \/ exists e, (k, e) ∈ l /\ exp e = x).
Proof.
  revert k0 x0. induction l as [|[k1 e1] l IH]; intros k0 x0 Hl Hk0; cbn [fold_left].
  { intros [= <- <-]. split_and!; auto. lia. }
  inversion Hl as [|? ? Hk1 Hl']; subst. cbn in Hk1.
  rewrite oldest_step_ne by done.
  destruct (Z.ltb_spec (exp e1) x0); intros H0; apply IH in H0 as (? & ? & ? & Hc); auto;
    split_and!; auto; try (constructor; cbn; auto; lia); try lia.
  - right. destruct Hc as [[= -> ->]|(e & He & ?)]; [exists e1|exists e]; split; auto; by constructor.
  - destruct Hc as [?|(e & He & ?)]; [by left|right; exists e]; split; auto; by constructor.
Qed.

Context (range_perm : forall n mm, range n mm ≡ₚ map_to_list mm).

(** On a nonempty map without the empty key the scan finds an entry that
    expires no later than any other, in whatever order the map is visited. *)
Lemma oldest_found n mm k x :
  mm <> ∅ -> mm !! "" = None -> fold_left oldest_step (range n mm) ("", 0) = (k, x) ->
  k <> "" /\ exists e, mm !! k = Some e /\
    forall k' e', mm !! k' = Some e' -> exp e <= exp e'.
Proof.
  intros Hne H0. pose proof (range_perm n mm) as Hp.
  assert (Hl : Forall (fun ke => ke.1 <> "") (range n mm)).
  { rewrite Hp. apply Forall_forall. intros [k1 e1] Hin%elem_of_map_to_list.
    cbn. intros ->. congruence. }
  destruct (range n mm) as [|[k1 e1] l] eqn:Hr.
  { apply Permutation_nil_l, eq_sym, map_to_list_empty_iff in Hp. done. }
  inversion Hl as [|? ? Hk1 Hl']; subst. cbn. intros Hf.
  apply oldest_scan in Hf as (Hk & Hx & Hmin & Hc); [|done..]. split; [done|].
  assert (exists e, (k, e) ∈ (k1, e1) :: l /\ exp e = x) as (e & He & <-).
  { destruct Hc as [[= -> ->]|(e & ? & ?)]; [exists e1|exists e]; split; auto; by constructor. }
  exists e. rewrite Hp in He. split; [by apply elem_of_map_to_list in He|].
  intros k' e' H'%elem_of_map_to_list. rewrite <- Hp in H'.
  apply elem_of_cons in H' as [[= <- <-]|H']; [done|].
  by apply (proj1 (Forall_forall _ _) Hmin) in H'.
Qed.
(** What [evictLocked] leaves: a submap that has room for one more entry. *)
Lemma evictLocked_run w c :
  bounded c -> exists c' w', evictLocked (w, c) = (tt, (w', c')) /\
    ttl c' = ttl c /\ maxEntries c' = maxEntries c /\ m c' ⊆ m c /\ size_of c' < maxEntries c.
Proof.
  intros (Hmax & Hb & Hempty). unfold evictLocked. unfold_monad.
  destruct (Z.ltb_spec (size_of c) (maxEntries c)).
  { exists c, w. done. }
  cbn [fst snd].
  set (now := w_now w (w_tick w)). set (w1 := tick w). set (c1 := set_m (drop_expired now (m c)) c).
  pose proof (drop_expired_subseteq now (m c)) as Hsub.
  destruct (Z.ltb_spec (size_of c1) (maxEntries c1)) as [Hroom|Hfull].
  { exists c1, w1. split_and!; try done. }
  destruct (fold_left oldest_step _ _) as [k x] eqn:Hf.
  assert (Hne : m c1 <> ∅).
  { intros He. unfold size_of in Hfull. rewrite He, map_size_empty in Hfull.
    change (maxEntries c1) with (maxEntries c) in Hfull. lia. }
  apply oldest_found in Hf as (Hk & e & He & _); [|done|eapply lookup_weaken_None; done].
  rewrite bool_decide_eq_true_2 by done.
  eexists _, w1. split; [done|]. cbn. split_and!; try done.
  { etrans; [apply delete_subseteq|done]. }
  unfold size_of in *. cbn.
  assert (size (delete k (drop_expired now (m c))) < size (drop_expired now (m c)))%nat.
  { apply map_subset_size, delete_subset. by eexists. }
  apply map_subseteq_size in Hsub. cbn in Hfull. lia.
Qed.

Lemma set_run w c key u :
  bounded c -> exists c' w' now, set key u (w, c) = (tt, (w', c')) /\
    ttl c' = ttl c /\ maxEntries c' = maxEntries c /\ size_of c' <= maxEntries c /\
    m c' !! key = Some {| user := u; exp := now + ttl c |} /\
    (forall k e, k <> key -> m c' !! k = Some e -> m c !! k = Some e).
Proof.
  intros Hb. unfold set. unfold_monad. destruct (m c !! key) as [e|] eqn:Hkey.
  - eexists _, _, _. split; [done|]. cbn. split_and!; try done.
    + unfold size_of. cbn. rewrite map_size_insert, Hkey. apply Hb.
    + by rewrite lookup_insert_eq.
    + intros k e' Hne. by rewrite lookup_insert_ne.
  - destruct (evictLocked_run w c Hb) as (c1 & w1 & He & Ht & Hm & Hs & Hroom). rewrite He. cbn.
    eexists _, _, _. split; [done|]. cbn. split_and!; try done.
    + unfold size_of in *. cbn. rewrite map_size_insert. case_match; cbn; lia.
    + by rewrite lookup_insert_eq, Ht.
    + intros k e' Hne. rewrite lookup_insert_ne by done. intros H. by eapply lookup_weaken.
Qed.

Lemma bounded_set w c key u :
  bounded c -> key <> "" -> bounded (state_of (set key u) w c).
Proof.
  intros Hb Hk. destruct (set_run w c key u Hb) as (c' & w' & now & Hs & _ & Hm & Hsz & _ & Hk').
  unfold state_of. rewrite Hs. cbn. destruct Hb as (? & ? & H0).
  unfold bounded. rewrite Hm. split_and!; try done.
  destruct (m c' !! "") eqn:He; [|done]. apply Hk' in He; [congruence|done].
Qed.

Lemma coherent_set w c key u v :
  bounded c -> coherent v c -> v !! key = Some u -> coherent v (state_of (set key u) w c).
Proof.
  intros Hb Hc Hv. destruct (set_run w c key u Hb) as (c' & w' & now & Hs & _ & _ & _ & He & Hk).
  unfold state_of. rewrite Hs. cbn. intros k e Hke.
  destruct (decide (k = key)) as [->|]; [|eauto]. rewrite He in Hke. by injection Hke as <-.
Qed.

Lemma bounded_del w c key : bounded c -> bounded (state_of (del key) w c).
Proof.
  intros (? & ? & H0). unfold bounded, size_of. cbn. split_and!; try done.
  - pose proof (map_subseteq_size _ _ (delete_subseteq (m c) key)).
    unfold size_of in *. lia.
  - rewrite lookup_delete. by case_decide.
Qed.

(** Forgetting a key keeps the cache coherent whatever becomes of the key. *)
Lemma coherent_del w c key v v' :
  coherent v c -> (forall k, k <> key -> v' !! k = v !! k) -> coherent v' (state_of (del key) w c).
Proof.
  intros Hc Hv k e. cbn. rewrite lookup_delete_Some. intros [Hne He]. rewrite Hv by done. eauto.
Qed.

(** ** The decorator and the contract *)

Section laws.
Context {S : Type} (R : Repository S) (view : S -> gmap string User) (rinv : S -> Prop)
  (lossy : bool) `{!RepositoryLaws R view rinv lossy}.

(** The repository's invariant, the cache bound and coherence. *)
Definition cinv (cs : State * S) : Prop :=
  rinv cs.2 /\ bounded cs.1 /\ coherent (view cs.2) cs.1.

(** A pass-through method of the embedded repository keeps the cache coherent
    as soon as it changes no id that the repository holds. *)
Lemma passed_through {A} (call : M S A) (post : S -> A -> S -> Prop) :
  spec rinv call (fun s r s' => rinv s' /\ post s r s') ->
  (forall s r s' k u, post s r s' -> view s !! k = Some u -> view s' !! k = Some u) ->
  spec cinv (innerM call) (fun cs r cs' => cinv cs' /\ post cs.2 r cs'.2).
Proof.
  intros Hc Hp w [c s] (Hs & Hb & Hco). specialize (Hc w s Hs). unfold_monad.
  destruct (call (w, s)) as [r [w' s']]. cbn in *. destruct Hc as [Hr Hpo].
  split; [|done]. split_and!; try done. intros k e He. eapply Hp; eauto.
Qed.

Lemma keeps_lookup s s' k u : keeps view s s' -> view s !! k = Some u -> view s' !! k = Some u.
Proof. unfold keeps. congruence. Qed.

Lemma create_lookup user maxUsers s r s' k u :
  create_post view user maxUsers s r s' -> view s !! k = Some u -> view s' !! k = Some u.
Proof.
  unfold create_post. destruct r as [[st []]|e]; [|intros (_ & _ & Hn & _ & ->)|];
    eauto using keeps_lookup; [intros [_ Hk]; eauto using keeps_lookup|].
  intros Hk. rewrite lookup_insert_ne; [done|congruence].
Qed.

(** [del] after a successful mutation of [key] restores coherence. *)
Lemma cinv_del w c s s' key :
  cinv (c, s) -> rinv s' -> (forall k, k <> key -> view s' !! k = view s !! k) ->
  cinv (state_of (del key) w c, s').
Proof.
  intros (Hs & Hb & Hco) Hs' Hv. split_and!; [done|by apply bounded_del|by eapply coherent_del].
Qed.

Lemma cinv_keeps c s s' : cinv (c, s) -> rinv s' -> keeps view s s' -> cinv (c, s').
Proof.
  intros (Hs & Hb & Hco) Hs' Hk. split_and!; [done..|]. cbn. unfold keeps in Hk. by rewrite Hk.
Qed.

Lemma getStale_run w c key : getStale key (w, c) = (user <$> m c !! key, (w, c)).
Proof. unfold getStale. unfold_monad. by destruct (m c !! key). Qed.

Lemma get_run w c key :
  exists w', get key (w, c) =
    ((e ← m c !! key; if exp e <? w_now w (w_tick w) then None else Some (user e)), (w', c)).
Proof.
  unfold get. unfold_monad. destruct (m c !! key); [|by eexists].
  cbn. case_match; by eexists.
Qed.

Lemma Get_finish_err w c id err :
  Get_finish id (Err err) (w, c) =
    (match (if Is err (EStorage storage.ErrUnavailable) || Is err ECanceled ||
               Is err EDeadlineExceeded then user <$> m c !! id else None) with
     | Some stale => Ok stale
     | None => Err err
     end, (w, c)).
Proof.
  unfold Get_finish. case_match; [|done]. unfold_monad. rewrite getStale_run.
  by destruct (m c !! id).
Qed.

Lemma Get_finish_ok w c id u :
  exists w', Get_finish id (Ok u) (w, c) = (Ok u, (w', state_of (set id u) w c)).
Proof.
  unfold Get_finish, state_of. unfold_monad. destruct (set id u (w, c)) as [[] [w' c']]. by exists w'.
Qed.

Lemma cache_law_get ctx id :
  spec cinv (Get R ctx id) (fun cs r cs' => cinv cs' /\ get_post (fun cs => view cs.2) id cs r cs').
Proof.
  intros w [c s] Hi. pose proof Hi as (Hs & Hb & Hco). unfold Get. unfold_monad.
  destruct (get_run w c id) as [w1 Hg]. rewrite Hg. cbn. clear Hg.
  set (hit := e ← m c !! id; _).
  assert (Hhit : forall u, hit = Some u -> view s !! id = Some u).
  { subst hit. destruct (m c !! id) eqn:He; cbn; [|done]. case_match; [done|].
    intros u [= <-]. by apply Hco. }
  destruct hit as [u|]; [by split; [|split; [|apply Hhit]]|]. clear Hhit.
  pose proof (law_get ctx id w1 s Hs) as Hl. unfold_monad.
  destruct (Storage.Get R ctx id (w1, s)) as [r [w2 s2]]. cbn in *.
  destruct Hl as (Hr & Hk & Hl). assert (Hi2 := cinv_keeps _ _ _ Hi Hr Hk).
  destruct r as [u|err]; cbn.
  - destruct (Get_finish_ok w2 c id u) as [w3 ->]. cbn.
    assert (Hne : id <> "") by (eapply law_ids; [exact Hs|exact Hl]).
    split; [|done]. split_and!; [done|by apply bounded_set|]. apply coherent_set; [done|apply Hi2|].
    cbn. unfold keeps in Hk. by rewrite Hk.
  - rewrite Get_finish_err. cbn. split; [done|]. split; [done|].
    match goal with |- context [if ?b then ?x else None] =>
      destruct (if b then x else None) as [stale|] eqn:Hst; [|done] end.
    case_match; [|done]. apply fmap_Some in Hst as (e & He & ->). by apply Hco.
Qed.

Lemma cache_law_update ctx user :
  spec cinv (Update R ctx (Some user))
    (fun cs r cs' => cinv cs' /\ update_post (fun cs => view cs.2) user cs r cs').
Proof.
  intros w [c s] Hi. pose proof Hi as (Hs & _). unfold Update. unfold_monad.
  pose proof (law_update ctx user w s Hs) as Hl. unfold_monad.
  destruct (Storage.Update R ctx (Some user) (w, s)) as [[e|] [w2 s2]]; cbn in *;
    destruct Hl as (Hr & Hl); cbn in *; [eauto using cinv_keeps|].
  split; [|done]. apply (cinv_del w2 _ _ _ (Id user) Hi Hr). destruct Hl as [_ ->].
  intros k Hk. by rewrite lookup_insert_ne.
Qed.

Lemma cache_law_delete ctx id :
  spec cinv (Delete R ctx id)
    (fun cs r cs' => cinv cs' /\ delete_post (fun cs => view cs.2) id cs r cs').
Proof.
  intros w [c s] Hi. pose proof Hi as (Hs & _). unfold Delete. unfold_monad.
  pose proof (law_delete ctx id w s Hs) as Hl. unfold_monad.
  destruct (Storage.Delete R ctx id (w, s)) as [[e|] [w2 s2]]; cbn in *;
    destruct Hl as (Hr & Hl); cbn in *; [eauto using cinv_keeps|].
  split; [|done]. apply (cinv_del w2 _ _ _ id Hi Hr). destruct Hl as [_ ->].
  intros k Hk. by rewrite lookup_delete_ne.
Qed.

Lemma cache_law_rmu ctx id mutate :
  keeps_id mutate ->
  spec cinv (ReadModifyUpdate R ctx id (Some mutate))
    (fun cs r cs' => cinv cs' /\ rmu_post (fun cs => view cs.2) true id mutate cs r cs').
Proof.
  intros Hm w [c s] Hi. pose proof Hi as (Hs & _). unfold ReadModifyUpdate. unfold_monad.
  pose proof (law_rmu ctx id mutate Hm w s Hs) as Hl. unfold_monad.
  destruct (Storage.ReadModifyUpdate R ctx id (Some mutate) (w, s)) as [[u|e] [w2 s2]]; cbn in *;
    destruct Hl as (Hr & Hl); cbn in *.
  - assert (Hv : forall k, k <> id -> view s2 !! k = view s !! k).
    { destruct Hl as [(? & ? & ? & _ & _ & ->)|(_ & _ & ->)]; [|done].
      intros k Hk. by rewrite lookup_insert_ne. }
    split; [by apply (cinv_del w2 _ _ _ id Hi Hr)|].
    destruct Hl as [Hl|(_ & Hl & Hk)]; [by left|by right].
  - pose proof (cinv_keeps _ _ _ Hi Hr Hl) as (? & ? & Hco). case_match; [|by eauto using cinv_keeps].
    rewrite getStale_run. destruct (m c !! id) as [en|] eqn:He; cbn; [|by eauto using cinv_keeps].
    split; [by eauto using cinv_keeps|]. right. split_and!; try done.
    destruct Hi as (_ & _ & Hi). by apply Hi.
Qed.

(** The cache keeps every promise of the repository contract but one: a
    read-modify-write may report the user as it was, without storing the
    callback's result. *)
#[global] Instance cache_laws :
  RepositoryLaws (wrap R) (fun cs => view cs.2) cinv true.
Proof.
  constructor; cbn; intros.
  - destruct H as (? & _). by eapply law_ids.
  - apply (passed_through _ (create_post view user0 maxUsers)); [apply law_create|].
    intros ? ? ? ? ?. apply create_lookup.
  - apply cache_law_get.
  - by apply cache_law_rmu.
  - apply cache_law_update.
  - apply (passed_through _ (fun s _ s' => keeps view s s')); [apply law_ping|].
    intros ? ? ? ? ?. apply keeps_lookup.
  - apply (passed_through _ (fun s _ s' => keeps view s s')); [apply law_close|].
    intros ? ? ? ? ?. apply keeps_lookup.
  - apply (passed_through _ (fun s r s' => create_post view user0 maxUsers s
      (match r with None => Ok (user0, false) | Some e => Err e end) s')); [apply law_create_plain|].
    intros ? ? ? ? ?. apply create_lookup.
  - apply cache_law_delete.
  - apply (passed_through _ (list_post view limit after)); [apply law_list|].
    intros * [Hk _]. by apply keeps_lookup.
Qed.
End laws.

(** ** The decorator and the contract without reliable answers *)

Section safety.
Context {S : Type} (R : Repository S) (view : S -> gmap string User) (rinv : S -> Prop)
  (norm : User -> User) `{!RepositorySafety R view rinv norm}.

(** Code that leaves the wrapped repository alone. *)
Definition outer_only {A} (k : M (State * S) A) : Prop :=
  forall w cs, snd (snd (snd (k (w, cs)))) = snd cs.

Lemma outer_outerM {A} (k : M State A) : outer_only (outerM k).
Proof using. intros w [c s]. unfold outerM. by destruct (k (w, c)) as [a [w' c']]. Qed.
Lemma outer_ret {A} (a : A) : outer_only (retM a).
Proof using. done. Qed.
Lemma outer_bind {A B} (m : M (State * S) A) (k : A -> M (State * S) B) :
  outer_only m -> (forall a, outer_only (k a)) -> outer_only (bindM m k).
Proof using.
  intros Hm Hk w cs. unfold bindM. specialize (Hm w cs). destruct (m (w, cs)) as [a [w' cs']]. cbn in Hm.
  etrans; [apply Hk|exact Hm].
Qed.

Lemma safe_inner {A B} (call : M S A) (P : gmap string User -> gmap string User -> Prop)
    (k : A -> M (State * S) B) :
  spec rinv call (fun s _ s' => rinv s' /\ P (view s) (view s')) -> (forall a, outer_only (k a)) ->
  spec (fun cs : State * S => rinv cs.2) (bindM (innerM call) k)
    (fun cs _ cs' => rinv cs'.2 /\ P (view cs.2) (view cs'.2)).
Proof using.
  intros Hc Hk w [c s] Hs. cbn in Hs. specialize (Hc w s Hs). unfold state_of, bindM, innerM in *.
  destruct (call (w, s)) as [a [w1 s1]]. cbn in *. specialize (Hk a w1 (c, s1)). cbn in Hk.
  by rewrite Hk.
Qed.

Ltac outer := repeat first [ apply outer_outerM | apply outer_ret | apply outer_bind; [|intros]
  | match goal with |- outer_only (match ?x with _ => _ end) => destruct x end ].

Lemma safe_passed {A} (call : M S A) (P : gmap string User -> gmap string User -> Prop) :
  spec rinv call (fun s _ s' => rinv s' /\ P (view s) (view s')) ->
  spec (fun cs : State * S => rinv cs.2) (innerM call) (fun cs _ cs' => rinv cs'.2 /\ P (view cs.2) (view cs'.2)).
Proof using.
  intros Hc w [c s] Hs. specialize (Hc w s Hs). unfold state_of, innerM in *.
  by destruct (call (w, s)) as [a [w1 s1]].
Qed.

Lemma safe_outer {A B} (m : M State A) (P : gmap string User -> gmap string User -> Prop)
    (k : A -> M (State * S) B) :
  (forall a, spec (fun cs : State * S => rinv cs.2) (k a)
     (fun cs _ cs' => rinv cs'.2 /\ P (view cs.2) (view cs'.2))) ->
  spec (fun cs : State * S => rinv cs.2) (bindM (outerM m) k)
    (fun cs _ cs' => rinv cs'.2 /\ P (view cs.2) (view cs'.2)).
Proof using.
  intros Hk w [c s] Hs. unfold state_of, bindM, outerM. destruct (m (w, c)) as [a [w1 c1]].
  exact (Hk a w1 (c1, s) Hs).
Qed.

Lemma cache_safe_get ctx id :
  spec (fun cs : State * S => rinv cs.2) (Get R ctx id)
    (fun cs _ cs' => rinv cs'.2 /\ keeps view cs.2 cs'.2).
Proof.
  apply (safe_outer _ (fun v v' => v' = v)). intros [u|]; [by intros w cs Hs|].
  apply (safe_inner _ (fun v v' => v' = v)); [apply safe_get|]. intros a. apply outer_outerM.
Qed.

#[global] Instance cache_safety :
  RepositorySafety (wrap R) (fun cs => view cs.2) (fun cs => rinv cs.2) norm.
Proof.
  constructor; cbn; intros.
  - apply safe_norm.
  - by eapply safe_ids.
  - apply (safe_passed _ (may_insert norm user0 maxUsers)), safe_create.
  - apply (safe_passed _ (may_insert norm user0 maxUsers)), safe_create_plain.
  - apply cache_safe_get.
  - apply (safe_inner _ (rtc (mutation norm id mutate))); [by apply safe_rmu|]. intros. outer.
  - apply (safe_inner _ (may_replace norm user0)); [by apply safe_update|]. intros. outer.
  - apply (safe_inner _ (may_delete id)); [by apply safe_delete|]. intros. outer.
  - apply (safe_passed _ (fun v v' => v' = v)), safe_list.
  - apply (safe_passed _ (fun v v' => v' = v)), safe_ping.
  - apply (safe_passed _ (fun v v' => v' = v)), safe_close.
Qed.
End safety.

(** ** Eviction *)

Lemma drop_expired_id now mm :
  (forall k e, mm !! k = Some e -> now <= exp e) -> drop_expired now mm = mm.
Proof. intros H. apply map_filter_id. intros k e He. by eapply H. Qed.

(** A full cache whose first expired entry makes room loses nothing else. *)
Lemma evictLocked_expired w c k e :
  size_of c = maxEntries c -> m c !! k = Some e -> exp e < w_now w (w_tick w) ->
  evictLocked (w, c) = (tt, (tick w, set_m (drop_expired (w_now w (w_tick w)) (m c)) c)).
Proof.
  intros Hfull He Hx. unfold evictLocked. unfold_monad.
  rewrite (proj2 (Z.ltb_ge _ _)) by lia. cbn [fst snd].
  rewrite (proj2 (Z.ltb_lt _ _)); [done|]. unfold size_of in *. cbn.
  rewrite <- Hfull. apply inj_lt, map_subset_size. apply map_subset_alt.
  split; [apply drop_expired_subseteq|]. exists k. split; [|by eexists].
  apply map_lookup_filter_None_2. right. intros e' He'. cbn. simplify_eq. lia.
Qed.

Lemma evictLocked_full w c :
  bounded c -> size_of c = maxEntries c ->
  (forall k e, m c !! k = Some e -> w_now w (w_tick w) <= exp e) ->
  exists k e, m c !! k = Some e /\ (forall k' e', m c !! k' = Some e' -> exp e <= exp e') /\
    evictLocked (w, c) = (tt, (tick w, set_m (delete k (m c)) c)).
Proof.
  intros (Hmax & _ & H0) Hfull Hlive. unfold evictLocked. unfold_monad.
  rewrite (proj2 (Z.ltb_ge _ _)) by lia. cbn [fst snd]. rewrite drop_expired_id by done.
  change (size_of (set_m (m c) c)) with (size_of c). cbn [maxEntries set_m].
  rewrite (proj2 (Z.ltb_ge _ _)) by lia. cbn [fst snd m].
  destruct (fold_left oldest_step _ _) as [k x] eqn:Hf.
  apply oldest_found in Hf as (Hk & e & He & Hmin); [|intros Hm|done].
  - exists k, e. by rewrite bool_decide_eq_true_2.
  - change (m c = ∅) in Hm. unfold size_of in Hfull. rewrite Hm, map_size_empty in Hfull. lia.
Qed.

(** The writes to the cache, each under the cache lock. *)
Inductive write : State -> State -> Prop :=
| write_set w key u c : key <> "" -> write c (state_of (set key u) w c)
| write_del w key c : write c (state_of (del key) w c).

Lemma bounded_New t max : bounded (NewCacheRepositoryWithLimit t max).
Proof.
  unfold bounded, size_of, NewCacheRepositoryWithLimit, defaultCacheMaxEntries. cbn.
  rewrite map_size_empty. case_match; bools; split_and!; try done; lia.
Qed.

Lemma write_maxEntries c c' : bounded c -> write c c' -> bounded c' /\ maxEntries c' = maxEntries c.
Proof.
  intros Hb Hw. destruct Hw as [w key u c1 Hk|w key c1].
  - split; [by apply bounded_set|]. destruct (set_run w c1 key u Hb) as (? & ? & ? & H & _ & Hm & _).
    unfold state_of. by rewrite H.
  - split; [by apply bounded_del|done].
Qed.
End cache.

(** * Properties *)

(** C33: Whatever the order in which Go visits the map, the cache never holds
    more entries than its limit (the default when the limit is not positive),
    under any interleaving of fills and invalidations by concurrent callers. *)
Theorem cache_bounded range t max c :
  (forall n mm, range n mm ≡ₚ map_to_list mm) ->
  rtc (write range) (NewCacheRepositoryWithLimit t max) c ->
  size_of c <= (if max <=? 0 then defaultCacheMaxEntries else max).
Proof.
  intros Hr Hc.
  enough (bounded c /\ maxEntries c = maxEntries (NewCacheRepositoryWithLimit t max)) as
    [(_ & Hb & _) Hm] by (cbn in Hm; lia).
  pose proof (bounded_New t max) as Hb. revert Hb. induction Hc as [|c1 c2 c3 H _ IH]; [done|].
  intros Hb. apply write_maxEntries in H as [Hb2 Hm]; [|done..].
  apply IH in Hb2 as [? ?]. split; congruence.
Qed.

(** The order in which the model's own [map_to_list] visits a map. *)
Definition range0 (n : nat) (mm : gmap string cacheEntry) : list (string * cacheEntry) :=
  map_to_list mm.

Definition carol : User := mkUser "c" "Carol" "c@example.org" 20 None None.
Definition dave : User := mkUser "d" "Dave" "d@example.org" 21 None None.
Definition clock0 : World := {| w_now := fun n => Z.of_nat n; w_rand := fun _ => None; w_tick := 0 |}.

Lemma cache_bounded_witness :
  size_of (state_of (set range0 "d" dave) clock0
    (state_of (set range0 "c" carol) clock0 (NewCacheRepositoryWithLimit 5 1))) <= 1.
Proof.
  apply (cache_bounded range0 5 1); [done|].
  eapply rtc_r; [apply rtc_once, (write_set range0 clock0 "c" carol); done|].
  by apply (write_set range0 clock0 "d" dave).
Defined.

(** Filling a new key into a full cache drops the expired entries when there
    are any, and every live entry stays; when all are live exactly one goes,
    and none of the others expires before it. *)
Theorem full_cache_evicts_oldest range w c key u :
  (forall n mm, range n mm ≡ₚ map_to_list mm) ->
  bounded c -> size_of c = maxEntries c -> m c !! key = None ->
  let now := w_now w (w_tick w) in
  let m' := m (state_of (set range key u) w c) in
  let entry := {| user := u; exp := w_now w (S (w_tick w)) + ttl c |} in
  ((exists k e, m c !! k = Some e /\ exp e < now) /\
     m' = <[key := entry]> (filter (fun ke => now <= exp ke.2) (m c))) \/
  ((forall k e, m c !! k = Some e -> now <= exp e) /\
     exists k e, m c !! k = Some e /\ (forall k' e', m c !! k' = Some e' -> exp e <= exp e') /\
       m' = <[key := entry]> (delete k (m c))).
Proof.
  intros Hr Hb Hfull Hkey. cbn zeta. unfold set. unfold_monad. rewrite Hkey.
  destruct (decide (map_Forall (fun _ e => w_now w (w_tick w) <= exp e) (m c))) as [Hl|Hl].
  - right. split; [exact Hl|].
    destruct (evictLocked_full range Hr w c Hb Hfull Hl) as (k & e & He & Hmin & Hrun).
    exists k, e. by rewrite Hrun.
  - left. apply map_not_Forall in Hl as (k & e & He & Hx%Z.nle_gt); [|apply _].
    split; [by exists k, e|]. by rewrite (evictLocked_expired range w c k e).
Qed.

Definition full_cache : State :=
  {| ttl := 5; maxEntries := 1; m := {["c" := {| user := carol; exp := 9 |}]} |}.

Lemma full_cache_evicts_oldest_witness :
  exists k e, m full_cache !! k = Some e /\ m (state_of (set range0 "d" dave) clock0 full_cache) =
    <["d" := {| user := dave; exp := 6 |}]> (delete k (m full_cache)).
Proof.
  destruct (full_cache_evicts_oldest range0 clock0 full_cache "d" dave) as
    [[(k & e & He & Hx) _]|(_ & k & e & He & _ & Hm)]; [done| |reflexivity|reflexivity| |].
  - unfold bounded. split_and!; [cbn; lia|vm_compute; discriminate|reflexivity].
  - unfold full_cache in He. cbn [m] in He. apply lookup_singleton_Some in He as [_ <-]. vm_compute in Hx. discriminate.
  - exists k, e. split; [exact He|exact Hm].
Defined.

(** C12: In front of a repository that keeps the contract, whose answers are all
    reliable, and for operations that run one after another, the cache keeps every
    promise of the contract, coherence with the repository included, but that a
    read-modify-write that reports success has been stored. Operations that
    overlap ([stale_fill_hides_update]) and a repository whose errors do not mean
    that nothing has changed (an update whose acknowledgement is lost) are outside
    of it. *)
Theorem cache_refines_contract range {S} (R : Repository S) view rinv lossy :
  (forall n mm, range n mm ≡ₚ map_to_list mm) -> RepositoryLaws R view rinv lossy ->
  RepositoryLaws (wrap range R) (fun cs => view cs.2) (cinv view rinv) true.
Proof. intros Hr HR. exact (cache_laws range Hr R view rinv lossy). Qed.

(** When the repository answers a read-modify-write with an unavailability
    error while the cache holds an entry for the id, however old, the caller is
    handed that entry with a nil error: the write is reported as done, and
    neither the callback ran to effect nor is anything stored. *)
Theorem unavailable_write_reported_done {S} range (R : Repository S) ctx id mutate w c s err w' e :
  Storage.ReadModifyUpdate R ctx id mutate (w, s) = (Err err, (w', s)) ->
  Is err (EStorage storage.ErrUnavailable) = true ->
  m c !! id = Some e ->
  runM (Storage.ReadModifyUpdate (wrap range R) ctx id mutate) w (c, s)
    = (Ok (user e), (w', (c, s))).
Proof.
  intros Hr He Hc. cbn. unfold ReadModifyUpdate. unfold_monad. rewrite Hr. rewrite He.
  unfold_monad. rewrite getStale_run, Hc. done.
Qed.

(** The answer of [Get], on every branch: an unexpired entry is served
    without a call to the repository; otherwise the repository decides, its
    user is cached and returned, and its error is returned unless it is
    unavailability or a context error and an entry exists, however old. *)
Theorem cached_get_decides {S} range (R : Repository S) ctx id w c s :
  fst (runM (Storage.Get (wrap range R) ctx id) w (c, s)) =
    let entry := m c !! id in
    let w1 := match entry with Some _ => tick w | None => w end in
    let fallback := result_of (Storage.Get R ctx id) w1 s in
    match entry with
    | Some e =>
        if w_now w (w_tick w) <=? exp e then Ok (user e)
        else match fallback with
             | Ok u => Ok u
             | Err err =>
                 if Is err (EStorage storage.ErrUnavailable) || Is err ECanceled ||
                    Is err EDeadlineExceeded
                 then Ok (user e) else Err err
             end
    | None => fallback
    end.
Proof.
  cbn. unfold Get, get. unfold_monad. destruct (m c !! id) as [e|] eqn:He; unfold_monad.
  - rewrite Z.leb_antisym. destruct (exp e <? _); cbn [negb]; unfold_monad; [|done].
    destruct (Storage.Get R ctx id (tick w, s)) as [[u|err] [w2 s2]]; unfold_monad; cbn [fst snd].
    + destruct (Get_finish_ok range w2 c id u) as [w3 ->]. done.
    + rewrite Get_finish_err, He. cbn [fst snd fmap option_fmap option_map].
      by destruct (_ || _ || _).
  - destruct (Storage.Get R ctx id (w, s)) as [[u|err] [w2 s2]]; unfold_monad; cbn [fst snd].
    + destruct (Get_finish_ok range w2 c id u) as [w3 ->]. done.
    + rewrite Get_finish_err, He. cbn [fst snd fmap option_fmap option_map].
      by destruct (_ || _ || _).
Qed.

(** The lookup, the wrapped call and the fill of [Get] are separate steps.
    When the user is updated after a [Get] read it and before it fills the
    cache, the cache is left with the old user: an update that was acknowledged
    is not seen by later reads until the entry expires. *)
Theorem stale_fill_hides_update {S} range (R : Repository S) id u w0 w1 c s0 ctx u' wu ws w3 w4 ctx3 :
  (forall n mm, range n mm ≡ₚ map_to_list mm) -> bounded c -> Id u' = id ->
  (* the reader, who missed the cache, reads [u] from the repository *)
  result_of (Storage.Get R ctx id) w0 s0 = Ok u ->
  (* a writer stores [u'] through the cache *)
  Storage.Update (wrap range R) ctx (Some u') (wu, (c, state_of (Storage.Get R ctx id) w0 s0))
    = (None, (w1, ws)) ->
  (* the reader fills the cache; within the TTL the next reader gets [u] *)
  let c' := state_of (Get_finish range id (Ok u)) w3 ws.1 in
  (forall e, m c' !! id = Some e -> w_now w4 (w_tick w4) <= exp e) ->
  fst (runM (Storage.Get (wrap range R) ctx3 id) w4 (c', ws.2)) = Ok u.
Proof.
  intros Hr Hb Hid Hread Hup c' Hlive.
  assert (Hb' : bounded ws.1).
  { revert Hup. cbn. unfold Update. unfold_monad.
    destruct (Storage.Update R _ _ _) as [[e|] [w2 s2]]; [done|]. cbn.
    intros [= _ <-]. cbn. rewrite Hid. apply (bounded_del wu c id Hb). }
  destruct (set_run range Hr w3 ws.1 id u Hb') as (c2 & w5 & now & Hs & _ & _ & _ & He & _).
  assert (c' = c2) as Hcc.
  { subst c'. destruct (Get_finish_ok range w3 ws.1 id u) as [w6 H]. unfold state_of in *.
    rewrite H. cbn [fst snd]. by rewrite Hs. }
  rewrite cached_get_decides. cbn zeta. rewrite Hcc in Hlive |- *. rewrite He.
  specialize (Hlive _ He). apply Z.leb_le in Hlive. by rewrite Hlive.
Qed.

(** A repository that holds one user and no more. *)
Definition cell : Repository (option User) := {|
  Storage.Create _ user _ := modifyM (fun _ => user) ;;; retM None;
  Storage.CreateWithIdempotency _ _ _ _ := retM (Err (EStorage storage.ErrUnavailable));
  Storage.Get _ _ :=
    s <-- getM ;;
    match s with Some u => retM (Ok u) | None => retM (Err (EStorage storage.ErrNotFound)) end;
  Storage.Update _ user := modifyM (fun _ => user) ;;; retM None;
  Storage.ReadModifyUpdate _ _ _ := retM (Err (EStorage storage.ErrUnavailable));
  Storage.Delete _ _ := modifyM (fun _ => None) ;;; retM None;
  Storage.List _ _ _ := retM (Err (EStorage storage.ErrUnavailable));
  Storage.Ping _ := retM None;
  Storage.Close := retM None
|}.

Definition carol' : User := mkUser "c" "Caroline" "c@example.org" 20 None None.
Definition empty_cache : State := NewCacheRepositoryWithLimit 100 1.

Lemma stale_fill_hides_update_witness :
  fst (runM (Storage.Get (wrap range0 cell) None "c") clock0
         (state_of (Get_finish range0 "c" (Ok carol)) clock0 empty_cache, Some carol')) = Ok carol.
Proof.
  apply (stale_fill_hides_update range0 cell "c" carol clock0 clock0 empty_cache (Some carol) None
    carol' clock0 (empty_cache, Some carol') clock0 clock0 None);
    [done|apply bounded_New|done|done| |].
  - vm_compute. reflexivity.
  - intros e. vm_compute. intros [= <-]. discriminate.
Defined.

Lemma unavailable_write_reported_done_witness :
  runM (Storage.ReadModifyUpdate (wrap range0 cell) None "c"
          (Some (fun u w => (Ok carol', w)))) clock0 (full_cache, Some carol)
    = (Ok carol, (clock0, (full_cache, Some carol))).
Proof.
  apply (unavailable_write_reported_done range0 cell None "c" (Some (fun u w => (Ok carol', w)))
    clock0 full_cache (Some carol) (EStorage storage.ErrUnavailable) clock0
    {| user := carol; exp := 9 |}); reflexivity.
Defined.

Lemma cache_refines_contract_witness :
  RepositoryLaws (wrap range0 MemoryRepository.repository)
    (fun cs => MemoryRepository.users cs.2)
    (cinv MemoryRepository.users MemoryRepository.wf) true.
Proof.
  apply (cache_refines_contract range0 _ _ _ false); [done|apply MemoryRepository.memory_laws].
Defined.

End CacheRepository.
