(* ===== verification/UserService.v ===== *)
(** [UserService] of [internal/service/user.go]: request validation, the unary
    handlers over an injected repository, and the three streaming handlers.

    The handlers run over any [Repository]; the theorems are proved against
    [RepositoryLaws], so they hold over the memory repository, over it behind
    the circuit breaker, and (with the caveat of [lossy]) behind the cache. *)
From S2P Require Import Prelude GoStrings GoErrors Storage Memory.
From Stdlib Require Import SpecFloat.

Module UserService.

(** * The service *)

Record ServiceLimits := mkLimits {
  MaxUsers : Z;
  MaxStreamMessages : Z;
  MaxStringBytes : Z;
  StreamInterval : Z
}.

Record Service (S : Type) := mkService {
  repository : option (Repository S);
  maxUsers : Z;
  maxStreamMessages : Z;
  maxStringBytes : Z;
  streamInterval : Z
}.
Arguments mkService {S}.
Arguments repository {S}.
Arguments maxUsers {S}.
Arguments maxStreamMessages {S}.
Arguments maxStringBytes {S}.
Arguments streamInterval {S}.

Definition NewUserServiceWithRepository {S} (repository : option (Repository S))
    (limits : ServiceLimits) : Service S :=
  {| repository := repository;
     maxUsers := if MaxUsers limits <? 1 then 10000 else MaxUsers limits;
     maxStreamMessages := if MaxStreamMessages limits <? 1 then 100 else MaxStreamMessages limits;
     maxStringBytes := if MaxStringBytes limits <? 1 then 4096 else MaxStringBytes limits;
     streamInterval :=
       if StreamInterval limits <=? 0 then 2 * 10 ^ 9 else StreamInterval limits |}.

(** Go's variadic [optional]: the first value, when there is one. *)
Definition NewUserService (optional : list ServiceLimits) : Service MemoryRepository.State :=
  let limits := {| MaxUsers := 10000; MaxStreamMessages := 100; MaxStringBytes := 4096;
                   StreamInterval := 2 * 10 ^ 9 |} in
  let limits := match optional with l :: _ => l | [] => limits end in
  let limits :=
    {| MaxUsers := if MaxUsers limits <? 1 then 10000 else MaxUsers limits;
       MaxStreamMessages :=
         if MaxStreamMessages limits <? 1 then 100 else MaxStreamMessages limits;
       MaxStringBytes := if MaxStringBytes limits <? 1 then 4096 else MaxStringBytes limits;
       StreamInterval :=
         if StreamInterval limits <=? 0 then 2 * 10 ^ 9 else StreamInterval limits |} in
  NewUserServiceWithRepository (Some MemoryRepository.repository) limits.

(** * Requests and responses *)

Record GetUserRequest := mkGetUser { get_Id : string }.
Record ListUsersRequest := mkListUsers { PageSize : Z; PageToken : string }.
Record ListUsersResponse := mkListUsersResponse { Users : list User; NextPageToken : string }.
Record CreateUserRequest := mkCreateUser {
  create_Name : string; create_Email : string; create_Age : Z; IdempotencyKey : string
}.
Record UpdateUserRequest := mkUpdateUser {
  update_Id : string; update_Name : string; update_Email : string; update_Age : Z
}.
Record DeleteUserRequest := mkDeleteUser { delete_Id : string }.
Record StreamUserEventsRequest := mkStreamUserEvents {
  stream_UserId : string; EventTypes : list string
}.
Record UserEvent := mkUserEvent {
  ev_UserId : string; EventType : string; Payload : string; ev_Timestamp : Timestamp
}.
Record MetricData := mkMetric { metric_UserId : string; MetricName : string; Value : spec_float }.
Record CollectMetricsResponse := mkCollectMetricsResponse {
  Count : Z; Sum : spec_float; Avg : spec_float
}.
Record ChatMessage := mkChat {
  chat_Id : string; chat_UserId : string; chat_Message : string;
  chat_Timestamp : option Timestamp
}.

(** * Validation *)

Definition maxPageSize : Z := 1000.
Definition defaultPageSize : Z := 50.

Definition validateContext {S} (ctx : option Ctx) : M S (option error) :=
  match ctx with
  | None => retM (Some (EApp (appErrors.ErrInvalidArgument "context is required")))
  | Some c => ctxErrM c
  end.

Definition validateText {S} (s : Service S) (value field : string) : option error :=
  if (slen value =? 0) || (maxStringBytes s <? slen value) || blank value
  then Some (EApp (appErrors.ErrInvalidArgument
              (field +:+ " is required and must be within the configured size limit")))
  else None.

Definition validateOptionalText (value : string) (maxBytes : Z) (field : string)
  : option error :=
  if bool_decide (value <> "") && ((maxBytes <? slen value) || blank value)
  then Some (EApp (appErrors.WithField
         (appErrors.WithReason (appErrors.ErrInvalidArgument (field +:+ " is invalid"))
            "FIELD_INVALID")
         field "is blank or exceeds the maximum length"))
  else None.

Section service.
(** [net/mail.ParseAddress]: the [Address] of the parsed value. *)
Context (ParseAddress : string -> option string).

Definition CRLF : string :=
  String.String (Ascii.ascii_of_nat 13) (String.String (Ascii.ascii_of_nat 10) "").

Definition parseEmail (value : string) : res string :=
  if ContainsAny value CRLF then Err (EOther "email contains control characters") else
  match ParseAddress value with
  | None => Err (EOther "invalid email")
  | Some address =>
      if bool_decide (address <> value) || negb (Contains address "@")
      then Err (EOther "invalid email")
      else Ok (TrimSpace value)
  end.

Definition validateUserFields (name email : string) (age maxBytes : Z) : res (string * string) :=
  if match validateOptionalText name maxBytes "name" with Some _ => true | None => false end
     || blank name
  then Err (EApp (appErrors.WithField
         (appErrors.WithReason (appErrors.ErrInvalidArgument "name is required") "FIELD_REQUIRED")
         "name" "must not be empty"))
  else
  match validateOptionalText email maxBytes "email" with
  | Some err => Err err
  | None =>
      match parseEmail email with
      | Err _ => Err (EApp (appErrors.WithField
             (appErrors.WithReason (appErrors.ErrInvalidArgument "email is invalid") "FIELD_INVALID")
             "email" "must be a valid email address"))
      | Ok normalizedEmail =>
          if (age <? 0) || (150 <? age)
          then Err (EApp (appErrors.WithField
                 (appErrors.WithReason
                    (appErrors.ErrInvalidArgument "age must be between 0 and 150")
                    "FIELD_OUT_OF_RANGE")
                 "age" "must be between 0 and 150"))
          else Ok (TrimSpace name, normalizedEmail)
      end
  end.

Definition dquote : string := String.String (Ascii.ascii_of_nat 34) "".

(** ** Identifiers, page tokens, errors *)

(** Sixteen random bytes in hexadecimal after the prefix. *)
Definition newID {S} (prefix : string) : M S (option string) :=
  bytes <-- randM ;;
  retM ((fun b => prefix +:+ "-" +:+ HexEncode b) <$> bytes).

Definition encodePageToken (afterID : string) : string :=
  if bool_decide (afterID = "") then "" else B64Encode afterID.

Definition decodePageToken (token : string) : option string :=
  if bool_decide (token = "") then Some "" else B64Decode token.

Definition mapStorageError (err : error) : error :=
  if Is err ECanceled || Is err EDeadlineExceeded then err
  else if Is err (EStorage storage.ErrNotFound) then
    EApp (appErrors.WithReason (appErrors.ErrNotFound "user not found") "USER_NOT_FOUND")
  else if Is err (EStorage storage.ErrCapacity) then
    EApp (appErrors.WithReason (appErrors.ErrResourceExhausted "user capacity reached")
            "USER_CAPACITY_REACHED")
  else if Is err (EStorage storage.ErrAlreadyExists) then
    EApp (appErrors.WithReason (appErrors.ErrAlreadyExists "user already exists")
            "USER_ALREADY_EXISTS")
  else if Is err (EStorage storage.ErrInvalid) then
    EApp (appErrors.WithReason (appErrors.ErrInvalidArgument "user data is invalid")
            "INVALID_USER_DATA")
  else
    EApp (appErrors.WithReason (appErrors.ErrUnavailable "storage temporarily unavailable")
            "STORAGE_UNAVAILABLE").

(** * Unary handlers *)

Definition id_required : error :=
  EApp (appErrors.WithField
    (appErrors.WithReason (appErrors.ErrInvalidArgument "id is required") "FIELD_REQUIRED")
    "id" "must not be empty").
Definition request_required : error :=
  EApp (appErrors.WithReason (appErrors.ErrInvalidArgument "request is required")
          "REQUEST_REQUIRED").

Section handlers.
Context {S : Type} (s : Service S).

(** [if s.repository == nil] and the call after it. *)
Definition with_repository {A} (call : Repository S -> M S (res A)) : M S (res A) :=
  match repository s with
  | None => retM (Err (mapStorageError (EStorage storage.ErrUnavailable)))
  | Some r => call r
  end.

(** [if err != nil { return nil, mapStorageError(err) }]. *)
Definition mapped {A B} (r : res A) (k : A -> B) : M S (res B) :=
  match r with
  | Err err => retM (Err (mapStorageError err))
  | Ok a => retM (Ok (k a))
  end.

Definition GetUser (ctx : option Ctx) (req : option GetUserRequest) : M S (res User) :=
  err <-- validateContext ctx ;;
  match err, req with
  | Some err, _ => retM (Err err)
  | None, None => retM (Err id_required)
  | None, Some req =>
      if blank (get_Id req) then retM (Err id_required) else
      with_repository (fun repo =>
        r <-- Storage.Get repo ctx (get_Id req) ;;
        mapped r (fun user => user))
  end.

(** [page_size] clamped to [1, maxPageSize], zero and below being the default. *)
Definition clampPageSize (size : Z) : Z :=
  if size <=? 0 then defaultPageSize
  else if maxPageSize <? size then maxPageSize
  else size.

Definition ListUsers (ctx : option Ctx) (req : option ListUsersRequest)
  : M S (res ListUsersResponse) :=
  err <-- validateContext ctx ;;
  match err, req with
  | Some err, _ => retM (Err err)
  | None, None => retM (Err request_required)
  | None, Some req =>
      with_repository (fun repo =>
        let size := clampPageSize (PageSize req) in
        match decodePageToken (PageToken req) with
        | None => retM (Err (EApp (appErrors.WithField
              (appErrors.WithReason (appErrors.ErrInvalidArgument "invalid page_token")
                 "FIELD_INVALID")
              "page_token" "is not a valid continuation token")))
        | Some afterID =>
            r <-- Storage.List repo ctx size afterID ;;
            mapped r (fun '(users, next) =>
              {| Users := users; NextPageToken := encodePageToken next |})
        end)
  end.

Definition CreateUser (ctx : option Ctx) (req : option CreateUserRequest) : M S (res User) :=
  err <-- validateContext ctx ;;
  match err, req with
  | Some err, _ => retM (Err err)
  | None, None => retM (Err request_required)
  | None, Some req =>
      match validateUserFields (create_Name req) (create_Email req) (create_Age req)
              (maxStringBytes s) with
      | Err err => retM (Err err)
      | Ok (name, email) =>
          match validateOptionalText (IdempotencyKey req) (maxStringBytes s) "idempotency_key" with
          | Some err => retM (Err err)
          | None =>
              id <-- newID "user" ;;
              match id with
              | None => retM (Err (EApp (appErrors.ErrInternal "could not allocate user id")))
              | Some id =>
                  ns <-- nowM ;;
                  let now := timestamp_of_ns ns in
                  let user := {| Id := id; Name := name; Email := email; Age := create_Age req;
                                 CreatedAt := Some now; UpdatedAt := Some now |} in
                  with_repository (fun repo =>
                    r <-- Storage.CreateWithIdempotency repo ctx (Some user) (maxUsers s)
                            (IdempotencyKey req) ;;
                    mapped r fst)
              end
          end
      end
  end.

(** The callback of [UpdateUser]: the non-zero fields of the request replace
    those of the current user. *)
Definition update_mutate (req : UpdateUserRequest) : ReadModifyUpdateFn := fun current w =>
  (Ok {| Id := Id current;
         Name := if bool_decide (update_Name req <> "") then TrimSpace (update_Name req)
                 else Name current;
         Email := if bool_decide (update_Email req <> "") then TrimSpace (update_Email req)
                  else Email current;
         Age := if negb (update_Age req =? 0) then update_Age req else Age current;
         CreatedAt := CreatedAt current;
         UpdatedAt := Some (timestamp_of_ns (w_now w (w_tick w))) |}, tick w).

Definition UpdateUser (ctx : option Ctx) (req : option UpdateUserRequest) : M S (res User) :=
  err <-- validateContext ctx ;;
  match err, req with
  | Some err, _ => retM (Err err)
  | None, None => retM (Err id_required)
  | None, Some req =>
      if blank (update_Id req) then retM (Err id_required) else
      with_repository (fun repo =>
        match validateOptionalText (update_Name req) (maxStringBytes s) "name" with
        | Some err => retM (Err err)
        | None =>
        match validateOptionalText (update_Email req) (maxStringBytes s) "email" with
        | Some err => retM (Err err)
        | None =>
        if bool_decide (update_Email req <> "") && negb (is_ok (parseEmail (update_Email req)))
        then retM (Err (EApp (appErrors.ErrInvalidArgument "email is invalid"))) else
        if (update_Age req <? 0) || (150 <? update_Age req)
        then retM (Err (EApp (appErrors.ErrInvalidArgument "age must be between 0 and 150"))) else
        r <-- Storage.ReadModifyUpdate repo ctx (update_Id req) (Some (update_mutate req)) ;;
        mapped r (fun updated => updated)
        end end)
  end.

Definition DeleteUser (ctx : option Ctx) (req : option DeleteUserRequest) : M S (res unit) :=
  err <-- validateContext ctx ;;
  match err, req with
  | Some err, _ => retM (Err err)
  | None, None => retM (Err id_required)
  | None, Some req =>
      if blank (delete_Id req) then retM (Err id_required) else
      with_repository (fun repo =>
        err <-- Storage.Delete repo ctx (delete_Id req) ;;
        mapped (match err with Some err => Err err | None => Ok tt end) (fun u => u))
  end.

(** * Streaming handlers *)

(** What a server stream does to the handler: its context, which case of the
    [select] is taken in iteration [i] ([Some e]: the context is done, with
    error [e]; [None]: the ticker fired), and the error of the [i]-th [Send]. *)
Record EventStream := mkEventStream {
  stream_Context : option Ctx;
  select_done : nat -> option ctx_status;
  send_error : nat -> option error
}.

(** [fmt.Sprintf("event_%d", i)] when the request names no type, the types of
    the request in turn otherwise. *)
Definition event_type (EventTypes : list string) (i : nat) : string :=
  match EventTypes with
  | [] => "event_" +:+ pretty i
  | t :: _ => default t (EventTypes !! (i mod length EventTypes)%nat)
  end.

(** The loop from iteration [i] with [n] iterations left: the events sent and
    the result of the handler. *)
Fixpoint stream_loop (req : StreamUserEventsRequest) (stream : EventStream) (n i : nat)
  : M S (list UserEvent * option error) :=
  match n with
  | O => retM ([], None)
  | Datatypes.S n =>
      match select_done stream i with
      | Some e => retM ([], Some (ctx_error e))
      | None =>
          ns <-- nowM ;;
          let event := {| ev_UserId := stream_UserId req;
                          EventType := event_type (EventTypes req) i;
                          Payload := "{" +:+ dquote +:+ "data" +:+ dquote +:+ ":" +:+ pretty i +:+ "}";
                          ev_Timestamp := timestamp_of_ns ns |} in
          match send_error stream i with
          | Some err => retM ([], Some err)
          | None =>
              rest <-- stream_loop req stream n (Datatypes.S i) ;;
              retM (event :: fst rest, snd rest)
          end
      end
  end.

(** The first failing [validateText] of a list of texts. *)
Fixpoint validateTexts (values : list string) (field : string) : option error :=
  match values with
  | [] => None
  | v :: vs => match validateText s v field with
               | Some err => Some err
               | None => validateTexts vs field
               end
  end.

Definition StreamUserEvents (req : option StreamUserEventsRequest) (stream : EventStream)
  : M S (list UserEvent * option error) :=
  match req with
  | None => retM ([], Some (EApp (appErrors.ErrInvalidArgument "user_id is required")))
  | Some req =>
      if blank (stream_UserId req)
      then retM ([], Some (EApp (appErrors.ErrInvalidArgument "user_id is required"))) else
      match validateText s (stream_UserId req) "user_id" with
      | Some err => retM ([], Some err)
      | None =>
          if maxStreamMessages s <? Z.of_nat (length (EventTypes req))
          then retM ([], Some (EApp (appErrors.ErrResourceExhausted "too many event types"))) else
          match validateTexts (EventTypes req) "event_type" with
          | Some err => retM ([], Some err)
          | None =>
              user <-- GetUser (stream_Context stream) (Some (mkGetUser (stream_UserId req))) ;;
              match user with
              | Err err => retM ([], Some err)
              | Ok _ => stream_loop req stream (Z.to_nat (maxStreamMessages s)) 0
              end
          end
      end
  end.

(** ** Metrics: float64 is IEEE 754 binary64 *)

Definition IsNaN (f : spec_float) : bool := match f with S754_nan => true | _ => false end.
Definition IsInf (f : spec_float) : bool :=
  match f with S754_infinity _ => true | _ => false end.
Definition fadd (a b : spec_float) : spec_float := SFadd 53 1024 a b.
Definition fdiv (a b : spec_float) : spec_float := SFdiv 53 1024 a b.
Definition fzero : spec_float := S754_zero false.
(** [float64(n)]. *)
Definition float_of_Z (n : Z) : spec_float := binary_normalize 53 1024 n 0 false.

(** What [Recv] yields: messages (nil included) and errors in order; after the
    last one the client has closed the stream and [Recv] returns [io.EOF]. *)
Fixpoint collect_loop (sum : spec_float) (count : Z) (recv : list (res (option MetricData)))
  : res (spec_float * Z) :=
  match recv with
  | [] => Ok (sum, count)
  | Err err :: _ => if Is err EEOF then Ok (sum, count) else Err err
  | Ok None :: _ => Err (EApp (appErrors.ErrInvalidArgument "metric is required"))
  | Ok (Some metric) :: recv =>
      if wrap32 (maxStreamMessages s) <=? count
      then Err (EApp (appErrors.ErrResourceExhausted "metric stream limit reached")) else
      match validateText s (metric_UserId metric) "user_id" with
      | Some err => Err err
      | None =>
      match validateText s (MetricName metric) "metric_name" with
      | Some err => Err err
      | None =>
      if IsNaN (Value metric) || IsInf (Value metric)
      then Err (EApp (appErrors.ErrInvalidArgument "metric value must be finite")) else
      let sum := fadd sum (Value metric) in
      if IsInf sum
      then Err (EApp (appErrors.ErrInvalidArgument "metric sum is out of range"))
      else collect_loop sum (wrap32 (count + 1)) recv
      end end
  end.

(** [close_error] is the error of [SendAndClose]. *)
Definition CollectUserMetrics (recv : list (res (option MetricData))) (close_error : option error)
  : res CollectMetricsResponse :=
  match collect_loop fzero 0 recv with
  | Err err => Err err
  | Ok (sum, count) =>
      let average := if 0 <? count then fdiv sum (float_of_Z count) else fzero in
      match close_error with
      | Some err => Err err
      | None => Ok {| Count := count; Sum := sum; Avg := average |}
      end
  end.

(** The replies sent and the result; [i] counts the sends. *)
Fixpoint ChatStream_loop (send_error : nat -> option error) (i : nat)
    (recv : list (res (option ChatMessage))) : M S (list ChatMessage * option error) :=
  match recv with
  | [] => retM ([], None)
  | Err err :: _ => retM ([], if Is err EEOF then None else Some err)
  | Ok None :: _ => retM ([], Some (EApp (appErrors.ErrInvalidArgument "message is required")))
  | Ok (Some msg) :: recv =>
      match validateText s (chat_UserId msg) "user_id" with
      | Some err => retM ([], Some err)
      | None =>
      match validateText s (chat_Message msg) "message" with
      | Some err => retM ([], Some err)
      | None =>
          ns <-- nowM ;;
          id <-- newID "msg" ;;
          match id with
          | None => retM ([], Some (EApp (appErrors.ErrInternal "could not allocate message id")))
          | Some id =>
              let reply := {| chat_Id := id; chat_UserId := chat_UserId msg;
                              chat_Message := chat_Message msg;
                              chat_Timestamp := Some (timestamp_of_ns ns) |} in
              match send_error i with
              | Some err => retM ([], Some err)
              | None =>
                  rest <-- ChatStream_loop send_error (Datatypes.S i) recv ;;
                  retM (reply :: fst rest, snd rest)
              end
          end
      end end
  end.

Definition ChatStream (send_error : nat -> option error) (recv : list (res (option ChatMessage)))
  : M S (list ChatMessage * option error) := ChatStream_loop send_error 0 recv.

End handlers.

(** * Invariant *)

(** What the service promises about every user it stores. *)
Definition name_ok (max : Z) (name : string) : Prop := name <> "" /\ slen name <= max.
Definition email_ok (max : Z) (email : string) : Prop :=
  exists raw, email = TrimSpace raw /\ ParseAddress raw = Some raw /\
    Contains raw "@" = true /\ ContainsAny raw CRLF = false /\ slen raw <= max.
Definition valid_user (max : Z) (u : User) : Prop :=
  name_ok max (Name u) /\ email_ok max (Email u) /\ 0 <= Age u <= 150.

(** * Lemmas *)

Lemma validateOptionalText_ok value max field :
  validateOptionalText value max field = None ->
  value <> "" -> slen value <= max /\ blank value = false.
Proof.
  unfold validateOptionalText. intros H Hv. rewrite bool_decide_eq_true_2 in H by done.
  cbn [andb] in H. case_match; bools; done.
Qed.

Lemma trimmed_name_ok max raw : blank raw = false -> slen raw <= max -> name_ok max (TrimSpace raw).
Proof.
  intros Hb Hl. split; [by apply blank_false|]. pose proof (slen_TrimSpace raw). lia.
Qed.

Lemma parseEmail_ok raw e :
  parseEmail raw = Ok e -> e = TrimSpace raw /\ ParseAddress raw = Some raw /\
    Contains raw "@" = true /\ ContainsAny raw CRLF = false.
Proof.
  unfold parseEmail. intros H. go_cases. bools. destruct_and?.
  match goal with H : ~ (?a <> ?b) |- _ => apply dec_stable in H; subst end. done.
Qed.

Lemma parsed_email_ok max raw e : parseEmail raw = Ok e -> slen raw <= max -> email_ok max e.
Proof. intros (-> & ? & ? & ?)%parseEmail_ok Hl. by exists raw. Qed.

Lemma Contains_nonempty raw : Contains raw "@" = true -> raw <> "".
Proof. by intros H ->. Qed.

(** Accepted fields are those of a valid user. *)
Lemma validateUserFields_ok name email age max n e :
  validateUserFields name email age max = Ok (n, e) ->
  n = TrimSpace name /\ e = TrimSpace email /\
  name_ok max n /\ email_ok max e /\ 0 <= age <= 150.
Proof.
  unfold validateUserFields. intros H. go_cases. bools.
  match goal with Hn : validateOptionalText name _ _ = None |- _ =>
    destruct (validateOptionalText_ok _ _ _ Hn ltac:(by apply not_blank_nonempty)) as [Hl _] end.
  match goal with He : parseEmail email = Ok _ |- _ =>
    pose proof (parseEmail_ok _ _ He) as (-> & _ & Hc & _) end.
  apply Contains_nonempty in Hc.
  match goal with He : validateOptionalText email _ _ = None |- _ =>
    destruct (validateOptionalText_ok _ _ _ He Hc) as [Hl' _] end.
  split_and!; try done; [by apply trimmed_name_ok|by eapply parsed_email_ok].
Qed.

Lemma validateContext_run {S} ctx w (st : S) :
  exists e w', validateContext ctx (w, st) = (e, (w', st)).
Proof. destruct ctx; do 2 eexists; reflexivity. Qed.

Lemma newID_run {S} prefix w (st : S) :
  newID prefix (w, st) = ((fun b => prefix +:+ "-" +:+ HexEncode b) <$> w_rand w (w_tick w), (tick w, st)).
Proof. done. Qed.

(** The callback of [UpdateUser] keeps the id, and keeps users valid when the
    request passed the handler's checks. *)
Lemma update_mutate_keeps_id req : keeps_id (update_mutate req).
Proof. intros u w u' w' [= <- _]. done. Qed.

Lemma update_mutate_valid max req u w u' w' :
  validateOptionalText (update_Name req) max "name" = None ->
  validateOptionalText (update_Email req) max "email" = None ->
  bool_decide (update_Email req <> "") && negb (is_ok (parseEmail (update_Email req))) = false ->
  0 <= update_Age req <= 150 -> valid_user max u ->
  update_mutate req u w = (Ok u', w') -> valid_user max u'.
Proof.
  intros Hn He Hp Ha (Hun & Hue & Hua) [= <- _]. unfold valid_user. cbn. split; [|split].
  - clear Hp. case_bool_decide as Hc; [|done]. destruct (validateOptionalText_ok _ _ _ Hn Hc).
    by apply trimmed_name_ok.
  - case_bool_decide as Hc; [|done]. destruct (validateOptionalText_ok _ _ _ He Hc) as [Hl _].
    cbn in Hp. destruct (parseEmail (update_Email req)) as [e|] eqn:Hpe; [|done].
    pose proof (parseEmail_ok _ _ Hpe) as (-> & _). by eapply parsed_email_ok.
  - case_match; lia.
Qed.

(** An error that reaches the caller of a unary handler: an application error or
    the context's own. *)
Definition client_error (e : error) : Prop := (exists a, e = EApp a) \/ IsContextError e = true.

Lemma mapStorageError_client err : client_error (mapStorageError err).
Proof.
  unfold mapStorageError, client_error, IsContextError.
  repeat (case_match; [by eauto|]). by eauto.
Qed.

Lemma app_client a : client_error (EApp a).
Proof. left. by eexists. Qed.

Lemma validateOptionalText_client value max field e :
  validateOptionalText value max field = Some e -> client_error e.
Proof. unfold validateOptionalText. case_match; [|done]. intros [= <-]. apply app_client. Qed.

Lemma validateUserFields_client name email age max e :
  validateUserFields name email age max = Err e -> client_error e.
Proof.
  unfold validateUserFields. intros H. repeat case_match; simplify_eq;
    eauto using app_client, validateOptionalText_client.
Qed.

Section over_repository.
Context {S : Type} (s : Service S) (R : Repository S) (view : S -> gmap string User)
  (rinv : S -> Prop) (lossy : bool) `{!RepositoryLaws R view rinv lossy}
  (HR : repository s = Some R).

(** The state of the service: the repository's invariant, valid users only, and
    no more of them than the limit. *)
Definition sinv (st : S) : Prop :=
  rinv st /\ (forall id u, view st !! id = Some u -> valid_user (maxStringBytes s) u) /\
  Z.of_nat (size (view st)) <= Z.max 0 (maxUsers s).

Lemma sinv_rinv st : sinv st -> rinv st.
Proof. by intros [? _]. Qed.

Lemma sinv_keeps st st' : sinv st -> rinv st' -> keeps view st st' -> sinv st'.
Proof. unfold sinv, keeps. intros (_ & Hv & Hs) Hr ->. done. Qed.

Lemma sinv_insert st st' id u :
  sinv st -> rinv st' -> view st' = <[id := u]> (view st) -> valid_user (maxStringBytes s) u ->
  (is_Some (view st !! id) \/ Z.of_nat (size (view st)) < maxUsers s) -> sinv st'.
Proof.
  intros (_ & Hv & Hs) Hr Hst' Hu Hroom. split; [done|]. rewrite Hst'. split.
  - intros id' u'. rewrite lookup_insert. case_decide; [by intros [= <-]|apply Hv].
  - rewrite map_size_insert. destruct Hroom as [[u0 ->]|?]; cbn; [done|]. case_match; cbn; lia.
Qed.

Lemma sinv_delete st st' id :
  sinv st -> rinv st' -> view st' = delete id (view st) -> sinv st'.
Proof.
  intros (_ & Hv & Hs) Hr Hst'. split; [done|]. rewrite Hst'. split.
  - intros id' u'. rewrite lookup_delete_Some. intros [_ ?]. by eapply Hv.
  - rewrite map_size_delete. case_match; cbn; lia.
Qed.

(** An operation of the repository run from a state of the service. *)
Ltac run_op H := unfold_monad;
  match goal with
  | |- context [?op (?w, ?st)] =>
      lazymatch type of op with M _ _ =>
        pose proof (H w st) as Hop; unfold_monad;
        let r := fresh "r" in destruct (op (w, st)) as [r [? ?]]; cbn [fst snd] in * end
  end.

Lemma validateContext_spec ctx w (st : S) :
  exists e w', validateContext ctx (w, st) = (e, (w', st)) /\
    match e with Some e => client_error e | None => True end.
Proof.
  destruct ctx as [c|]; (do 2 eexists; split; [reflexivity|]); cbn; [|left; by eexists].
  destruct (ctx_err_at c (w_tick w)) as [[]|]; cbn; [by right|by right|done].
Qed.

#[local] Hint Resolve sinv_keeps sinv_rinv app_client mapStorageError_client
  validateOptionalText_client validateUserFields_client : go.

(** The shape of every handler's outcome: the invariant holds again, a failure
    left the users alone and is safe to show to the caller. *)
Definition handled {A} (post : S -> A -> S -> Prop) (st : S) (r : res A) (st' : S) : Prop :=
  sinv st' /\
  match r with
  | Ok a => post st a st'
  | Err e => client_error e /\ keeps view st st'
  end.

Lemma handled_err {A} (post : S -> A -> S -> Prop) st e :
  sinv st -> client_error e -> handled post st (Err e) st.
Proof. by intros. Qed.
#[local] Hint Resolve handled_err : go.

(** Run the context check, then every guard that ends in an error. *)
Ltac guards :=
  match goal with |- context [validateContext ?ctx (?w, ?st)] =>
    destruct (validateContext_spec ctx w st) as ([e|] & w1 & -> & He) end;
  cbn [fst snd]; [by auto with go|];
  match goal with |- context [match ?req with Some _ => _ | None => _ end] =>
    destruct req as [rq|]; [|cbn [fst snd]; by eauto with go] end.

Lemma GetUser_spec ctx req :
  spec sinv (GetUser s ctx req)
    (handled (fun st u st' => keeps view st st' /\
       exists rq, req = Some rq /\ view st !! get_Id rq = Some u)).
Proof.
  intros w st Hi. unfold GetUser, with_repository. rewrite HR. unfold_monad. guards.
  case_match; [by eauto with go|].
  run_op (law_get ctx (get_Id rq)). destruct Hop as (Hr & Hk & Hp); [by apply Hi|].
  destruct r; cbn; (split; [by eapply sinv_keeps|]); eauto with go.
Qed.

Lemma DeleteUser_spec ctx req :
  spec sinv (DeleteUser s ctx req)
    (handled (fun st _ st' => exists rq, req = Some rq /\
       is_Some (view st !! delete_Id rq) /\ view st' = delete (delete_Id rq) (view st))).
Proof.
  intros w st Hi. unfold DeleteUser, with_repository. rewrite HR. unfold_monad. guards.
  case_match; [by eauto with go|].
  run_op (law_delete ctx (delete_Id rq)). destruct Hop as (Hr & Hp); [by apply Hi|].
  destruct r; cbn in *.
  - split; [by eapply sinv_keeps|]. eauto with go.
  - destruct Hp as [Hs Hp]. split; [by eapply sinv_delete|]. eauto.
Qed.

Lemma ListUsers_spec ctx req :
  spec sinv (ListUsers s ctx req)
    (handled (fun st resp st' => keeps view st st' /\ exists rq after next, req = Some rq /\
       decodePageToken (PageToken rq) = Some after /\
       NextPageToken resp = encodePageToken next /\
       is_page (view st) (clampPageSize (PageSize rq)) after (Users resp) next)).
Proof.
  intros w st Hi. unfold ListUsers, with_repository. rewrite HR. unfold_monad. guards.
  destruct (decodePageToken (PageToken rq)) as [after|] eqn:Ht; [|cbn; by eauto with go].
  run_op (law_list ctx (clampPageSize (PageSize rq)) after).
  destruct Hop as (Hr & Hk & Hp); [by apply Hi|].
  destruct r as [[us next]|e]; cbn in *; (split; [by eapply sinv_keeps|]); eauto with go.
  split; [done|]. destruct Hp as [_ Hp]. eauto 10.
Qed.

(** The user a request describes. *)
Definition requested_user (rq : CreateUserRequest) (u : User) : Prop :=
  Name u = TrimSpace (create_Name rq) /\ Email u = TrimSpace (create_Email rq) /\
  Age u = create_Age rq /\ CreatedAt u = UpdatedAt u /\
  exists bytes, Id u = "user-" +:+ HexEncode bytes.

Lemma CreateUser_spec ctx req :
  spec sinv (CreateUser s ctx req)
    (handled (fun st u st' => exists rq, req = Some rq /\
       ((requested_user rq u /\ view st !! Id u = None /\
         Z.of_nat (size (view st)) < maxUsers s /\ view st' = <[Id u := u]> (view st)) \/
        ((exists k, view st !! k = Some u) /\ keeps view st st')))).
Proof.
  intros w st Hi. unfold CreateUser, with_repository. rewrite HR. unfold_monad. guards.
  destruct (validateUserFields _ _ _ _) as [[n e]|err] eqn:Hf.
  2:{ cbn. by eauto with go. }
  destruct (validateOptionalText (IdempotencyKey rq) _ _) eqn:Hk; [cbn; by eauto with go|].
  rewrite newID_run.
  destruct (w_rand w1 (w_tick w1)) as [bytes|] eqn:Hb; cbn [fmap option_fmap option_map fst snd];
    [|by eauto with go].
  apply validateUserFields_ok in Hf as (-> & -> & Hn & He' & Ha).
  match goal with |- context [Storage.CreateWithIdempotency R ctx (Some ?u) ?mu ?key] =>
    pose proof (law_create ctx u mu key) as Hlaw; set (user := u) in * end.
  run_op Hlaw. destruct Hop as (Hr & Hp); [by apply Hi|].
  destruct r as [[u []]|err]; cbn in *.
  - destruct Hp as [Hp Hkp]. split; [by eapply sinv_keeps|]. eauto.
  - destruct Hp as (-> & Hne & Hfresh & Hroom & Hst').
    split; [eapply sinv_insert; eauto; subst user; cbn; done|].
    exists rq. split; [done|]. left. subst user. unfold requested_user. cbn in *. split_and!; try done. by exists bytes.
  - split; [by eapply sinv_keeps|]. eauto with go.
Qed.

Lemma UpdateUser_spec ctx req :
  spec sinv (UpdateUser s ctx req)
    (handled (fun st u' st' => exists rq u, req = Some rq /\ view st !! update_Id rq = Some u /\
       ((exists w0 w1, update_mutate rq u w0 = (Ok u', w1) /\
           view st' = <[update_Id rq := u']> (view st)) \/
        (lossy = true /\ u' = u /\ keeps view st st')))).
Proof.
  intros w st Hi. unfold UpdateUser, with_repository. rewrite HR. unfold_monad. guards.
  case_match; [by eauto with go|].
  destruct (validateOptionalText (update_Name rq) _ _) eqn:Hn; [cbn; by eauto with go|].
  destruct (validateOptionalText (update_Email rq) _ _) eqn:Hm; [cbn; by eauto with go|].
  destruct (bool_decide (update_Email rq <> "") && _) eqn:Hp; [cbn; by eauto with go|].
  destruct (_ || _) eqn:Ha; [cbn; by eauto with go|].
  run_op (law_rmu ctx (update_Id rq) (update_mutate rq) (update_mutate_keeps_id rq)).
  destruct Hop as (Hr & Hpost); [by apply Hi|].
  destruct r as [u'|err]; cbn in *; [|split; [by eapply sinv_keeps|]; eauto with go].
  destruct Hpost as [(u & wa & wb & Hu & Hmut & Hst')|(Hl & Hu & Hk)].
  - split; [|by eauto 10]. apply orb_false_iff in Ha as [?%Z.ltb_ge ?%Z.ltb_ge].
    eapply sinv_insert; eauto.
    eapply update_mutate_valid; [exact Hn|exact Hm|exact Hp|lia| |exact Hmut].
    by eapply (proj1 (proj2 Hi)).
  - split; [by eapply sinv_keeps|]. exists rq, u'. eauto 10.
Qed.
End over_repository.

(** ** Page tokens and walking the list *)

Lemma page_token_round_trip id : decodePageToken (encodePageToken id) = Some id.
Proof.
  unfold decodePageToken, encodePageToken.
  destruct (decide (id = "")) as [->|Hne]; [done|].
  rewrite (bool_decide_eq_false_2 (id = "")) by done.
  rewrite bool_decide_eq_false_2 by by apply B64Encode_nonempty. apply B64Decode_Encode.
Qed.

Lemma encodePageToken_empty id : encodePageToken id = "" <-> id = "".
Proof.
  unfold encodePageToken. case_bool_decide; [naive_solver|].
  split; [|done]. intros H'. by apply B64Encode_nonempty in H'.
Qed.

Lemma clampPageSize_range size : 1 <= clampPageSize size <= 1000.
Proof. unfold clampPageSize, defaultPageSize, maxPageSize. repeat case_match; bools; lia. Qed.

(** A client that follows [next_page_token] until it is empty, for at most [n]
    pages. *)
Fixpoint walk {S} (s : Service S) (n : nat) (size : Z) (token : string) : M S (res (list User)) :=
  match n with
  | O => retM (Err (EOther "more pages"))
  | Datatypes.S n =>
      r <-- ListUsers s (Some Background) (Some (mkListUsers size token)) ;;
      match r with
      | Err e => retM (Err e)
      | Ok resp =>
          if bool_decide (NextPageToken resp = "") then retM (Ok (Users resp)) else
          rest <-- walk s n size (NextPageToken resp) ;;
          match rest with
          | Err e => retM (Err e)
          | Ok us => retM (Ok (Users resp ++ us))
          end
      end
  end.

(** [us] are the users of [v] whose id is above [after], each once, in
    increasing order of id. *)
Definition users_after (v : gmap string User) (after : string) (us : list User) : Prop :=
  exists ids, StronglySorted String.le ids /\ NoDup ids /\
    (forall id, id ∈ ids <-> is_Some (v !! id) /\ str_gt id after = true) /\
    mapM (fun id => v !! id) ids = Some us.

Section walking.
Context {S : Type} (s : Service S) (R : Repository S) (view : S -> gmap string User)
  (rinv : S -> Prop) (lossy : bool) `{!RepositoryLaws R view rinv lossy}
  (HR : repository s = Some R).

(** The states in which the repository answers every well-formed listing. *)
Context (live : S -> Prop)
  (Hlive : forall w st limit after, live st -> 0 < limit ->
     is_ok (result_of (Storage.List R (Some Background) limit after) w st) = true /\
     live (state_of (Storage.List R (Some Background) limit after) w st)).

Lemma ListUsers_live w st size after :
  rinv st -> live st ->
  exists us next w' st',
    ListUsers s (Some Background) (Some (mkListUsers size (encodePageToken after))) (w, st)
      = (Ok (mkListUsersResponse us (encodePageToken next)), (w', st')) /\
    rinv st' /\ live st' /\ view st' = view st /\
    is_page (view st) (clampPageSize size) after us next.
Proof.
  intros Hi Hl. unfold ListUsers, with_repository. rewrite HR. unfold_monad.
  cbn [validateContext]. unfold ctxErrM. cbn [ctx_err_at Background fmap option_fmap option_map fst snd].
  cbn [PageToken PageSize]. rewrite page_token_round_trip.
  pose proof (clampPageSize_range size) as Hc.
  pose proof (law_list (Some Background) (clampPageSize size) after (tick w) st Hi) as Hlaw.
  destruct (Hlive (tick w) st (clampPageSize size) after Hl ltac:(lia)) as [Hok Hl'].
  unfold_monad. destruct (Storage.List R _ _ _ _) as [[[us next]|e] [w' st']]; cbn in *; [|done].
  destruct Hlaw as (Hr & Hk & _ & Hp). by exists us, next, w', st'.
Qed.

(** Splitting the ids above a cursor at the end of a page. *)
Lemma page_split v limit after us next ids :
  (forall id u, v !! id = Some u -> id <> "") ->
  0 < limit -> is_page v limit after us next ->
  StronglySorted String.le ids -> NoDup ids ->
  (forall id, id ∈ ids <-> is_Some (v !! id) /\ str_gt id after = true) ->
  (next = "" /\ mapM (fun id => v !! id) ids = Some us) \/
  (next <> "" /\ exists p q, ids = p ++ q /\ p <> [] /\ mapM (fun id => v !! id) p = Some us /\
     StronglySorted String.le q /\ NoDup q /\
     (forall id, id ∈ q <-> is_Some (v !! id) /\ str_gt id next = true)).
Proof.
  intros Hne Hlim (ids' & Hs' & Hnd' & Hin' & Hm & Hnext) Hs Hnd Hin.
  assert (ids' = ids) as -> by (apply sorted_ids_unique; try done; intros x; by rewrite Hin, Hin').
  destruct (Z.ltb_spec limit (Z.of_nat (length ids))) as [Hlt|Hge]; subst next.
  2:{ left. split; [done|]. rewrite take_ge in Hm by lia. done. }
  right. destruct (last (take (Z.to_nat limit) ids)) as [x|] eqn:Hx.
  2:{ apply last_None in Hx. apply (f_equal length) in Hx. rewrite length_take in Hx. cbn in Hx. lia. }
  apply last_Some in Hx as [p Hp]. change (default "" (Some x)) with x.
  assert (Hids : ids = p ++ [x] ++ drop (Z.to_nat limit) ids)
    by (rewrite app_assoc, <- Hp; by rewrite take_drop).
  set (q := drop (Z.to_nat limit) ids) in *. clearbody q. subst ids.
  split.
  { intros ->. destruct (proj1 (Hin "")) as [[u Hu] _]; [apply elem_of_app; right; by left|]. by apply Hne in Hu. }
  exists (p ++ [x]), q. split_and!; try done.
  - by rewrite <- app_assoc.
  - by destruct p.
  - by rewrite <- Hp.
  - apply StronglySorted_app in Hs as (_ & _ & Hs). by apply StronglySorted_cons in Hs as [_ ?].
  - apply NoDup_app in Hnd as (_ & _ & Hnd). by apply NoDup_cons in Hnd as [_ ?].
  - intros id. rewrite (sorted_after_take p q x id Hs Hnd), Hin.
    enough (str_gt id x = true -> str_gt id after = true) by tauto.
    destruct (proj1 (Hin x)) as [_ Hxa]; [apply elem_of_app; right; by left|].
    rewrite !str_gt_true in *. intros [H1 H2]. destruct Hxa as [H3 H4].
    split; [by etrans|]. intros ->. apply H4. by apply (anti_symm String.le).
Qed.

Lemma mapM_app_Some (v : gmap string User) p q us vs :
  mapM (fun id => v !! id) p = Some us -> mapM (fun id => v !! id) q = Some vs ->
  mapM (fun id => v !! id) (p ++ q) = Some (us ++ vs).
Proof. intros H1 H2. apply mapM_Some in H1, H2. apply mapM_Some. by apply Forall2_app. Qed.

Lemma walk_from n w st size after ids :
  rinv st -> live st -> (forall id u, view st !! id = Some u -> id <> "") ->
  StronglySorted String.le ids -> NoDup ids ->
  (forall id, id ∈ ids <-> is_Some (view st !! id) /\ str_gt id after = true) ->
  (length ids < n)%nat ->
  exists us, result_of (walk s n size (encodePageToken after)) w st = Ok us /\
    mapM (fun id => view st !! id) ids = Some us.
Proof.
  revert w st after ids. induction n as [|n IH]; [lia|].
  intros w st after ids Hi Hl Hne Hs Hnd Hin Hn. cbn [walk].
  destruct (ListUsers_live w st size after Hi Hl) as (us & next & w1 & st1 & Hrun & Hi1 & Hl1 & Hv & Hp).
  unfold_monad. rewrite Hrun. cbn [NextPageToken Users].
  pose proof (clampPageSize_range size) as Hc.
  destruct (page_split _ (clampPageSize size) _ _ _ ids Hne ltac:(lia) Hp Hs Hnd Hin)
    as [[-> Hm]|(Hnx & p & q & -> & Hpe & Hm & Hs2 & Hnd2 & Hin2)].
  { exists us. done. }
  rewrite bool_decide_eq_false_2 by by rewrite encodePageToken_empty.
  rewrite length_app in Hn. assert (0 < length p)%nat by (destruct p; [done|cbn; lia]).
  destruct (IH w1 st1 next q) as (vs & Hw & Hm2); rewrite ?Hv; try done; try lia.
  rewrite Hv in Hm2. unfold_monad. destruct (walk s n size _ _) as [r [w2 st2]]. cbn in *. subst r.
  exists (us ++ vs). split; [done|]. by apply mapM_app_Some.
Qed.

(** The ids of a map above a cursor, as a sorted list. *)
Lemma sorted_ids_exist (v : gmap string User) :
  exists ids, StronglySorted String.le ids /\ NoDup ids /\ length ids = size v /\
    forall id, id ∈ ids <-> is_Some (v !! id).
Proof.
  exists (merge_sort String.le (map_to_list v).*1). split_and!.
  - apply merge_sort_sorted.
  - apply merge_sort_NoDup, NoDup_fst_map_to_list.
  - rewrite (merge_sort_Permutation String.le), length_fmap. apply length_map_to_list.
  - intros id. rewrite merge_sort_elem, list_elem_of_fmap. split.
    + intros ([k u] & -> & Hin%elem_of_map_to_list). by eexists.
    + intros [u Hu]. exists (id, u). by rewrite elem_of_map_to_list.
Qed.

End walking.

(** ** Streams *)

(** The [i]-th event of a stream, but for its time stamp. *)
Definition is_event (req : StreamUserEventsRequest) (i : nat) (e : UserEvent) : Prop :=
  ev_UserId e = stream_UserId req /\ EventType e = event_type (EventTypes req) i /\
  Payload e = "{" +:+ dquote +:+ "data" +:+ dquote +:+ ":" +:+ pretty i +:+ "}".

(** Iteration [i] of the loop sends its event. *)
Definition sends (stream : EventStream) (i : nat) : Prop :=
  select_done stream i = None /\ send_error stream i = None.

(** Why iteration [i] ends the stream with [e]. *)
Definition stops (stream : EventStream) (i : nat) (e : error) : Prop :=
  (exists c, select_done stream i = Some c /\ e = ctx_error c) \/
  (select_done stream i = None /\ send_error stream i = Some e).

Lemma stream_loop_run {S} req stream n i w (st : S) :
  exists events result w', stream_loop req stream n i (w, st) = ((events, result), (w', st)) /\
    (length events <= n)%nat /\
    (forall k e, events !! k = Some e -> is_event req (i + k) e /\ sends stream (i + k)) /\
    match result with
    | None => length events = n
    | Some e => (length events < n)%nat /\ stops stream (i + length events) e
    end.
Proof.
  revert i w. induction n as [|n IH]; intros i w; cbn [stream_loop].
  { exists [], None, w. cbn. split_and!; try done; lia. }
  destruct (select_done stream i) as [c|] eqn:Hd.
  { exists [], (Some (ctx_error c)), w. cbn. split_and!; try done; try lia.
    left. exists c. by rewrite Nat.add_0_r. }
  unfold_monad. destruct (send_error stream i) as [err|] eqn:He.
  { exists [], (Some err), (tick w). cbn. split_and!; try done; try lia.
    right. by rewrite Nat.add_0_r. }
  destruct (IH (Datatypes.S i) (tick w)) as (events & result & w' & Hrun & Hlen & Hev & Hres).
  rewrite Hrun. cbn [fst snd]. do 3 eexists. split; [reflexivity|]. cbn [length]. split_and!.
  - lia.
  - intros [|k] e Hk; [injection Hk as <-|].
    + rewrite Nat.add_0_r. done.
    + apply Hev in Hk. by rewrite Nat.add_succ_comm in Hk.
  - rewrite Nat.add_succ_comm in Hres. destruct result; [|lia]. split; [lia|apply Hres].
Qed.

Lemma GetUser_state {S} (s : Service S) ctx req w st :
  GetUser s ctx req (w, st) = (result_of (GetUser s ctx req) w st,
    snd (GetUser s ctx req (w, st))).
Proof. unfold result_of. by destruct (GetUser s ctx req (w, st)). Qed.

(** The handler calls the repository through [GetUser] alone. *)
Lemma StreamUserEvents_state {S} (s : Service S) req stream w st :
  state_of (StreamUserEvents s req stream) w st = st \/
  exists id w0, state_of (StreamUserEvents s req stream) w st =
    state_of (GetUser s (stream_Context stream) (Some (mkGetUser id))) w0 st.
Proof.
  unfold StreamUserEvents. destruct req as [rq|]; [|by left].
  do 4 (case_match; [by left|]). right. exists (stream_UserId rq), w. unfold_monad.
  destruct (GetUser s _ _ (w, st)) as [[u|e] [w1 st1]]; [|done].
  by destruct (stream_loop_run rq stream (Z.to_nat (maxStreamMessages s)) 0 w1 st1)
    as (? & ? & ? & -> & _).
Qed.

(** ** Metrics *)

Definition metric_ok {S} (s : Service S) (m : MetricData) : Prop :=
  validateText s (metric_UserId m) "user_id" = None /\
  validateText s (MetricName m) "metric_name" = None /\
  IsNaN (Value m) = false /\ IsInf (Value m) = false.

(** No partial sum overflows. *)
Fixpoint sums_finite (sum : spec_float) (ms : list MetricData) : Prop :=
  match ms with
  | [] => True
  | m :: ms => IsInf (fadd sum (Value m)) = false /\ sums_finite (fadd sum (Value m)) ms
  end.

Definition float_sum (sum : spec_float) (ms : list MetricData) : spec_float :=
  fold_left (fun acc m => fadd acc (Value m)) ms sum.

(** The client has closed the stream. *)
Definition at_eof {A} (recv : list (res A)) : Prop :=
  match recv with [] => True | Err e :: _ => Is e EEOF = true | _ => False end.

Lemma wrap32_range z : - 2 ^ 31 <= wrap32 z < 2 ^ 31.
Proof. unfold wrap32. pose proof (Z.mod_pos_bound (z + 2 ^ 31) (2 ^ 32) ltac:(lia)). lia. Qed.

Lemma collect_loop_ok {S} (s : Service S) sum count recv r :
  0 <= count ->
  collect_loop s sum count recv = Ok r <->
  exists ms tail, recv = map (fun m => Ok (Some m)) ms ++ tail /\ at_eof tail /\
    Forall (metric_ok s) ms /\ sums_finite sum ms /\
    (ms = [] \/ count + Z.of_nat (length ms) <= wrap32 (maxStreamMessages s)) /\
    r = (float_sum sum ms, count + Z.of_nat (length ms)).
Proof.
  pose proof (wrap32_range (maxStreamMessages s)) as Hlim.
  revert sum count. induction recv as [|x recv IH]; intros sum count Hc; cbn [collect_loop].
  { split.
    - intros [= <-]. exists [], []. cbn. rewrite Z.add_0_r. split_and!; auto.
    - intros (ms & tail & Hrecv & _ & _ & _ & _ & ->). destruct ms; [|done]. cbn.
      by rewrite Z.add_0_r. }
  destruct x as [[m|]|e].
  - split.
    + intros H. go_cases. bools. rewrite wrap32_small in H by lia.
      apply IH in H as (ms & tail & -> & Ht & Hms & Hsum & Hcnt & ->); [|lia].
      exists (m :: ms), tail. cbn [length sums_finite map app]. split_and!; try done.
      * by constructor.
      * right. destruct Hcnt as [->|]; cbn [length]; lia.
      * cbn. f_equal. lia.
    + intros (ms & tail & Hrecv & Ht & Hms & Hsum & Hcnt & ->).
      destruct ms as [|m' ms]; cbn in Hrecv; [by subst tail|].
      injection Hrecv as -> ->. inversion Hms as [|? ? (Hu & Hn & Hnan & Hinf) Hms']; subst.
      cbn in Hsum. destruct Hsum as [Hs0 Hsum]. destruct Hcnt as [?|Hcnt]; [done|].
      cbn [length] in Hcnt. rewrite (proj2 (Z.leb_gt _ _)) by lia.
      rewrite Hu, Hn, Hnan, Hinf. cbn [orb]. rewrite Hs0. rewrite wrap32_small by lia.
      apply IH; [lia|]. exists ms, tail. split_and!; try done; [right; lia|].
      cbn. f_equal. lia.
  - split; [done|]. intros (ms & tail & Hrecv & Ht & _). destruct ms; cbn in Hrecv; [|done].
    by subst tail.
  - split.
    + intros H. case_match; [|done]. injection H as <-. exists [], (Err e :: recv). cbn.
      rewrite Z.add_0_r. split_and!; auto.
    + intros (ms & tail & Hrecv & Ht & _ & _ & _ & ->). destruct ms; cbn in Hrecv; [|done].
      subst tail. cbn in Ht. rewrite Ht. cbn. by rewrite Z.add_0_r.
Qed.

(** ** Idempotency keys over the memory repository *)

(** A [CreateUser] that succeeds passed the check of its key and reached the
    repository. *)
Lemma created_through {S} (s : Service S) R ctx rq w st u :
  repository s = Some R -> result_of (CreateUser s ctx (Some rq)) w st = Ok u ->
  validateOptionalText (IdempotencyKey rq) (maxStringBytes s) "idempotency_key" = None /\
  exists user w1 b w2 st',
    Storage.CreateWithIdempotency R ctx (Some user) (maxUsers s) (IdempotencyKey rq) (w1, st)
      = (Ok (u, b), (w2, st')) /\
    state_of (CreateUser s ctx (Some rq)) w st = st'.
Proof.
  intros HR. unfold result_of, state_of, CreateUser, with_repository. rewrite HR. unfold_monad.
  destruct (validateContext_run ctx w st) as ([e|] & w1 & ->); [done|].
  destruct (validateUserFields _ _ _ _) as [[n e]|]; [|done].
  destruct (validateOptionalText (IdempotencyKey rq) _ _); [done|].
  rewrite newID_run. destruct (w_rand _ _) as [b|]; cbn [fmap option_fmap option_map fst snd]; [|done].
  match goal with |- context [Storage.CreateWithIdempotency R ctx (Some ?usr) ?mu ?key ?ws] =>
    destruct (Storage.CreateWithIdempotency R ctx (Some usr) mu key ws) as [[[u' b']|e'] [w2 st']] eqn:Hrun
  end; cbn; [|done].
  intros [= ->]. split; [done|]. by do 5 eexists.
Qed.

Lemma created_key_bound s ctx rq w (st : MemoryRepository.State) u :
  repository s = Some MemoryRepository.repository -> IdempotencyKey rq <> "" ->
  MemoryRepository.wf st -> result_of (CreateUser s ctx (Some rq)) w st = Ok u ->
  MemoryRepository.bound (IdempotencyKey rq) (Id u) (state_of (CreateUser s ctx (Some rq)) w st).
Proof.
  intros HR Hk Hwf Hu.
  destruct (created_through s _ ctx rq w st u HR Hu) as (_ & user & w1 & b & w2 & st' & Hrun & ->).
  pose proof (MemoryRepository.law_create ctx user (maxUsers s) (IdempotencyKey rq) w1 st Hwf) as [Hwf' _].
  cbn in Hrun. unfold state_of in Hwf'. rewrite Hrun in Hwf'. cbn in Hwf'.
  destruct (MemoryRepository.create_ok_bound _ _ _ _ _ _ _ _ _ _ Hk Hrun) as (id & Hb & Hid).
  by destruct (Hwf' _ _ Hid) as [-> _].
Qed.

(** ** Steps of the service *)

(** One call of one client. *)
Inductive step {S} (s : Service S) : S -> S -> Prop :=
| step_get w ctx req st : step s st (state_of (GetUser s ctx req) w st)
| step_list w ctx req st : step s st (state_of (ListUsers s ctx req) w st)
| step_create w ctx req st : step s st (state_of (CreateUser s ctx req) w st)
| step_update w ctx req st : step s st (state_of (UpdateUser s ctx req) w st)
| step_delete w ctx req st : step s st (state_of (DeleteUser s ctx req) w st)
| step_stream w req stream st : step s st (state_of (StreamUserEvents s req stream) w st).

(** Over a repository that only promises which changes its operations can make,
    every call leaves valid users, within the capacity. *)
Section safely.
Context {S : Type} (s : Service S) (R : Repository S) (view : S -> gmap string User)
  (rinv : S -> Prop) (norm : User -> User) `{HS : !RepositorySafety R view rinv norm}
  (HR : repository s = Some R).

Lemma norm_valid u : valid_user (maxStringBytes s) u -> valid_user (maxStringBytes s) (norm u).
Proof using HS.
  unfold valid_user. by destruct (safe_norm u) as (_ & -> & -> & ->).
Qed.

Lemma good_inserted st st' user :
  sinv s view rinv st -> rinv st' -> valid_user (maxStringBytes s) user ->
  may_insert norm user (maxUsers s) (view st) (view st') -> sinv s view rinv st'.
Proof using HS.
  intros Hi Hr Hu [Hv|(_ & _ & Hroom & Hv)]; [by eapply sinv_keeps|].
  eapply sinv_insert; [done..|by apply norm_valid|by right].
Qed.

Lemma good_mutated st st' id mutate :
  sinv s view rinv st -> rinv st' ->
  (forall u w u' w', valid_user (maxStringBytes s) u -> mutate u w = (Ok u', w') -> valid_user (maxStringBytes s) u') ->
  rtc (mutation norm id mutate) (view st) (view st') -> sinv s view rinv st'.
Proof using HS.
  intros (_ & Hv & Hsz) Hr Hm Hrun. split; [done|].
  revert Hv Hsz. induction Hrun as [v|v v1 v2 [u w u' w' Hu Hmu] _ IH]; intros Hv Hsz; [done|].
  apply IH.
  - intros id' u2. rewrite lookup_insert. case_decide; [|apply Hv]. intros [= <-].
    apply norm_valid. eapply Hm; [|exact Hmu]. by eapply Hv.
  - by rewrite map_size_insert_Some by by eexists.
Qed.

(** Run the context check, then the guards that end in an error. *)
Ltac safe_guards Hi :=
  match goal with |- context [validateContext ?ctx (?w, ?st)] =>
    destruct (validateContext_run ctx w st) as ([e|] & w1 & ->) end; [exact Hi|];
  match goal with |- context [match ?req with Some _ => _ | None => _ end] =>
    destruct req as [rq|]; [|exact Hi] end.

Ltac run_safe H :=
  match goal with
  | |- context [?op (?w, ?st)] =>
      lazymatch type of op with M _ _ =>
        pose proof (H w st) as Hop; unfold result_of, state_of in Hop;
        let r := fresh "r" in destruct (op (w, st)) as [r [? ?]]; cbn [fst snd] in * end
  end.

Lemma GetUser_safe ctx req w st : sinv s view rinv st -> sinv s view rinv (state_of (GetUser s ctx req) w st).
Proof using HR HS.
  intros Hi. unfold GetUser, with_repository. rewrite HR. unfold_monad. safe_guards Hi.
  case_match; [exact Hi|]. run_safe (safe_get (R := R) ctx (get_Id rq)).
  destruct Hop as [Hr Hk]; [apply Hi|]. destruct r; by eapply sinv_keeps.
Qed.

Lemma ListUsers_safe ctx req w st : sinv s view rinv st -> sinv s view rinv (state_of (ListUsers s ctx req) w st).
Proof using HR HS.
  intros Hi. unfold ListUsers, with_repository. rewrite HR. unfold_monad. safe_guards Hi.
  destruct (decodePageToken (PageToken rq)) as [after|]; [|exact Hi].
  run_safe (safe_list (R := R) ctx (clampPageSize (PageSize rq)) after).
  destruct Hop as [Hr Hk]; [apply Hi|]. destruct r as [[? ?]|]; by eapply sinv_keeps.
Qed.

Lemma DeleteUser_safe ctx req w st : sinv s view rinv st -> sinv s view rinv (state_of (DeleteUser s ctx req) w st).
Proof using HR HS.
  intros Hi. unfold DeleteUser, with_repository. rewrite HR. unfold_monad. safe_guards Hi.
  case_match; [exact Hi|]. run_safe (safe_delete (R := R) ctx (delete_Id rq)).
  destruct Hop as [Hr Hk]; [apply Hi|].
  destruct r; cbn; (destruct Hk as [Hk|Hk]; [by eapply sinv_keeps|by eapply sinv_delete]).
Qed.

Lemma CreateUser_safe ctx req w st : sinv s view rinv st -> sinv s view rinv (state_of (CreateUser s ctx req) w st).
Proof using HR HS.
  intros Hi. unfold CreateUser, with_repository. rewrite HR. unfold_monad. safe_guards Hi.
  destruct (validateUserFields _ _ _ _) as [[n e]|err] eqn:Hf; [|exact Hi].
  destruct (validateOptionalText _ _ _); [exact Hi|]. rewrite newID_run.
  destruct (w_rand w1 (w_tick w1)) as [bytes|]; cbn [fmap option_fmap option_map fst snd]; [|exact Hi].
  apply validateUserFields_ok in Hf as (-> & -> & Hn & He' & Ha).
  match goal with |- context [Storage.CreateWithIdempotency R ctx (Some ?u) ?mu ?key] =>
    run_safe (safe_create (R := R) ctx u mu key); destruct Hop as [Hr Hk]; [apply Hi|];
    assert (Hu : valid_user (maxStringBytes s) u) by done end.
  destruct r as [[? ?]|]; by eapply good_inserted.
Qed.

Lemma UpdateUser_safe ctx req w st : sinv s view rinv st -> sinv s view rinv (state_of (UpdateUser s ctx req) w st).
Proof using HR HS.
  intros Hi. unfold UpdateUser, with_repository. rewrite HR. unfold_monad. safe_guards Hi.
  case_match; [exact Hi|].
  destruct (validateOptionalText (update_Name rq) _ _) eqn:Hn; [exact Hi|].
  destruct (validateOptionalText (update_Email rq) _ _) eqn:Hm; [exact Hi|].
  destruct (bool_decide (update_Email rq <> "") && _) eqn:Hp; [exact Hi|].
  destruct (_ || _) eqn:Ha; [exact Hi|]. apply orb_false_iff in Ha as [?%Z.ltb_ge ?%Z.ltb_ge].
  run_safe (safe_rmu (R := R) ctx (update_Id rq) (update_mutate rq) (update_mutate_keeps_id rq)).
  destruct Hop as [Hr Hk]; [apply Hi|].
  assert (Hg : sinv s view rinv s0); [|by destruct r].
  eapply good_mutated; [exact Hi|exact Hr| |exact Hk]. intros u w2 u' w' Hu Hmu.
  eapply update_mutate_valid; [exact Hn|exact Hm|exact Hp|lia|exact Hu|exact Hmu].
Qed.

(** Reading calls leave the stored users as they are. *)
Definition reads_users (st st' : S) : Prop := view st' = view st.
Lemma reads_refl st : reads_users st st.
Proof using. done. Qed.

Lemma GetUser_reads ctx req w st : rinv st -> reads_users st (state_of (GetUser s ctx req) w st).
Proof using HR HS.
  intros Hr. pose proof (reads_refl st) as Hi. unfold GetUser, with_repository. rewrite HR. unfold_monad. safe_guards Hi.
  case_match; [exact Hi|]. run_safe (safe_get (R := R) ctx (get_Id rq)).
  destruct Hop as [_ Hk]; [exact Hr|]. by destruct r.
Qed.

Lemma ListUsers_reads ctx req w st : rinv st -> reads_users st (state_of (ListUsers s ctx req) w st).
Proof using HR HS.
  intros Hr. pose proof (reads_refl st) as Hi. unfold ListUsers, with_repository. rewrite HR. unfold_monad. safe_guards Hi.
  destruct (decodePageToken (PageToken rq)) as [after|]; [|exact Hi].
  run_safe (safe_list (R := R) ctx (clampPageSize (PageSize rq)) after).
  destruct Hop as [_ Hk]; [exact Hr|]. by destruct r as [[? ?]|].
Qed.

Lemma StreamUserEvents_reads req stream w st : rinv st -> reads_users st (state_of (StreamUserEvents s req stream) w st).
Proof using HR HS.
  intros Hr. destruct (StreamUserEvents_state s req stream w st) as [->|(id & w0 & ->)]; [done|by apply GetUser_reads].
Qed.

Lemma sinv_safe_step st st' : sinv s view rinv st -> step s st st' -> sinv s view rinv st'.
Proof using HR HS.
  intros Hi Hs. destruct Hs;
    [by apply GetUser_safe|by apply ListUsers_safe|by apply CreateUser_safe|by apply UpdateUser_safe
    |by apply DeleteUser_safe|].
  destruct (StreamUserEvents_state s req stream w st) as [->|(id & w0 & ->)]; [done|by apply GetUser_safe].
Qed.
End safely.

Lemma sinv_step {S} (s : Service S) R view rinv lossy st st' :
  RepositoryLaws R view rinv lossy -> repository s = Some R ->
  sinv s view rinv st -> step s st st' -> sinv s view rinv st'.
Proof.
  intros HL HR. apply contract_safety in HL. by apply (sinv_safe_step s R view rinv (fun u => u)).
Qed.
End service.

(** * Properties *)

(** C1: Whatever requests clients send, in any order and with any content, over
    any repository that keeps at least the contract without reliable answers (its
    store may carry out what it reports to have failed, and repeat it): when the
    store at the start holds valid users within the capacity, it always does.
    Every stored user sits under its own non-empty id, has a trimmed non-empty
    name within the size limit, an email address the mail parser accepted and an
    age from 0 to 150, and there are never more users than the capacity. *)
Theorem service_users_valid ParseAddress {S} (s : Service S) R view rinv norm st0 st :
  RepositorySafety R view rinv norm -> repository s = Some R ->
  sinv ParseAddress s view rinv st0 -> rtc (step ParseAddress s) st0 st ->
  (forall id u, view st !! id = Some u ->
     Id u = id /\ id <> "" /\ valid_user ParseAddress (maxStringBytes s) u) /\
  Z.of_nat (size (view st)) <= Z.max 0 (maxUsers s).
Proof.
  intros HL HR Hi Hs. enough (Hi' : sinv ParseAddress s view rinv st).
  { destruct Hi' as (Hr' & Hu & Hz). split; [|done]. intros id u Hid.
    destruct (safe_ids st id u Hr' Hid). eauto. }
  induction Hs as [|st0 st1 st2 H1 _ IH]; [done|]. apply IH. by eapply sinv_safe_step.
Qed.

(** A mail parser that takes every text with an at sign for an address. *)
Definition parse0 (value : string) : option string :=
  if Contains value "@" then Some value else None.

Definition service0 : Service MemoryRepository.State := NewUserService [mkLimits 2 3 16 1].
Definition world1 : World :=
  {| w_now := fun n => 7 + Z.of_nat n; w_rand := fun _ => Some "0123456789abcdef"; w_tick := 0 |}.
Definition alice_request : CreateUserRequest := mkCreateUser " Alice " "alice@b.c" 30 "key".
Definition state1 : MemoryRepository.State := Eval vm_compute in
  state_of (CreateUser parse0 service0 (Some Background) (Some alice_request)) world1
    MemoryRepository.NewMemoryRepository.

Lemma sinv1 : sinv parse0 service0 MemoryRepository.users MemoryRepository.wf
  MemoryRepository.NewMemoryRepository.
Proof. split; [done|]. cbn. split; [done|]. vm_compute. discriminate. Qed.

Lemma service_users_valid_witness :
  valid_user parse0 16 (mkUser "user-30313233343536373839616263646566" "Alice" "alice@b.c" 30
                          (Some (mkTimestamp 0 9)) (Some (mkTimestamp 0 9))).
Proof.
  apply (service_users_valid parse0 service0 MemoryRepository.repository MemoryRepository.users
    MemoryRepository.wf (fun u => u) MemoryRepository.NewMemoryRepository state1
    (contract_safety _ _ _ _ MemoryRepository.memory_laws) eq_refl sinv1)
    with (id := "user-30313233343536373839616263646566").
  - exact (rtc_once _ _ (step_create parse0 service0 world1 (Some Background) (Some alice_request)
             MemoryRepository.NewMemoryRepository)).
  - vm_compute. reflexivity.
Defined.

(** C21: Over a repository that keeps the contract, whose operations change nothing
    when they return an error, every unary handler either succeeds or leaves the
    stored users as they were and returns an application error or the context's
    own error: no text of a storage error reaches a client under any other status.
    PostgreSQL, whose failed commit may have taken effect, is not such a
    repository. *)
Theorem handler_errors_are_safe ParseAddress {S} (s : Service S) R view rinv lossy
    ctx g l c u d w st e :
  RepositoryLaws R view rinv lossy -> repository s = Some R -> sinv ParseAddress s view rinv st ->
  let failed {A} (m : M S (res A)) :=
    result_of m w st = Err e -> client_error e /\ view (state_of m w st) = view st in
  failed (GetUser s ctx g) /\ failed (ListUsers s ctx l) /\
  failed (CreateUser ParseAddress s ctx c) /\ failed (UpdateUser ParseAddress s ctx u) /\
  failed (DeleteUser s ctx d).
Proof.
  intros HL HR Hi failed. subst failed. cbn beta.
  pose proof (GetUser_spec ParseAddress s R view rinv lossy HR ctx g w st Hi) as [_ H1].
  pose proof (ListUsers_spec ParseAddress s R view rinv lossy HR ctx l w st Hi) as [_ H2].
  pose proof (CreateUser_spec ParseAddress s R view rinv lossy HR ctx c w st Hi) as [_ H3].
  pose proof (UpdateUser_spec ParseAddress s R view rinv lossy HR ctx u w st Hi) as [_ H4].
  pose proof (DeleteUser_spec ParseAddress s R view rinv lossy HR ctx d w st Hi) as [_ H5].
  split_and!; intros He; rewrite He in *; assumption.
Qed.

Lemma handler_errors_are_safe_witness :
  client_error (EApp (appErrors.WithReason (appErrors.ErrNotFound "user not found") "USER_NOT_FOUND")).
Proof.
  destruct (handler_errors_are_safe parse0 service0 MemoryRepository.repository
    MemoryRepository.users MemoryRepository.wf false (Some Background) (Some (mkGetUser "x"))
    None None None None world1 MemoryRepository.NewMemoryRepository
    (EApp (appErrors.WithReason (appErrors.ErrNotFound "user not found") "USER_NOT_FOUND"))
    MemoryRepository.memory_laws eq_refl sinv1) as [H _].
  apply H. reflexivity.
Defined.



(** C23: An [UpdateUser] that succeeds over a repository that stores what it
    acknowledges has replaced the stored user by one with the same id and
    creation time, the request's non-zero fields, the other fields untouched,
    and returns that user; no other user changes. *)
Theorem update_user_is_partial ParseAddress {S} (s : Service S) R view rinv ctx rq w st u' :
  RepositoryLaws R view rinv false -> repository s = Some R -> sinv ParseAddress s view rinv st ->
  result_of (UpdateUser ParseAddress s ctx (Some rq)) w st = Ok u' ->
  exists u now, view st !! update_Id rq = Some u /\
    u' = {| Id := Id u;
            Name := if decide (update_Name rq = "") then Name u else TrimSpace (update_Name rq);
            Email := if decide (update_Email rq = "") then Email u else TrimSpace (update_Email rq);
            Age := if decide (update_Age rq = 0) then Age u else update_Age rq;
            CreatedAt := CreatedAt u;
            UpdatedAt := Some (timestamp_of_ns now) |} /\
    view (state_of (UpdateUser ParseAddress s ctx (Some rq)) w st) = <[update_Id rq := u']> (view st).
Proof.
  intros HL HR Hi Hu.
  destruct (UpdateUser_spec ParseAddress s R view rinv false HR ctx (Some rq) w st Hi) as [_ H].
  rewrite Hu in H. destruct H as (rq' & u & [= <-] & Hst & [(w0 & w1 & Hm & Hv)|(? & _)]); [|done].
  exists u, (w_now w0 (w_tick w0)). split_and!; [done| |done].
  unfold update_mutate in Hm. injection Hm as <- _. f_equal.
  - destruct (decide (update_Name rq = "")); [by rewrite bool_decide_eq_false_2 by tauto|].
    by rewrite bool_decide_eq_true_2.
  - destruct (decide (update_Email rq = "")); [by rewrite bool_decide_eq_false_2 by tauto|].
    by rewrite bool_decide_eq_true_2.
  - destruct (decide (update_Age rq = 0)) as [->|]; [done|]. by rewrite (proj2 (Z.eqb_neq _ _)).
Qed.

Definition rename_request : UpdateUserRequest :=
  mkUpdateUser "user-30313233343536373839616263646566" "Alicia" "" 0.

Lemma update_user_is_partial_witness :
  exists u u', MemoryRepository.users state1 !! update_Id rename_request = Some u /\
    result_of (UpdateUser parse0 service0 (Some Background) (Some rename_request)) world1 state1 = Ok u' /\
    Name u' = "Alicia" /\ Email u' = Email u /\ Age u' = 30 /\ CreatedAt u' = CreatedAt u.
Proof.
  assert (Hs : sinv parse0 service0 MemoryRepository.users MemoryRepository.wf state1).
  { exact (sinv_step parse0 service0 _ _ _ _ _ _ MemoryRepository.memory_laws eq_refl sinv1
      (step_create parse0 service0 world1 (Some Background) (Some alice_request)
         MemoryRepository.NewMemoryRepository)). }
  destruct (update_user_is_partial parse0 service0 MemoryRepository.repository
    MemoryRepository.users MemoryRepository.wf (Some Background) rename_request world1 state1 _
    MemoryRepository.memory_laws eq_refl Hs eq_refl) as (u & now & Hu & Heq & _).
  exists u. eexists. split; [exact Hu|]. split; [reflexivity|]. rewrite Heq.
  split_and!; try reflexivity. vm_compute in Hu. by injection Hu as <-.
Defined.

(** C24: Following [next_page_token] from the empty token until it is empty
    visits every stored user exactly once, in increasing order of id, whatever
    page size is asked for; as many pages as there are users, and one more, are
    always enough. *)
Theorem list_walk_enumerates {S} (s : Service S) R view rinv lossy live pageSize n w st :
  RepositoryLaws R view rinv lossy -> repository s = Some R ->
  (forall w st limit after, live st -> 0 < limit ->
     is_ok (result_of (Storage.List R (Some Background) limit after) w st) = true /\
     live (state_of (Storage.List R (Some Background) limit after) w st)) ->
  rinv st -> live st -> (size (view st) < n)%nat ->
  exists ids us, result_of (walk s n pageSize "") w st = Ok us /\
    StronglySorted String.le ids /\ NoDup ids /\ (forall id, id ∈ ids <-> is_Some (view st !! id)) /\
    mapM (fun id => view st !! id) ids = Some us.
Proof.
  intros HL HR Hlive Hr Hl Hn.
  destruct (sorted_ids_exist (view st)) as (ids & Hs & Hnd & Hlen & Hin).
  assert (Hne : forall id u, view st !! id = Some u -> id <> "").
  { intros id u Hid. by eapply law_ids. }
  destruct (walk_from parse0 s R view rinv lossy HR live Hlive n w st pageSize "" ids) as (us & Hw & Hm);
    try done; [|lia|by exists ids, us].
  intros id. rewrite Hin. split; [|by intros [? _]]. intros [u Hu]. split; [by eexists|].
  apply str_gt_empty. by eapply Hne.
Qed.

Lemma memory_lists w st limit after :
  MemoryRepository.closed st = false -> 0 < limit ->
  is_ok (result_of (Storage.List MemoryRepository.repository (Some Background) limit after) w st) = true /\
  MemoryRepository.closed
    (state_of (Storage.List MemoryRepository.repository (Some Background) limit after) w st) = false.
Proof.
  intros Hc Hl. cbn. unfold MemoryRepository.List. unfold_monad. rewrite contextError_Background.
  rewrite (proj2 (Z.leb_gt _ _)) by lia. unfold_monad. by rewrite Hc.
Qed.

Lemma list_walk_enumerates_witness :
  exists us, result_of (walk service0 2 1 "") world1 state1 = Ok us /\ length us = 1%nat.
Proof.
  destruct (list_walk_enumerates service0 MemoryRepository.repository MemoryRepository.users
    MemoryRepository.wf false (fun st => MemoryRepository.closed st = false) 1 2 world1 state1
    MemoryRepository.memory_laws eq_refl memory_lists) as (ids & us & Hw & _);
    [|reflexivity|vm_compute; lia|].
  - apply (sinv_step parse0 service0 _ _ _ _ _ _ MemoryRepository.memory_laws eq_refl sinv1
      (step_create parse0 service0 world1 (Some Background) (Some alice_request)
         MemoryRepository.NewMemoryRepository)).
  - exists us. split; [exact Hw|]. vm_compute in Hw. by injection Hw as <-.
Defined.

(** Over the memory repository a [CreateUser] with an idempotency key may be
    repeated: once one has returned a user, any later one with the same key and
    acceptable fields returns the user stored under that id (as later updates
    left it) and creates nothing, provided the user was not deleted in between,
    the repository is open, and random bytes can be read. *)
Theorem create_user_retry_returns_same ParseAddress (limits : ServiceLimits) ctx rq rq' w st u w2 st2 :
  let s := NewUserService [limits] in
  let st1 := state_of (CreateUser ParseAddress s ctx (Some rq)) w st in
  IdempotencyKey rq <> "" -> IdempotencyKey rq' = IdempotencyKey rq ->
  MemoryRepository.wf st ->
  result_of (CreateUser ParseAddress s ctx (Some rq)) w st = Ok u ->
  rtc (MemoryRepository.step_keeping (maxUsers s) (Id u)) st1 st2 ->
  MemoryRepository.closed st2 = false ->
  is_ok (validateUserFields ParseAddress (create_Name rq') (create_Email rq') (create_Age rq')
           (maxStringBytes s)) = true ->
  is_Some (w_rand w2 (S (w_tick w2))) ->
  exists u2, MemoryRepository.users st2 !! Id u = Some u2 /\
    result_of (CreateUser ParseAddress s (Some Background) (Some rq')) w2 st2 = Ok u2 /\
    state_of (CreateUser ParseAddress s (Some Background) (Some rq')) w2 st2 = st2.
Proof.
  intros s st1 Hk Hk' Hwf Hu Hrun Hc Hf [b Hb].
  assert (Hbound : MemoryRepository.bound (IdempotencyKey rq) (Id u) st1).
  { by apply created_key_bound. }
  eapply MemoryRepository.bound_run in Hbound; [|done|exact Hrun].
  assert (Hopt : validateOptionalText (IdempotencyKey rq') (maxStringBytes s) "idempotency_key" = None).
  { rewrite Hk'. by destruct (created_through ParseAddress s _ ctx rq w st u eq_refl Hu). }
  rewrite <- Hk' in Hbound, Hk.
  unfold result_of, state_of, CreateUser, with_repository. unfold_monad.
  cbn [validateContext]. unfold ctxErrM. cbn [ctx_err_at Background fmap option_fmap option_map fst snd].
  destruct (validateUserFields _ _ _ _ _) as [[n e]|]; [|done].
  rewrite Hopt. rewrite newID_run. cbn [w_rand w_tick tick]. rewrite Hb.
  cbn [fmap option_fmap option_map fst snd repository s NewUserService NewUserServiceWithRepository].
  match goal with |- context [Some ?usr] => match type of usr with User =>
    destruct (MemoryRepository.replay_bound usr (maxUsers s) (IdempotencyKey rq') (Id u)
      (tick (tick (tick w2))) st2) as (u2 & Hu2 & Hrep); [done|done|by cbn|done|] end end.
  exists u2. split; [done|].
  cbn [Storage.CreateWithIdempotency MemoryRepository.repository]. 
  split; cbn in Hrep |- *; by rewrite Hrep.
Qed.

Lemma create_user_retry_returns_same_witness :
  exists u2, result_of (CreateUser parse0 service0 (Some Background)
    (Some (mkCreateUser "Bob" "bob@b.c" 1 "key"))) world1 state1 = Ok u2 /\ Name u2 = "Alice".
Proof.
  destruct (create_user_retry_returns_same parse0 (mkLimits 2 3 16 1) (Some Background) alice_request
    (mkCreateUser "Bob" "bob@b.c" 1 "key") world1 MemoryRepository.NewMemoryRepository
    (mkUser "user-30313233343536373839616263646566" "Alice" "alice@b.c" 30
       (Some (mkTimestamp 0 9)) (Some (mkTimestamp 0 9))) world1 state1)
    as (u2 & Hu2 & Hr & _); [done|done|apply sinv1|reflexivity|apply rtc_refl|done|reflexivity| |].
  - by eexists.
  - exists u2. split; [exact Hr|]. vm_compute in Hu2. by injection Hu2 as <-.
Defined.

(** A [StreamUserEvents] call on an existing user with acceptable texts sends
    a run of consecutive events [0, 1, 2, ...] that cycle through the requested
    types.  It returns without error exactly when it sent [maxStreamMessages]
    of them, and otherwise stops at the first iteration in which the context
    is done or [Send] fails, with that error; it never changes the
    repository. *)
Theorem stream_user_events_runs {S} (s : Service S) rq stream w st u w1 st1 :
  blank (stream_UserId rq) = false -> validateText s (stream_UserId rq) "user_id" = None ->
  Z.of_nat (length (EventTypes rq)) <= maxStreamMessages s ->
  validateTexts s (EventTypes rq) "event_type" = None ->
  GetUser s (stream_Context stream) (Some (mkGetUser (stream_UserId rq))) (w, st) = (Ok u, (w1, st1)) ->
  exists events result w2,
    runM (StreamUserEvents s (Some rq) stream) w st = ((events, result), (w2, st1)) /\
    (forall i e, events !! i = Some e -> is_event rq i e /\ sends stream i) /\
    match result with
    | None => length events = Z.to_nat (maxStreamMessages s)
    | Some e => Z.of_nat (length events) < maxStreamMessages s /\ stops stream (length events) e
    end.
Proof.
  intros Hb Ht Hl Hts Hg. unfold runM, StreamUserEvents. rewrite Hb, Ht, Hts.
  rewrite (proj2 (Z.ltb_ge _ _)) by lia. unfold_monad. rewrite Hg.
  destruct (stream_loop_run rq stream (Z.to_nat (maxStreamMessages s)) 0 w1 st1)
    as (events & result & w2 & -> & _ & Hev & Hres).
  exists events, result, w2. split_and!; [done|exact Hev|].
  destruct result; [|done]. destruct Hres as [Hlt Hst]. split; [lia|exact Hst].
Qed.

Definition stream0 : EventStream := {|
  stream_Context := Some Background;
  select_done := fun i => if decide (i = 2%nat) then Some CtxCanceled else None;
  send_error := fun _ => None
|}.

Definition ann : User := mkUser "user-1" "Ann" "ann@b.c" 1 None None.
Definition state_ann : MemoryRepository.State :=
  {| MemoryRepository.users := {["user-1" := ann]}; MemoryRepository.idem := ∅;
     MemoryRepository.closed := false |}.

Lemma stream_user_events_runs_witness :
  exists events, fst (runM (StreamUserEvents service0
    (Some (mkStreamUserEvents "user-1" ["created"])) stream0) world1 state_ann)
    = (events, Some ECanceled) /\ map EventType events = ["created"; "created"].
Proof.
  destruct (stream_user_events_runs service0 (mkStreamUserEvents "user-1" ["created"]) stream0
    world1 state_ann ann (tick (tick world1)) state_ann) as (events & result & w2 & Hrun & _);
    [reflexivity|reflexivity|vm_compute; discriminate|reflexivity|reflexivity|].
  exists events. rewrite Hrun. vm_compute in Hrun. injection Hrun as <- <- _. split; reflexivity.
Defined.

(** [CollectUserMetrics] answers with a summary exactly when the client sent
    a run of metrics and closed the stream, every metric has non-blank names
    within the size limit and a finite value, no partial sum overflows, and
    there are at most [int32(maxStreamMessages)] of them; the summary is then
    their number, their float64 sum in order of arrival, and the quotient of
    the two. *)
Theorem collect_user_metrics_decides {S} (s : Service S) recv resp :
  CollectUserMetrics s recv None = Ok resp <->
  exists ms tail, recv = map (fun m => Ok (Some m)) ms ++ tail /\ at_eof tail /\
    Forall (metric_ok s) ms /\ sums_finite fzero ms /\
    (ms = [] \/ Z.of_nat (length ms) <= wrap32 (maxStreamMessages s)) /\
    resp = {| Count := Z.of_nat (length ms); Sum := float_sum fzero ms;
              Avg := if decide (ms = []) then fzero
                     else fdiv (float_sum fzero ms) (float_of_Z (Z.of_nat (length ms))) |}.
Proof.
  unfold CollectUserMetrics.
  pose proof (fun r => collect_loop_ok s fzero 0 recv r ltac:(done)) as Hloop.
  assert (Havg : forall ms : list MetricData, 
    (if 0 <? Z.of_nat (length ms)
     then fdiv (float_sum fzero ms) (float_of_Z (Z.of_nat (length ms))) else fzero)
    = if decide (ms = []) then fzero
      else fdiv (float_sum fzero ms) (float_of_Z (Z.of_nat (length ms)))).
  { intros [|m ms]; [done|]. rewrite decide_False by done.
    by rewrite (proj2 (Z.ltb_lt _ _)) by (cbn; lia). }
  split.
  - intros H. destruct (collect_loop s fzero 0 recv) as [[sum count]|]; [|done].
    destruct (proj1 (Hloop _) eq_refl) as (ms & tail & -> & Ht & Hms & Hs & Hn & [= -> ->]).
    injection H as <-. exists ms, tail. rewrite Z.add_0_l in *. rewrite Havg. by split_and!.
  - intros (ms & tail & -> & Ht & Hms & Hs & Hn & ->).
    rewrite (proj2 (Hloop (float_sum fzero ms, Z.of_nat (length ms)))); [by rewrite Havg|].
    exists ms, tail. rewrite Z.add_0_l. by split_and!.
Qed.

(** The limit is converted to [int32] without a check: a service configured
    for 2^32 messages per stream, which the configuration accepts, refuses the
    very first metric. *)
Theorem metric_limit_truncated {S} (R : option (Repository S)) users bytes interval metric recv close :
  CollectUserMetrics (NewUserServiceWithRepository R (mkLimits users (2 ^ 32) bytes interval))
    (Ok (Some metric) :: recv) close
  = Err (EApp (appErrors.ErrResourceExhausted "metric stream limit reached")).
Proof. reflexivity. Qed.

(** [ChatStream] answers a client that only sends acceptable messages and
    reads every reply with one reply per message, in order, with the text and
    sender unchanged and a fresh id, and ends without error. *)
Theorem chat_stream_echoes {S} (s : Service S) msgs w (st : S) :
  Forall (fun m => validateText s (chat_UserId m) "user_id" = None /\
                   validateText s (chat_Message m) "message" = None) msgs ->
  (forall n, is_Some (w_rand w n)) ->
  exists replies w',
    runM (ChatStream s (fun _ => None) (map (fun m => Ok (Some m)) msgs)) w st
      = ((replies, None), (w', st)) /\
    Forall2 (fun m r => chat_UserId r = chat_UserId m /\ chat_Message r = chat_Message m /\
               exists n b, w_rand w n = Some b /\ chat_Id r = "msg-" +:+ HexEncode b) msgs replies.
Proof.
  unfold runM, ChatStream. generalize 0%nat as i. intros i Hm Hr. revert i w Hr.
  induction Hm as [|m msgs [Hu Ht] _ IH]; intros i w Hr; cbn [map ChatStream_loop].
  { exists [], w. split; [done|constructor]. }
  rewrite Hu, Ht. unfold_monad. rewrite newID_run.
  destruct (Hr (Datatypes.S (w_tick w))) as [b Hb].
  change (w_rand (tick w) (w_tick (tick w))) with (w_rand w (Datatypes.S (w_tick w))). rewrite Hb.
  cbn [fmap option_fmap option_map].
  destruct (IH (Datatypes.S i) (tick (tick w)) Hr) as (replies & w' & Hrun & Hf).
  unfold tick in *. cbn [w_now w_rand w_tick] in *. rewrite Hrun. cbn [fst snd].
  do 2 eexists. split; [reflexivity|]. constructor; [|exact Hf].
  cbn. split_and!; try done. by exists (Datatypes.S (w_tick w)), b.
Qed.

Lemma chat_stream_echoes_witness :
  exists replies w', runM (ChatStream service0 (fun _ => None)
    (map (fun m => Ok (Some m)) [mkChat "" "ann" "hi" None])) world1 MemoryRepository.NewMemoryRepository
      = ((replies, None), (w', MemoryRepository.NewMemoryRepository)) /\ length replies = 1%nat.
Proof.
  destruct (chat_stream_echoes service0 [mkChat "" "ann" "hi" None] world1
    MemoryRepository.NewMemoryRepository) as (replies & w' & Hrun & Hf).
  - repeat constructor.
  - intros n. by eexists.
  - exists replies, w'. split; [exact Hrun|]. by apply Forall2_length in Hf.
Defined.
End UserService.
