(* ===== verification/Gateway.v ===== *)
(** The REST gateway: [pkg/pb/service.pb.gw.go], which translates HTTP requests to
    calls of the service, on the router it is registered with. The router is
    that of the vendored [grpc-gateway/v2/runtime] ([mux.go], [pattern.go],
    [errors.go], [handler.go]) in the mode [runtime.NewServeMux()] leaves it in:
    paths arrive unescaped, captured segments are taken as they are.

    JSON and queries are decoded by parameters, and so are messages written.
    Trailers, which the service does not set, and the chunked transfer encoding of
    a response are left out. The handlers that forward to a connection are in
    [Forwarding]. *)
From S2P Require Import Prelude GoStrings GoErrors Storage Memory UserService.
From Stdlib Require Import Ascii.

Module Gateway.

(** * Patterns *)

(** [utilities.OpCode]. *)
Definition OpNop : Z := 0.
Definition OpPush : Z := 1.
Definition OpLitPush : Z := 2.
Definition OpPushM : Z := 3.
Definition OpConcatN : Z := 4.
Definition OpCapture : Z := 5.

Record op := mkOp { code : Z; operand : Z }.
Record Pattern := mkPattern {
  ops : list op; pool : list string; vars : list string; tailLen : Z; verb : string }.

Definition nth_Z {A} (l : list A) (i : Z) : option A := if i <? 0 then None else l !! Z.to_nat i.

(** The loop of [NewPattern]: the operations checked so far, the depth of the
    stack, and the variables. *)
Fixpoint compile (pool : list string) (ops : list Z) (done_ : list op) (stack tail : Z) (pushMSeen : bool)
    (vars : list string) : option (list op * Z * list string) :=
  match ops with
  | [] => Some (done_, tail, vars)
  | [_] => None
  | c :: o :: rest =>
      let push x seen := compile pool rest (done_ ++ [mkOp c o]) (stack + 1) (tail + x) seen vars in
      if c =? OpNop then compile pool rest done_ stack tail pushMSeen vars
      else if c =? OpPush then push (if pushMSeen then 1 else 0) pushMSeen
      else if c =? OpPushM then if pushMSeen then None else push 0 true
      else if c =? OpLitPush then
        match nth_Z pool o with
        | None => None
        | Some _ => push (if pushMSeen then 1 else 0) pushMSeen
        end
      else if c =? OpConcatN then
        if (o <=? 0) || (stack - o <? 0) then None
        else compile pool rest (done_ ++ [mkOp c o]) (stack - o + 1) tail pushMSeen vars
      else if c =? OpCapture then
        match nth_Z pool o with
        | None => None
        | Some v =>
            if stack - 1 <? 0 then None
            else compile pool rest (done_ ++ [mkOp c (Z.of_nat (length vars))]) (stack - 1) tail pushMSeen (vars ++ [v])
        end
      else None
  end.

Definition NewPattern (version : Z) (ops : list Z) (pool : list string) (verb : string) : option Pattern :=
  if negb (version =? 1) then None else
  match compile pool ops [] 0 0 false [] with
  | None => None
  | Some (typedOps, tail, vars) => Some (mkPattern typedOps pool vars tail verb)
  end.

(** [MustPattern] ends the process at start-up instead of returning. *)
Definition MustPattern (p : option Pattern) : Pattern := default (mkPattern [] [] [] 0 "") p.

Definition Join (l : list string) (sep : string) : string := String.concat sep l.

(** The loop of [MatchAndEscape] over the operations: the position in the
    components, the stack (its top last) and the captured segments. *)
Fixpoint match_ops (p : Pattern) (components : list string) (l : list op) (pos : nat) (stack : list string)
    (captured : gmap Z string) : option (nat * gmap Z string) :=
  match l with
  | [] => Some (pos, captured)
  | o :: l =>
      if code o =? OpNop then match_ops p components l pos stack captured
      else if (code o =? OpPush) || (code o =? OpLitPush) then
        match components !! pos with
        | None => None
        | Some c =>
            if (code o =? OpLitPush) && negb (bool_decide (nth_Z (pool p) (operand o) = Some c)) then None
            else match_ops p components l (S pos) (stack ++ [c]) captured
        end
      else if code o =? OpPushM then
        let end_ := Z.of_nat (length components) in
        if end_ <? Z.of_nat pos + tailLen p then None else
        let stop := Z.to_nat (end_ - tailLen p) in
        match_ops p components l stop (stack ++ [Join (take (stop - pos) (drop pos components)) "/"]) captured
      else if code o =? OpConcatN then
        let keep := (length stack - Z.to_nat (operand o))%nat in
        match_ops p components l pos (take keep stack ++ [Join (drop keep stack) "/"]) captured
      else if code o =? OpCapture then
        match_ops p components l pos (take (length stack - 1) stack)
          (<[operand o := default "" (last stack)]> captured)
      else match_ops p components l pos stack captured
  end.

(** [bindings[p.vars[i]] = captured[i]], later ones over earlier ones. *)
Fixpoint bind_vars (vars : list string) (i : Z) (captured : gmap Z string) (bindings : gmap string string)
  : gmap string string :=
  match vars with
  | [] => bindings
  | v :: vars => bind_vars vars (i + 1) captured (<[v := default "" (captured !! i)]> bindings)
  end.

Definition with_verb (components : list string) (verb : string) : list string :=
  match components with
  | [] => [":" +:+ verb]
  | _ => removelast components ++ [default "" (last components) +:+ ":" +:+ verb]
  end.

(** The verb of the request is [v]; the error is [ErrNotMatch]. *)
Definition MatchAndEscape (p : Pattern) (components : list string) (v : string) : option (gmap string string) :=
  let run components :=
    match match_ops p components (ops p) 0 [] ∅ with
    | None => None
    | Some (pos, captured) =>
        if (pos <? length components)%nat then None else Some (bind_vars (vars p) 0 captured ∅)
    end in
  if bool_decide (verb p = v) then run components
  else if bool_decide (verb p <> "") then None
  else run (with_verb components v).

(** ** The patterns of the service *)

Definition user_pattern : Pattern :=
  MustPattern (NewPattern 1 [2; 0; 2; 1; 1; 0; 4; 1; 5; 2] ["v1"; "users"; "id"] "").
Definition pattern_UserService_GetUser_0 : Pattern := user_pattern.
Definition pattern_UserService_CreateUser_0 : Pattern :=
  MustPattern (NewPattern 1 [2; 0; 2; 1] ["v1"; "users"] "").
Definition pattern_UserService_UpdateUser_0 : Pattern := user_pattern.
Definition pattern_UserService_DeleteUser_0 : Pattern := user_pattern.
Definition pattern_UserService_ListUsers_0 : Pattern :=
  MustPattern (NewPattern 1 [2; 0; 2; 1] ["v1"; "users"] "").
Definition pattern_UserService_StreamUserEvents_0 : Pattern :=
  MustPattern (NewPattern 1 [2; 0; 2; 1; 1; 0; 4; 1; 5; 2; 2; 3] ["v1"; "users"; "user_id"; "events"] "").
Definition pattern_UserService_CollectUserMetrics_0 : Pattern :=
  MustPattern (NewPattern 1 [2; 0; 2; 1] ["v1"; "metrics"] "").
Definition pattern_UserService_ChatStream_0 : Pattern :=
  MustPattern (NewPattern 1 [2; 0; 2; 1] ["v1"; "chat"] "").

(** * Requests and responses *)

(** [Path] is [URL.Path]; header fields by their canonical name, absent ones read
    as "". [req_Form] is [Form] once it is parsed, as the text that encodes it. *)
Record Request := mkRequest {
  req_Context : option Ctx;
  Method : string;
  Path : string;
  Query : string;
  req_Header : gmap string string;
  req_Body : string;
  req_Form : option string
}.

Definition Header_Get (r : Request) (key : string) : string := default "" (req_Header r !! key).

Definition set_Method (m : string) (r : Request) : Request :=
  mkRequest (req_Context r) m (Path r) (Query r) (req_Header r) (req_Body r) (req_Form r).
Definition set_Form (form body : string) (r : Request) : Request :=
  mkRequest (req_Context r) (Method r) (Path r) (Query r) (req_Header r) body (Some form).

Record Response := mkResponse { Status : Z; Header : gmap string string; Body : string }.

(** The messages that are written; the last two are the chunks of a stream. *)
Inductive message :=
| UserMsg (u : User)
| ListMsg (r : UserService.ListUsersResponse)
| DeleteMsg
| StatusMsg (c : Z) (text : string)
| EventMsg (e : UserService.UserEvent)
| SummaryMsg (r : UserService.CollectMetricsResponse)
| ChatMsg (m : UserService.ChatMessage)
| ResultChunk (m : message)
| ErrorChunk (m : message).

(** * Writing responses *)

Definition HTTPStatusFromCode (c : Z) : Z :=
  if c =? codes.OK then 200 else if c =? codes.Canceled then 499 else if c =? codes.Unknown then 500
  else if c =? codes.InvalidArgument then 400 else if c =? codes.DeadlineExceeded then 504
  else if c =? codes.NotFound then 404 else if c =? codes.AlreadyExists then 409
  else if c =? codes.PermissionDenied then 403 else if c =? codes.Unauthenticated then 401
  else if c =? codes.ResourceExhausted then 429 else if c =? codes.FailedPrecondition then 400
  else if c =? codes.Aborted then 409 else if c =? codes.OutOfRange then 400
  else if c =? codes.Unimplemented then 501 else if c =? codes.Internal then 500
  else if c =? codes.Unavailable then 503 else 500.

(** [status.Convert]: an error without a status is Unknown; the text of a wrapped
    status is that of the whole chain. *)
Definition Convert (err : error) : Z * string :=
  match err with
  | EStatus c m => (c, m)
  | EApp a => (Code a, Message a)
  | _ => (status_Code (Some err), error_text err)
  end.

(** What the runtime is given: the JSON decoder applied to the body of a request
    ([io.EOF] for an empty body); the error of [url.ParseQuery] for a text, and
    [populate_list], which is [PopulateQueryParameters] of the form a text encodes;
    the marshaler of the response; and [AnnotateIncomingContext], which turns
    header fields to metadata and may refuse them. *)
Class Codec := mkCodec {
  decode_create : string -> res UserService.CreateUserRequest;
  decode_update : string -> res UserService.UpdateUserRequest;
  populate_list : string -> res UserService.ListUsersRequest;
  Marshal : message -> res string;
  ContentType : message -> string;
  AnnotateIncomingContext : Request -> string -> res (option Ctx);
  query_error : string -> option error
}.

Section gateway.
Context `{HC : Codec} (ParseAddress : string -> option string).

(** [http.Request.ParseForm]: the values of the posted form, which uses up the
    body, before those of the query; nothing when the form is parsed already. The
    body is read only where the content type is that of a form, which is spelled
    out here without parameters, as [isPathLengthFallback] requires it. *)
Definition form_type : string := "application/x-www-form-urlencoded".
Definition maxFormSize : Z := 10 * 2 ^ 20.
Definition posts_form (r : Request) : bool :=
  bool_decide (Method r ∈ ["POST"; "PUT"; "PATCH"]) && bool_decide (Header_Get r "Content-Type" = form_type).

Definition ParseForm (r : Request) : res Request :=
  match req_Form r with
  | Some _ => Ok r
  | None =>
      let body := req_Body r in
      let post_error := if maxFormSize <? Z.of_nat (String.length body)
                        then Some (EOther "http: POST too large") else query_error body in
      match (if posts_form r then post_error else None), query_error (Query r) with
      | Some err, _ | None, Some err => Err err
      | None, None =>
          Ok (if posts_form r then set_Form (body +:+ "&" +:+ Query r) "" r else set_Form (Query r) body r)
      end
  end.

(** [HTTPError] by [DefaultHTTPErrorHandler]. *)
Definition HTTPError (header : gmap string string) (err : error) : Response :=
  let '(c, text) := Convert err in
  let body := StatusMsg c text in
  let header := <["Content-Type" := ContentType body]> header in
  let header := if c =? codes.Unauthenticated then <["WWW-Authenticate" := text]> header else header in
  match Marshal body with
  | Err _ => mkResponse 500 header
      ("{" +:+ UserService.dquote +:+ "code" +:+ UserService.dquote +:+ ": 13, " +:+ UserService.dquote +:+ "message" +:+ UserService.dquote +:+ ": " +:+ UserService.dquote +:+
       "failed to marshal error message" +:+ UserService.dquote +:+ "}")
  | Ok buf => mkResponse (HTTPStatusFromCode c) header buf
  end.

Definition ForwardResponseMessage (header : gmap string string) (resp : message) : Response :=
  let header := <["Content-Type" := ContentType resp]> header in
  match Marshal resp with
  | Err err => HTTPError header err
  | Ok buf => mkResponse 200 header buf
  end.

(** [http.StatusText] of the two routing errors that occur. *)
Definition DefaultRoutingErrorHandler (header : gmap string string) (httpStatus : Z) : Response :=
  HTTPError header
    (if httpStatus =? 400 then EStatus codes.InvalidArgument "Bad Request"
     else if httpStatus =? 405 then EStatus codes.Unimplemented "Method Not Allowed"
     else if httpStatus =? 404 then EStatus codes.NotFound "Not Found"
     else EStatus codes.Internal "Unexpected routing error").

(** * The local request functions *)

Context {S : Type} (server : UserService.Service S).
Implicit Types (pathParams : gmap string string) (body : string).

Definition invalid_argument (text : string) : error := EStatus codes.InvalidArgument text.

Definition local_request_UserService_GetUser_0 (ctx : option Ctx) pathParams : M S (res User) :=
  match pathParams !! "id" with
  | None => retM (Err (invalid_argument "missing parameter id"))
  | Some val => UserService.GetUser server ctx (Some (UserService.mkGetUser val))
  end.

Definition local_request_UserService_CreateUser_0 (ctx : option Ctx) body : M S (res User) :=
  let call req := UserService.CreateUser ParseAddress server ctx (Some req) in
  match decode_create body with
  | Ok protoReq => call protoReq
  | Err err => if Is err EEOF then call (UserService.mkCreateUser "" "" 0 "")
               else retM (Err (invalid_argument (error_text err)))
  end.

Definition local_request_UserService_UpdateUser_0 (ctx : option Ctx) body pathParams : M S (res User) :=
  let call (req : UserService.UpdateUserRequest) :=
    match pathParams !! "id" with
    | None => retM (Err (invalid_argument "missing parameter id"))
    | Some val =>
        UserService.UpdateUser ParseAddress server ctx
          (Some (UserService.mkUpdateUser val (UserService.update_Name req)
                   (UserService.update_Email req) (UserService.update_Age req)))
    end in
  match decode_update body with
  | Ok protoReq => call protoReq
  | Err err => if Is err EEOF then call (UserService.mkUpdateUser "" "" "" 0)
               else retM (Err (invalid_argument (error_text err)))
  end.

Definition local_request_UserService_DeleteUser_0 (ctx : option Ctx) pathParams : M S (res unit) :=
  match pathParams !! "id" with
  | None => retM (Err (invalid_argument "missing parameter id"))
  | Some val => UserService.DeleteUser server ctx (Some (UserService.mkDeleteUser val))
  end.

Definition local_request_UserService_ListUsers_0 (ctx : option Ctx) (req : Request)
  : M S (res UserService.ListUsersResponse) :=
  match ParseForm req with
  | Err err => retM (Err (invalid_argument (error_text err)))
  | Ok req =>
      match populate_list (default "" (req_Form req)) with
      | Err err => retM (Err (invalid_argument (error_text err)))
      | Ok protoReq => UserService.ListUsers server ctx (Some protoReq)
      end
  end.

(** * The registered handlers *)

(** [w] with the header fields set so far, the request and its path parameters. *)
Definition HandlerFunc : Type := gmap string string -> Request -> gmap string string -> M S Response.

(** What the handlers of the unary methods share. *)
Definition unary {A} (rpc : string) (local : option Ctx -> Request -> gmap string string -> M S (res A))
    (to_message : A -> message) : HandlerFunc := fun header req pathParams =>
  match AnnotateIncomingContext req rpc with
  | Err err => retM (HTTPError header err)
  | Ok annotatedContext =>
      r <-- local annotatedContext req pathParams ;;
      retM (match r with
            | Err err => HTTPError header err
            | Ok resp => ForwardResponseMessage header (to_message resp)
            end)
  end.

Definition handle_GetUser : HandlerFunc :=
  unary "/example.v1.UserService/GetUser"
    (fun ctx _ pathParams => local_request_UserService_GetUser_0 ctx pathParams) UserMsg.
Definition handle_CreateUser : HandlerFunc :=
  unary "/example.v1.UserService/CreateUser"
    (fun ctx req _ => local_request_UserService_CreateUser_0 ctx (req_Body req)) UserMsg.
Definition handle_UpdateUser : HandlerFunc :=
  unary "/example.v1.UserService/UpdateUser"
    (fun ctx req pathParams => local_request_UserService_UpdateUser_0 ctx (req_Body req) pathParams) UserMsg.
Definition handle_DeleteUser : HandlerFunc :=
  unary "/example.v1.UserService/DeleteUser"
    (fun ctx _ pathParams => local_request_UserService_DeleteUser_0 ctx pathParams) (fun _ => DeleteMsg).
Definition handle_ListUsers : HandlerFunc :=
  unary "/example.v1.UserService/ListUsers"
    (fun ctx req _ => local_request_UserService_ListUsers_0 ctx req) ListMsg.

Definition handle_streaming : HandlerFunc := fun header _ _ =>
  retM (HTTPError header
    (EStatus codes.Unimplemented "streaming calls are not yet supported in the in-process transport")).

(** * The router *)

Record handler := mkHandler { pat : Pattern; h : HandlerFunc }.
Abbreviation ServeMux := (gmap string (list handler)).

Definition Handle (meth : string) (p : Pattern) (f : HandlerFunc) (mux : ServeMux) : ServeMux :=
  <[meth := mkHandler p f :: default [] (mux !! meth)]> mux.

Definition RegisterUserServiceHandlerServer (mux : ServeMux) : ServeMux :=
  let mux := Handle "GET" pattern_UserService_GetUser_0 handle_GetUser mux in
  let mux := Handle "POST" pattern_UserService_CreateUser_0 handle_CreateUser mux in
  let mux := Handle "PUT" pattern_UserService_UpdateUser_0 handle_UpdateUser mux in
  let mux := Handle "DELETE" pattern_UserService_DeleteUser_0 handle_DeleteUser mux in
  let mux := Handle "GET" pattern_UserService_ListUsers_0 handle_ListUsers mux in
  let mux := Handle "GET" pattern_UserService_StreamUserEvents_0 handle_streaming mux in
  let mux := Handle "POST" pattern_UserService_CollectUserMetrics_0 handle_streaming mux in
  Handle "POST" pattern_UserService_ChatStream_0 handle_streaming mux.

(** The order in which Go visits the map of methods. *)
Context (range : nat -> ServeMux -> list (string * list handler)).

Definition isPathLengthFallback (r : Request) : bool :=
  bool_decide (Method r = "POST") &&
  bool_decide (Header_Get r "Content-Type" = form_type).

(** The components and the verb to match [p] against: [None] when nothing is left
    of the last component before the verb. *)
Definition components_for (p : Pattern) (components : list string) : option (list string * string) :=
  let last_ := default "" (last components) in
  if bool_decide (verb p <> "") && HasSuffix last_ (":" +:+ verb p) then
    let idx := (String.length last_ - String.length (verb p) - 1)%nat in
    if (idx =? 0)%nat then None
    else Some (removelast components ++ [String.substring 0 idx last_], verb p)
  else Some (components, "").

(** The first loop of [ServeHTTP]: the handlers of the method. *)
Fixpoint serve_handlers (hs : list handler) (components : list string) (header : gmap string string)
    (r : Request) : option (M S Response) :=
  match hs with
  | [] => None
  | x :: hs =>
      match components_for (pat x) components with
      | None => Some (retM (DefaultRoutingErrorHandler header 404))
      | Some (comps, verb) =>
          match MatchAndEscape (pat x) comps verb with
          | Some pathParams => Some (h x header r pathParams)
          | None => serve_handlers hs components header r
          end
      end
  end.

(** The second: a handler of another method, for the fallback from a form sent
    with POST to GET, or for the status. *)
Fixpoint serve_others (others : list (string * handler)) (components : list string) (header : gmap string string)
    (r : Request) : M S Response :=
  match others with
  | [] => retM (DefaultRoutingErrorHandler header 404)
  | (m, x) :: others =>
      let '(comps, verb) := default (components, "") (components_for (pat x) components) in
      match MatchAndEscape (pat x) comps verb with
      | None => serve_others others components header r
      | Some pathParams =>
          if isPathLengthFallback r && bool_decide (m = "GET") then
            match ParseForm r with
            | Err err => retM (HTTPError header (EStatus codes.InvalidArgument (error_text err)))
            | Ok r => h x header r pathParams
            end
          else retM (DefaultRoutingErrorHandler header 405)
      end
  end.

Definition other_handlers (n : nat) (mux : ServeMux) (meth : string) : list (string * handler) :=
  flat_map (fun mhs => if bool_decide (fst mhs = meth) then [] else map (pair (fst mhs)) (snd mhs)) (range n mux).

Definition after_slash (path : string) : string := String.substring 1 (String.length path - 1) path.

Definition dispatch (mux : ServeMux) (header : gmap string string) (r : Request) : M S Response :=
  let pathComponents := Split (after_slash (Path r)) "/" in
  match serve_handlers (default [] (mux !! Method r)) pathComponents header r with
  | Some answer => answer
  | None => fun ws => serve_others (other_handlers (w_tick (fst ws)) mux (Method r)) pathComponents header r ws
  end.

Definition ServeHTTP (mux : ServeMux) (header : gmap string string) (r : Request) : M S Response :=
  if negb (HasPrefix (Path r) "/") then retM (DefaultRoutingErrorHandler header 400) else
  let override := Header_Get r "X-Http-Method-Override" in
  if bool_decide (override <> "") && isPathLengthFallback r then
    match ParseForm r with
    | Err err => retM (HTTPError header (EStatus codes.InvalidArgument (error_text err)))
    | Ok r => dispatch mux header (set_Method (ToUpper override) r)
    end
  else dispatch mux header r.

(** * CORS *)

Definition cors_headers : list (string * string) :=
  [("Access-Control-Allow-Origin", "*");
   ("Access-Control-Allow-Methods", "GET, POST, PUT, DELETE, OPTIONS");
   ("Access-Control-Allow-Headers", "Content-Type, Authorization, X-Request-ID, X-Api-Key");
   ("Access-Control-Expose-Headers", "X-Request-ID")].

Definition add_headers (header : gmap string string) : gmap string string :=
  fold_left (fun h kv => <[fst kv := snd kv]> h) cors_headers header.
Definition cors : gmap string string := add_headers ∅.

(** The wrapped handler writes to a response whose headers are set already. *)
Definition corsMiddleware (next : gmap string string -> Request -> M S Response)
    (header : gmap string string) (r : Request) : M S Response :=
  let header := add_headers header in
  if bool_decide (Method r = "OPTIONS")
  then retM {| Status := 204; Header := header; Body := "" |}
  else next header r.

(** The handler [run] serves at the gateway's port. *)
Definition gatewayHandler : Request -> M S Response :=
  corsMiddleware (ServeHTTP (RegisterUserServiceHandlerServer ∅)) ∅.

(** * Lemmas *)

(** What the table of routes says: the call and its parameters. *)
Inductive route :=
| ToGetUser (id : string) | ToListUsers | ToCreateUser | ToUpdateUser (id : string) | ToDeleteUser (id : string)
| ToStreamUserEvents (user_id : string) | ToCollectUserMetrics | ToChatStream | OtherMethod | NoRoute.

Definition same (s t : string) : bool := bool_decide (s = t).

Definition route_of (method : string) (components : list string) : route :=
  match components with
  | [v1; c] =>
      if same v1 "v1" && same c "users" then
        if same method "GET" then ToListUsers else if same method "POST" then ToCreateUser else OtherMethod
      else if same v1 "v1" && same c "metrics" then
        if same method "POST" then ToCollectUserMetrics else OtherMethod
      else if same v1 "v1" && same c "chat" then
        if same method "POST" then ToChatStream else OtherMethod
      else NoRoute
  | [v1; users; id] =>
      if same v1 "v1" && same users "users" then
        if same method "GET" then ToGetUser id else if same method "PUT" then ToUpdateUser id
        else if same method "DELETE" then ToDeleteUser id else OtherMethod
      else NoRoute
  | [v1; users; user_id; events] =>
      if same v1 "v1" && same users "users" && same events "events" then
        if same method "GET" then ToStreamUserEvents user_id else OtherMethod
      else NoRoute
  | _ => NoRoute
  end.

(** The handlers of the service's methods, and their registration: what both
    registrations of the generated code have in common. *)
Record Handlers := mkHandlers {
  on_GetUser : HandlerFunc;
  on_CreateUser : HandlerFunc;
  on_UpdateUser : HandlerFunc;
  on_DeleteUser : HandlerFunc;
  on_ListUsers : HandlerFunc;
  on_StreamUserEvents : HandlerFunc;
  on_CollectUserMetrics : HandlerFunc;
  on_ChatStream : HandlerFunc
}.

Definition register (t : Handlers) (mux : ServeMux) : ServeMux :=
  let mux := Handle "GET" pattern_UserService_GetUser_0 (on_GetUser t) mux in
  let mux := Handle "POST" pattern_UserService_CreateUser_0 (on_CreateUser t) mux in
  let mux := Handle "PUT" pattern_UserService_UpdateUser_0 (on_UpdateUser t) mux in
  let mux := Handle "DELETE" pattern_UserService_DeleteUser_0 (on_DeleteUser t) mux in
  let mux := Handle "GET" pattern_UserService_ListUsers_0 (on_ListUsers t) mux in
  let mux := Handle "GET" pattern_UserService_StreamUserEvents_0 (on_StreamUserEvents t) mux in
  let mux := Handle "POST" pattern_UserService_CollectUserMetrics_0 (on_CollectUserMetrics t) mux in
  Handle "POST" pattern_UserService_ChatStream_0 (on_ChatStream t) mux.

Definition in_process : Handlers :=
  mkHandlers handle_GetUser handle_CreateUser handle_UpdateUser handle_DeleteUser handle_ListUsers
    handle_streaming handle_streaming handle_streaming.

Lemma register_in_process mux : RegisterUserServiceHandlerServer mux = register in_process mux.
Proof using. reflexivity. Qed.

Definition answer (t : Handlers) (to : route) : gmap string string -> Request -> M S Response := fun header r =>
  match to with
  | ToGetUser id => on_GetUser t header r {[ "id" := id ]}
  | ToListUsers => on_ListUsers t header r ∅
  | ToCreateUser => on_CreateUser t header r ∅
  | ToUpdateUser id => on_UpdateUser t header r {[ "id" := id ]}
  | ToDeleteUser id => on_DeleteUser t header r {[ "id" := id ]}
  | ToStreamUserEvents user_id => on_StreamUserEvents t header r {[ "user_id" := user_id ]}
  | ToCollectUserMetrics => on_CollectUserMetrics t header r ∅
  | ToChatStream => on_ChatStream t header r ∅
  | OtherMethod => retM (DefaultRoutingErrorHandler header 405)
  | NoRoute => retM (DefaultRoutingErrorHandler header 404)
  end.

(** ** Patterns *)

(** The next operation pushes a component that must be a literal, or is captured. *)
Lemma match_lit p comps i l pos stack captured lit :
  nth_Z (pool p) i = Some lit ->
  match_ops p comps (mkOp OpLitPush i :: l) pos stack captured =
  match comps !! pos with
  | Some c => if same c lit then match_ops p comps l (Datatypes.S pos) (stack ++ [c]) captured else None
  | None => None
  end.
Proof using.
  intros Hlit. cbn. rewrite Hlit. destruct (comps !! pos) as [c|]; [|done]. unfold same.
  destruct (decide (c = lit)) as [->|Hne].
  - by rewrite !bool_decide_eq_true_2.
  - rewrite !bool_decide_eq_false_2; [done|done|congruence].
Qed.

Lemma match_capture p comps i l pos stack captured :
  match_ops p comps (mkOp OpPush 0 :: mkOp OpConcatN 1 :: mkOp OpCapture i :: l) pos stack captured =
  match comps !! pos with
  | Some c => match_ops p comps l (Datatypes.S pos) stack (<[i := c]> captured)
  | None => None
  end.
Proof using.
  cbn. destruct (comps !! pos) as [c|]; [|done].
  replace (length (stack ++ [c]) - Z.to_nat 1)%nat with (length stack) by (rewrite length_app; cbn; lia).
  rewrite take_app_length, drop_app_length, last_snoc, length_app. cbn.
  replace (length stack + 1 - 1)%nat with (length stack) by lia. by rewrite take_app_length.
Qed.

(** Run a pattern on a list of components of each length. *)
Ltac run_pattern eq comps :=
  unfold MatchAndEscape; rewrite eq; cbn [verb ops vars]; rewrite bool_decide_eq_true_2 by done;
  destruct comps as [|?v [|?c [|?i [|?e [|? ?]]]]];
  repeat (first [erewrite match_lit by reflexivity | rewrite match_capture]; cbn [lookup list_lookup]);
  repeat match goal with |- context [same ?x ?y] => destruct (same x y) end; reflexivity.

Definition literals (pool : list string) : Pattern := mkPattern [mkOp OpLitPush 0; mkOp OpLitPush 1] pool [] 0 "".

Lemma literals_eq c : literals ["v1"; c] = mkPattern [mkOp OpLitPush 0; mkOp OpLitPush 1] ["v1"; c] [] 0 "".
Proof using. reflexivity. Qed.

Lemma user_pattern_eq : user_pattern =
  mkPattern [mkOp OpLitPush 0; mkOp OpLitPush 1; mkOp OpPush 0; mkOp OpConcatN 1; mkOp OpCapture 0]
    ["v1"; "users"; "id"] ["id"] 0 "".
Proof using. reflexivity. Qed.
Lemma events_pattern_eq : pattern_UserService_StreamUserEvents_0 =
  mkPattern [mkOp OpLitPush 0; mkOp OpLitPush 1; mkOp OpPush 0; mkOp OpConcatN 1; mkOp OpCapture 0; mkOp OpLitPush 3]
    ["v1"; "users"; "user_id"; "events"] ["user_id"] 0 "".
Proof using. reflexivity. Qed.

Lemma match_user comps : MatchAndEscape user_pattern comps "" =
  match comps with
  | [v1; users; id] => if same v1 "v1" && same users "users" then Some {[ "id" := id ]} else None
  | _ => None
  end.
Proof using. run_pattern user_pattern_eq comps. Qed.

Lemma match_events comps : MatchAndEscape pattern_UserService_StreamUserEvents_0 comps "" =
  match comps with
  | [v1; users; id; events] =>
      if same v1 "v1" && same users "users" && same events "events" then Some {[ "user_id" := id ]} else None
  | _ => None
  end.
Proof using. run_pattern events_pattern_eq comps. Qed.

Lemma match_literals c comps : MatchAndEscape (literals ["v1"; c]) comps "" =
  match comps with
  | [v1; c'] => if same v1 "v1" && same c' c then Some ∅ else None
  | _ => None
  end.
Proof using. run_pattern (literals_eq c) comps. Qed.

(** ** The router on handlers without verbs *)

Context (Hrange : forall n mux, range n mux ≡ₚ map_to_list mux).

Section registered.
Context (t : Handlers).
Abbreviation gateway_mux := (register t ∅).

Definition mux_get : list handler :=
  [mkHandler pattern_UserService_StreamUserEvents_0 (on_StreamUserEvents t);
   mkHandler (literals ["v1"; "users"]) (on_ListUsers t); mkHandler user_pattern (on_GetUser t)].
Definition mux_post : list handler :=
  [mkHandler (literals ["v1"; "chat"]) (on_ChatStream t);
   mkHandler (literals ["v1"; "metrics"]) (on_CollectUserMetrics t);
   mkHandler (literals ["v1"; "users"]) (on_CreateUser t)].
Definition mux_put : list handler := [mkHandler user_pattern (on_UpdateUser t)].
Definition mux_delete : list handler := [mkHandler user_pattern (on_DeleteUser t)].

Lemma Handle_handlers m p f (mux : ServeMux) m' :
  default [] (Handle m p f mux !! m') =
  if decide (m = m') then mkHandler p f :: default [] (mux !! m') else default [] (mux !! m').
Proof using. unfold Handle. rewrite lookup_insert. case_decide; [by subst m'|done]. Qed.

Definition handlers_of (m : string) : list handler :=
  if decide (m = "GET") then mux_get else if decide (m = "POST") then mux_post
  else if decide (m = "PUT") then mux_put else if decide (m = "DELETE") then mux_delete else [].

Lemma gateway_handlers m : default [] (gateway_mux !! m) = handlers_of m.
Proof using.
  unfold register, handlers_of. rewrite !Handle_handlers, lookup_empty.
  repeat case_decide; subst; try done.
Qed.

Definition params_of (components : list string) (x : handler) : option (gmap string string) :=
  MatchAndEscape (pat x) components "".

Definition plain (x : handler) : Prop := verb (pat x) = "".

Lemma components_for_plain x comps : plain x -> components_for (pat x) comps = Some (comps, "").
Proof using. intros Hx. unfold components_for. by rewrite Hx, bool_decide_eq_false_2 by auto. Qed.

Lemma serve_handlers_plain hs comps header r :
  Forall plain hs ->
  serve_handlers hs comps header r =
  match list_find (fun x => is_Some (params_of comps x)) hs with
  | Some (_, x) => (fun pathParams => h x header r pathParams) <$> params_of comps x
  | None => None
  end.
Proof using.
  induction 1 as [|x hs Hx _ IH]; [done|]. cbn. rewrite components_for_plain by done. unfold params_of in *.
  destruct (MatchAndEscape (pat x) comps "") as [ps|] eqn:Hm.
  - rewrite decide_True by by eexists. cbn. by rewrite Hm.
  - rewrite decide_False by by intros [? ?]. rewrite IH. by destruct (list_find _ hs) as [[? ?]|].
Qed.

(** Without the fallback a handler of another method only tells 405 from 404. *)
Lemma serve_others_plain others comps header r :
  isPathLengthFallback r = false -> Forall (fun mx => plain (snd mx)) others ->
  serve_others others comps header r =
  retM (DefaultRoutingErrorHandler header
    (if existsb (fun mx => bool_decide (is_Some (params_of comps (snd mx)))) others then 405 else 404)).
Proof using.
  intros Hf. induction 1 as [|[m x] others Hx _ IH]; [done|]. cbn [serve_others existsb snd] in *.
  rewrite components_for_plain by done. unfold params_of in *.
  cbn [default from_option id].
  destruct (MatchAndEscape (pat x) comps "") as [ps|] eqn:Hm.
  - rewrite Hf. cbn [andb]. case_bool_decide as Hn; [done|]. destruct Hn. by eexists.
  - rewrite bool_decide_eq_false_2 by by intros [? ?]. exact IH.
Qed.

Lemma other_handlers_in n mux meth m x :
  (m, x) ∈ other_handlers n mux meth <-> m <> meth /\ exists hs, mux !! m = Some hs /\ x ∈ hs.
Proof using Hrange.
  unfold other_handlers. rewrite list_elem_of_In, in_flat_map. split.
  - intros ([m' hs] & Hin & Hx). apply list_elem_of_In in Hin. rewrite Hrange, elem_of_map_to_list in Hin.
    cbn in Hx. case_bool_decide; [done|]. apply in_map_iff in Hx as (x' & [= <- <-] & Hx).
    split; [done|]. exists hs. split; [done|by apply list_elem_of_In].
  - intros (Hne & hs & Hm & Hx). exists (m, hs). split.
    + apply list_elem_of_In. by rewrite Hrange, elem_of_map_to_list.
    + cbn. rewrite bool_decide_eq_false_2 by done. apply in_map, list_elem_of_In, Hx.
Qed.

(** ** The routes *)

Definition matched (comps : list string) (hs : list handler) : bool :=
  existsb (fun x => bool_decide (is_Some (params_of comps x))) hs.

(** Some handler, of whatever method, matches. *)
Definition known (comps : list string) : bool :=
  matched comps (mux_get ++ mux_post ++ mux_put ++ mux_delete).

Lemma handlers_plain m : Forall plain (handlers_of m).
Proof using. unfold handlers_of. repeat case_decide; repeat constructor. Qed.

(** The parameters each pattern extracts, in the order of the handlers. *)
Lemma find_matching (x : handler) hs comps :
  list_find (fun x => is_Some (params_of comps x)) (x :: hs) =
  match params_of comps x with
  | Some _ => Some (0%nat, x)
  | None => prod_map Datatypes.S id <$> list_find (fun x => is_Some (params_of comps x)) hs
  end.
Proof using.
  cbn. destruct (params_of comps x).
  - by rewrite decide_True by by eexists.
  - by rewrite decide_False by by intros [? ?].
Qed.

(** Decide the comparisons of two literals, then split on the others. *)
Ltac literals_done :=
  repeat match goal with |- context [same (String.String ?a ?s) (String.String ?b ?t)] =>
    let x := constr:(same (String.String a s) (String.String b t)) in
    let v := eval vm_compute in x in change x with v; cbv iota beta end.
Ltac split_same :=
  repeat match goal with |- context [same ?x ?y] =>
    let H := fresh "Hsame" in destruct (same x y) eqn:H; cbn [andb orb]; cbv iota end.
Ltac by_segments comps :=
  destruct comps as [|?v [|?c [|?i [|?e [|? ?]]]]]; cbn [route_of]; literals_done.

Lemma known_eq comps : known comps =
  match comps with
  | [v; c] => same v "v1" && (same c "users" || same c "metrics" || same c "chat")
  | [v; c; _] => same v "v1" && same c "users"
  | [v; c; _; e] => same v "v1" && same c "users" && same e "events"
  | _ => false
  end.
Proof using.
  unfold known, matched, params_of. cbn [existsb app pat mux_get mux_post mux_put mux_delete].
  rewrite match_events, !match_literals, !match_user. by_segments comps; try reflexivity; split_same; reflexivity.
Qed.

Lemma same_eq x y : same x y = true -> x = y.
Proof using. apply bool_decide_eq_true_1. Qed.

Ltac by_method comps :=
  rewrite ?find_matching; unfold params_of; cbn [pat list_find];
  rewrite ?match_events, ?match_literals, ?match_user; by_segments comps; try reflexivity; split_same; try done;
  cbn [fmap option_fmap option_map prod_map pat h id fst snd]; rewrite ?match_events, ?match_literals, ?match_user;
  first [ repeat match goal with H : same _ _ = _ |- _ => rewrite H; clear H end; reflexivity
        | exfalso; repeat match goal with H : same _ _ = true |- _ => apply same_eq in H end; congruence ].

Lemma handlers_route meth comps header r :
  match list_find (fun x => is_Some (params_of comps x)) (handlers_of meth) with
  | Some (_, x) => (fun ps => h x header r ps) <$> params_of comps x = Some (answer t (route_of meth comps) header r)
  | None => route_of meth comps = (if known comps then OtherMethod else NoRoute)
  end.
Proof using.
  rewrite known_eq. unfold handlers_of.
  destruct (decide (meth = "GET")) as [->|Hget]; [|destruct (decide (meth = "POST")) as [->|Hpost];
    [|destruct (decide (meth = "PUT")) as [->|Hput]; [|destruct (decide (meth = "DELETE")) as [->|Hdel]]]].
  - unfold mux_get. by_method comps.
  - unfold mux_post. by_method comps.
  - unfold mux_put. by_method comps.
  - unfold mux_delete. by_method comps.
  - cbn [list_find]. assert (Hm : forall m, m <> meth -> same meth m = false).
    { intros m Hm. apply bool_decide_eq_false_2. by intros <-. }
    destruct comps as [|v [|c [|i [|e [|? ?]]]]]; cbn [route_of]; try reflexivity;
      rewrite ?(Hm "GET"), ?(Hm "POST"), ?(Hm "PUT"), ?(Hm "DELETE") by done; split_same; done.
Qed.

Lemma in_matched comps hs : matched comps hs = true <-> exists x, x ∈ hs /\ is_Some (params_of comps x).
Proof using.
  unfold matched. rewrite existsb_exists. split; intros (x & Hin & Hx); exists x;
    (split; [by apply list_elem_of_In|by case_bool_decide + apply bool_decide_eq_true_2]).
Qed.

Lemma gateway_lookup m : gateway_mux !! m = if decide (handlers_of m = []) then None else Some (handlers_of m).
Proof using.
  pose proof (gateway_handlers m) as Hd. destruct (gateway_mux !! m) as [hs|] eqn:Hm; cbn in Hd; subst.
  - case_decide as Hn; [|done]. exfalso. revert Hm.
    unfold register, Handle. rewrite Hn.
    intros Hm. repeat (apply lookup_insert_Some in Hm as [[_ [=]]|[_ Hm]]). by rewrite lookup_empty in Hm.
  - by rewrite <- Hd.
Qed.

(** When no handler of the method matches, one of another method does exactly if
    the path is known. *)
Lemma others_known n meth comps :
  list_find (fun x => is_Some (params_of comps x)) (handlers_of meth) = None ->
  existsb (fun mx => bool_decide (is_Some (params_of comps (snd mx)))) (other_handlers n gateway_mux meth) =
  known comps.
Proof using Hrange.
  intros Hnone. apply list_find_None in Hnone. apply eq_bool_prop_intro. unfold known.
  rewrite !Is_true_true, in_matched, existsb_exists. split.
  - intros ([m x] & Hin & Hx). apply list_elem_of_In, other_handlers_in in Hin as (_ & hs & Hhs & Hin).
    apply bool_decide_eq_true_1 in Hx. exists x. split; [|done].
    rewrite gateway_lookup in Hhs. case_decide; [done|]. injection Hhs as <-. revert Hin. unfold handlers_of.
    repeat case_decide; rewrite ?elem_of_app, ?elem_of_nil; first [done|auto].
  - intros (x & Hin & Hx).
    assert (exists m, x ∈ handlers_of m) as [m Hm].
    { rewrite !elem_of_app in Hin. destruct Hin as [H|[H|[H|H]]];
        [by exists "GET"|by exists "POST"|by exists "PUT"|by exists "DELETE"]. }
    exists (m, x). split; [|by apply bool_decide_eq_true_2]. apply list_elem_of_In, other_handlers_in.
    split.
    + intros ->. by eapply Forall_forall in Hnone; [|exact Hm].
    + exists (handlers_of m). split; [|done]. rewrite gateway_lookup, decide_False; [done|].
      intros Hn. rewrite Hn in Hm. by apply not_elem_of_nil in Hm.
Qed.

Lemma others_plain n meth : Forall (fun mx => plain (snd mx)) (other_handlers n gateway_mux meth).
Proof using Hrange.
  apply Forall_forall. intros [m x] (_ & hs & Hhs & Hin)%other_handlers_in. cbn.
  rewrite gateway_lookup in Hhs. case_decide; [done|]. injection Hhs as <-.
  exact (proj1 (Forall_forall _ _) (handlers_plain m) x Hin).
Qed.

Definition segments (r : Request) : list string := Split (after_slash (Path r)) "/".

Lemma registered_routes r header ws :
  isPathLengthFallback r = false ->
  ServeHTTP gateway_mux header r ws =
    (if HasPrefix (Path r) "/" then answer t (route_of (Method r) (segments r)) header r
     else retM (DefaultRoutingErrorHandler header 400)) ws.
Proof using Hrange.
  intros Hf. unfold ServeHTTP. destruct (HasPrefix (Path r) "/"); [cbn [negb]|done].
  rewrite Hf, andb_false_r. unfold dispatch. fold (segments r).
  rewrite gateway_handlers, serve_handlers_plain by apply handlers_plain.
  pose proof (handlers_route (Method r) (segments r) header r) as Hr.
  destruct (list_find _ (handlers_of (Method r))) as [[i x]|] eqn:Hfind.
  - destruct (params_of (segments r) x); cbn in Hr |- *; [injection Hr as ->|]; done.
  - rewrite serve_others_plain, others_known by (done || apply others_plain). rewrite Hr.
    by destruct (known (segments r)).
Qed.

(** ** What a request can do *)

(** What the router passes on: the request, or what is left of it once its form
    is read, with any method. *)
Definition passed_on (r r' : Request) : Prop :=
  r' = r \/ exists r1 m, ParseForm r = Ok r1 /\ r' = set_Method m r1.

Lemma ParseForm_again r r1 m : ParseForm r = Ok r1 -> ParseForm (set_Method m r1) = Ok (set_Method m r1).
Proof using.
  intros H. assert (Hf : exists f, req_Form r1 = Some f).
  { revert H. unfold ParseForm. destruct (req_Form r) as [f|] eqn:Hr; [intros [= <-]; by exists f|].
    repeat (case_match; try done); intros [= <-]; cbn; eauto. }
  destruct Hf as [f Hf]. unfold ParseForm. cbn. by rewrite Hf.
Qed.

Lemma passed_on_header r r' : passed_on r r' -> req_Header r' = req_Header r /\ req_Context r' = req_Context r.
Proof using.
  intros [->|(r1 & m & H & ->)]; [done|]. cbn. revert H. unfold ParseForm. destruct (req_Form r); [by intros [= <-]|].
  repeat (case_match; try done); by intros [= <-].
Qed.

(** A relation between the states before and after a request that every handler
    respects, for the request as it is or with its form read and its method
    overridden, is respected by the router. *)
Context (R : S -> S -> Prop) `{!Reflexive R}.
Definition keeps (r : Request) (f : HandlerFunc) : Prop := forall header ps w s, R s (snd (snd (f header r ps (w, s)))).

Record handlers_keep (r : Request) : Prop := {
  GetUser_keeps : keeps r (on_GetUser t);
  CreateUser_keeps : keeps r (on_CreateUser t);
  UpdateUser_keeps : keeps r (on_UpdateUser t);
  DeleteUser_keeps : keeps r (on_DeleteUser t);
  ListUsers_keeps : keeps r (on_ListUsers t);
  StreamUserEvents_keeps : keeps r (on_StreamUserEvents t);
  CollectUserMetrics_keeps : keeps r (on_CollectUserMetrics t);
  ChatStream_keeps : keeps r (on_ChatStream t)
}.

Lemma handlers_of_keep r m x : handlers_keep r -> x ∈ handlers_of m -> keeps r (h x).
Proof using.
  intros []. unfold handlers_of, mux_get, mux_post, mux_put, mux_delete. repeat case_decide;
    rewrite ?elem_of_cons, ?elem_of_nil; intros Hx; repeat destruct Hx as [->|Hx]; done.
Qed.

Lemma serve_handlers_keep hs comps header r m :
  Forall (fun x => keeps r (h x)) hs -> serve_handlers hs comps header r = Some m ->
  forall w s, R s (snd (snd (m (w, s)))).
Proof using Reflexive0.
  induction 1 as [|x hs Hx _ IH]; [done|]. cbn. destruct (components_for _ _) as [[cs v]|]; [|by intros [= <-]; cbn].
  destruct (MatchAndEscape _ _ _); [|exact IH]. intros [= <-] w s. apply Hx.
Qed.

Lemma serve_others_keep others comps header r w s :
  (forall r', ParseForm r = Ok r' -> Forall (fun mx => keeps r' (h (snd mx))) others) ->
  R s (snd (snd (serve_others others comps header r (w, s)))).
Proof using Reflexive0.
  intros Hall. induction others as [|[m x] others IH]; [by cbn|]. cbn [serve_others].
  destruct (default _ _) as [cs v]. destruct (MatchAndEscape _ _ _) as [ps|].
  - destruct (_ && _); [|by cbn]. destruct (ParseForm r) as [r'|]; [|by cbn].
    exact (proj1 (proj1 (Forall_cons _ _ _) (Hall r' eq_refl)) header ps w s).
  - apply IH. intros r' Hr. exact (proj2 (proj1 (Forall_cons _ _ _) (Hall r' Hr))).
Qed.

Lemma dispatch_keeps header r w s :
  handlers_keep r -> (forall r', ParseForm r = Ok r' -> handlers_keep r') ->
  R s (snd (snd (dispatch gateway_mux header r (w, s)))).
Proof using Hrange Reflexive0.
  intros Hk Hk'. unfold dispatch. rewrite gateway_handlers.
  destruct (serve_handlers _ _ _ _) as [m|] eqn:Hm.
  - eapply serve_handlers_keep; [|exact Hm]. apply Forall_forall. intros x. by apply handlers_of_keep.
  - apply serve_others_keep. intros r' Hr. apply Forall_forall. intros [m x] (_ & hs & Hhs & Hin)%other_handlers_in.
    cbn [snd]. rewrite gateway_lookup in Hhs. case_decide; [done|]. injection Hhs as <-.
    eapply handlers_of_keep; [by apply Hk'|exact Hin].
Qed.

Lemma served_keeps header r w s :
  (forall r', passed_on r r' -> handlers_keep r') -> R s (snd (snd (ServeHTTP gateway_mux header r (w, s)))).
Proof using Hrange Reflexive0.
  intros Hk. unfold ServeHTTP. destruct (negb _); [by cbn|]. destruct (_ && _).
  - destruct (ParseForm r) as [r1|] eqn:Hr1; [|by cbn]. apply dispatch_keeps.
    + apply Hk. right. by exists r1, (ToUpper (Header_Get r "X-Http-Method-Override")).
    + intros r2. rewrite (ParseForm_again _ _ _ Hr1). intros [= <-].
      apply Hk. right. by exists r1, (ToUpper (Header_Get r "X-Http-Method-Override")).
  - apply dispatch_keeps; [apply Hk; by left|]. intros r1 Hr1. apply Hk. right. exists r1, (Method r1).
    by destruct r1.
Qed.
End registered.

Lemma cors_keeps (R : S -> S -> Prop) `{!Reflexive R} next header r w s :
  (forall header, R s (snd (snd (next header r (w, s))))) -> R s (snd (snd (corsMiddleware next header r (w, s)))).
Proof using. intros Hn. unfold corsMiddleware. destruct (bool_decide _); [by cbn|apply Hn]. Qed.

(** C19: Unless a form is posted, the gateway answers a request as the table of
    routes says, whatever order Go visits its map of methods in: the method and
    the segments of the path select the service's method and its id; a known
    path with another method is the routing error 405, which the runtime writes
    as 501, and any other path is 404. *)
Theorem gateway_routes r header ws :
  isPathLengthFallback r = false ->
  ServeHTTP (RegisterUserServiceHandlerServer ∅) header r ws =
    (if HasPrefix (Path r) "/" then answer in_process (route_of (Method r) (segments r)) header r
     else retM (DefaultRoutingErrorHandler header 400)) ws.
Proof using Hrange. intros Hf. rewrite register_in_process. by apply registered_routes. Qed.
(** ** What the gateway answers *)

(** The service's answer to a [CreateUser] the gateway decoded is the response,
    behind the headers for browsers. *)
Lemma gateway_create r rq ctx ws :
  isPathLengthFallback r = false -> Method r = "POST" -> Path r = "/v1/users" ->
  decode_create (req_Body r) = Ok rq ->
  AnnotateIncomingContext r "/example.v1.UserService/CreateUser" = Ok ctx ->
  gatewayHandler r ws =
  let '(x, ws') := UserService.CreateUser ParseAddress server ctx (Some rq) ws in
  (match x with
   | Err err => HTTPError cors err
   | Ok u => ForwardResponseMessage cors (UserMsg u)
   end, ws').
Proof using Hrange.
  intros Hf Hm Hp Hd Hctx. unfold gatewayHandler, corsMiddleware. fold cors.
  rewrite Hm, bool_decide_eq_false_2 by done. rewrite register_in_process, registered_routes by done.
  unfold segments. rewrite Hp, Hm. change (HasPrefix "/v1/users" "/") with true.
  change (answer in_process (route_of "POST" (Split (after_slash "/v1/users") "/"))) with (answer in_process ToCreateUser).
  cbn [answer on_CreateUser in_process]. unfold handle_CreateUser, unary. rewrite Hctx.
  unfold local_request_UserService_CreateUser_0. rewrite Hd. unfold_monad.
  by destruct (UserService.CreateUser _ _ _ _ ws) as [[?|?] ws'].
Qed.

(** The status of a failed call is that of its code; but an expired or cancelled
    context, for which the gRPC server answers DEADLINE_EXCEEDED or CANCELLED, has
    no status the gateway would know, and is answered 500. *)
Theorem gateway_hides_deadlines header err buf :
  Marshal (StatusMsg (fst (Convert err)) (snd (Convert err))) = Ok buf ->
  Status (HTTPError header err) = HTTPStatusFromCode (fst (Convert err)) /\
  (err = EDeadlineExceeded \/ err = ECanceled -> Status (HTTPError header err) = 500).
Proof using.
  intros Hm. assert (Hs : Status (HTTPError header err) = HTTPStatusFromCode (fst (Convert err))).
  { unfold HTTPError. destruct (Convert err) as [c text]. cbn in Hm. by rewrite Hm. }
  split; [exact Hs|]. rewrite Hs. by intros [->| ->].
Qed.

(** ** What a request can do to the service *)

(** Nothing, or one call. *)
Definition at_most_one_call (s s' : S) : Prop := s' = s \/ UserService.step ParseAddress server s s'.

Abbreviation calls := (keeps at_most_one_call).

#[local] Instance at_most_one_call_refl : Reflexive at_most_one_call.
Proof using. by left. Qed.

Lemma unary_calls {A} r rpc (local : option Ctx -> Request -> gmap string string -> M S (res A)) to_message :
  (forall ctx r ps w s, at_most_one_call s (snd (snd (local ctx r ps (w, s))))) -> calls r (unary rpc local to_message).
Proof using.
  intros Hl header ps w s. unfold unary. destruct (AnnotateIncomingContext r rpc) as [ctx|err]; [|by left].
  specialize (Hl ctx r ps w s). unfold_monad. by destruct (local ctx r ps (w, s)) as [x [w1 s1]].
Qed.

Lemma in_process_calls r : handlers_keep in_process at_most_one_call r.
Proof using.
  split; try (by left); apply unary_calls; intros ctx r' ps w s.
  - unfold local_request_UserService_GetUser_0. destruct (ps !! "id"); [|by left]. right. apply UserService.step_get.
  - unfold local_request_UserService_CreateUser_0.
    destruct (decode_create _) as [rq|err]; [|destruct (Is err EEOF); [|by left]]; right; apply UserService.step_create.
  - unfold local_request_UserService_UpdateUser_0.
    destruct (decode_update _) as [rq|err]; [|destruct (Is err EEOF); [|by left]];
      (destruct (ps !! "id"); [|by left]); right; apply UserService.step_update.
  - unfold local_request_UserService_DeleteUser_0. destruct (ps !! "id"); [|by left]. right. apply UserService.step_delete.
  - unfold local_request_UserService_ListUsers_0. destruct (ParseForm r') as [r1|]; [|by left].
    destruct (populate_list _); [|by left]. right. apply UserService.step_list.
Qed.

Lemma gateway_calls r w s : at_most_one_call s (snd (snd (gatewayHandler r (w, s)))).
Proof using Hrange.
  unfold gatewayHandler. apply cors_keeps; [apply _|]. intros header. rewrite register_in_process.
  apply served_keeps; [apply _|]. intros r' _. apply in_process_calls.
Qed.
End gateway.


(** * Witnesses *)

(** Messages are written by their kind, which is all the examples look at. *)
Definition codec0 : Codec := {|
  decode_create := fun _ => Ok UserService.alice_request;
  decode_update := fun _ => Err EEOF;
  populate_list := fun _ => Err (EOther "query");
  Marshal := fun m => Ok match m with UserMsg _ => "user" | ListMsg _ => "list" | DeleteMsg => "deleted" | StatusMsg _ t => t | _ => "chunk" end;
  ContentType := fun _ => "application/json";
  AnnotateIncomingContext := fun _ _ => Ok (Some Background);
  query_error := fun _ => None
|}.
Definition range0 {S} (n : nat) (mux : gmap string (list (handler (S := S)))) := map_to_list mux.
Definition request0 (meth path : string) : Request := mkRequest (Some Background) meth path "" ∅ "" None.

(** A posted form is read once: its values come before those of the query, and
    nothing is left of the body. *)
Definition form_request : Request :=
  mkRequest (Some Background) "POST" "/v1/users" "page_token=b" {[ "Content-Type" := form_type ]} "page_size=3" None.
Example form_is_read_once :
  match ParseForm (HC := codec0) form_request with
  | Ok r => req_Form r = Some "page_size=3&page_token=b" /\ req_Body r = "" /\ ParseForm (HC := codec0) r = Ok r
  | Err _ => False
  end.
Proof. vm_compute. by repeat split. Qed.

Lemma gateway_routes_witness :
  Status (fst (ServeHTTP (HC := codec0) range0
    (RegisterUserServiceHandlerServer (HC := codec0) UserService.parse0 UserService.service0 ∅) ∅
    (request0 "PATCH" "/v1/users/alice") (UserService.world1, MemoryRepository.NewMemoryRepository))) = 501.
Proof.
  rewrite (gateway_routes (HC := codec0) UserService.parse0 UserService.service0 range0
    (fun _ _ => reflexivity _) (request0 "PATCH" "/v1/users/alice") ∅
    (UserService.world1, MemoryRepository.NewMemoryRepository) eq_refl).
  reflexivity.
Defined.

End Gateway.
