(* ===== verification/Config.v ===== *)
(** [Config] of [pkg/config/config.go]: the configuration records, their
    validation, and the overrides read from environment variables, with the
    parts of [strconv] and [time] they parse with.

    The YAML decoder, the file system and [net/url] are parameters; the
    environment is a finite map. *)
From S2P Require Import Prelude GoStrings GoErrors Storage CircuitBreaker Cache UserService.
From Stdlib Require Import SpecFloat Ascii.

Module Config.

(** * The configuration *)

Record ServerConfig := mkServer {
  Host : string;
  Port : Z;
  MaxConns : Z;
  Timeout : Z;
  MaxRecvMessageMB : Z;
  MaxSendMessageMB : Z;
  MaxUsers : Z;
  MaxStreamMessages : Z;
  MaxStringBytes : Z;
  StreamInterval : Z;
  RateLimitPerSecond : Z;
  RateLimitBurst : Z;
  PerClientRateLimitPerSecond : Z;
  PerClientRateLimitBurst : Z;
  MaxInFlightRequests : Z
}.

Record MTLSConfig := mkMTLS { mtls_Enabled : bool; ClientCAFile : string }.

Record TLSConfig := mkTLS {
  tls_Enabled : bool;
  CertFile : string;
  KeyFile : string;
  CAFile : string;
  ClientCertFile : string;
  ClientKeyFile : string;
  MTLS : MTLSConfig
}.

Record AuthConfig := mkAuth {
  JWTSecret : string;
  APIKeys : list string;
  JWTAudience : string;
  JWTIssuer : string;
  JWTPublicKey : string;
  AuditAllows : bool;
  MethodScopes : gmap string (list string);
  APIKeyScopes : list string;
  DefaultDeny : bool
}.

Definition minJWTSecretBytes : Z := 32.

Record LoggingConfig := mkLogging { Level : string; Format : string }.

Record TracingConfig := mkTracing {
  tracing_Enabled : bool;
  Endpoint : string;
  ServiceName : string;
  SampleRatio : spec_float
}.

Record MetricsConfig := mkMetrics { metrics_Enabled : bool; metrics_Port : Z }.
Record GatewayConfig := mkGateway { gateway_Enabled : bool; gateway_Port : Z }.
Record HealthConfig := mkHealth { health_Port : Z }.
Record CacheConfig := mkCache { cache_Enabled : bool; TTL : Z }.

Record CircuitBreakerConfig := mkBreaker {
  breaker_Enabled : bool;
  FailureThreshold : Z;
  SuccessThreshold : Z;
  OpenTimeout : Z;
  MaxHalfOpenRequests : Z
}.

Record StorageConfig := mkStorage {
  Backend : string;
  URL : string;
  MaxOpenConns : Z;
  MaxIdleConns : Z;
  ConnMaxLifetime : Z;
  PingTimeout : Z;
  RetryAttempts : Z;
  RetryBackoff : Z;
  RetryMaxBackoff : Z;
  CircuitBreaker : CircuitBreakerConfig;
  Cache : CacheConfig
}.

Record ClientConfig := mkClient { Address : string; ServerName : string; AuthToken : string }.

Record Config := mkConfig {
  Server : ServerConfig;
  TLS : TLSConfig;
  Auth : AuthConfig;
  Logging : LoggingConfig;
  Tracing : TracingConfig;
  Metrics : MetricsConfig;
  Health : HealthConfig;
  Storage : StorageConfig;
  Gateway : GatewayConfig;
  Reflection : bool;
  Client : ClientConfig
}.

(** * Validation *)

(** The error that is kept is the first one. *)
Definition firstError (current next : option error) : option error :=
  match current with Some _ => current | None => next end.

(** A chain of early returns. *)
Definition first (checks : list (option error)) : option error := foldr firstError None checks.

Definition check (fails : bool) (message : string) : option error :=
  if fails then Some (EOther message) else None.

Definition validPort (port : Z) : bool := (1 <=? port) && (port <=? 65535).

Definition isLogLevel (level : string) : bool :=
  bool_decide (ToLower level ∈ ["trace"; "debug"; "info"; "warn"; "error"; "fatal"; "panic"]).

(** The first API key that is too short, by its index. *)
Fixpoint short_key (i : nat) (keys : list string) : option error :=
  match keys with
  | [] => None
  | key :: keys =>
      if slen key <? 16
      then Some (EOther ("auth.api_keys[" +:+ pretty i +:+ "] must be at least 16 characters"))
      else short_key (S i) keys
  end.

(** [net/url]: what [ParseRequestURI] yields. *)
Record url := mkURL {
  Scheme : string; url_Host : string; has_User : bool; RawQuery : string; Fragment : string
}.

Section config.
(** [url.ParseRequestURI]; [None] is its error. *)
Context (ParseRequestURI : string -> option url).
(** [strconv.Quote], the [%q] verb. *)
Context (Quote : string -> string).

Definition endpoint_message : string :=
  "tracing.endpoint must be an absolute URL when tracing is enabled".

Definition validate_tracing (t : TracingConfig) : option error :=
  if tracing_Enabled t then
    first [
      check (bool_decide (ServiceName t = ""))
        "tracing.service_name is required when tracing is enabled";
      match ParseRequestURI (Endpoint t) with
      | None => Some (EOther endpoint_message)
      | Some u =>
          let scheme := ToLower (Scheme u) in
          check (bool_decide (url_Host u = "") ||
                 (negb (bool_decide (scheme = "http")) && negb (bool_decide (scheme = "https"))) ||
                 has_User u || bool_decide (RawQuery u <> "") || bool_decide (Fragment u <> ""))
            endpoint_message
      end ]
  else None.

Definition validate_breaker (cb : CircuitBreakerConfig) : option error :=
  if breaker_Enabled cb then
    first [
      check (FailureThreshold cb <? 1) "storage.circuit_breaker.failure_threshold must be positive";
      check (SuccessThreshold cb <? 1) "storage.circuit_breaker.success_threshold must be positive";
      check (OpenTimeout cb <=? 0) "storage.circuit_breaker.open_timeout must be positive";
      check (MaxHalfOpenRequests cb <? 1)
        "storage.circuit_breaker.max_half_open_requests must be positive" ]
  else None.

Definition validate_tls (t : TLSConfig) : option error :=
  if tls_Enabled t then
    first [
      check (blank (CertFile t) || blank (KeyFile t))
        "tls.cert_file and tls.key_file are required when TLS is enabled";
      check (mtls_Enabled (MTLS t) && blank (ClientCAFile (MTLS t)))
        "tls.mtls.client_ca_file is required when mTLS is enabled" ]
  else None.

Definition Validate (c : option Config) : option error :=
  match c with
  | None => Some (EOther "config is nil")
  | Some c =>
    let s := Server c in let a := Auth c in let st := Storage c in
    first [
      check (blank (Host s)) "server.host is required";
      check ((Port s <? 1) || (65535 <? Port s)) "server.port must be between 1 and 65535";
      check (MaxConns s <? 1) "server.max_conns must be positive";
      check (Timeout s <=? 0) "server.timeout must be positive";
      check ((MaxRecvMessageMB s <? 1) || (MaxSendMessageMB s <? 1))
        "server message limits must be positive";
      check ((MaxUsers s <? 1) || (MaxStreamMessages s <? 1) || (MaxStringBytes s <? 1))
        "server resource limits must be positive";
      check (StreamInterval s <=? 0) "server.stream_interval must be positive";
      check ((RateLimitPerSecond s <? 1) || (RateLimitBurst s <? 1))
        "server rate limit values must be positive";
      check ((PerClientRateLimitPerSecond s <? 1) || (PerClientRateLimitBurst s <? 1))
        "server per-client rate limit values must be positive";
      validate_tls (TLS c);
      check (mtls_Enabled (MTLS (TLS c)) && negb (tls_Enabled (TLS c)))
        "tls.mtls.enabled requires tls.enabled";
      check (blank (JWTSecret a) && bool_decide (length (APIKeys a) = 0%nat) && blank (JWTPublicKey a))
        "at least one of auth.jwt_secret, auth.jwt_public_key, or auth.api_keys is required";
      check (bool_decide (JWTSecret a <> "") && (slen (JWTSecret a) <? minJWTSecretBytes))
        "auth.jwt_secret must be at least 32 bytes";
      check (negb (blank (JWTPublicKey a)) && negb (Contains (TrimSpace (JWTPublicKey a)) "-----BEGIN"))
        "auth.jwt_public_key must be a PEM-encoded public key";
      short_key 0 (APIKeys a);
      check (bool_decide (Level (Logging c) = "")) "logging.level is required";
      check (negb (isLogLevel (Level (Logging c))))
        ("logging.level " +:+ Quote (Level (Logging c)) +:+ " is invalid");
      check (negb (bool_decide (Format (Logging c) = "json")) &&
             negb (bool_decide (Format (Logging c) = "console")))
        "logging.format must be json or console";
      validate_tracing (Tracing c);
      check (metrics_Enabled (Metrics c) && negb (validPort (metrics_Port (Metrics c))))
        "metrics.port must be between 1 and 65535";
      check (metrics_Enabled (Metrics c) && (metrics_Port (Metrics c) =? health_Port (Health c)))
        "metrics.port and health.port must differ";
      check (gateway_Enabled (Gateway c) && negb (validPort (gateway_Port (Gateway c))))
        "gateway.port must be between 1 and 65535";
      check (gateway_Enabled (Gateway c) &&
             ((gateway_Port (Gateway c) =? health_Port (Health c)) ||
              (metrics_Enabled (Metrics c) && (gateway_Port (Gateway c) =? metrics_Port (Metrics c)))))
        "gateway.port must differ from health.port and metrics.port";
      check (negb (validPort (health_Port (Health c)))) "health.port must be between 1 and 65535";
      check (negb (bool_decide (Backend st = "memory")) && negb (bool_decide (Backend st = "postgres")))
        "storage.backend must be memory or postgres";
      check ((MaxOpenConns st <? 1) || (MaxIdleConns st <? 0) || (MaxOpenConns st <? MaxIdleConns st))
        "storage connection pool limits are invalid";
      check ((ConnMaxLifetime st <=? 0) || (PingTimeout st <=? 0)) "storage timeouts must be positive";
      check (RetryAttempts st <? 0) "storage.retry_attempts must be non-negative";
      check (RetryBackoff st <=? 0) "storage.retry_backoff must be positive";
      check (RetryMaxBackoff st <=? 0) "storage.retry_max_backoff must be positive";
      validate_breaker (CircuitBreaker st);
      check (cache_Enabled (Cache st) && (TTL (Cache st) <=? 0))
        "storage.cache.ttl must be positive when cache is enabled";
      check (bool_decide (Backend st = "postgres") && blank (URL st))
        "storage.url is required for postgres";
      check (bool_decide (Address (Client c) = "")) "client.address is required" ]
  end.

(** * What a validated configuration promises *)

Definition valid_server (s : ServerConfig) : Prop :=
  blank (Host s) = false /\ 1 <= Port s <= 65535 /\ 1 <= MaxConns s /\ 0 < Timeout s /\
  1 <= MaxRecvMessageMB s /\ 1 <= MaxSendMessageMB s /\
  1 <= MaxUsers s /\ 1 <= MaxStreamMessages s /\ 1 <= MaxStringBytes s /\ 0 < StreamInterval s /\
  1 <= RateLimitPerSecond s /\ 1 <= RateLimitBurst s /\
  1 <= PerClientRateLimitPerSecond s /\ 1 <= PerClientRateLimitBurst s.

Definition valid_tls (t : TLSConfig) : Prop :=
  (mtls_Enabled (MTLS t) = true -> tls_Enabled t = true /\ blank (ClientCAFile (MTLS t)) = false) /\
  (tls_Enabled t = true -> blank (CertFile t) = false /\ blank (KeyFile t) = false).

(** Some credential is configured, and none of them is weak or malformed. *)
Definition valid_auth (a : AuthConfig) : Prop :=
  (blank (JWTSecret a) = false \/ APIKeys a <> [] \/ blank (JWTPublicKey a) = false) /\
  (JWTSecret a = "" \/ 32 <= slen (JWTSecret a)) /\
  (blank (JWTPublicKey a) = true \/ Contains (TrimSpace (JWTPublicKey a)) "-----BEGIN" = true) /\
  Forall (fun key => 16 <= slen key) (APIKeys a).

Definition valid_ports (metrics : MetricsConfig) (gateway : GatewayConfig) (health : HealthConfig)
  : Prop :=
  1 <= health_Port health <= 65535 /\
  (metrics_Enabled metrics = true ->
     1 <= metrics_Port metrics <= 65535 /\ metrics_Port metrics <> health_Port health) /\
  (gateway_Enabled gateway = true ->
     1 <= gateway_Port gateway <= 65535 /\ gateway_Port gateway <> health_Port health /\
     (metrics_Enabled metrics = true -> gateway_Port gateway <> metrics_Port metrics)).

Definition valid_storage (st : StorageConfig) : Prop :=
  (Backend st = "memory" \/ (Backend st = "postgres" /\ blank (URL st) = false)) /\
  1 <= MaxOpenConns st /\ 0 <= MaxIdleConns st <= MaxOpenConns st /\
  0 < ConnMaxLifetime st /\ 0 < PingTimeout st /\ 0 <= RetryAttempts st /\
  0 < RetryBackoff st /\ 0 < RetryMaxBackoff st /\
  (breaker_Enabled (CircuitBreaker st) = true ->
     1 <= FailureThreshold (CircuitBreaker st) /\ 1 <= SuccessThreshold (CircuitBreaker st) /\
     0 < OpenTimeout (CircuitBreaker st) /\ 1 <= MaxHalfOpenRequests (CircuitBreaker st)) /\
  (cache_Enabled (Cache st) = true -> 0 < TTL (Cache st)).

Definition valid_tracing (t : TracingConfig) : Prop :=
  tracing_Enabled t = true -> ServiceName t <> "" /\
    exists u, ParseRequestURI (Endpoint t) = Some u /\ url_Host u <> "" /\
      (ToLower (Scheme u) = "http" \/ ToLower (Scheme u) = "https") /\
      has_User u = false /\ RawQuery u = "" /\ Fragment u = "".

Definition valid_config (c : Config) : Prop :=
  valid_server (Server c) /\ valid_tls (TLS c) /\ valid_auth (Auth c) /\
  isLogLevel (Level (Logging c)) = true /\
  (Format (Logging c) = "json" \/ Format (Logging c) = "console") /\
  valid_tracing (Tracing c) /\ valid_ports (Metrics c) (Gateway c) (Health c) /\
  valid_storage (Storage c) /\ Address (Client c) <> "".

(** * Lemmas *)

Lemma firstError_none a b : firstError a b = None <-> a = None /\ b = None.
Proof. destruct a; cbn; intuition (try congruence; auto). Qed.

Lemma first_none l : first l = None <-> Forall (fun x => x = None) l.
Proof.
  unfold first. induction l as [|x l IH]; cbn [foldr]; [by split|].
  rewrite firstError_none, IH, Forall_cons. done.
Qed.

Lemma check_none b m : check b m = None <-> b = false.
Proof. unfold check. by destruct b. Qed.

Lemma short_key_none i keys : short_key i keys = None <-> Forall (fun key => 16 <= slen key) keys.
Proof.
  revert i. induction keys as [|key keys IH]; intros i; cbn [short_key]; [by split|].
  rewrite Forall_cons. destruct (Z.ltb_spec (slen key) 16); [|rewrite IH; intuition (try congruence; auto)].
  split; [done|lia].
Qed.

Lemma validPort_true p : validPort p = true <-> 1 <= p <= 65535.
Proof. unfold validPort. rewrite andb_true_iff, !Z.leb_le. done. Qed.

(** Turn the failed checks of a validation into facts. *)
Ltac checks :=
  rewrite ?first_none in *;
  repeat match goal with
  | H : Forall _ (_ :: _) |- _ => apply Forall_cons in H as [? H]
  | H : Forall _ [] |- _ => clear H
  | H : check _ _ = None |- _ => apply check_none in H
  | |- Forall _ (_ :: _) => apply Forall_cons; split
  | |- Forall _ [] => constructor
  | |- check _ _ = None => apply check_none
  end.

Lemma validate_tls_none t :
  validate_tls t = None /\ mtls_Enabled (MTLS t) && negb (tls_Enabled t) = false <-> valid_tls t.
Proof.
  unfold validate_tls, valid_tls. split.
  - intros [H Hm]. destruct (tls_Enabled t), (mtls_Enabled (MTLS t)); try done; checks;
      cbn [andb] in *; bools; destruct_and?; intuition (try congruence; auto).
  - intros [Hm Ht]. destruct (tls_Enabled t).
    + destruct (Ht eq_refl) as [Hc Hk]. split; [checks; [by rewrite Hc, Hk|]|by rewrite andb_false_r].
      destruct (mtls_Enabled (MTLS t)); [|done]. by destruct (Hm eq_refl) as [_ ->].
    + split; [done|]. destruct (mtls_Enabled (MTLS t)); [by destruct (Hm eq_refl)|done].
Qed.

Lemma validate_tracing_none t : validate_tracing t = None <-> valid_tracing t.
Proof.
  unfold validate_tracing, valid_tracing. destruct (tracing_Enabled t); [|done]. split.
  - intros H _. checks. bools. split; [done|]. destruct (ParseRequestURI (Endpoint t)) as [u|]; [|done].
    checks. bools. exists u. split_and!; try done; try (by apply dec_stable).
    match goal with H : negb _ = false \/ negb _ = false |- _ => destruct H as [H|H]; bools; auto end.
  - intros H. destruct (H eq_refl) as (Hn & u & Hu & Hh & Hs & Hus & Hq & Hf). checks.
    { by apply bool_decide_eq_false_2. }
    rewrite Hu. checks. rewrite Hus, Hq, Hf. rewrite (bool_decide_eq_false_2 (url_Host u = "")) by done.
    by destruct Hs as [-> | ->].
Qed.

Lemma validate_breaker_none cb :
  validate_breaker cb = None <->
  (breaker_Enabled cb = true -> 1 <= FailureThreshold cb /\ 1 <= SuccessThreshold cb /\
     0 < OpenTimeout cb /\ 1 <= MaxHalfOpenRequests cb).
Proof.
  unfold validate_breaker. destruct (breaker_Enabled cb); [|done]. split.
  - intros H _. checks. bools. lia.
  - intros H. destruct (H eq_refl) as (? & ? & ? & ?). checks; lia.
Qed.

Lemma auth_checks a :
  (blank (JWTSecret a) && bool_decide (length (APIKeys a) = 0%nat) && blank (JWTPublicKey a) = false /\
   bool_decide (JWTSecret a <> "") && (slen (JWTSecret a) <? minJWTSecretBytes) = false /\
   negb (blank (JWTPublicKey a)) && negb (Contains (TrimSpace (JWTPublicKey a)) "-----BEGIN") = false /\
   short_key 0 (APIKeys a) = None) <-> valid_auth a.
Proof.
  unfold valid_auth, minJWTSecretBytes. rewrite short_key_none.
  assert (H1 : bool_decide (length (APIKeys a) = 0%nat) = false <-> APIKeys a <> []).
  { rewrite bool_decide_eq_false. by destruct (APIKeys a). }
  assert (H2 : bool_decide (JWTSecret a <> "") && (slen (JWTSecret a) <? 32) = false <->
               JWTSecret a = "" \/ 32 <= slen (JWTSecret a)).
  { rewrite andb_false_iff, Z.ltb_ge, bool_decide_eq_false. split; intros [?|?]; auto.
    left. by apply dec_stable. }
  rewrite H2, !andb_false_iff, H1, !negb_false_iff. tauto.
Qed.

Lemma port_checks metrics gateway health :
  (metrics_Enabled metrics && negb (validPort (metrics_Port metrics)) = false /\
   metrics_Enabled metrics && (metrics_Port metrics =? health_Port health) = false /\
   gateway_Enabled gateway && negb (validPort (gateway_Port gateway)) = false /\
   gateway_Enabled gateway && ((gateway_Port gateway =? health_Port health) ||
     (metrics_Enabled metrics && (gateway_Port gateway =? metrics_Port metrics))) = false /\
   negb (validPort (health_Port health)) = false) <-> valid_ports metrics gateway health.
Proof.
  unfold valid_ports. rewrite negb_false_iff, validPort_true.
  destruct (metrics_Enabled metrics), (gateway_Enabled gateway); cbn [andb];
    rewrite ?orb_false_iff, ?negb_false_iff, ?validPort_true, ?Z.eqb_neq; intuition congruence.
Qed.

Lemma storage_checks st :
  (negb (bool_decide (Backend st = "memory")) && negb (bool_decide (Backend st = "postgres")) = false /\
   (MaxOpenConns st <? 1) || (MaxIdleConns st <? 0) || (MaxOpenConns st <? MaxIdleConns st) = false /\
   (ConnMaxLifetime st <=? 0) || (PingTimeout st <=? 0) = false /\
   (RetryAttempts st <? 0) = false /\ (RetryBackoff st <=? 0) = false /\
   (RetryMaxBackoff st <=? 0) = false /\ validate_breaker (CircuitBreaker st) = None /\
   cache_Enabled (Cache st) && (TTL (Cache st) <=? 0) = false /\
   bool_decide (Backend st = "postgres") && blank (URL st) = false) <-> valid_storage st.
Proof.
  unfold valid_storage. rewrite validate_breaker_none.
  assert (Hb : (negb (bool_decide (Backend st = "memory")) &&
                negb (bool_decide (Backend st = "postgres")) = false /\
                bool_decide (Backend st = "postgres") && blank (URL st) = false) <->
               (Backend st = "memory" \/ (Backend st = "postgres" /\ blank (URL st) = false))).
  { destruct (decide (Backend st = "memory")) as [E1|E1].
    - rewrite E1. cbn. intuition (try congruence; auto).
    - rewrite (bool_decide_eq_false_2 _ E1).
      destruct (decide (Backend st = "postgres")) as [E2|E2].
      + rewrite (bool_decide_eq_true_2 _ E2). cbn. tauto.
      + rewrite (bool_decide_eq_false_2 _ E2). cbn. intuition (try congruence; auto). }
  assert (Hc : cache_Enabled (Cache st) && (TTL (Cache st) <=? 0) = false <->
               (cache_Enabled (Cache st) = true -> 0 < TTL (Cache st))).
  { destruct (cache_Enabled (Cache st)); cbn; rewrite ?Z.leb_gt; intuition (try congruence; auto). }
  rewrite Hc, !orb_false_iff, !Z.ltb_ge, !Z.leb_gt. rewrite <- Hb. clear. 
  split; intros; destruct_and?; split_and!; auto.
Qed.

Lemma server_checks s :
  (blank (Host s) = false /\ (Port s <? 1) || (65535 <? Port s) = false /\ (MaxConns s <? 1) = false /\
   (Timeout s <=? 0) = false /\ (MaxRecvMessageMB s <? 1) || (MaxSendMessageMB s <? 1) = false /\
   (MaxUsers s <? 1) || (MaxStreamMessages s <? 1) || (MaxStringBytes s <? 1) = false /\
   (StreamInterval s <=? 0) = false /\ (RateLimitPerSecond s <? 1) || (RateLimitBurst s <? 1) = false /\
   (PerClientRateLimitPerSecond s <? 1) || (PerClientRateLimitBurst s <? 1) = false) <-> valid_server s.
Proof.
  unfold valid_server. rewrite !orb_false_iff, !Z.ltb_ge, !Z.leb_gt.
  split; intros; destruct_and?; split_and!; auto.
Qed.

Lemma ToLower_nonempty_level l : isLogLevel l = true -> l <> "".
Proof. by intros H ->. Qed.

(** Validation accepts exactly the configurations described above. *)
Lemma Validate_none c : Validate (Some c) = None <-> valid_config c.
Proof.
  unfold Validate, valid_config.
  rewrite <- server_checks, <- validate_tls_none, <- auth_checks, <- port_checks, <- storage_checks,
    <- validate_tracing_none.
  assert (Hf : negb (bool_decide (Format (Logging c) = "json")) &&
               negb (bool_decide (Format (Logging c) = "console")) = false <->
               (Format (Logging c) = "json" \/ Format (Logging c) = "console")).
  { rewrite andb_false_iff, !negb_false_iff, !bool_decide_eq_true. done. }
  rewrite <- Hf. split.
  - intros H. checks.
    split_and!; first [assumption | by apply negb_false_iff | by eapply bool_decide_eq_false_1].
  - intros H. destruct_and?. checks; auto.
    + by apply bool_decide_eq_false_2, ToLower_nonempty_level.
    + by apply negb_false_iff.
    + by apply bool_decide_eq_false_2.
Qed.
End config.

(** * [time.ParseDuration] *)

Definition unit_of (u : string) : option Z :=
  if bool_decide (u = "ns") then Some 1
  else if bool_decide (u = "us") || bool_decide (u = "µs") || bool_decide (u = "μs") then Some (10 ^ 3)
  else if bool_decide (u = "ms") then Some (10 ^ 6)
  else if bool_decide (u = "s") then Some (10 ^ 9)
  else if bool_decide (u = "m") then Some (60 * 10 ^ 9)
  else if bool_decide (u = "h") then Some (3600 * 10 ^ 9)
  else None.

(** [leadingInt]: the value of the leading digits, an error past [1 << 63]. *)
Fixpoint leadingInt (x : Z) (s : list ascii) : option (Z * list ascii) :=
  match s with
  | [] => Some (x, [])
  | c :: s' =>
      match digit c with
      | None => Some (x, s)
      | Some d =>
          if 2 ^ 63 / 10 <? x then None else
          let x := x * 10 + d in
          if 2 ^ 63 <? x then None else leadingInt x s'
      end
  end.

(** [leadingFraction]: digits past the range of an [int64] are dropped. *)
Fixpoint leadingFraction (x : Z) (scale : spec_float) (overflow : bool) (s : list ascii)
  : Z * spec_float * list ascii :=
  match s with
  | [] => (x, scale, [])
  | c :: s' =>
      match digit c with
      | None => (x, scale, s)
      | Some d =>
          if overflow then leadingFraction x scale true s' else
          if (2 ^ 63 - 1) / 10 <? x then leadingFraction x scale true s' else
          let y := x * 10 + d in
          if 2 ^ 63 <? y then leadingFraction x scale true s' else
          leadingFraction y (SFmul 53 1024 scale (UserService.float_of_Z 10)) false s'
      end
  end.

(** [uint64(f)] of a non-negative finite float. *)
Definition trunc (f : spec_float) : Z :=
  match f with S754_finite false m e => Z.shiftl (Zpos m) e | _ => 0 end.

Definition is_digit (c : ascii) : bool := match digit c with Some _ => true | None => false end.

(** The characters of a unit: everything up to a digit or a period. *)
Fixpoint take_unit (s : list ascii) : list ascii * list ascii :=
  match s with
  | [] => ([], [])
  | c :: s' => if Ascii.eqb c "." || is_digit c then ([], s)
               else let '(u, r) := take_unit s' in (c :: u, r)
  end.

(** The loop over the components of a duration; every round consumes a
    character, so the length of the text is fuel enough. *)
Fixpoint duration_loop (fuel : nat) (d : Z) (s : list ascii) : option Z :=
  match s, fuel with
  | [], _ => Some d
  | _, O => None
  | c :: _, S fuel =>
      if negb (Ascii.eqb c "." || is_digit c) then None else
      match leadingInt 0 s with
      | None => None
      | Some (v, s1) =>
          let pre := negb (length s1 =? length s)%nat in
          let '(f, scale, s2, post) :=
            match s1 with
            | c1 :: s1' =>
                if Ascii.eqb c1 "." then
                  let '(f, scale, s2) := leadingFraction 0 (UserService.float_of_Z 1) false s1' in
                  (f, scale, s2, negb (length s2 =? length s1')%nat)
                else (0, UserService.float_of_Z 1, s1, false)
            | [] => (0, UserService.float_of_Z 1, s1, false)
            end in
          if negb pre && negb post then None else
          let '(u, s3) := take_unit s2 in
          match unit_of (of_bytes u) with
          | None => None
          | Some unit =>
              if 2 ^ 63 / unit <? v then None else
              let v := v * unit in
              let v := if 0 <? f
                       then v + trunc (SFmul 53 1024 (UserService.float_of_Z f)
                                         (UserService.fdiv (UserService.float_of_Z unit) scale))
                       else v in
              if 2 ^ 63 <? v then None else
              let d := (d + v) mod 2 ^ 64 in
              if 2 ^ 63 <? d then None else duration_loop fuel d s3
          end
      end
  end.

Definition ParseDuration (s : string) : option Z :=
  let '(neg, r) := match bytes_of s with
                   | c :: r => if Ascii.eqb c "-" then (true, r)
                               else if Ascii.eqb c "+" then (false, r) else (false, c :: r)
                   | [] => (false, [])
                   end in
  if bool_decide (of_bytes r = "0") then Some 0 else
  match r with
  | [] => None
  | _ =>
      match duration_loop (length r) 0 r with
      | None => None
      | Some d => if neg : bool then Some (wrap64 (- d))
                  else if 2 ^ 63 - 1 <? d then None else Some d
      end
  end.

(** * Environment overrides *)

Section environment.
(** The process environment, and the text of the parsers' own errors. *)
Context (LookupEnv : gmap string string).
Context (parse_error : string -> error).

(** A setter yields the new value of its target and its error. *)
Definition setString (name : string) (target : string) : string :=
  default target (LookupEnv !! name).

Definition set_parsed {A} (parse : string -> option A) (kind name : string) (target : A)
  : A * option error :=
  match LookupEnv !! name with
  | None => (target, None)
  | Some value =>
      match parse value with
      | None => (target, Some (EWrap (name +:+ kind) (parse_error value)))
      | Some parsed => (parsed, None)
      end
  end.

Definition setInt : string -> Z -> Z * option error :=
  set_parsed ParseInt " must be an integer".
Definition setBool : string -> bool -> bool * option error :=
  set_parsed ParseBool " must be boolean".
Definition setDuration : string -> Z -> Z * option error :=
  set_parsed ParseDuration " must be a duration".

Definition splitNonEmpty (value : string) : list string :=
  omap (fun part => let key := TrimSpace part in if bool_decide (key = "") then None else Some key)
       (Split value ",").

Definition setList (name : string) (target : list string) : list string :=
  match LookupEnv !! name with Some value => splitNonEmpty value | None => target end.

(** [err = firstError(err, set(...))]: the pending error goes through. *)
Definition withErr {A B} (m : A * option error) (k : A -> option error -> B) (err : option error) : B :=
  k (fst m) (firstError err (snd m)).
Notation "x <-! c ;; k" := (withErr c (fun x => k))
  (at level 100, c at next level, right associativity).

Definition applyEnvironment (c : Config) : Config * option error :=
  let s := Server c in let t := TLS c in let a := Auth c in let st := Storage c in
  let host := setString "SERVER_HOST" (Host s) in
  (port <-! setInt "SERVER_PORT" (Port s) ;;
   max_conns <-! setInt "SERVER_MAX_CONNS" (MaxConns s) ;;
   timeout <-! setDuration "SERVER_TIMEOUT" (Timeout s) ;;
   recv_mb <-! setInt "SERVER_MAX_RECV_MESSAGE_MB" (MaxRecvMessageMB s) ;;
   send_mb <-! setInt "SERVER_MAX_SEND_MESSAGE_MB" (MaxSendMessageMB s) ;;
   max_users <-! setInt "SERVER_MAX_USERS" (MaxUsers s) ;;
   max_stream <-! setInt "SERVER_MAX_STREAM_MESSAGES" (MaxStreamMessages s) ;;
   max_bytes <-! setInt "SERVER_MAX_STRING_BYTES" (MaxStringBytes s) ;;
   interval <-! setDuration "SERVER_STREAM_INTERVAL" (StreamInterval s) ;;
   rate <-! setInt "SERVER_RATE_LIMIT_PER_SECOND" (RateLimitPerSecond s) ;;
   burst <-! setInt "SERVER_RATE_LIMIT_BURST" (RateLimitBurst s) ;;
   client_rate <-! setInt "SERVER_PER_CLIENT_RATE_LIMIT_PER_SECOND" (PerClientRateLimitPerSecond s) ;;
   client_burst <-! setInt "SERVER_PER_CLIENT_RATE_LIMIT_BURST" (PerClientRateLimitBurst s) ;;
   breaker <-! setBool "CIRCUIT_BREAKER_ENABLED" (breaker_Enabled (CircuitBreaker st)) ;;
   cache <-! setBool "CACHE_ENABLED" (cache_Enabled (Cache st)) ;;
   ttl <-! setDuration "CACHE_TTL" (TTL (Cache st)) ;;
   tls <-! setBool "TLS_ENABLED" (tls_Enabled t) ;;
   mtls <-! setBool "MTLS_ENABLED" (mtls_Enabled (MTLS t)) ;;
   audit <-! setBool "AUTH_AUDIT_ALLOWS" (AuditAllows a) ;;
   default_deny <-! setBool "AUTH_DEFAULT_DENY" (DefaultDeny a) ;;
   in_flight <-! setInt "SERVER_MAX_IN_FLIGHT_REQUESTS" (MaxInFlightRequests s) ;;
   tracing <-! setBool "TRACING_ENABLED" (tracing_Enabled (Tracing c)) ;;
   metrics <-! setBool "METRICS_ENABLED" (metrics_Enabled (Metrics c)) ;;
   metrics_port <-! setInt "METRICS_PORT" (metrics_Port (Metrics c)) ;;
   health_port <-! setInt "HEALTH_PORT" (health_Port (Health c)) ;;
   gateway <-! setBool "GATEWAY_ENABLED" (gateway_Enabled (Gateway c)) ;;
   gateway_port <-! setInt "GATEWAY_PORT" (gateway_Port (Gateway c)) ;;
   open_conns <-! setInt "STORAGE_MAX_OPEN_CONNS" (MaxOpenConns st) ;;
   idle_conns <-! setInt "STORAGE_MAX_IDLE_CONNS" (MaxIdleConns st) ;;
   lifetime <-! setDuration "STORAGE_CONN_MAX_LIFETIME" (ConnMaxLifetime st) ;;
   ping <-! setDuration "STORAGE_PING_TIMEOUT" (PingTimeout st) ;;
   attempts <-! setInt "STORAGE_RETRY_ATTEMPTS" (RetryAttempts st) ;;
   backoff <-! setDuration "STORAGE_RETRY_BACKOFF" (RetryBackoff st) ;;
   max_backoff <-! setDuration "STORAGE_RETRY_MAX_BACKOFF" (RetryMaxBackoff st) ;;
   fun err =>
   ({| Server := {| Host := host; Port := port; MaxConns := max_conns; Timeout := timeout;
         MaxRecvMessageMB := recv_mb; MaxSendMessageMB := send_mb; MaxUsers := max_users;
         MaxStreamMessages := max_stream; MaxStringBytes := max_bytes; StreamInterval := interval;
         RateLimitPerSecond := rate; RateLimitBurst := burst;
         PerClientRateLimitPerSecond := client_rate; PerClientRateLimitBurst := client_burst;
         MaxInFlightRequests := in_flight |};
       TLS := {| tls_Enabled := tls; CertFile := setString "TLS_CERT_FILE" (CertFile t);
         KeyFile := setString "TLS_KEY_FILE" (KeyFile t);
         CAFile := setString "TLS_CA_FILE" (CAFile t);
         ClientCertFile := setString "TLS_CLIENT_CERT_FILE" (ClientCertFile t);
         ClientKeyFile := setString "TLS_CLIENT_KEY_FILE" (ClientKeyFile t);
         MTLS := {| mtls_Enabled := mtls;
           ClientCAFile := setString "MTLS_CLIENT_CA_FILE" (ClientCAFile (MTLS t)) |} |};
       Auth := {| JWTSecret := setString "JWT_SECRET" (JWTSecret a);
         APIKeys := setList "AUTH_API_KEYS" (APIKeys a);
         JWTAudience := setString "AUTH_JWT_AUDIENCE" (JWTAudience a);
         JWTIssuer := setString "AUTH_JWT_ISSUER" (JWTIssuer a);
         JWTPublicKey := setString "JWT_PUBLIC_KEY" (JWTPublicKey a);
         AuditAllows := audit; MethodScopes := MethodScopes a;
         APIKeyScopes := setList "AUTH_API_KEY_SCOPES" (APIKeyScopes a);
         DefaultDeny := default_deny |};
       Logging := {| Level := setString "LOG_LEVEL" (Level (Logging c));
         Format := setString "LOG_FORMAT" (Format (Logging c)) |};
       Tracing := {| tracing_Enabled := tracing;
         Endpoint := setString "TRACING_ENDPOINT" (Endpoint (Tracing c));
         ServiceName := setString "TRACING_SERVICE_NAME" (ServiceName (Tracing c));
         SampleRatio := SampleRatio (Tracing c) |};
       Metrics := {| metrics_Enabled := metrics; metrics_Port := metrics_port |};
       Health := {| health_Port := health_port |};
       Storage := {| Backend := setString "STORAGE_BACKEND" (Backend st);
         URL := setString "DATABASE_URL" (URL st);
         MaxOpenConns := open_conns; MaxIdleConns := idle_conns; ConnMaxLifetime := lifetime;
         PingTimeout := ping; RetryAttempts := attempts; RetryBackoff := backoff;
         RetryMaxBackoff := max_backoff;
         CircuitBreaker := {| breaker_Enabled := breaker;
           FailureThreshold := FailureThreshold (CircuitBreaker st);
           SuccessThreshold := SuccessThreshold (CircuitBreaker st);
           OpenTimeout := OpenTimeout (CircuitBreaker st);
           MaxHalfOpenRequests := MaxHalfOpenRequests (CircuitBreaker st) |};
         Cache := {| cache_Enabled := cache; TTL := ttl |} |};
       Gateway := {| gateway_Enabled := gateway; gateway_Port := gateway_port |};
       Reflection := Reflection c;
       Client := {| Address := setString "CLIENT_ADDRESS" (Address (Client c));
         ServerName := setString "CLIENT_SERVER_NAME" (ServerName (Client c));
         AuthToken := setString "CLIENT_AUTH_TOKEN" (AuthToken (Client c)) |} |}, err)) None.

(** ** Loading *)

(** [os.ReadFile] of the given path, and the strict YAML decoder. *)
Definition Load (ParseRequestURI : string -> option url) (Quote : string -> string)
    (data : res string) (decode : string -> res Config) : res Config :=
  match data with
  | Err err => Err (EWrap "read config file" err)
  | Ok data =>
      match decode data with
      | Err err => Err (EWrap "parse config" err)
      | Ok cfg =>
          match applyEnvironment cfg with
          | (_, Some err) => Err (EWrap "apply environment" err)
          | (cfg, None) =>
              match Validate ParseRequestURI Quote (Some cfg) with
              | Some err => Err (EWrap "validate config" err)
              | None => Ok cfg
              end
          end
      end
  end.

(** ** Environment *)

Lemma set_parsed_none {A} (parse : string -> option A) kind name target :
  snd (set_parsed parse kind name target) = None <->
  forall v, LookupEnv !! name = Some v -> is_Some (parse v).
Proof.
  unfold set_parsed. destruct (LookupEnv !! name) as [v|]; [|by split; [intros _ v|]].
  destruct (parse v) eqn:Hp; cbn; split; try done.
  - intros _ v' [= <-]. by eexists.
  - intros H. destruct (H v eq_refl) as [? ?]. congruence.
Qed.

Definition int_variables : list string :=
  ["SERVER_PORT"; "SERVER_MAX_CONNS"; "SERVER_MAX_RECV_MESSAGE_MB"; "SERVER_MAX_SEND_MESSAGE_MB";
   "SERVER_MAX_USERS"; "SERVER_MAX_STREAM_MESSAGES"; "SERVER_MAX_STRING_BYTES";
   "SERVER_RATE_LIMIT_PER_SECOND"; "SERVER_RATE_LIMIT_BURST";
   "SERVER_PER_CLIENT_RATE_LIMIT_PER_SECOND"; "SERVER_PER_CLIENT_RATE_LIMIT_BURST";
   "SERVER_MAX_IN_FLIGHT_REQUESTS"; "METRICS_PORT"; "HEALTH_PORT"; "GATEWAY_PORT";
   "STORAGE_MAX_OPEN_CONNS"; "STORAGE_MAX_IDLE_CONNS"; "STORAGE_RETRY_ATTEMPTS"].
Definition bool_variables : list string :=
  ["CIRCUIT_BREAKER_ENABLED"; "CACHE_ENABLED"; "TLS_ENABLED"; "MTLS_ENABLED"; "AUTH_AUDIT_ALLOWS";
   "AUTH_DEFAULT_DENY"; "TRACING_ENABLED"; "METRICS_ENABLED"; "GATEWAY_ENABLED"].
Definition duration_variables : list string :=
  ["SERVER_TIMEOUT"; "SERVER_STREAM_INTERVAL"; "CACHE_TTL"; "STORAGE_CONN_MAX_LIFETIME";
   "STORAGE_PING_TIMEOUT"; "STORAGE_RETRY_BACKOFF"; "STORAGE_RETRY_MAX_BACKOFF"].

(** Every variable of the list that is set parses. *)
Definition parses {A} (parse : string -> option A) (names : list string) : Prop :=
  Forall (fun name => forall v, LookupEnv !! name = Some v -> is_Some (parse v)) names.

Lemma fold_firstError_none l e :
  fold_left firstError l e = None <-> e = None /\ Forall (fun x => x = None) l.
Proof.
  revert e. induction l as [|x l IH]; intros e; cbn [fold_left].
  - split; [by intros ->|by intros [-> _]].
  - rewrite IH, firstError_none, Forall_cons. tauto.
Qed.

(** The errors of the setters, in the order of their calls. *)
Definition setter_errors (c : Config) : list (option error) :=
  let s := Server c in let t := TLS c in let a := Auth c in let st := Storage c in
  [ snd (setInt "SERVER_PORT" (Port s));
    snd (setInt "SERVER_MAX_CONNS" (MaxConns s));
    snd (setDuration "SERVER_TIMEOUT" (Timeout s));
    snd (setInt "SERVER_MAX_RECV_MESSAGE_MB" (MaxRecvMessageMB s));
    snd (setInt "SERVER_MAX_SEND_MESSAGE_MB" (MaxSendMessageMB s));
    snd (setInt "SERVER_MAX_USERS" (MaxUsers s));
    snd (setInt "SERVER_MAX_STREAM_MESSAGES" (MaxStreamMessages s));
    snd (setInt "SERVER_MAX_STRING_BYTES" (MaxStringBytes s));
    snd (setDuration "SERVER_STREAM_INTERVAL" (StreamInterval s));
    snd (setInt "SERVER_RATE_LIMIT_PER_SECOND" (RateLimitPerSecond s));
    snd (setInt "SERVER_RATE_LIMIT_BURST" (RateLimitBurst s));
    snd (setInt "SERVER_PER_CLIENT_RATE_LIMIT_PER_SECOND" (PerClientRateLimitPerSecond s));
    snd (setInt "SERVER_PER_CLIENT_RATE_LIMIT_BURST" (PerClientRateLimitBurst s));
    snd (setBool "CIRCUIT_BREAKER_ENABLED" (breaker_Enabled (CircuitBreaker st)));
    snd (setBool "CACHE_ENABLED" (cache_Enabled (Cache st)));
    snd (setDuration "CACHE_TTL" (TTL (Cache st)));
    snd (setBool "TLS_ENABLED" (tls_Enabled t));
    snd (setBool "MTLS_ENABLED" (mtls_Enabled (MTLS t)));
    snd (setBool "AUTH_AUDIT_ALLOWS" (AuditAllows a));
    snd (setBool "AUTH_DEFAULT_DENY" (DefaultDeny a));
    snd (setInt "SERVER_MAX_IN_FLIGHT_REQUESTS" (MaxInFlightRequests s));
    snd (setBool "TRACING_ENABLED" (tracing_Enabled (Tracing c)));
    snd (setBool "METRICS_ENABLED" (metrics_Enabled (Metrics c)));
    snd (setInt "METRICS_PORT" (metrics_Port (Metrics c)));
    snd (setInt "HEALTH_PORT" (health_Port (Health c)));
    snd (setBool "GATEWAY_ENABLED" (gateway_Enabled (Gateway c)));
    snd (setInt "GATEWAY_PORT" (gateway_Port (Gateway c)));
    snd (setInt "STORAGE_MAX_OPEN_CONNS" (MaxOpenConns st));
    snd (setInt "STORAGE_MAX_IDLE_CONNS" (MaxIdleConns st));
    snd (setDuration "STORAGE_CONN_MAX_LIFETIME" (ConnMaxLifetime st));
    snd (setDuration "STORAGE_PING_TIMEOUT" (PingTimeout st));
    snd (setInt "STORAGE_RETRY_ATTEMPTS" (RetryAttempts st));
    snd (setDuration "STORAGE_RETRY_BACKOFF" (RetryBackoff st));
    snd (setDuration "STORAGE_RETRY_MAX_BACKOFF" (RetryMaxBackoff st)) ].

Lemma applyEnvironment_errors c :
  snd (applyEnvironment c) = fold_left firstError (setter_errors c) None.
Proof. unfold applyEnvironment, withErr, setter_errors. cbn [fold_left snd]. reflexivity. Qed.

Lemma applyEnvironment_error c :
  snd (applyEnvironment c) = None <->
  parses ParseInt int_variables /\ parses ParseBool bool_variables /\
  parses ParseDuration duration_variables.
Proof.
  rewrite applyEnvironment_errors, fold_firstError_none. 
  unfold parses, setter_errors, int_variables, bool_variables, duration_variables,
    setInt, setBool, setDuration. split.
  - intros [_ H]. 
    repeat (let Hx := fresh in apply Forall_cons in H as [Hx H]; cbv beta in Hx;
            pose proof (proj1 (set_parsed_none _ _ _ _) Hx); clear Hx).
    split_and!; repeat (apply Forall_cons; split; [assumption|]); constructor.
  - intros (Hi & Hb & Hd). split; [done|].
    repeat (apply Forall_cons in Hi as [? Hi]). repeat (apply Forall_cons in Hb as [? Hb]).
    repeat (apply Forall_cons in Hd as [? Hd]).
    repeat (apply Forall_cons; split; [cbv beta; refine (proj2 (set_parsed_none _ _ _ _) _); assumption|]). constructor.
Qed.

(** A variable that is not set leaves its target alone. *)
Lemma set_parsed_unset {A} (parse : string -> option A) kind name target :
  LookupEnv !! name = None -> set_parsed parse kind name target = (target, None).
Proof. intros H. unfold set_parsed. by rewrite H. Qed.

Lemma splitNonEmpty_trimmed value key :
  key ∈ splitNonEmpty value -> key <> "" /\ exists part, key = TrimSpace part.
Proof.
  unfold splitNonEmpty. rewrite list_elem_of_omap. intros (part & _ & H). cbn in H.
  case_bool_decide; [done|]. injection H as <-. by split; [|exists part].
Qed.
End environment.

(** * Properties *)

(** C30: A configuration that [Load] returns is the decoded file with the
    environment applied, in which every variable that is set and typed was
    well-formed, and it is valid: addresses, ports, limits and timeouts in
    range, listener ports distinct where checked, some credential of at least
    the required strength, TLS material when TLS is on, and storage settings
    that the chosen backend needs. *)
Theorem load_returns_valid parse_uri quote env parse_error data decode cfg :
  Load env parse_error parse_uri quote data decode = Ok cfg ->
  exists text yaml, data = Ok text /\ decode text = Ok yaml /\
    cfg = fst (applyEnvironment env parse_error yaml) /\
    parses env ParseInt int_variables /\ parses env ParseBool bool_variables /\
    parses env ParseDuration duration_variables /\ valid_config parse_uri cfg.
Proof.
  unfold Load. intros H. destruct data as [text|]; [|done]. destruct (decode text) as [yaml|] eqn:Hd; [|done].
  pose proof (applyEnvironment_error env parse_error yaml) as He.
  destruct (applyEnvironment env parse_error yaml) as [cfg' [err|]] eqn:Ha; [done|].
  destruct (Validate parse_uri quote (Some cfg')) eqn:Hv; [done|]. injection H as <-.
  apply Validate_none in Hv. destruct (proj1 He eq_refl) as (? & ? & ?).
  exists text, yaml. rewrite Ha. by do 6 (split; [done|]).
Qed.

Definition sample : Config := {|
  Server := mkServer "0.0.0.0" 50051 100 (30 * 10 ^ 9) 4 4 10000 100 4096 (2 * 10 ^ 9) 100 200 10 20 0;
  TLS := mkTLS false "" "" "" "" "" (mkMTLS false "");
  Auth := mkAuth "" ["0123456789abcdef"] "" "" "" false ∅ [] false;
  Logging := mkLogging "info" "json";
  Tracing := mkTracing false "" "" (S754_zero false);
  Metrics := mkMetrics true 9090;
  Health := mkHealth 8081;
  Storage := mkStorage "memory" "" 10 5 (10 ^ 9) (10 ^ 9) 3 (10 ^ 6) (10 ^ 9)
               (mkBreaker true 5 3 (30 * 10 ^ 9) 2) (mkCache false 0);
  Gateway := mkGateway false 0;
  Reflection := false;
  Client := mkClient "localhost:50051" "" ""
|}.
Definition env0 : gmap string string := {["SERVER_TIMEOUT" := "1m30s"]}.
Definition no_uri (s : string) : option url := None.
Definition plain_error (v : string) : error := EOther v.

Lemma load_returns_valid_witness :
  exists cfg, Load env0 plain_error no_uri id (Ok "file") (fun _ => Ok sample) = Ok cfg /\
    Timeout (Server cfg) = 90 * 10 ^ 9 /\ valid_config no_uri cfg.
Proof.
  eexists. split; [vm_compute; reflexivity|]. split; [reflexivity|].
  edestruct (load_returns_valid no_uri id env0 plain_error (Ok "file") (fun _ => Ok sample))
    as (? & ? & _ & _ & _ & _ & _ & _ & Hv); [vm_compute; reflexivity|exact Hv].
Defined.

(** An environment without any of the service's variables changes nothing. *)
Theorem empty_environment_is_identity parse_error c :
  applyEnvironment ∅ parse_error c = (c, None).
Proof.
  unfold applyEnvironment, withErr, setInt, setBool, setDuration, setString, setList.
  rewrite !set_parsed_unset by apply lookup_empty. rewrite !lookup_empty. cbn.
  by destruct c as [[] [? ? ? ? ? ? []] [] [] [] [] [] [? ? ? ? ? ? ? ? ? [] []] [] ? []].
Qed.

(** The breaker configuration [openRepository] passes on. *)
Definition breaker_config (cb : CircuitBreakerConfig) : CircuitBreakerRepository.Config :=
  {| CircuitBreakerRepository.Enabled := breaker_Enabled cb;
     CircuitBreakerRepository.FailureThreshold := FailureThreshold cb;
     CircuitBreakerRepository.SuccessThreshold := SuccessThreshold cb;
     CircuitBreakerRepository.OpenTimeout := OpenTimeout cb;
     CircuitBreakerRepository.MaxHalfOpenRequests := MaxHalfOpenRequests cb |}.
Definition service_limits (s : ServerConfig) : UserService.ServiceLimits :=
  UserService.mkLimits (MaxUsers s) (MaxStreamMessages s) (MaxStringBytes s) (StreamInterval s).

(** The components are built with the limits of a validated configuration as
    they stand: the service, the circuit breaker and the cache replace none of
    them by its default. *)
Theorem validated_limits_are_used parse_uri quote c {S} (R : option (Repository S)) :
  Validate parse_uri quote (Some c) = None ->
  let s := UserService.NewUserServiceWithRepository R (service_limits (Server c)) in
  (UserService.maxUsers s = MaxUsers (Server c) /\
   UserService.maxStreamMessages s = MaxStreamMessages (Server c) /\
   UserService.maxStringBytes s = MaxStringBytes (Server c) /\
   UserService.streamInterval s = StreamInterval (Server c)) /\
  (breaker_Enabled (CircuitBreaker (Storage c)) = true ->
   CircuitBreakerRepository.cfg (CircuitBreakerRepository.NewCircuitBreakerRepository
       (breaker_config (CircuitBreaker (Storage c)))) = breaker_config (CircuitBreaker (Storage c))) /\
  (cache_Enabled (Cache (Storage c)) = true ->
   CacheRepository.ttl (CacheRepository.NewCacheRepository (TTL (Cache (Storage c))))
     = TTL (Cache (Storage c))).
Proof.
  intros (Hs & _ & _ & _ & _ & _ & _ & Hst & _)%Validate_none.
  destruct Hs as (_ & _ & _ & _ & _ & _ & Hu & Hm & Hb & Hi & _).
  destruct Hst as (_ & _ & _ & _ & _ & _ & _ & _ & Hbr & Hc).
  split; [|split].
  - cbn. split_and!; case_match; bools; try done; lia.
  - intros He. destruct (Hbr He) as (H1 & H2 & H3 & H4).
    unfold CircuitBreakerRepository.NewCircuitBreakerRepository, CircuitBreakerRepository.or_default,
      breaker_config. cbn -[Z.leb].
    rewrite !(proj2 (Z.leb_gt _ _)) by lia. done.
  - intros He. specialize (Hc He). cbn -[Z.leb]. by rewrite (proj2 (Z.leb_gt _ _)) by lia.
Qed.

Lemma validated_limits_are_used_witness :
  UserService.maxUsers (UserService.NewUserServiceWithRepository (S := unit) None
    (service_limits (Server sample))) = 10000.
Proof.
  destruct (validated_limits_are_used no_uri id sample (S := unit) None eq_refl) as [[H _] _]. exact H.
Defined.

(** One call through the breaker that is over before the next one starts. *)
Inductive call : CircuitBreakerRepository.State -> CircuitBreakerRepository.State -> Prop :=
| call_rejected w w' cb cb' e :
    CircuitBreakerRepository.beforeCall (w, cb) = (Some e, (w', cb')) -> call cb cb'
| call_made w w1 w2 w3 cb cb1 cb2 err :
    CircuitBreakerRepository.beforeCall (w, cb) = (None, (w1, cb1)) ->
    CircuitBreakerRepository.afterCall err (w2, cb1) = (tt, (w3, cb2)) -> call cb cb2.

(** Where a breaker that needs more successes than it admits probes stays: open,
    or half-open with no more successes than probes ([pending] of the probes
    have not returned). *)
Definition stuck (pending : Z) (c : CircuitBreakerRepository.Config)
    (cb : CircuitBreakerRepository.State) : Prop :=
  CircuitBreakerRepository.cfg cb = c /\
  (CircuitBreakerRepository.state cb = CircuitBreakerRepository.CircuitBreakerOpen \/
   (CircuitBreakerRepository.state cb = CircuitBreakerRepository.CircuitBreakerHalfOpen /\
    0 <= CircuitBreakerRepository.successCount cb /\
    CircuitBreakerRepository.successCount cb + pending <= CircuitBreakerRepository.halfOpenCount cb /\
    CircuitBreakerRepository.halfOpenCount cb <= CircuitBreakerRepository.MaxHalfOpenRequests c)).

Section stuck.
Import CircuitBreakerRepository.
Context (c : CircuitBreakerRepository.Config) (Hok : cfg_ok c)
  (Hmax : CircuitBreakerRepository.MaxHalfOpenRequests c < CircuitBreakerRepository.SuccessThreshold c).

Lemma stuck_before cb w r w' cb' :
  stuck 0 c cb -> beforeCall (w, cb) = (r, (w', cb')) ->
  stuck (match r with None => 1 | Some _ => 0 end) c cb' /\
  (r = None -> state cb' = CircuitBreakerHalfOpen).
Proof using Hok.
  destruct Hok as (_ & _ & _ & Hm). unfold max_int64 in Hm.
  intros [Hc [Ho|(Hh & Hs & Hn & Hl)]]; unfold beforeCall; unfold_monad.
  - rewrite Ho. cbn [Z.eqb CircuitBreakerOpen Pos.eqb]. case_match; unfold_monad; intros [= <- <- <-].
    + split; [|done]. split; [done|]. right. cbn. unfold add1. rewrite wrap64_small; unfold min_int64, max_int64; lia.
    + split; [|done]. split; [done|]. by left.
  - rewrite Hh. cbn [Z.eqb CircuitBreakerOpen CircuitBreakerHalfOpen Pos.eqb]. rewrite Hc.
    destruct (Z.leb_spec (CircuitBreakerRepository.MaxHalfOpenRequests c) (halfOpenCount cb));
      unfold_monad; intros [= <- <- <-].
    + split; [|done]. split; [done|]. right. split_and!; done.
    + split; [|by intros]. split; [done|]. right. cbn. unfold add1.
      rewrite wrap64_small; unfold min_int64, max_int64; [|lia]. rewrite Hh. split_and!; try done; lia.
Qed.

Lemma stuck_after cb err w w' cb' :
  stuck 1 c cb -> state cb = CircuitBreakerHalfOpen ->
  afterCall err (w, cb) = (tt, (w', cb')) -> stuck 0 c cb'.
Proof using Hok Hmax.
  destruct Hok as (_ & Hst & _ & Hm). unfold max_int64 in *.
  intros [Hc [Ho|(_ & Hs & Hn & Hl)]] Hh; [rewrite Ho in Hh; done|].
  unfold afterCall. unfold_monad. destruct err as [err|].
  - case_match; unfold_monad; [intros [= <- <-]; split; [done|]; right; split_and!; try done; lia|].
    rewrite Hh. cbn. intros [= <- <-]. split; [done|]. by left.
  - rewrite Hh. cbn [Z.eqb CircuitBreakerHalfOpen Pos.eqb].
    unfold add1. cbn [successCount set_successCount cfg]. rewrite wrap64_small by (unfold min_int64, max_int64; lia).
    rewrite Hc. rewrite (proj2 (Z.leb_gt _ _)) by lia. unfold_monad. intros [= <- <-].
    split; [done|]. right. cbn. split_and!; try done; lia.
Qed.

Lemma stuck_call cb cb' : stuck 0 c cb -> call cb cb' -> stuck 0 c cb'.
Proof using Hok Hmax.
  intros Hs Hcall. destruct Hcall as [w w' cb1 cb2 e Hb|w w1 w2 w3 cb1 cb2 cb3 err Hb Ha].
  - by apply (stuck_before _ _ _ _ _ Hs) in Hb as [? _].
  - apply (stuck_before _ _ _ _ _ Hs) in Hb as [H1 H2]. eapply stuck_after; eauto.
Qed.
End stuck.

(** Validation accepts a success threshold above the number of half-open
    probes. A breaker configured so never closes again by itself: once it has
    opened, no sequence of calls, however many succeed, brings it back to
    closed. *)
Theorem validated_breaker_never_closes parse_uri quote :
  exists cfg, Validate parse_uri quote (Some cfg) = None /\
    breaker_Enabled (CircuitBreaker (Storage cfg)) = true /\
    forall cb cb',
      CircuitBreakerRepository.cfg cb = breaker_config (CircuitBreaker (Storage cfg)) ->
      CircuitBreakerRepository.state cb = CircuitBreakerRepository.CircuitBreakerOpen ->
      rtc call cb cb' ->
      CircuitBreakerRepository.state cb' <> CircuitBreakerRepository.CircuitBreakerClosed.
Proof.
  exists sample. split; [reflexivity|]. split; [reflexivity|]. intros cb cb' Hcfg Ho Hr.
  assert (Hs : stuck 0 (breaker_config (CircuitBreaker (Storage sample))) cb) by (split; auto).
  clear Hcfg Ho. induction Hr as [cb|cb cb1 cb2 Hcall _ IH].
  - destruct Hs as [_ [->|[-> _]]]; done.
  - apply IH. eapply stuck_call; [| |exact Hs|exact Hcall]; [|reflexivity].
    unfold CircuitBreakerRepository.cfg_ok, max_int64. cbn. lia.
Qed.

End Config.
