(* ===== verification/Rpc.v ===== *)
(** What the server-side interceptors of [pkg/interceptors] share: the context
    of a call, handlers and their outcomes (a handler may panic), the telemetry
    an interceptor emits, request identifiers ([requestid.go]) and the labels
    of [server.go] and [audit.go]. *)
From S2P Require Import Prelude GoStrings GoErrors Storage.
From Stdlib Require Import Ascii.

(** * The context of a call *)

Record Claims := mkClaims { Subject : string; Scopes : list string }.
#[export] Instance Claims_eq_dec : EqDecision Claims.
Proof. solve_decision. Defined.

(** The values the interceptors read from and add to a [context.Context]: the
    incoming metadata (keys in lower case, as [metadata.MD] stores them), the
    peer and trace the transport recorded, and the values set by earlier
    interceptors. *)
Record RpcCtx := mkRpcCtx {
  incoming : option (gmap string (list string));
  outgoing : list (string * string);
  remote_addr : string;
  trace_id : string;
  client_id : option string;
  ctx_claims : option Claims;
  request_id : option string;
  base_ctx : option Ctx
}.

Definition withClientID (ctx : RpcCtx) (id : string) : RpcCtx :=
  {| incoming := incoming ctx; outgoing := outgoing ctx; remote_addr := remote_addr ctx;
     trace_id := trace_id ctx; client_id := Some id; ctx_claims := ctx_claims ctx;
     request_id := request_id ctx; base_ctx := base_ctx ctx |}.
Definition withClaims (ctx : RpcCtx) (c : Claims) : RpcCtx :=
  {| incoming := incoming ctx; outgoing := outgoing ctx; remote_addr := remote_addr ctx;
     trace_id := trace_id ctx; client_id := client_id ctx; ctx_claims := Some c;
     request_id := request_id ctx; base_ctx := base_ctx ctx |}.
Definition withBase (ctx : RpcCtx) (c : option Ctx) : RpcCtx :=
  {| incoming := incoming ctx; outgoing := outgoing ctx; remote_addr := remote_addr ctx;
     trace_id := trace_id ctx; client_id := client_id ctx; ctx_claims := ctx_claims ctx;
     request_id := request_id ctx; base_ctx := c |}.

(** A context derived at the moment [start]: its error is the first one, of its
    parent's and of its own deadline. *)
Definition WithDeadline (clock : nat -> Z) (start : nat) (deadline : Z) (c : Ctx) : Ctx :=
  {| ctx_err_at := fun t =>
       head (omap (fun i => match ctx_err_at c i with
                            | Some e => Some e
                            | None => if deadline <=? clock i then Some CtxDeadlineExceeded else None
                            end) (seq start (S t - start))) |}.

(** [context.WithTimeout(ctx, timeout)]. *)
Definition context_WithTimeout {S} (c : Ctx) (timeout : Z) : M S Ctx := fun ws =>
  let w := fst ws in
  (WithDeadline (w_now w) (w_tick w) (w_now w (w_tick w) + timeout) c, (tick w, snd ws)).

Definition withTimeout {S} (ctx : RpcCtx) (timeout : Z) : M S RpcCtx :=
  match base_ctx ctx with
  | None => retM ctx
  | Some c => c <-- context_WithTimeout c timeout ;; retM (withBase ctx (Some c))
  end.

Definition extractClientID (ctx : RpcCtx) : string := default "" (client_id ctx).
Definition ClaimsFromContext (ctx : RpcCtx) : option Claims := ctx_claims ctx.
Definition traceIDFromContext (ctx : RpcCtx) : string := trace_id ctx.

(** [metadata.FromIncomingContext] and [md.Get(k)], for a key in lower case. *)
Definition md_get (md : gmap string (list string)) (k : string) : list string :=
  default [] (md !! k).

(** * Outcomes *)

(** A handler returns a response or an error, or panics. *)
Inductive outcome (A : Type) :=
| Returned (r : res A)
| Panicked (value : string).
Arguments Returned {A} r.
Arguments Panicked {A} value.

Definition Handler (S A : Type) : Type := RpcCtx -> M S (outcome A).

(** Code after a call of the handler runs only when the handler returns. *)
Definition after {S A B} (m : M S (outcome A)) (k : res A -> M S (outcome B)) : M S (outcome B) :=
  o <-- m ;;
  match o with
  | Returned r => k r
  | Panicked v => retM (Panicked v)
  end.

(** A deferred call runs in both cases. *)
Definition deferred {S A} (m : M S (outcome A)) (d : M S unit) : M S (outcome A) :=
  o <-- m ;; d ;;; retM o.

Definition fail {S A} (e : error) : M S (outcome A) := retM (Returned (Err e)).

(** * Telemetry *)

Inductive telemetry :=
| AuditAuth (event decision method clientID requestID remote : string)
| AuditMutation (method clientID requestID code : string) (duration : Z)
| LogStarted (method requestID : string) (stream : bool)
| LogCompleted (method requestID code : string) (duration : Z) (stream : bool)
| LogPanic (method value : string)
| LogWarn (text : string)
| TotalRequests (method : string)
| TotalErrors (method code : string)
| RequestDuration (method : string) (duration : Z) (traceID : string)
| ActiveStreams (delta : Z)
| LoadShed (method : string)
| InFlight (delta : Z).
#[export] Instance telemetry_eq_dec : EqDecision telemetry.
Proof. solve_decision. Defined.

(** A server state that records telemetry. *)
Class Telemetry (S : Type) := { emit : telemetry -> S -> S }.
#[export] Instance telemetry_list : Telemetry (list telemetry) := {| emit e l := l ++ [e] |}.
#[export] Instance telemetry_pair {T S} `{!Telemetry S} : Telemetry (T * S) :=
  {| emit e ts := (fst ts, emit e (snd ts)) |}.

Definition emitM {S} `{!Telemetry S} (e : telemetry) : M S unit := modifyM (emit e).

(** * Request identifiers *)

Definition RequestIDFromContext (ctx : RpcCtx) : string := default "" (request_id ctx).

Definition zero_request_id : string := "00000000000000000000000000000000".

Definition generateRequestID {S} : M S string :=
  b <-- randM ;;
  retM (match b with None => zero_request_id | Some b => HexEncode b end).

Definition set_request_id (ctx : RpcCtx) (rid : string) : RpcCtx :=
  {| incoming := incoming ctx; outgoing := outgoing ctx ++ [("x-request-id", rid)];
     remote_addr := remote_addr ctx; trace_id := trace_id ctx; client_id := client_id ctx;
     ctx_claims := ctx_claims ctx; request_id := Some rid;
     base_ctx := base_ctx ctx |}.

Definition withRequestID {S} (ctx : RpcCtx) : M S RpcCtx :=
  let rid := match incoming ctx with
             | Some md => match md_get md "x-request-id" with v :: _ => v | [] => "" end
             | None => ""
             end in
  if bool_decide (rid = "") then
    rid <-- generateRequestID ;;
    retM (set_request_id ctx rid)
  else retM (set_request_id ctx rid).

(** [utf8.ValidString] is the library's. *)
Definition control_char (a : ascii) : bool := ((byte a <? 0x20) || (byte a =? 0x7f))%N.

Definition getRequestID (valid_utf8 : string -> bool) (ctx : RpcCtx) : string :=
  let rid := RequestIDFromContext ctx in
  if bool_decide (rid <> "") then rid else
  match incoming ctx with
  | None => ""
  | Some md =>
      match md_get md "x-request-id" with
      | [v] =>
          if (128 <? slen v) || negb (valid_utf8 v) then ""
          else if existsb control_char (bytes_of v) then ""
          else TrimSpace v
      | _ => ""
      end
  end.

(** * Labels *)

Definition requiresAuth (method : string) : bool :=
  negb (bool_decide (method = "/grpc.health.v1.Health/Check") ||
        bool_decide (method = "/grpc.health.v1.Health/Watch")).

Definition getErrorCode (err : option error) : string :=
  match err with
  | None => code_String codes.OK
  | Some _ => code_String (status_Code err)
  end.

Definition auditedMethods (name : string) : bool := bool_decide (name = "CollectUserMetrics").

Definition isMutation (fullMethod : string) : bool :=
  let name := after_last fullMethod "/" in
  if auditedMethods name then true
  else HasPrefix name "Create" || HasPrefix name "Update" || HasPrefix name "Delete".

Definition res_error {A} (r : res A) : option error :=
  match r with Ok _ => None | Err e => Some e end.

Definition authenticationError : error := EStatus codes.Unauthenticated "authentication required".

(** The interceptors' common view of logging and metrics. *)
Section audit.
Context {S} `{!Telemetry S} (valid_utf8 : string -> bool).

Definition auditMutation (ctx : RpcCtx) (method code : string) (dur : Z) : M S unit :=
  emitM (AuditMutation method (extractClientID ctx) (getRequestID valid_utf8 ctx) code dur).

Definition auditAuthDecision (ctx : RpcCtx) (event method decision clientID : string) : M S unit :=
  emitM (AuditAuth event decision method clientID (getRequestID valid_utf8 ctx) (remote_addr ctx)).
End audit.

(** * Lemmas *)

Lemma requiresAuth_false m :
  requiresAuth m = false <->
  m = "/grpc.health.v1.Health/Check" \/ m = "/grpc.health.v1.Health/Watch".
Proof.
  unfold requiresAuth. rewrite negb_false_iff, orb_true_iff, !bool_decide_eq_true. done.
Qed.

Lemma withRequestID_run {S} ctx w (s : S) :
  exists rid w', withRequestID ctx (w, s) = (set_request_id ctx rid, (w', s)).
Proof.
  unfold withRequestID, generateRequestID. case_bool_decide; unfold_monad; by do 2 eexists.
Qed.

Lemma set_request_id_fields ctx rid :
  incoming (set_request_id ctx rid) = incoming ctx /\
  client_id (set_request_id ctx rid) = client_id ctx /\
  ctx_claims (set_request_id ctx rid) = ctx_claims ctx.
Proof. done. Qed.
