(* ===== verification/Auth.v ===== *)
(** Authentication ([auth.go]) and authorization ([authz.go]) of
    [pkg/interceptors]: which credentials are accepted, and the interceptors
    that refuse a call without them.

    Cryptography, PEM and JSON decoding are parameters: the theorems hold for
    every implementation of them. *)
From S2P Require Import Prelude GoStrings GoErrors Storage Config Rpc.
From Stdlib Require Import Ascii.

Module Auth.

(** * The libraries the authenticator calls *)

(** [crypto/rsa] and [crypto/ecdsa] public keys, the size of an RSA modulus, and
    whether an EC key is on P-256. *)
Class PublicKeys := {
  RSAKey : Type;
  ECKey : Type;
  BitLen : RSAKey -> Z;
  P256 : ECKey -> bool
}.

(** [crypto.PublicKey]: what PEM and x509 decoding yield. *)
Inductive PublicKey `{PublicKeys} :=
| RSAPublicKey (key : RSAKey)
| ECPublicKey (key : ECKey)
| OtherPublicKey.

(** [pem.Decode] followed by each of the two x509 parsers;
    [hmac.New(sha256.New, key)] of a message; [sha256.Sum256];
    [rsa.VerifyPKCS1v15] and [ecdsa.Verify] of a SHA-256 digest;
    [json.Unmarshal] into [map[string]string], [map[string]json.RawMessage],
    [string], [[]string] and [json.Number]. *)
Class Libraries `{PublicKeys} := {
  pem_Decode : string -> option string;
  ParsePKIXPublicKey : string -> option PublicKey;
  ParsePKCS1PublicKey : string -> option PublicKey;
  hmac_sha256 : string -> string -> string;
  sha256 : string -> string;
  rsa_verify : RSAKey -> string -> string -> bool;
  ecdsa_verify : ECKey -> string -> string -> string -> bool;
  json_header : string -> option (gmap string string);
  json_claims : string -> option (gmap string string);
  json_string : string -> option string;
  json_strings : string -> option (list string);
  json_number : string -> option string
}.

Section auth.
Context `{HK : PublicKeys} `{HL : !Libraries}.

Record Authenticator := mkAuthenticator {
  jwtSecret : string;
  apiKeys : list string;
  jwtAudience : string;
  jwtIssuer : string;
  jwtRSAKey : option RSAKey;
  jwtECKey : option ECKey;
  auditAllows : bool;
  apiKeyScopes : list string
}.

Definition minRSABits : Z := 2048.

Definition parsePublicKey (pemKey : string) : option PublicKey :=
  match pem_Decode pemKey with
  | None => None
  | Some block =>
      match ParsePKIXPublicKey block with
      | Some pub => Some pub
      | None => ParsePKCS1PublicKey block
      end
  end.

Definition set_keys (a : Authenticator) (rsa : option RSAKey) (ec : option ECKey) : Authenticator :=
  {| jwtSecret := jwtSecret a; apiKeys := apiKeys a; jwtAudience := jwtAudience a;
     jwtIssuer := jwtIssuer a; jwtRSAKey := rsa; jwtECKey := ec;
     auditAllows := auditAllows a; apiKeyScopes := apiKeyScopes a |}.

Definition NewAuthenticator (cfg : Config.AuthConfig) : res Authenticator :=
  if blank (Config.JWTSecret cfg) && bool_decide (length (Config.APIKeys cfg) = 0%nat) &&
     blank (Config.JWTPublicKey cfg)
  then Err (EOther "no authentication credentials configured") else
  let auth :=
    {| jwtSecret := Config.JWTSecret cfg;
       apiKeys := List.filter (fun key => negb (blank key)) (Config.APIKeys cfg);
       jwtAudience := Config.JWTAudience cfg;
       jwtIssuer := Config.JWTIssuer cfg;
       jwtRSAKey := None; jwtECKey := None;
       auditAllows := Config.AuditAllows cfg;
       apiKeyScopes := Config.APIKeyScopes cfg |} in
  if blank (Config.JWTPublicKey cfg) then Ok auth else
  match parsePublicKey (Config.JWTPublicKey cfg) with
  | Some (RSAPublicKey key) =>
      if BitLen key <? minRSABits
      then Err (EOther "auth.jwt_public_key RSA modulus must be at least 2048 bits")
      else Ok (set_keys auth (Some key) None)
  | Some (ECPublicKey key) =>
      if negb (P256 key)
      then Err (EOther "auth.jwt_public_key EC key must use the P-256 curve (ES256)")
      else Ok (set_keys auth None (Some key))
  | _ => Err (EOther "auth.jwt_public_key must be a PEM-encoded RSA or EC (P-256) public key")
  end.

(** [hmac.Equal]: equality of byte strings. *)
Definition hmac_Equal (a b : string) : bool := bool_decide (a = b).

Definition verifySignature (a : Authenticator) (alg signingInput sig : string) : bool :=
  let digest := sha256 signingInput in
  if bool_decide (alg = "HS256") then
    if slen (jwtSecret a) =? 0 then false
    else hmac_Equal sig (hmac_sha256 (jwtSecret a) signingInput)
  else if bool_decide (alg = "RS256") then
    match jwtRSAKey a with
    | None => false
    | Some key => rsa_verify key digest sig
    end
  else if bool_decide (alg = "ES256") then
    match jwtECKey a with
    | None => false
    | Some key =>
        if negb (P256 key) || negb (slen sig =? 64) then false
        else ecdsa_verify key digest (String.substring 0 32 sig) (String.substring 32 32 sig)
    end
  else false.

(** ** Claims *)

(** A claim that is absent is a nil [RawMessage], which does not unmarshal. *)
Definition stringClaim (raw : option string) : option string :=
  match raw with None => None | Some raw => json_string raw end.

Definition unixClaim (raw : option string) : option Z :=
  match raw with
  | None => None
  | Some raw => match json_number raw with None => None | Some number => ParseInt number end
  end.

Definition audienceMatches (raw : option string) (want : string) : bool :=
  match raw with
  | None => false
  | Some r =>
      match json_string r with
      | Some s => bool_decide (s = want)
      | None => match json_strings r with
                | None => false
                | Some list => bool_decide (want ∈ list)
                end
      end
  end.

Definition scopes_of (raw : string) : list string :=
  match json_string raw with
  | Some s => Fields s
  | None =>
      match json_strings raw with
      | Some arr => List.filter (fun v => negb (bool_decide (v = ""))) (map TrimSpace arr)
      | None => []
      end
  end.

Definition extractScopes (claims : gmap string string) : list string :=
  flat_map (fun key => match claims !! key with Some raw => scopes_of raw | None => [] end)
    ["scope"; "scp"; "scopes"].

(** [time.Unix(sec, 0)] counts seconds from year 1; the sum wraps. *)
Definition unixToInternal : Z := 62135596800.
Definition time_Unix (sec : Z) : Z := wrap64 (sec + unixToInternal).
(** [t.Add(-jwtClockSkew)] on whole seconds saturates. *)
Definition jwtClockSkew : Z := 60.
Definition minus_skew (t : Z) : Z :=
  if t - jwtClockSkew <? min_int64 then - (2 ^ 63 - 1) else t - jwtClockSkew.
(** [time.Now().Before(t)] for a [t] without a fraction of a second. *)
Definition now_before (now_ns t : Z) : bool := now_ns / 10 ^ 9 + unixToInternal <? t.

Definition parseClaims {S} (a : Authenticator) (token : string) : M S (option Claims) :=
  match Split token "." with
  | [p0; p1; p2] =>
      match B64Decode p0 with
      | None => retM None
      | Some headerBytes =>
      match json_header headerBytes with
      | None => retM None
      | Some header =>
      let typ := default "" (header !! "typ") in
      if bool_decide (typ <> "") && bool_decide (typ <> "JWT") then retM None else
      let signingInput := p0 +:+ "." +:+ p1 in
      match B64Decode p2 with
      | None => retM None
      | Some sig =>
      if negb (verifySignature a (default "" (header !! "alg")) signingInput sig) then retM None else
      match B64Decode p1 with
      | None => retM None
      | Some payloadBytes =>
      match json_claims payloadBytes with
      | None => retM None
      | Some claims =>
      match unixClaim (claims !! "exp") with
      | None => retM None
      | Some exp =>
      now <-- nowM ;;
      if negb (now_before now (time_Unix exp)) then retM None else
      nbf_ok <-- match claims !! "nbf" with
                 | None => retM true
                 | Some raw =>
                     match unixClaim (Some raw) with
                     | None => retM false
                     | Some nbf => now <-- nowM ;; retM (negb (now_before now (time_Unix nbf)))
                     end
                 end ;;
      if negb nbf_ok then retM None else
      iat_ok <-- match claims !! "iat" with
                 | None => retM true
                 | Some raw =>
                     match unixClaim (Some raw) with
                     | None => retM false
                     | Some iat => now <-- nowM ;;
                                   retM (negb (now_before now (minus_skew (time_Unix iat))))
                     end
                 end ;;
      if negb iat_ok then retM None else
      if bool_decide (jwtIssuer a <> "") &&
         bool_decide (default "" (stringClaim (claims !! "iss")) <> jwtIssuer a)
      then retM None else
      if bool_decide (jwtAudience a <> "") && negb (audienceMatches (claims !! "aud") (jwtAudience a))
      then retM None else
      retM (Some {| Subject := default "" (stringClaim (claims !! "sub"));
                    Scopes := extractScopes claims |})
      end end end end end end
  | _ => retM None
  end.

Definition validJWT {S} (a : Authenticator) (token : string) : M S bool :=
  claims <-- parseClaims a token ;;
  retM (match claims with Some _ => true | None => false end).

(** ** Credentials *)

(** The credential, and whether both headers were present (a warning). *)
Definition credentialFromContext (ctx : RpcCtx) : option string * bool :=
  match incoming ctx with
  | None => (None, false)
  | Some md =>
      let apiKeyValues := md_get md "x-api-key" in
      let authorizationValues := md_get md "authorization" in
      let both := bool_decide (apiKeyValues <> []) && bool_decide (authorizationValues <> []) in
      let bearer :=
        match authorizationValues with
        | [v] => match Fields v with
                 | [scheme; token] =>
                     if EqualFold_ascii scheme "bearer" && bool_decide (token <> "")
                     then Some token else None
                 | _ => None
                 end
        | _ => None
        end in
      match bearer with
      | Some token => (Some token, both)
      | None =>
          match apiKeyValues with
          | [v] => if blank v then (None, both) else (Some (TrimSpace v), both)
          | _ => (None, both)
          end
      end
  end.

(** ** The principal *)

Section interceptors.
Context {S : Type} `{!Telemetry S} (valid_utf8 : string -> bool).

Definition credentialM (ctx : RpcCtx) : M S (option string) :=
  let '(credential, both) := credentialFromContext ctx in
  (if both : bool
   then emitM (LogWarn "both x-api-key and authorization headers present; preferring authorization")
   else retM tt) ;;;
  retM credential.

Definition api_key_matches (a : Authenticator) (credential : string) : bool :=
  existsb (fun key => hmac_Equal key credential) (apiKeys a).

Definition authenticate (a : Authenticator) (ctx : RpcCtx) : M S (option Claims) :=
  credential <-- credentialM ctx ;;
  match credential with
  | None => retM None
  | Some credential =>
      if api_key_matches a credential
      then retM (Some {| Subject := "apikey:" +:+ HexEncode (sha256 credential);
                         Scopes := apiKeyScopes a |})
      else parseClaims a credential
  end.

Definition authenticateCredential (a : Authenticator) (ctx : RpcCtx) : M S bool :=
  credential <-- credentialM ctx ;;
  let credential := default "" credential in
  if api_key_matches a credential then retM true else validJWT a credential.

Definition Authenticate (a : option Authenticator) (ctx : RpcCtx) : M S bool :=
  match a with
  | None => retM false
  | Some a =>
      credential <-- credentialM ctx ;;
      match credential with
      | None => retM false
      | Some _ => authenticateCredential a ctx
      end
  end.

Definition authenticatePrincipal (auth : option Authenticator) (ctx : RpcCtx)
  : M S (option Claims) :=
  match auth with None => retM None | Some a => authenticate a ctx end.

Definition audits_allows (auth : option Authenticator) : bool :=
  match auth with Some a => auditAllows a | None => false end.

Definition UnaryAuthInterceptorWithAuthenticator {A} (auth : option Authenticator)
    (ctx : RpcCtx) (method : string) (handler : Handler S A) : M S (outcome A) :=
  if requiresAuth method then
    claims <-- authenticatePrincipal auth ctx ;;
    match claims with
    | None =>
        auditAuthDecision valid_utf8 ctx "authn" method "deny" "" ;;;
        fail authenticationError
    | Some claims =>
        let ctx := withClientID ctx (Subject claims) in
        let ctx := withClaims ctx claims in
        (if audits_allows auth
         then auditAuthDecision valid_utf8 ctx "authn" method "allow" (Subject claims)
         else retM tt) ;;;
        handler ctx
    end
  else handler ctx.

Definition UnaryAuthInterceptor {A} (ctx : RpcCtx) (method : string) (handler : Handler S A)
  : M S (outcome A) := UnaryAuthInterceptorWithAuthenticator None ctx method handler.

(** The streaming interceptors see the context of the server stream and pass the
    handler a stream with the new one. *)
Definition StreamAuthInterceptorWithAuthenticator (auth : option Authenticator)
    (ss : RpcCtx) (method : string) (handler : Handler S unit) : M S (outcome unit) :=
  if requiresAuth method then
    claims <-- authenticatePrincipal auth ss ;;
    match claims with
    | None =>
        auditAuthDecision valid_utf8 ss "authn" method "deny" "" ;;;
        fail authenticationError
    | Some claims =>
        let ctx := withClaims (withClientID ss (Subject claims)) claims in
        (if audits_allows auth
         then auditAuthDecision valid_utf8 ctx "authn" method "allow" (Subject claims)
         else retM tt) ;;;
        handler ctx
    end
  else handler ss.

Definition StreamAuthInterceptor (ss : RpcCtx) (method : string) (handler : Handler S unit)
  : M S (outcome unit) := StreamAuthInterceptorWithAuthenticator None ss method handler.

(** * Authorization *)

Definition hasAnyScope (have required : list string) : bool :=
  let set : gset string := list_to_set have in
  existsb (fun r => bool_decide (r ∈ set)) required.

(** [policy] maps a method to its required scopes. *)
Definition authorize (ctx : RpcCtx) (method : string) (policy : gmap string (list string))
    (defaultDeny : bool) : M S (option error) :=
  match policy !! method with
  | None =>
      if defaultDeny then
        auditAuthDecision valid_utf8 ctx "authz" method "deny" (extractClientID ctx) ;;;
        retM (Some (EStatus codes.PermissionDenied "no authorization policy for method"))
      else retM None
  | Some required =>
      if bool_decide (length required = 0%nat) then retM None else
      match ClaimsFromContext ctx with
      | Some c =>
          if hasAnyScope (Scopes c) required then retM None else
          auditAuthDecision valid_utf8 ctx "authz" method "deny" (extractClientID ctx) ;;;
          retM (Some (EStatus codes.PermissionDenied "insufficient scope"))
      | None =>
          auditAuthDecision valid_utf8 ctx "authz" method "deny" (extractClientID ctx) ;;;
          retM (Some (EStatus codes.PermissionDenied "insufficient scope"))
      end
  end.

Definition UnaryAuthorizationInterceptor {A} (policy : gmap string (list string))
    (defaultDeny : bool) (ctx : RpcCtx) (method : string) (handler : Handler S A)
  : M S (outcome A) :=
  if negb (requiresAuth method) then handler ctx else
  err <-- authorize ctx method policy defaultDeny ;;
  match err with
  | Some err => fail err
  | None => handler ctx
  end.

Definition StreamAuthorizationInterceptor (policy : gmap string (list string))
    (defaultDeny : bool) (ss : RpcCtx) (method : string) (handler : Handler S unit)
  : M S (outcome unit) :=
  if negb (requiresAuth method) then handler ss else
  err <-- authorize ss method policy defaultDeny ;;
  match err with
  | Some err => fail err
  | None => handler ss
  end.
End interceptors.

(** * What is accepted *)

(** A signature made with the key configured for the algorithm of the token,
    and with no other. *)
Definition signed (a : Authenticator) (alg signingInput sig : string) : Prop :=
  (alg = "HS256" /\ jwtSecret a <> "" /\ sig = hmac_sha256 (jwtSecret a) signingInput) \/
  (alg = "RS256" /\ exists key, jwtRSAKey a = Some key /\ rsa_verify key (sha256 signingInput) sig = true) \/
  (alg = "ES256" /\ exists key, jwtECKey a = Some key /\ P256 key = true /\ slen sig = 64 /\
     ecdsa_verify key (sha256 signingInput) (String.substring 0 32 sig) (String.substring 32 32 sig) = true).

Lemma verifySignature_signed a alg input sig :
  verifySignature a alg input sig = true <-> signed a alg input sig.
Proof.
  unfold verifySignature, signed, hmac_Equal. split.
  - intros H. case_bool_decide as H1; subst.
    { left. destruct (Z.eqb_spec (slen (jwtSecret a)) 0) as [|H0]; [done|].
      apply bool_decide_eq_true_1 in H. split_and!; [done| |done]. by intros E; rewrite E in H0. }
    clear H1. case_bool_decide as H2; subst.
    { right; left. destruct (jwtRSAKey a) as [key|]; [|done]. eauto. }
    clear H2. case_bool_decide as H3; subst; [|done].
    right; right. destruct (jwtECKey a) as [key|]; [|done].
    destruct (P256 key) eqn:Hp; [|done]. destruct (Z.eqb_spec (slen sig) 64); [|done]. cbn. eauto 10.
  - intros [(-> & Hs & ->)|[(-> & key & Hk & Hv)|(-> & key & Hk & Hp & Hl & Hv)]]; cbn [bool_decide].
    + rewrite bool_decide_eq_true_2 by done.
      destruct (Z.eqb_spec (slen (jwtSecret a)) 0) as [H0%slen_zero|]; [done|].
      by apply bool_decide_eq_true_2.
    + rewrite bool_decide_eq_false_2, bool_decide_eq_true_2 by done. by rewrite Hk.
    + rewrite !bool_decide_eq_false_2 by done. rewrite bool_decide_eq_true_2 by done.
      rewrite Hk, Hp, Hl. exact Hv.
Qed.

(** The value of a time claim at the precision it is compared with: seconds past
    [max_int64 - unixToInternal] wrap around to the distant past. *)
Definition wraps (sec : Z) : Prop := max_int64 - unixToInternal < sec.

(** What a token that is accepted looked like. The clock readings are those
    taken from the moment the claims were reached. *)
Definition accepted (a : Authenticator) (token : string) (c : Claims) (w : World) : Prop :=
  exists p0 p1 p2 header_text header sig payload claims exp,
    Split token "." = [p0; p1; p2] /\
    B64Decode p0 = Some header_text /\ json_header header_text = Some header /\
    B64Decode p2 = Some sig /\ signed a (default "" (header !! "alg")) (p0 +:+ "." +:+ p1) sig /\
    B64Decode p1 = Some payload /\ json_claims payload = Some claims /\
    unixClaim (claims !! "exp") = Some exp /\ w_now w (w_tick w) / 10 ^ 9 < exp /\
    (forall raw, claims !! "nbf" = Some raw ->
       exists nbf n, unixClaim (Some raw) = Some nbf /\ (nbf <= w_now w n / 10 ^ 9 \/ wraps nbf)) /\
    (forall raw, claims !! "iat" = Some raw ->
       exists iat n, unixClaim (Some raw) = Some iat /\
         (iat - jwtClockSkew <= w_now w n / 10 ^ 9 \/ wraps iat)) /\
    (jwtIssuer a <> "" -> default "" (stringClaim (claims !! "iss")) = jwtIssuer a) /\
    (jwtAudience a <> "" -> audienceMatches (claims !! "aud") (jwtAudience a) = true) /\
    c = {| Subject := default "" (stringClaim (claims !! "sub")); Scopes := extractScopes claims |}.

(** * Lemmas *)

Lemma wrap64_le x : min_int64 <= x -> wrap64 x <= x.
Proof.
  unfold wrap64, min_int64. intros H. pose proof (Z.mod_le (x + 2 ^ 63) (2 ^ 64) ltac:(lia) ltac:(lia)). lia.
Qed.

Lemma ParseInt_range s n : ParseInt s = Some n -> min_int64 <= n <= max_int64.
Proof.
  unfold ParseInt. intros H. repeat case_match; simplify_eq;
    match goal with E : _ && _ = true |- _ =>
      apply andb_true_iff in E as [?%Z.leb_le ?%Z.leb_le]; done end.
Qed.

Lemma unixClaim_range raw n : unixClaim raw = Some n -> min_int64 <= n <= max_int64.
Proof.
  unfold unixClaim. destruct raw as [raw|]; [|done]. destruct (json_number raw); [|done].
  apply ParseInt_range.
Qed.

Lemma exp_in_future now exp :
  min_int64 <= exp -> now_before now (time_Unix exp) = true -> now / 10 ^ 9 < exp.
Proof.
  unfold now_before, time_Unix. intros H Hb%Z.ltb_lt.
  pose proof (wrap64_le (exp + unixToInternal)) as Hw. unfold unixToInternal, min_int64 in *. lia.
Qed.

Lemma nbf_reached now nbf :
  min_int64 <= nbf <= max_int64 -> now_before now (time_Unix nbf) = false ->
  nbf <= now / 10 ^ 9 \/ wraps nbf.
Proof.
  unfold now_before, time_Unix, wraps. intros H Hb%Z.ltb_ge.
  destruct (Z.le_gt_cases nbf (max_int64 - unixToInternal)) as [Hl|]; [|by right].
  left. rewrite wrap64_small in Hb; unfold unixToInternal, min_int64, max_int64 in *; lia.
Qed.

Lemma iat_reached now iat :
  min_int64 <= iat <= max_int64 -> now_before now (minus_skew (time_Unix iat)) = false ->
  iat - jwtClockSkew <= now / 10 ^ 9 \/ wraps iat.
Proof.
  unfold now_before, time_Unix, wraps, minus_skew. intros H Hb%Z.ltb_ge.
  destruct (Z.le_gt_cases iat (max_int64 - unixToInternal)) as [Hl|]; [|by right].
  left. rewrite wrap64_small in Hb by (unfold unixToInternal, min_int64, max_int64 in *; lia).
  case_match; bools; unfold unixToInternal, jwtClockSkew, min_int64, max_int64 in *; lia.
Qed.

(** A check of an optional time claim. *)
Lemma time_check {S} (raw : option string) (ok : Z -> Z -> bool) (w : World) (s : S) b ws :
  (match raw with
   | None => retM true
   | Some raw => match unixClaim (Some raw) with
                 | None => retM false
                 | Some v => bindM nowM (fun now => retM (ok now v))
                 end
   end) (w, s) = (b, ws) ->
  snd ws = s /\ w_now (fst ws) = w_now w /\ w_rand (fst ws) = w_rand w /\
  (b = true -> forall r, raw = Some r ->
     exists v n, unixClaim (Some r) = Some v /\ ok (w_now w n) v = true).
Proof.
  destruct raw as [r|]; [|by intros [= <- <-]].
  destruct (unixClaim (Some r)) as [v|] eqn:Hv; unfold_monad; intros [= <- <-]; cbn; split_and!; try done.
  intros Hok r' [= <-]. by exists v, (w_tick w).
Qed.

Lemma parseClaims_sound {S} a token w (s : S) c ws :
  parseClaims a token (w, s) = (Some c, ws) -> snd ws = s /\ accepted a token c w.
Proof.
  unfold parseClaims. intros H.
  destruct (Split token ".") as [|p0 [|p1 [|p2 [|]]]] eqn:Hsplit; try done.
  destruct (B64Decode p0) as [ht|] eqn:H0; [|done].
  destruct (json_header ht) as [header|] eqn:Hh; [|done].
  destruct (_ && _); [done|].
  destruct (B64Decode p2) as [sig|] eqn:H2; [|done].
  destruct (verifySignature _ _ _ _) eqn:Hs; [|done]. apply verifySignature_signed in Hs. cbn [negb] in H.
  destruct (B64Decode p1) as [payload|] eqn:H1; [|done].
  destruct (json_claims payload) as [claims|] eqn:Hc; [|done].
  destruct (unixClaim (claims !! "exp")) as [exp|] eqn:He; [|done].
  cbn [bindM nowM fst snd] in H. unfold bindM at 1, nowM at 1 in H. cbn [fst snd] in H.
  destruct (now_before _ _) eqn:Hexp; [|done]. cbn [negb] in H.
  unfold bindM at 1 in H.
  destruct (match claims !! "nbf" with _ => _ end (tick w, s)) as [nbf_ok ws1] eqn:Hnbf.
  apply (time_check _ (fun now nbf => negb (now_before now (time_Unix nbf)))) in Hnbf as (Hs1 & Hn1 & _ & Hnbf).
  destruct nbf_ok; [|done]. cbn [negb] in H.
  unfold bindM at 1 in H. destruct ws1 as [w1 s1]. cbn [fst snd] in *. subst s1.
  destruct (match claims !! "iat" with _ => _ end (w1, s)) as [iat_ok ws2] eqn:Hiat.
  apply (time_check _ (fun now iat => negb (now_before now (minus_skew (time_Unix iat))))) in Hiat
    as (Hs2 & Hn2 & _ & Hiat).
  destruct iat_ok; [|done]. cbn [negb] in H.
  destruct (bool_decide (jwtIssuer a <> "") && _) eqn:Hiss; [done|].
  destruct (bool_decide (jwtAudience a <> "") && _) eqn:Haud; [done|].
  injection H as <- <-. split; [done|].
  exists p0, p1, p2, ht, header, sig, payload, claims, exp. split_and!; try done.
  - apply exp_in_future; [|exact Hexp]. by apply unixClaim_range in He as [? _].
  - intros raw Hraw. destruct (Hnbf eq_refl raw Hraw) as (v & n & Hv & Hok). exists v, n.
    split; [done|]. apply nbf_reached; [by eapply unixClaim_range|]. by apply negb_true_iff.
  - intros raw Hraw. destruct (Hiat eq_refl raw Hraw) as (v & n & Hv & Hok). exists v, n.
    split; [done|]. rewrite Hn1 in Hok. apply iat_reached; [by eapply unixClaim_range|].
    by apply negb_true_iff.
  - intros Hi. rewrite bool_decide_eq_true_2 in Hiss by done. cbn [andb] in Hiss.
    apply bool_decide_eq_false_1 in Hiss. by apply dec_stable.
  - intros Hi. rewrite bool_decide_eq_true_2 in Haud by done. cbn [andb] in Haud. by apply negb_false_iff.
Qed.

(** Verifying a token changes nothing. *)
Lemma parseClaims_pure {S} a token : keeps_state (parseClaims (S := S) a token).
Proof. unfold parseClaims. keeps_state_tac. Qed.

(** ** Interceptors *)

(** A principal the authenticator vouches for. *)
Definition principal (a : Authenticator) (ctx : RpcCtx) (c : Claims) (w : World) : Prop :=
  exists credential, fst (credentialFromContext ctx) = Some credential /\
    ((credential ∈ apiKeys a /\
      c = {| Subject := "apikey:" +:+ HexEncode (sha256 credential); Scopes := apiKeyScopes a |}) \/
     accepted a credential c w).

(** The policy admits the principal to the method. *)
Definition permitted (policy : gmap string (list string)) (defaultDeny : bool) (method : string)
    (c : Claims) : Prop :=
  match policy !! method with
  | None => defaultDeny = false
  | Some required => required = [] \/ exists scope, scope ∈ Scopes c /\ scope ∈ required
  end.

Lemma hasAnyScope_true have required :
  hasAnyScope have required = true <-> exists scope, scope ∈ have /\ scope ∈ required.
Proof.
  unfold hasAnyScope. rewrite existsb_exists. split.
  - intros (r & Hr & Hin%bool_decide_eq_true_1). exists r.
    rewrite elem_of_list_to_set in Hin. by rewrite <- list_elem_of_In in Hr.
  - intros (r & Hh & Hr). exists r. rewrite <- list_elem_of_In. split; [done|].
    apply bool_decide_eq_true_2. by rewrite elem_of_list_to_set.
Qed.

Section gate.
Context {S : Type} `{!Telemetry S} (valid_utf8 : string -> bool).

Definition emits (events : list telemetry) (s : S) : S := fold_left (fun s e => emit e s) events s.

Definition is_denial (method : string) (e : telemetry) : Prop :=
  exists event client rid remote, e = AuditAuth event "deny" method client rid remote.

Lemma emits_app l1 l2 s : emits (l1 ++ l2) s = emits l2 (emits l1 s).
Proof. apply fold_left_app. Qed.

Lemma credentialM_run ctx w (s : S) :
  exists events, credentialM ctx (w, s) = (fst (credentialFromContext ctx), (w, emits events s)).
Proof.
  unfold credentialM. destruct (credentialFromContext ctx) as [cred []]; unfold emitM; unfold_monad.
  - by eexists [_].
  - by exists [].
Qed.

Lemma authenticatePrincipal_sound auth ctx w (s : S) r ws :
  authenticatePrincipal auth ctx (w, s) = (r, ws) ->
  exists events, snd ws = emits events s /\
    match r with
    | None => True
    | Some c => exists a, auth = Some a /\ principal a ctx c w
    end.
Proof.
  destruct auth as [a|]; [|intros [= <- <-]; by exists []].
  cbn [authenticatePrincipal]. unfold authenticate. unfold_monad.
  destruct (credentialM_run ctx w s) as [events ->].
  destruct (fst (credentialFromContext ctx)) as [cred|] eqn:Hc; [|intros [= <- <-]; by exists events].
  destruct (api_key_matches a cred) eqn:Hk.
  - intros [= <- <-]. exists events. split; [done|]. exists a. split; [done|].
    exists cred. split; [done|]. left. split; [|done].
    unfold api_key_matches in Hk. apply existsb_exists in Hk as (key & Hin & Heq%bool_decide_eq_true_1).
    subst. by rewrite list_elem_of_In.
  - intros H. destruct (parseClaims a cred (w, emits events s)) as [[c|] ws'] eqn:Hp.
    + injection H as <- <-. apply parseClaims_sound in Hp as [Hs Ha].
      exists events. split; [done|]. exists a. split; [done|]. exists cred. auto.
    + injection H as <- <-. exists events. split; [|done].
      pose proof (parseClaims_pure a cred w (emits events s)) as Hs. by rewrite Hp in Hs.
Qed.
End gate.

(** * Properties *)

(** C29: A token is accepted only when its signature verifies under the key
    configured for the algorithm its header names, and no other key: an HS256
    token needs a configured secret, and is never checked against a public key.
    It must then carry an expiry in the future, a start and an issue time that
    the clock has reached (unless they are so large that they wrap around), the
    configured issuer and audience; subject and scopes come from that payload
    alone. *)
Theorem accepted_token_is_signed_and_current {S} a token w (s : S) c ws :
  parseClaims a token (w, s) = (Some c, ws) -> snd ws = s /\ accepted a token c w.
Proof. apply parseClaims_sound. Qed.

(** The authentication and authorization interceptors together run the
    handler only for a health check, or with the verified claims of a principal
    the policy admits to the method; in every other case the caller gets
    Unauthenticated or PermissionDenied, the handler is not run, and the last
    thing recorded is an audit record of the denial. *)
Theorem handler_runs_only_when_permitted {S A} `{!Telemetry S} valid_utf8 auth policy defaultDeny
    ctx method (handler : Handler S A) w (s : S) :
  let run := UnaryAuthInterceptorWithAuthenticator valid_utf8 auth ctx method
               (fun ctx => UnaryAuthorizationInterceptor valid_utf8 policy defaultDeny ctx method handler)
               (w, s) in
  (requiresAuth method = false /\ run = handler ctx (w, s)) \/
  (exists a c events w', requiresAuth method = true /\ auth = Some a /\ principal a ctx c w /\
     permitted policy defaultDeny method c /\
     run = handler (withClaims (withClientID ctx (Subject c)) c) (w', emits events s)) \/
  (exists code text events denial w', requiresAuth method = true /\
     (code = codes.Unauthenticated \/ code = codes.PermissionDenied) /\ is_denial method denial /\
     run = (Returned (Err (EStatus code text)), (w', emits (events ++ [denial]) s))).
Proof.
  cbn zeta. unfold UnaryAuthInterceptorWithAuthenticator, UnaryAuthorizationInterceptor.
  destruct (requiresAuth method) eqn:Hm; [|left; by split]. right. cbn [negb]. unfold_monad.
  destruct (authenticatePrincipal auth ctx (w, s)) as [[c|] [w1 s1]] eqn:Hp.
  2:{ right. apply authenticatePrincipal_sound in Hp as (events & Hs & _). cbn in Hs. subst s1.
      eexists codes.Unauthenticated, _, events, _, w1. split; [done|]. split; [by left|]. split;
        [by do 4 eexists|]. rewrite (emits_app events). reflexivity. }
  apply authenticatePrincipal_sound in Hp as (events & Hs & a & -> & Hpr). cbn in Hs. subst s1.
  set (ctx' := withClaims (withClientID ctx (Subject c)) c).
  set (allow := if audits_allows (Some a) then [AuditAuth "authn" "allow" method (Subject c)
                  (getRequestID valid_utf8 ctx') (remote_addr ctx')] else []).
  assert (Ha : (if audits_allows (Some a)
          then auditAuthDecision valid_utf8 ctx' "authn" method "allow" (Subject c)
          else fun ws => (tt, ws)) (w1, emits events s) = (tt, (w1, emits (events ++ allow) s))).
  { subst allow. rewrite emits_app. by destruct (audits_allows (Some a)). }
  rewrite Ha. clear Ha. cbn [fst snd].
  assert (Hdeny : forall text, exists code txt evs denial w', true = true /\
     (code = codes.Unauthenticated \/ code = codes.PermissionDenied) /\ is_denial method denial /\
     (Returned (Err (EStatus codes.PermissionDenied text)) : outcome A,
       (w1, emit (AuditAuth "authz" "deny" method (extractClientID ctx')
          (getRequestID valid_utf8 ctx') (remote_addr ctx')) (emits (events ++ allow) s))) =
     (Returned (Err (EStatus code txt)), (w', emits (evs ++ [denial]) s))).
  { intros text. eexists codes.PermissionDenied, _, (events ++ allow), _, w1. split; [done|].
    split; [by right|]. split; [by do 4 eexists|]. rewrite (emits_app (events ++ allow)). reflexivity. }
  unfold authorize. destruct (policy !! method) as [required|] eqn:Hpol.
  - case_bool_decide as Hr.
    + left. exists a, c, (events ++ allow), w1. split_and!; try done.
      unfold permitted. rewrite Hpol. left. by destruct required.
    + cbn [ClaimsFromContext ctx_claims ctx' withClaims]. destruct (hasAnyScope (Scopes c) required) eqn:Hsc.
      * left. exists a, c, (events ++ allow), w1. split_and!; try done.
        unfold permitted. rewrite Hpol. right. by apply hasAnyScope_true.
      * right. apply Hdeny.
  - destruct defaultDeny; [right; apply Hdeny|]. left. exists a, c, (events ++ allow), w1.
    split_and!; try done. unfold permitted. by rewrite Hpol.
Qed.

(** A secret of blanks counts as no secret when the authenticator checks that
    some credential is configured, yet it is a live HMAC key: next to an API
    key, the authenticator starts and accepts HS256 signatures made with it. *)
Theorem blank_secret_is_a_key cfg input :
  blank (Config.JWTSecret cfg) = true -> Config.JWTSecret cfg <> "" ->
  Config.APIKeys cfg <> [] -> blank (Config.JWTPublicKey cfg) = true ->
  exists a, NewAuthenticator cfg = Ok a /\
    verifySignature a "HS256" input (hmac_sha256 (Config.JWTSecret cfg) input) = true.
Proof.
  intros Hb Hne Hk Hp. unfold NewAuthenticator. rewrite Hb, Hp.
  rewrite bool_decide_eq_false_2 by (by destruct (Config.APIKeys cfg)). cbn [andb].
  eexists. split; [reflexivity|]. apply verifySignature_signed. by left.
Qed.
End auth.

(** * Witnesses over concrete libraries *)

#[local] Instance keys0 : PublicKeys :=
  {| RSAKey := unit; ECKey := unit; BitLen _ := 0; P256 _ := true |}.
#[local] Instance libraries0 : Libraries := {|
  pem_Decode _ := None;
  ParsePKIXPublicKey _ := None;
  ParsePKCS1PublicKey _ := None;
  hmac_sha256 _ _ := "s";
  sha256 := id;
  rsa_verify _ _ _ := false;
  ecdsa_verify _ _ _ _ := false;
  json_header _ := Some {["alg" := "HS256"]};
  json_claims _ := Some {["exp" := "99"]};
  json_string := Some;
  json_strings _ := None;
  json_number := Some
|}.

Definition auth0 : Authenticator :=
  mkAuthenticator "0123456789abcdef0123456789abcdef" [] "" "" None None false [].
Definition token0 : string :=
  B64Encode "h" +:+ "." +:+ B64Encode "p" +:+ "." +:+ B64Encode "s".
Definition clock0 : World := {| w_now := fun _ => 5 * 10 ^ 9; w_rand := fun _ => None; w_tick := 0 |}.

Lemma accepted_token_is_signed_and_current_witness :
  accepted auth0 token0 (mkClaims "" []) clock0.
Proof.
  apply (accepted_token_is_signed_and_current auth0 token0 clock0 tt (mkClaims "" [])
    (tick clock0, tt)).
  vm_compute. reflexivity.
Defined.

Definition blank_config : Config.AuthConfig :=
  Config.mkAuth "                                " ["0123456789abcdef"] "" "" "" false ∅ [] false.

Lemma blank_secret_is_a_key_witness :
  exists a, NewAuthenticator blank_config = Ok a /\ 
    verifySignature a "HS256" "x.y" (hmac_sha256 (Config.JWTSecret blank_config) "x.y") = true.
Proof.
  apply (blank_secret_is_a_key blank_config "x.y");
    [reflexivity|discriminate|discriminate|reflexivity].
Defined.

End Auth.
