(* ===== verification/Interceptors.v ===== *)
(** The other server interceptors of [pkg/interceptors]: panic recovery,
    logging and metrics ([server.go]), request ids ([requestid.go]), the audit
    trail ([audit.go]), rate limits and deadlines ([limits.go]) and the
    concurrency limit ([concurrency.go]).

    An interceptor that keeps state turns a handler over [S] into one over
    [T * S]. The token bucket ([golang.org/x/time/rate]) is a parameter. *)
From S2P Require Import Prelude GoStrings GoErrors Storage Rpc.

Module Interceptors.

(** * [server.go], [requestid.go], [audit.go] *)

Section stateless.
Context {S : Type} `{!Telemetry S} (valid_utf8 : string -> bool).

Definition internal_error : error := EStatus codes.Internal "internal server error".

Definition UnaryPanicRecoveryInterceptor {A} (ctx : RpcCtx) (method : string)
    (handler : Handler S A) : M S (outcome A) :=
  o <-- handler ctx ;;
  match o with
  | Panicked recovered => emitM (LogPanic method recovered) ;;; fail internal_error
  | Returned r => retM (Returned r)
  end.

Definition StreamPanicRecoveryInterceptor (ss : RpcCtx) (method : string)
    (handler : Handler S unit) : M S (outcome unit) :=
  o <-- handler ss ;;
  match o with
  | Panicked recovered => emitM (LogPanic method recovered) ;;; fail internal_error
  | Returned r => retM (Returned r)
  end.

Definition UnaryRequestIDInterceptor {A} (ctx : RpcCtx) (method : string) (handler : Handler S A)
  : M S (outcome A) :=
  ctx <-- withRequestID ctx ;;
  handler ctx.

Definition StreamRequestIDInterceptor (ss : RpcCtx) (method : string) (handler : Handler S unit)
  : M S (outcome unit) :=
  ctx <-- withRequestID ss ;;
  handler ctx.

Definition UnaryLoggingInterceptor {A} (ctx : RpcCtx) (method : string) (handler : Handler S A)
  : M S (outcome A) :=
  start <-- nowM ;;
  emitM (LogStarted method (getRequestID valid_utf8 ctx) false) ;;;
  after (handler ctx) (fun r =>
    now <-- nowM ;;
    emitM (LogCompleted method (getRequestID valid_utf8 ctx) (getErrorCode (res_error r))
             (now - start) false) ;;;
    retM (Returned r)).

Definition StreamLoggingInterceptor (ss : RpcCtx) (method : string) (handler : Handler S unit)
  : M S (outcome unit) :=
  start <-- nowM ;;
  emitM (LogStarted method (getRequestID valid_utf8 ss) true) ;;;
  after (handler ss) (fun r =>
    now <-- nowM ;;
    emitM (LogCompleted method (getRequestID valid_utf8 ss) (getErrorCode (res_error r))
             (now - start) true) ;;;
    retM (Returned r)).

Definition UnaryMetricsInterceptor {A} (ctx : RpcCtx) (method : string) (handler : Handler S A)
  : M S (outcome A) :=
  start <-- nowM ;;
  emitM (TotalRequests method) ;;;
  after (handler ctx) (fun r =>
    now <-- nowM ;;
    emitM (RequestDuration method (now - start) (traceIDFromContext ctx)) ;;;
    (match r with
     | Err err => emitM (TotalErrors method (getErrorCode (Some err)))
     | Ok _ => retM tt
     end) ;;;
    retM (Returned r)).

Definition StreamMetricsInterceptor (ss : RpcCtx) (method : string) (handler : Handler S unit)
  : M S (outcome unit) :=
  emitM (TotalRequests method) ;;;
  emitM (ActiveStreams 1) ;;;
  deferred
    (start <-- nowM ;;
     after (handler ss) (fun r =>
       now <-- nowM ;;
       emitM (RequestDuration method (now - start) (traceIDFromContext ss)) ;;;
       (match r with
        | Err err => emitM (TotalErrors method (getErrorCode (Some err)))
        | Ok _ => retM tt
        end) ;;;
       retM (Returned r)))
    (emitM (ActiveStreams (-1))).

Definition UnaryAuditInterceptor {A} (ctx : RpcCtx) (method : string) (handler : Handler S A)
  : M S (outcome A) :=
  start <-- nowM ;;
  after (handler ctx) (fun r =>
    (if isMutation method then
       now <-- nowM ;;
       auditMutation valid_utf8 ctx method (getErrorCode (res_error r)) (now - start)
     else retM tt) ;;;
    retM (Returned r)).

Definition StreamAuditInterceptor (ss : RpcCtx) (method : string) (handler : Handler S unit)
  : M S (outcome unit) :=
  start <-- nowM ;;
  after (handler ss) (fun r =>
    (if isMutation method then
       now <-- nowM ;;
       auditMutation valid_utf8 ss method (getErrorCode (res_error r)) (now - start)
     else retM tt) ;;;
    retM (Returned r)).

Definition UnaryTimeoutInterceptor {A} (timeout : Z) (ctx : RpcCtx) (method : string)
    (handler : Handler S A) : M S (outcome A) :=
  if timeout <=? 0 then handler ctx else
  ctx <-- withTimeout ctx timeout ;;
  handler ctx.

Definition StreamTimeoutInterceptor (timeout : Z) (ss : RpcCtx) (method : string)
    (handler : Handler S unit) : M S (outcome unit) :=
  if timeout <=? 0 then handler ss else
  ctx <-- withTimeout ss timeout ;;
  handler ctx.
End stateless.

(** * [concurrency.go] *)

(** The buffered channel: the number of slots taken. Sending to it without
    blocking succeeds when a slot is free. *)
Definition acquire (max : Z) : M Z bool :=
  sem <-- getM ;;
  if sem <? max then putM (sem + 1) ;;; retM true else retM false.
Definition release : M Z unit := modifyM (fun sem => sem - 1).

Definition at_capacity : error := EStatus codes.ResourceExhausted "server at capacity".

Definition NewConcurrencyLimitInterceptor {S A} `{!Telemetry S} (max : Z) (ctx : RpcCtx)
    (method : string) (handler : Handler S A) : M (Z * S) (outcome A) :=
  if max <=? 0 then innerM (handler ctx) else
  if negb (requiresAuth method) then innerM (handler ctx) else
  acquired <-- outerM (acquire max) ;;
  if acquired : bool then
    deferred
      (emitM (InFlight 1) ;;;
       deferred (innerM (handler ctx)) (emitM (InFlight (-1))))
      (outerM release)
  else
    emitM (LoadShed method) ;;;
    fail at_capacity.

(** * [limits.go] *)

(** [rate.Limiter]: a bucket and the outcome of [Allow] at a time. *)
Class RateLimiter := {
  Bucket : Type;
  NewLimiter : Z -> Z -> Bucket;
  bucket_allow : Bucket -> Z -> bool * Bucket
}.

Section limits.
Context `{HB : RateLimiter}.

Definition Allow1 : M Bucket bool :=
  now <-- nowM ;;
  b <-- getM ;;
  let '(ok, b) := bucket_allow b now in
  putM b ;;;
  retM ok.

Definition at_least_1 (n : Z) : Z := if n <? 1 then 1 else n.

(** The process-wide bucket both interceptors share, and the interceptors. *)
Definition rate_limiter (perSecond burst : Z) : Bucket :=
  NewLimiter (at_least_1 perSecond) (at_least_1 burst).

Definition NewRateLimitInterceptors {S A} (ctx : RpcCtx) (method : string) (handler : Handler S A)
  : M (Bucket * S) (outcome A) :=
  ok <-- outerM Allow1 ;;
  if ok : bool then innerM (handler ctx)
  else fail (EStatus codes.ResourceExhausted "request rate limit exceeded").

Record clientLimiter := mkClientLimiter { limiter : Bucket; lastAccess : Z }.

Record PerClientRateLimiter := mkPerClient {
  limiters : gmap string clientLimiter;
  rate : Z;
  burst : Z;
  global : Bucket;
  quit : bool
}.

Definition NewPerClientRateLimiter (r burst : Z) : PerClientRateLimiter :=
  {| limiters := ∅; rate := r; burst := burst; global := NewLimiter r burst; quit := false |}.

Definition set_limiters (m : gmap string clientLimiter) (p : PerClientRateLimiter) :=
  {| limiters := m; rate := rate p; burst := burst p; global := global p; quit := quit p |}.
Definition set_global (b : Bucket) (p : PerClientRateLimiter) :=
  {| limiters := limiters p; rate := rate p; burst := burst p; global := b; quit := quit p |}.

Definition Stop (p : PerClientRateLimiter) : PerClientRateLimiter :=
  {| limiters := limiters p; rate := rate p; burst := burst p; global := global p; quit := true |}.

(** [Allow] at given readings of the clock: the access time it records, and the
    time the bucket is asked at. *)
Definition allow_at (id : string) (access now : Z) (p : PerClientRateLimiter)
  : bool * PerClientRateLimiter :=
  if bool_decide (id = "") then
    let '(ok, b) := bucket_allow (global p) now in (ok, set_global b p)
  else
    let cl := match limiters p !! id with
              | Some cl => limiter cl
              | None => NewLimiter (rate p) (burst p)
              end in
    let '(ok, b) := bucket_allow cl now in
    (ok, set_limiters (<[id := {| limiter := b; lastAccess := access |}]> (limiters p)) p).

Definition Allow (clientID : string) : M PerClientRateLimiter bool :=
  access <-- (if bool_decide (clientID = "") then retM 0 else nowM) ;;
  now <-- nowM ;;
  p <-- getM ;;
  let '(ok, p) := allow_at clientID access now p in
  putM p ;;;
  retM ok.

(** [now.Sub(t)] saturates. *)
Definition time_sub (now t : Z) : Z := Z.max min_int64 (Z.min max_int64 (now - t)).

Definition evict_at (now age : Z) (p : PerClientRateLimiter) : PerClientRateLimiter :=
  set_limiters (filter (fun kc => time_sub now (lastAccess kc.2) <= age) (limiters p)) p.

Definition evictIdle (age : Z) : M PerClientRateLimiter unit :=
  now <-- nowM ;;
  modifyM (evict_at now age).

(** One tick of the cleanup goroutine, which ends once [quit] is closed. *)
Definition cleanup_tick (interval : Z) : M PerClientRateLimiter unit :=
  p <-- getM ;;
  if quit p then retM tt else evictIdle (wrap64 (interval * 2)).

Definition per_client_limiter (perSecond burst : Z) : PerClientRateLimiter :=
  NewPerClientRateLimiter (at_least_1 perSecond) (at_least_1 burst).

Definition NewPerClientRateLimitInterceptors {S A} (ctx : RpcCtx) (method : string)
    (handler : Handler S A) : M (PerClientRateLimiter * S) (outcome A) :=
  ok <-- outerM (Allow (extractClientID ctx)) ;;
  if ok : bool then innerM (handler ctx)
  else fail (EStatus codes.ResourceExhausted "per-client rate limit exceeded").

(** * Lemmas *)

(** ** Clients of the per-client limiter *)

Lemma Allow_run id w p :
  exists access now w', Allow id (w, p) = (fst (allow_at id access now p), (w', snd (allow_at id access now p))).
Proof.
  unfold Allow. case_bool_decide; unfold_monad.
  - exists 0, (w_now w (w_tick w)), (tick w). by destruct (allow_at _ _ _ p).
  - exists (w_now w (w_tick w)), (w_now w (Datatypes.S (w_tick w))), (tick (tick w)).
    by destruct (allow_at _ _ _ p).
Qed.

(** What the limiter knows of one client: its bucket ([None]: a fresh one). *)
Definition client_view (id : string) (p : PerClientRateLimiter) : option clientLimiter * Bucket :=
  (if bool_decide (id = "") then None else limiters p !! id, global p).

Definition same_for (id : string) (p q : PerClientRateLimiter) : Prop :=
  rate p = rate q /\ burst p = burst q /\
  (if bool_decide (id = "") then global p = global q else limiters p !! id = limiters q !! id).

Lemma same_for_refl id p : same_for id p p.
Proof. unfold same_for. by case_bool_decide. Qed.

Lemma allow_same id access now p q :
  same_for id p q ->
  fst (allow_at id access now p) = fst (allow_at id access now q) /\
  same_for id (snd (allow_at id access now p)) (snd (allow_at id access now q)).
Proof.
  unfold same_for, allow_at. intros (Hr & Hb & H). case_bool_decide as Hid.
  - rewrite H. by destruct (bucket_allow (global q) now).
  - rewrite H, Hr, Hb. destruct (bucket_allow _ now) as [ok b]. cbn.
    by rewrite !lookup_insert_eq.
Qed.

Lemma allow_other id id' access now p q :
  id <> id' -> same_for id p q -> same_for id (snd (allow_at id' access now p)) q.
Proof.
  unfold same_for, allow_at. intros Hne (Hr & Hb & H).
  destruct (decide (id' = "")) as [->|Hid'].
  - rewrite (bool_decide_eq_true_2 ("" = "")) by done.
    rewrite (bool_decide_eq_false_2 (id = "")) in H |- * by done.
    by destruct (bucket_allow (global p) now).
  - rewrite (bool_decide_eq_false_2 (id' = "")) by done.
    destruct (bucket_allow _ now) as [ok b]. cbn. split_and!; [done..|].
    case_bool_decide; [done|]. by rewrite lookup_insert_ne.
Qed.

Lemma evict_same id now age p q : same_for id p q -> same_for id (evict_at now age p) (evict_at now age q).
Proof.
  unfold same_for, evict_at. intros (Hr & Hb & H). cbn. split_and!; [done..|].
  case_bool_decide; [done|]. by rewrite !map_lookup_filter, H.
Qed.

(** A history of the limiter: requests at their clock readings, and evictions. *)
Inductive limiter_event :=
| Request (id : string) (access now : Z)
| Evict (now age : Z).

(** The decisions of a history, each with its client. *)
Fixpoint decisions (es : list limiter_event) (p : PerClientRateLimiter) : list (string * bool) :=
  match es with
  | [] => []
  | Request id access now :: es =>
      let '(ok, p) := allow_at id access now p in (id, ok) :: decisions es p
  | Evict now age :: es => decisions es (evict_at now age p)
  end.

(** The history as one client sees it. *)
Definition own_events (id : string) (es : list limiter_event) : list limiter_event :=
  List.filter (fun e => match e with Request id' _ _ => bool_decide (id' = id) | Evict _ _ => true end) es.

Lemma decisions_own id es p q :
  same_for id p q ->
  List.filter (fun d => bool_decide (fst d = id)) (decisions es p) = decisions (own_events id es) q.
Proof.
  revert p q. induction es as [|[id' access now|now age] es IH]; intros p q Hs; cbn [decisions own_events List.filter].
  - done.
  - destruct (allow_at id' access now p) as [ok p'] eqn:Hp.
    destruct (decide (id' = id)) as [->|Hne].
    + rewrite bool_decide_eq_true_2 by done. cbn [decisions List.filter fst].
      rewrite bool_decide_eq_true_2 by done.
      destruct (allow_same id access now p q Hs) as [Hok Hs']. rewrite Hp in Hok, Hs'.
      destruct (allow_at id access now q) as [ok' q']. cbn in *. subst ok'. f_equal. by apply IH.
    + rewrite !bool_decide_eq_false_2 by done. cbn [decisions List.filter fst].
      rewrite bool_decide_eq_false_2 by done. apply IH.
      pose proof (allow_other id id' access now p q ltac:(congruence) Hs) as H. by rewrite Hp in H.
  - apply IH. by apply evict_same.
Qed.

(** * Properties *)

(** Rate limiting isolates clients: in any interleaving of requests of any
    clients and evictions of idle ones, the decisions taken for one client are
    those it would get if it were alone. *)
Theorem clients_are_isolated id es p :
  List.filter (fun d => bool_decide (fst d = id)) (decisions es p) = decisions (own_events id es) p.
Proof. apply decisions_own, same_for_refl. Qed.
End limits.

(** ** Slots of the concurrency limit *)

(** Callers between the two halves of the interceptor: [n] handlers run. *)
Inductive slot_step (max : Z) : Z * nat -> Z * nat -> Prop :=
| slot_enter w w' sem sem' n :
    acquire max (w, sem) = (true, (w', sem')) -> slot_step max (sem, n) (sem', S n)
| slot_shed w w' sem sem' n :
    acquire max (w, sem) = (false, (w', sem')) -> slot_step max (sem, n) (sem', n)
| slot_leave w w' sem sem' n :
    release (w, sem) = (tt, (w', sem')) -> slot_step max (sem, S n) (sem', n).

Lemma slot_step_inv max s s' :
  s.1 = Z.of_nat s.2 /\ s.1 <= max -> slot_step max s s' -> s'.1 = Z.of_nat s'.2 /\ s'.1 <= max.
Proof.
  intros [Hc Hm] Hs. destruct Hs as [w w' sem sem' n H|w w' sem sem' n H|w w' sem sem' n H]; cbn in *;
    revert H; unfold acquire, release; unfold_monad.
  - destruct (Z.ltb_spec sem max); intros [= <- <-]; lia.
  - destruct (sem <? max); intros [= <- <-]. done.
  - intros [= <- <-]. lia.
Qed.

(** With a positive limit, at no time do more handlers run than there are
    slots, whatever callers arrive and leave; a caller is shed exactly when all
    slots are taken, without running its handler; and a slot is given back
    whether the handler returns, fails or panics. *)
Theorem concurrency_limit_holds max :
  0 < max ->
  (forall sem n, rtc (slot_step max) (0, 0%nat) (sem, n) -> sem = Z.of_nat n /\ Z.of_nat n <= max) /\
  (forall S A `{!Telemetry S} ctx method (handler : Handler S A) w sem s,
     requiresAuth method = true ->
     NewConcurrencyLimitInterceptor max ctx method handler (w, (sem, s)) =
       if sem <? max then
         let '(o, (w', s')) := handler ctx (w, emit (InFlight 1) s) in
         (o, (w', (sem, emit (InFlight (-1)) s')))
       else (Returned (Err at_capacity), (w, (sem, emit (LoadShed method) s)))).
Proof.
  intros Hmax. split.
  - intros sem n H.
    assert (Hi : (sem, n).1 = Z.of_nat (sem, n).2 /\ (sem, n).1 <= max).
    { revert H. generalize (sem, n). intros s H.
      assert (H0 : (0, 0%nat).1 = Z.of_nat (0, 0%nat).2 /\ (0, 0%nat).1 <= max) by (cbn; lia).
      revert H0. induction H as [|s1 s2 s3 H1 _ IH]; [done|]. intros H0. apply IH.
      by eapply slot_step_inv. }
    cbn in Hi. lia.
  - intros S A HT ctx method handler w sem s Ha. unfold NewConcurrencyLimitInterceptor.
    rewrite (proj2 (Z.leb_gt _ _)) by lia. rewrite Ha. cbn [negb].
    unfold acquire, release, deferred, emitM. unfold_monad.
    destruct (sem <? max); unfold_monad; [|done]. cbn.
    destruct (handler ctx (w, emit (InFlight 1) s)) as [o [w' s']].
    cbn. by rewrite Z.add_simpl_r.
Qed.

Definition idle_world : World := mkWorld (fun _ => 0) (fun _ => None) 0.

Lemma concurrency_limit_holds_witness :
  rtc (slot_step 2) (0, 0%nat) (1, 1%nat) /\ 1 = Z.of_nat 1 /\ Z.of_nat 1 <= 2.
Proof.
  assert (H : rtc (slot_step 2) (0, 0%nat) (1, 1%nat)).
  { apply rtc_once. exact (slot_enter 2 idle_world idle_world 0 1 0%nat eq_refl). }
  split; [exact H|]. exact (proj1 (concurrency_limit_holds 2 eq_refl) 1 1%nat H).
Defined.

(** A mutation whose handler returns leaves exactly one audit record, with
    the caller's id, the request id and the status code; a call that is not a
    mutation leaves none, and neither does a mutation whose handler panics. *)
Theorem returned_mutations_are_audited {S A} `{!Telemetry S} valid_utf8 ctx method
    (handler : Handler S A) w s :
  UnaryAuditInterceptor valid_utf8 ctx method handler (w, s) =
    let '(o, (w', s')) := handler ctx (tick w, s) in
    match o with
    | Panicked v => (Panicked v, (w', s'))
    | Returned r =>
        if isMutation method
        then (Returned r, (tick w',
               emit (AuditMutation method (extractClientID ctx) (getRequestID valid_utf8 ctx)
                       (getErrorCode (res_error r)) (w_now w' (w_tick w') - w_now w (w_tick w))) s'))
        else (Returned r, (w', s'))
    end.
Proof.
  unfold UnaryAuditInterceptor, after, auditMutation, emitM. unfold_monad.
  destruct (handler ctx (tick w, s)) as [[r|v] [w' s']]; [|done]. by destruct (isMutation method).
Qed.

(** An inbound [x-request-id] is taken over as it is: whatever its length and
    whatever control characters it holds, the handler, the logs and the audit
    trail see the client's text verbatim, and the validation in [getRequestID]
    is never reached. *)
Theorem inbound_request_id_is_not_validated {S A} valid_utf8 ctx method (handler : Handler S A)
    w s md v vs :
  incoming ctx = Some md -> md !! "x-request-id" = Some (v :: vs) -> v <> "" ->
  UnaryRequestIDInterceptor ctx method handler (w, s) = handler (set_request_id ctx v) (w, s) /\
  getRequestID valid_utf8 (set_request_id ctx v) = v.
Proof.
  intros Hi Hm Hv. unfold UnaryRequestIDInterceptor, withRequestID, md_get. rewrite Hi, Hm. cbn [default].
  split.
  - unfold_monad. change (default [] (Some (v :: vs))) with (v :: vs). cbn iota.
    by rewrite bool_decide_eq_false_2 by done.
  - unfold getRequestID, RequestIDFromContext. cbn. by rewrite bool_decide_eq_true_2.
Qed.

Definition newline : string := String.String (Ascii.ascii_of_nat 10) "forged".
Definition ctx_newline : RpcCtx :=
  mkRpcCtx (Some {["x-request-id" := [newline]]}) [] "" "" None None None None.

Lemma inbound_request_id_is_not_validated_witness :
  getRequestID (fun _ => true) (set_request_id ctx_newline newline) = newline /\
  existsb control_char (bytes_of newline) = true.
Proof.
  split; [|reflexivity].
  apply (inbound_request_id_is_not_validated (fun _ => true) ctx_newline "m"
    (fun _ => retM (Returned (Ok tt))) (mkWorld (fun _ => 0) (fun _ => None) 0) tt
    {["x-request-id" := [newline]]} newline []); [reflexivity|reflexivity|discriminate].
Defined.

(** No panic of a handler gets past the recovery interceptor: the caller sees
    an internal error without the panic's text, and the panic is logged. *)
Theorem panics_are_recovered {S A} `{!Telemetry S} ctx method (handler : Handler S A) w s :
  UnaryPanicRecoveryInterceptor ctx method handler (w, s) =
    let '(o, (w', s')) := handler ctx (w, s) in
    match o with
    | Returned r => (Returned r, (w', s'))
    | Panicked v => (Returned (Err internal_error), (w', emit (LogPanic method v) s'))
    end.
Proof.
  unfold UnaryPanicRecoveryInterceptor, fail, emitM. unfold_monad.
  by destruct (handler ctx (w, s)) as [[r|v] [w' s']].
Qed.

End Interceptors.
