(* ===== verification/ClientRetry.v ===== *)
(** The client's retry interceptors ([pkg/interceptors/client_retry.go]): which
    status codes are retried, how long to wait between attempts, and the loops
    around a unary call and around opening a stream. *)
From S2P Require Import Prelude GoStrings GoErrors Storage.

Module ClientRetry.

Definition defaultRetryableCodes : list Z :=
  [codes.Unavailable; codes.DeadlineExceeded; codes.ResourceExhausted; codes.Aborted;
   codes.Internal].
Definition safeRetryableCodes : list Z := [codes.Unavailable; codes.ResourceExhausted].

(** The caller's context: its errors over time, and the [WithRetryable] mark. *)
Record CallCtx := mkCallCtx { call_ctx : Ctx; retryable : bool }.
Definition WithRetryable (ctx : CallCtx) : CallCtx := {| call_ctx := call_ctx ctx; retryable := true |}.
Definition isRetryableOptIn (ctx : CallCtx) : bool := retryable ctx.

Record RetryConfig := mkRetryConfig {
  MaxAttempts : Z;
  BaseBackoff : Z;
  MaxBackoff : Z;
  RetryableCodes : list Z
}.

Definition DefaultRetryConfig : RetryConfig := {|
  MaxAttempts := 3;
  BaseBackoff := 50 * 10 ^ 6;
  MaxBackoff := 2 * 10 ^ 9;
  RetryableCodes := defaultRetryableCodes
|}.

Definition isRetryableCode (c : RetryConfig) (code : Z) : bool :=
  existsb (fun rc => rc =? code) (RetryableCodes c).

Definition shouldRetry (c : RetryConfig) (ctx : CallCtx) (code : Z) : bool :=
  if isRetryableOptIn ctx then isRetryableCode c code
  else existsb (fun rc => rc =? code) safeRetryableCodes.

Section retry.
(** [math/rand.Int63n(n)] for [n > 0]: its draws, by the moment they are made. *)
Context (Int63n : nat -> Z -> Z) (Int63n_range : forall t n, 0 < n -> 0 <= Int63n t n < n).

(** The multiplication by a power of two is on [int64] and wraps. *)
Definition base_delay (c : RetryConfig) (attempt : Z) : Z :=
  let d := if 0 <? attempt then
             if 62 <=? attempt then MaxBackoff c
             else wrap64 (BaseBackoff c * shl1_64 attempt)
           else BaseBackoff c in
  if (d <=? 0) || (MaxBackoff c <? d) then MaxBackoff c else d.

Definition backoff (c : RetryConfig) (attempt : Z) (t : nat) : Z :=
  let d := base_delay c attempt in
  if d <=? 1 then d else Int63n t d + 1.

Section loops.
Context {S : Type} (cfg : RetryConfig) (ctx : CallCtx).

(** [select] between the context and a timer of the given duration, started at
    the given moment: [Some e] when the context is done first, with error [e]. *)
Context (interrupted : nat -> Z -> option ctx_status).

(** The wait before attempt [attempt > 0]: the error it ends with, if any. *)
Definition wait (attempt : Z) : M S (option error) :=
  err <-- ctxErrM (call_ctx ctx) ;;
  match err with
  | Some err => retM (Some err)
  | None => fun ws =>
      let t := w_tick ws.1 in
      (ctx_error <$> interrupted t (backoff cfg (attempt - 1) t), (tick ws.1, ws.2))
  end.

(** [status.FromError] and the decision to go on. *)
Definition retries (err : error) : bool :=
  let '(code, ok) := FromError_code err in ok && shouldRetry cfg ctx code.

(** The loop from [attempt] with [n] attempts left; [lastErr] is the error of the
    previous one. *)
Fixpoint unary_loop (invoker : M S (option error)) (n : nat) (attempt : Z) (lastErr : option error)
  : M S (option error) :=
  match n with
  | O => retM lastErr
  | Datatypes.S n =>
      waited <-- (if 0 <? attempt then wait attempt else retM None) ;;
      match waited with
      | Some err => retM (Some err)
      | None =>
          lastErr <-- invoker ;;
          match lastErr with
          | None => retM None
          | Some err => if retries err then unary_loop invoker n (attempt + 1) (Some err)
                        else retM (Some err)
          end
      end
  end.

Definition UnaryClientRetryInterceptor (invoker : M S (option error)) : M S (option error) :=
  unary_loop invoker (Z.to_nat (MaxAttempts cfg)) 0 None.

(** [None] next to no error is the nil stream. *)
Fixpoint stream_loop {A} (streamer : M S (res A)) (n : nat) (attempt : Z) (lastErr : option error)
  : M S (option A * option error) :=
  match n with
  | O => retM (None, lastErr)
  | Datatypes.S n =>
      waited <-- (if 0 <? attempt then wait attempt else retM None) ;;
      match waited with
      | Some err => retM (None, Some err)
      | None =>
          r <-- streamer ;;
          match r with
          | Ok stream => retM (Some stream, None)
          | Err err => if retries err then stream_loop streamer n (attempt + 1) (Some err)
                       else retM (None, Some err)
          end
      end
  end.

Definition StreamClientRetryInterceptor {A} (streamer : M S (res A)) : M S (option A * option error) :=
  stream_loop streamer (Z.to_nat (MaxAttempts cfg)) 0 None.
End loops.

(** * Lemmas *)

Lemma base_delay_range c attempt : 1 <= MaxBackoff c -> 1 <= base_delay c attempt <= MaxBackoff c.
Proof using.
  intros Hm. unfold base_delay. case_match eqn:E; [lia|].
  apply orb_false_iff in E as [?%Z.leb_gt ?%Z.ltb_ge]. lia.
Qed.

Lemma safe_code code :
  existsb (fun rc => rc =? code) safeRetryableCodes = true <->
  code = codes.Unavailable \/ code = codes.ResourceExhausted.
Proof using.
  unfold safeRetryableCodes. cbn [existsb]. rewrite orb_false_r, orb_true_iff, !Z.eqb_eq.
  split; intros [H|H]; subst; auto.
Qed.

Lemma base_delay_doubles c attempt :
  0 < BaseBackoff c -> 0 <= attempt < 62 -> BaseBackoff c * 2 ^ attempt <= max_int64 ->
  base_delay c attempt = Z.min (BaseBackoff c * 2 ^ attempt) (MaxBackoff c).
Proof using.
  intros Hb Ha Ho. unfold base_delay, shl1_64. cbv zeta.
  assert (Hp : 0 < 2 ^ attempt) by (apply Z.pow_pos_nonneg; lia).
  assert (Hp' : 2 ^ attempt <= max_int64).
  { transitivity (BaseBackoff c * 2 ^ attempt); [|done]. nia. }
  assert (Hd : (if 0 <? attempt
                then if 62 <=? attempt then MaxBackoff c
                     else wrap64 (BaseBackoff c * wrap64 (Z.shiftl 1 attempt))
                else BaseBackoff c) = BaseBackoff c * 2 ^ attempt).
  { destruct (Z.ltb_spec 0 attempt).
    - rewrite (proj2 (Z.leb_gt _ _)) by lia. rewrite Z.shiftl_1_l.
      rewrite (wrap64_small (2 ^ attempt)) by (unfold min_int64; lia).
      apply wrap64_small. unfold min_int64. nia.
    - replace attempt with 0 by lia. cbn. lia. }
  rewrite Hd. clear Hd. rewrite (proj2 (Z.leb_gt _ _)) by nia. cbn [orb].
  destruct (Z.ltb_spec (MaxBackoff c) (BaseBackoff c * 2 ^ attempt)); lia.
Qed.

(** An invoker that records its results in front of its own state. *)
Definition recorded {S} (invoker : M S (option error)) : M (list (option error) * S) (option error) :=
  r <-- innerM invoker ;;
  outerM (modifyM (fun l => l ++ [r])) ;;;
  retM r.

(** Every attempt but the last failed with an error that is retried. *)
Definition all_retried (cfg : RetryConfig) (ctx : CallCtx) (results : list (option error)) : Prop :=
  forall i r, results !! i = Some r -> (S i < length results)%nat ->
    exists err, r = Some err /\ retries cfg ctx err = true.

(** How a loop of at most [n] attempts ends: the context interrupts a wait, the
    attempts are used up, or the last attempt succeeds or fails for good. *)
Definition ended (cfg : RetryConfig) (ctx : CallCtx) (n : nat) (results : list (option error))
    (lastErr r : option error) : Prop :=
  ((length results < n)%nat /\ exists e, r = Some (ctx_error e)) \/
  (length results = n /\ r = default lastErr (last results)) \/
  (last results = Some r /\ match r with Some err => retries cfg ctx err = false | None => True end).

Lemma all_retried_cons cfg ctx err rs :
  retries cfg ctx err = true -> all_retried cfg ctx rs -> all_retried cfg ctx (Some err :: rs).
Proof using.
  intros He Hr [|i] r Hi Hl; [injection Hi as <-; by exists err|]. cbn in *. eapply Hr; [done|lia].
Qed.

Lemma ended_cons cfg ctx n err rs lastErr r :
  ended cfg ctx n rs (Some err) r -> ended cfg ctx (S n) (Some err :: rs) lastErr r.
Proof using.
  unfold ended. cbn [length]. intros [[Hl He]|[[Hl Hr]|[Hr Hm]]].
  - left. split; [lia|done].
  - right; left. split; [lia|]. subst r. destruct rs as [|x rs]; [done|].
    rewrite (last_cons_cons (Some err) x rs). by destruct (last_is_Some (x :: rs)) as [_ [y ->]].
  - right; right. split; [|done]. destruct rs as [|x rs]; [done|]. exact Hr.
Qed.

Lemma wait_run {S} cfg ctx interrupted attempt w (s : S) :
  exists r w', wait cfg ctx interrupted attempt (w, s) = (r, (w', s)) /\
    match r with Some err => exists e, err = ctx_error e | None => True end.
Proof using.
  unfold wait, ctxErrM. unfold_monad. destruct (ctx_err_at (call_ctx ctx) (w_tick w)) as [e|]; cbn.
  - exists (Some (ctx_error e)), (tick w). split; [reflexivity|]. by exists e.
  - destruct (interrupted _ _) as [e|]; cbn.
    + exists (Some (ctx_error e)), (tick (tick w)). split; [reflexivity|]. by exists e.
    + exists None, (tick (tick w)). by split.
Qed.

Lemma unary_loop_run {S} cfg ctx interrupted (invoker : M S (option error)) n attempt lastErr w l s :
  exists rs r w' s',
    unary_loop cfg ctx interrupted (recorded invoker) n attempt lastErr (w, (l, s)) = (r, (w', (l ++ rs, s'))) /\
    (length rs <= n)%nat /\ all_retried cfg ctx rs /\ ended cfg ctx n rs lastErr r /\
    (0 <= attempt -> (0 < attempt \/ n = 0%nat \/ rs <> [])).
Proof using.
  revert attempt lastErr w l s. induction n as [|n IH]; intros attempt lastErr w l s; cbn [unary_loop].
  { exists [], lastErr, w, s. rewrite app_nil_r. split; [done|]. split; [done|]. split; [by intros i ? ?|].
    split; [by right; left|]. auto. }
  assert (Hgo : forall w1, exists rs r w' s',
    (lastErr <-- recorded invoker ;;
     match lastErr with
     | None => retM None
     | Some err => if retries cfg ctx err
                   then unary_loop cfg ctx interrupted (recorded invoker) n (attempt + 1) (Some err)
                   else retM (Some err)
     end) (w1, (l, s)) = (r, (w', (l ++ rs, s'))) /\
    (length rs <= Datatypes.S n)%nat /\ all_retried cfg ctx rs /\
    ended cfg ctx (Datatypes.S n) rs lastErr r /\ rs <> []).
  { intros w1. unfold recorded. unfold_monad. destruct (invoker (w1, s)) as [r0 [w2 s2]]. cbn [fst snd].
    destruct r0 as [err|]; [destruct (retries cfg ctx err) eqn:Hr|].
    - destruct (IH (attempt + 1) (Some err) w2 (l ++ [Some err]) s2) as (rs & r & w' & s' & Hrun & Hl & Ha & He & _).
      fold (recorded invoker). unfold recorded in Hrun. unfold_monad. rewrite Hrun.
      exists (Some err :: rs), r, w', s'. rewrite <- app_assoc. cbn [app length].
      split; [done|]. split; [lia|]. split; [by apply all_retried_cons|]. split; [by apply ended_cons|done].
    - exists [Some err], (Some err), w2, s2. split; [done|]. split; [cbn; lia|].
      split; [intros [|i] ? ? ?; cbn in *; lia|]. split; [by right; right|done].
    - exists [None], None, w2, s2. split; [done|]. split; [cbn; lia|].
      split; [intros [|i] ? ? ?; cbn in *; lia|]. split; [by right; right|done]. }
  unfold bindM at 1. destruct (Z.ltb_spec 0 attempt) as [Hpos|Hz].
  - destruct (wait_run cfg ctx interrupted attempt w (l, s)) as (rw & w1 & Hw & He). rewrite Hw.
    destruct rw as [err|].
    + exists [], (Some err), w1, s. rewrite app_nil_r. split; [done|]. split; [cbn; lia|].
      split; [by intros i ? ?|]. split; [|auto]. left. destruct He as [e ->]. split; [cbn; lia|by exists e].
    + destruct (Hgo w1) as (rs & r & w' & s' & H1 & H2 & H3 & H4 & H5).
      exists rs, r, w', s'. split_and!; auto.
  - destruct (Hgo w) as (rs & r & w' & s' & H1 & H2 & H3 & H4 & H5).
    exists rs, r, w', s'. split_and!; auto.
Qed.

(** * Properties *)

(** C25: The interceptor calls the invoker at most [MaxAttempts] times, and calls
    it again only after a gRPC error whose code may be retried: any code of the
    configuration for a call marked retryable, Unavailable and
    ResourceExhausted alone for any other. It returns the last result, or the
    context's error when that interrupts a wait. *)
Theorem retries_are_bounded_and_safe {S} cfg ctx interrupted (invoker : M S (option error)) w s :
  0 < MaxAttempts cfg ->
  exists results r w' s',
    UnaryClientRetryInterceptor cfg ctx interrupted (recorded invoker) (w, ([], s))
      = (r, (w', (results, s'))) /\
    1 <= Z.of_nat (length results) <= MaxAttempts cfg /\
    (forall i result, results !! i = Some result -> (Datatypes.S i < length results)%nat ->
       exists err code, result = Some err /\ FromError_code err = (code, true) /\
         if retryable ctx then code ∈ RetryableCodes cfg
         else code = codes.Unavailable \/ code = codes.ResourceExhausted) /\
    (last results = Some r \/ exists e, r = Some (ctx_error e)).
Proof using.
  intros Hn. unfold UnaryClientRetryInterceptor.
  destruct (unary_loop_run cfg ctx interrupted invoker (Z.to_nat (MaxAttempts cfg)) 0 None w [] s)
    as (rs & r & w' & s' & Hrun & Hl & Ha & He & Hne).
  exists rs, r, w', s'. split; [exact Hrun|].
  assert (Hrs : rs <> []) by (destruct (Hne ltac:(lia)) as [?|[?|?]]; [lia|lia|done]).
  assert (0 < length rs)%nat by (destruct rs; [done|cbn; lia]).
  split; [lia|]. split.
  - intros i result Hi Hlt. destruct (Ha i result Hi Hlt) as (err & -> & Hr). exists err.
    unfold retries in Hr. destruct (FromError_code err) as [code ok]. exists code.
    apply andb_true_iff in Hr as [-> Hr]. split; [done|]. split; [done|].
    unfold shouldRetry, isRetryableOptIn in Hr. destruct (retryable ctx).
    + unfold isRetryableCode in Hr. apply existsb_exists in Hr as (rc & Hin & ->%Z.eqb_eq).
      by apply list_elem_of_In.
    + by apply safe_code.
  - destruct He as [[_ He]|[[_ Hd]|[Hd _]]]; [by right| |by left]. left.
    destruct (last rs) eqn:Hlast; [by subst r|]. by apply last_None in Hlast.
Qed.

(** Without a positive number of attempts nothing is sent, and the call is
    reported as a success. *)
Theorem no_attempts_reports_success {S} cfg ctx interrupted (invoker : M S (option error)) w s :
  MaxAttempts cfg <= 0 ->
  UnaryClientRetryInterceptor cfg ctx interrupted invoker (w, s) = (None, (w, s)).
Proof using.
  intros H. unfold UnaryClientRetryInterceptor. by replace (Z.to_nat (MaxAttempts cfg)) with 0%nat by lia.
Qed.

(** The wait before an attempt lies between one nanosecond and [MaxBackoff]
    for every attempt number and every base, however the 64-bit shift
    overflows; while it does not overflow, the bound it is drawn under doubles
    with each attempt up to [MaxBackoff]. *)
Theorem backoff_is_bounded c attempt t :
  1 <= MaxBackoff c ->
  1 <= backoff c attempt t <= MaxBackoff c /\
  (0 < BaseBackoff c -> 0 <= attempt < 62 -> BaseBackoff c * 2 ^ attempt <= max_int64 ->
   backoff c attempt t <= BaseBackoff c * 2 ^ attempt).
Proof using Int63n_range.
  intros Hm. pose proof (base_delay_range c attempt Hm) as Hb. unfold backoff.
  assert (Hd : 1 <= (if base_delay c attempt <=? 1 then base_delay c attempt
                     else Int63n t (base_delay c attempt) + 1) <= base_delay c attempt).
  { destruct (Z.leb_spec (base_delay c attempt) 1); [lia|].
    pose proof (Int63n_range t (base_delay c attempt)). lia. }
  split; [lia|]. intros H1 H2 H3. rewrite (base_delay_doubles c attempt H1 H2 H3) in *. lia.
Qed.
End retry.

Definition flaky : M nat (option error) := fun ws =>
  let '(w, n) := ws in
  (match n with O => Some (EStatus codes.Unavailable "down") | _ => None end, (w, S n)).
Definition draw : nat -> Z -> Z := fun _ n => n - 1.
Definition call0 : CallCtx := mkCallCtx Background false.
Definition world0 : World := {| w_now := fun _ => 0; w_rand := fun _ => None; w_tick := 0 |}.

Lemma retries_are_bounded_and_safe_witness :
  exists results r w' s',
    UnaryClientRetryInterceptor draw DefaultRetryConfig call0 (fun _ _ => None) (recorded flaky) (world0, ([], 0%nat))
      = (r, (w', (results, s'))) /\ results = [Some (EStatus codes.Unavailable "down"); None] /\
    1 <= Z.of_nat (length results) <= 3.
Proof.
  destruct (retries_are_bounded_and_safe draw DefaultRetryConfig call0 (fun _ _ => None) flaky world0 0%nat eq_refl)
    as (results & r & w' & s' & Hrun & Hl & _).
  exists results, r, w', s'. split; [exact Hrun|]. split; [|exact Hl].
  vm_compute in Hrun. by injection Hrun as _ _ <- _.
Defined.

Lemma no_attempts_reports_success_witness :
  UnaryClientRetryInterceptor draw (mkRetryConfig 0 1 1 []) call0 (fun _ _ => None) flaky (world0, 0%nat)
    = (None, (world0, 0%nat)).
Proof. apply (no_attempts_reports_success draw (mkRetryConfig 0 1 1 []) call0 (fun _ _ => None) flaky). done. Defined.

Lemma backoff_is_bounded_witness :
  1 <= backoff draw DefaultRetryConfig 70 0 <= 2 * 10 ^ 9.
Proof.
  refine (proj1 (backoff_is_bounded draw _ DefaultRetryConfig 70 0 _)); [unfold draw; lia|done].
Defined.

End ClientRetry.
