(* ===== verification/Chain.v ===== *)
(** The interceptor chains [newGRPCServer] of [cmd/server/main.go] installs, and
    what a whole chain does to a call.

    Each interceptor gets one rule of a small program logic: what it needs of
    the handler to establish a postcondition on the outcome and on the part of
    the server's state that is not telemetry. The theorems about the chains
    compose the rules in the order of the chain. *)
From S2P Require Import Prelude GoStrings GoErrors Storage Config Rpc Auth Interceptors.

Module Chain.
Import Auth Interceptors.

(** Most stream interceptors are their unary counterparts at the type of a
    stream's outcome. *)
Ltac as_unary :=
  lazymatch goal with
  | |- context [StreamPanicRecoveryInterceptor ?c ?m ?h] =>
      change (StreamPanicRecoveryInterceptor c m h) with (UnaryPanicRecoveryInterceptor c m h)
  | |- context [StreamRequestIDInterceptor ?c ?m ?h] =>
      change (StreamRequestIDInterceptor c m h) with (UnaryRequestIDInterceptor c m h)
  | |- context [StreamAuthInterceptorWithAuthenticator ?u ?a ?c ?m ?h] =>
      change (StreamAuthInterceptorWithAuthenticator u a c m h)
        with (UnaryAuthInterceptorWithAuthenticator u a c m h)
  | |- context [StreamAuthorizationInterceptor ?u ?p ?d ?c ?m ?h] =>
      change (StreamAuthorizationInterceptor u p d c m h)
        with (UnaryAuthorizationInterceptor u p d c m h)
  | |- context [StreamAuditInterceptor ?u ?c ?m ?h] =>
      change (StreamAuditInterceptor u c m h) with (UnaryAuditInterceptor u c m h)
  end.

Section chain.
Context `{HK : PublicKeys} `{HL : !Libraries} `{HB : RateLimiter} (valid_utf8 : string -> bool).

(** The state of a server over the state [S] of its services and its telemetry:
    the process-wide bucket, the clients' buckets, the slots in use. *)
Definition ServerState (S : Type) : Type := Bucket * (PerClientRateLimiter * (Z * S)).

(** [grpc.ChainUnaryInterceptor]: the first interceptor is the outermost. *)
Definition unary_chain {S A} `{!Telemetry S} (cfg : Config.Config) (authenticator : option Authenticator)
    (ctx : RpcCtx) (method : string) (handler : Handler S A) : M (ServerState S) (outcome A) :=
  let srv := Config.Server cfg in
  UnaryPanicRecoveryInterceptor ctx method (fun ctx =>
  UnaryRequestIDInterceptor ctx method (fun ctx =>
  UnaryLoggingInterceptor valid_utf8 ctx method (fun ctx =>
  UnaryMetricsInterceptor ctx method (fun ctx =>
  NewRateLimitInterceptors ctx method (fun ctx =>
  UnaryAuthInterceptorWithAuthenticator valid_utf8 authenticator ctx method (fun ctx =>
  NewPerClientRateLimitInterceptors ctx method (fun ctx =>
  UnaryAuthorizationInterceptor valid_utf8 (Config.MethodScopes (Config.Auth cfg))
    (Config.DefaultDeny (Config.Auth cfg)) ctx method (fun ctx =>
  NewConcurrencyLimitInterceptor (Config.MaxInFlightRequests srv) ctx method (fun ctx =>
  UnaryAuditInterceptor valid_utf8 ctx method (fun ctx =>
  UnaryTimeoutInterceptor (Config.Timeout srv) ctx method handler)))))))))).

(** Streams have neither a slot nor a deadline; the slots are part of the state
    the chains share. *)
Definition stream_chain {S} `{!Telemetry S} (cfg : Config.Config) (authenticator : option Authenticator)
    (ctx : RpcCtx) (method : string) (handler : Handler S unit) : M (ServerState S) (outcome unit) :=
  StreamPanicRecoveryInterceptor ctx method (fun ctx =>
  StreamRequestIDInterceptor ctx method (fun ctx =>
  StreamLoggingInterceptor valid_utf8 ctx method (fun ctx =>
  StreamMetricsInterceptor ctx method (fun ctx =>
  NewRateLimitInterceptors ctx method (fun ctx =>
  StreamAuthInterceptorWithAuthenticator valid_utf8 authenticator ctx method (fun ctx =>
  NewPerClientRateLimitInterceptors ctx method (fun ctx =>
  StreamAuthorizationInterceptor valid_utf8 (Config.MethodScopes (Config.Auth cfg))
    (Config.DefaultDeny (Config.Auth cfg)) ctx method (fun ctx =>
  StreamAuditInterceptor valid_utf8 ctx method (fun ctx =>
  innerM (handler ctx)))))))))).

(** * A rule for each interceptor *)

(** [hspec V y m Q]: from any state whose part [V] is [y], [m] ends with an
    outcome and a part related by [Q]. *)
Definition hspec {S Y A} (V : S -> Y) (y : Y) (m : M S (outcome A)) (Q : outcome A -> Y -> Prop)
  : Prop :=
  forall w s, V s = y -> Q (fst (m (w, s))) (V (snd (snd (m (w, s))))).

(** The part is not telemetry. *)
Definition silent {S Y} `{!Telemetry S} (V : S -> Y) : Prop := forall e s, V (emit e s) = V s.

Definition recovered {A} (o : outcome A) : outcome A :=
  match o with Panicked _ => Returned (Err internal_error) | Returned r => Returned r end.

Lemma silent_pair {T S Y} `{!Telemetry S} (V : S -> Y) :
  silent V -> silent (fun ts : T * S => (fst ts, V (snd ts))).
Proof. intros H e [t s]. cbn. by rewrite H. Qed.

Lemma silent_emits {S Y} `{!Telemetry S} (V : S -> Y) events s :
  silent V -> V (emits events s) = V s.
Proof.
  intros H. revert s. induction events as [|e es IH]; intros s; [done|].
  change (emits (e :: es) s) with (emits es (emit e s)). rewrite IH. apply H.
Qed.

Section stateless.
Context {S Y A : Type} `{!Telemetry S} (V : S -> Y) (HV : silent V) (y : Y) (method : string).
Implicit Types (Q : outcome A -> Y -> Prop) (ctx : RpcCtx) (handler : Handler S A).

Ltac run_handler handler :=
  match goal with |- context [handler ?c (?w, ?s)] =>
    let o := fresh "o" in let w' := fresh "w'" in let s' := fresh "s'" in
    destruct (handler c (w, s)) as [o [w' s']] end.

Lemma recovery_rule ctx handler Q :
  hspec V y (handler ctx) (fun o y => Q (recovered o) y) ->
  hspec V y (UnaryPanicRecoveryInterceptor ctx method handler) Q.
Proof using HV.
  intros H w s Hs. specialize (H w s Hs). unfold UnaryPanicRecoveryInterceptor, emitM, fail.
  unfold_monad. run_handler handler. destruct o; cbn in *; [done|]. by rewrite HV.
Qed.

Lemma request_id_rule ctx handler Q :
  (forall rid, hspec V y (handler (set_request_id ctx rid)) Q) ->
  hspec V y (UnaryRequestIDInterceptor ctx method handler) Q.
Proof.
  intros H w s Hs. unfold UnaryRequestIDInterceptor. unfold_monad.
  destruct (withRequestID_run ctx w s) as (rid & w' & ->). by apply H.
Qed.

Lemma logging_rule ctx handler Q :
  hspec V y (handler ctx) Q -> hspec V y (UnaryLoggingInterceptor valid_utf8 ctx method handler) Q.
Proof using HV.
  intros H w s Hs. unfold UnaryLoggingInterceptor, after, emitM. unfold_monad.
  match goal with |- context [handler ctx (?w, ?s)] => specialize (H w s) end.
  rewrite HV in H. specialize (H Hs). run_handler handler. destruct o; cbn in *; [|done]. by rewrite HV.
Qed.

Lemma metrics_rule ctx handler Q :
  hspec V y (handler ctx) Q -> hspec V y (UnaryMetricsInterceptor ctx method handler) Q.
Proof using HV.
  intros H w s Hs. unfold UnaryMetricsInterceptor, after, emitM. unfold_monad.
  match goal with |- context [handler ctx (?w, ?s)] => specialize (H w s) end.
  rewrite HV in H. specialize (H Hs). run_handler handler.
  destruct o as [[]|]; cbn in *; [..|done]; by rewrite !HV.
Qed.

Lemma audit_rule ctx handler Q :
  hspec V y (handler ctx) Q -> hspec V y (UnaryAuditInterceptor valid_utf8 ctx method handler) Q.
Proof using HV.
  intros H w s Hs. unfold UnaryAuditInterceptor, after, auditMutation, emitM. unfold_monad.
  match goal with |- context [handler ctx (?w, ?s)] => specialize (H w s Hs) end.
  run_handler handler. destruct o; [|done]. by destruct (isMutation method); cbn in *; rewrite ?HV.
Qed.

Lemma stream_logging_rule ctx (handler : Handler S unit) (Q : outcome unit -> Y -> Prop) :
  hspec V y (handler ctx) Q -> hspec V y (StreamLoggingInterceptor valid_utf8 ctx method handler) Q.
Proof using HV.
  intros H w s Hs. unfold StreamLoggingInterceptor, after, emitM. unfold_monad.
  match goal with |- context [handler ctx (?w, ?s)] => specialize (H w s) end.
  rewrite HV in H. specialize (H Hs). run_handler handler. destruct o; cbn in *; [|done]. by rewrite HV.
Qed.

Lemma stream_metrics_rule ctx (handler : Handler S unit) (Q : outcome unit -> Y -> Prop) :
  hspec V y (handler ctx) Q -> hspec V y (StreamMetricsInterceptor ctx method handler) Q.
Proof using HV.
  intros H w s Hs. unfold StreamMetricsInterceptor, deferred, after, emitM. unfold_monad.
  match goal with |- context [handler ctx (?w, ?s)] => specialize (H w s) end.
  rewrite !HV in H. specialize (H Hs). run_handler handler.
  destruct o as [[]|]; cbn in *; by rewrite !HV.
Qed.

Lemma timeout_rule timeout ctx handler Q :
  (forall base, hspec V y (handler (withBase ctx base)) Q) -> hspec V y (handler ctx) Q ->
  hspec V y (UnaryTimeoutInterceptor timeout ctx method handler) Q.
Proof.
  intros H H0 w s Hs. unfold UnaryTimeoutInterceptor. case_match; [by apply H0|].
  unfold withTimeout, context_WithTimeout. destruct (base_ctx ctx); unfold_monad; [by apply H|by apply H0].
Qed.

Lemma auth_rule auth ctx handler Q :
  requiresAuth method = true ->
  (forall a c w, auth = Some a -> principal a ctx c w ->
     hspec V y (handler (withClaims (withClientID ctx (Subject c)) c)) Q) ->
  Q (Returned (Err authenticationError)) y ->
  hspec V y (UnaryAuthInterceptorWithAuthenticator valid_utf8 auth ctx method handler) Q.
Proof using HV.
  intros Hm H Hd w s Hs. unfold UnaryAuthInterceptorWithAuthenticator. rewrite Hm. unfold_monad.
  destruct (authenticatePrincipal auth ctx (w, s)) as [r [w1 s1]] eqn:Hp.
  apply authenticatePrincipal_sound in Hp as (events & Hs1 & Hr). cbn in Hs1. subst s1.
  unfold auditAuthDecision, emitM, fail. unfold_monad. destruct r as [c|].
  - destruct Hr as (a & -> & Hpr). destruct (audits_allows (Some a)); cbn [fst snd];
      (eapply H; [done|done|]); rewrite ?HV; by rewrite silent_emits.
  - cbn [fst snd]. by rewrite HV, silent_emits, Hs.
Qed.

Lemma authz_rule policy defaultDeny ctx c handler Q :
  requiresAuth method = true -> ctx_claims ctx = Some c ->
  (permitted policy defaultDeny method c -> hspec V y (handler ctx) Q) ->
  (forall text, Q (Returned (Err (EStatus codes.PermissionDenied text))) y) ->
  hspec V y (UnaryAuthorizationInterceptor valid_utf8 policy defaultDeny ctx method handler) Q.
Proof using HV.
  intros Hm Hc H Hd w s Hs. unfold UnaryAuthorizationInterceptor. rewrite Hm. cbn [negb].
  unfold authorize, permitted, auditAuthDecision, emitM, fail, ClaimsFromContext in *. rewrite Hc. unfold_monad.
  destruct (policy !! method) as [required|]; [|destruct defaultDeny].
  - case_bool_decide as Hr; [apply H; [left; by destruct required|done]|].
    destruct (hasAnyScope (Scopes c) required) eqn:Hsc.
    + apply H; [|done]. right. by apply hasAnyScope_true.
    + cbn [fst snd]. by rewrite HV, Hs.
  - cbn [fst snd]. by rewrite HV, Hs.
  - by apply H.
Qed.
End stateless.

Section stateful.
Context {S Y A : Type} `{!Telemetry S} (V : S -> Y) (HV : silent V) (y : Y) (method : string).
Implicit Types (ctx : RpcCtx) (handler : Handler S A).

Definition limited : error -> Prop := fun e => exists text, e = EStatus codes.ResourceExhausted text.

Lemma rate_rule ctx handler (Q : outcome A -> Y -> Prop) :
  hspec V y (handler ctx) Q -> (forall e, limited e -> Q (Returned (Err e)) y) ->
  hspec (fun bs : Bucket * S => V (snd bs)) y (NewRateLimitInterceptors ctx method handler) Q.
Proof.
  intros H Hd w [b s] Hs. unfold NewRateLimitInterceptors, Allow1, fail. unfold_monad.
  cbn [fst snd]. destruct (bucket_allow b _) as [[] b']; cbn [fst snd].
  - specialize (H (tick w) s Hs). cbn [fst snd] in *. by destruct (handler ctx (tick w, s)) as [? [? ?]].
  - rewrite Hs. apply Hd. by eexists.
Qed.

Lemma per_client_rule ctx handler (Q : outcome A -> Y -> Prop) :
  hspec V y (handler ctx) Q -> (forall e, limited e -> Q (Returned (Err e)) y) ->
  hspec (fun ps : PerClientRateLimiter * S => V (snd ps)) y
    (NewPerClientRateLimitInterceptors ctx method handler) Q.
Proof.
  intros H Hd w [p s] Hs. unfold NewPerClientRateLimitInterceptors, fail. unfold bindM, outerM.
  destruct (Allow_run (extractClientID ctx) w p) as (access & now & w' & ->).
  destruct (fst (allow_at _ access now p)); cbn [fst snd] in *.
  - unfold innerM. specialize (H w' s Hs). destruct (handler ctx (w', s)) as [? [? ?]]. exact H.
  - unfold retM. cbn [fst snd]. rewrite Hs. apply Hd. by eexists.
Qed.

(** The slot is given back whatever the handler does. *)
Lemma concurrency_rule max n ctx handler (Q : outcome A -> Y -> Prop) :
  hspec V y (handler ctx) Q -> (forall e, limited e -> Q (Returned (Err e)) y) ->
  hspec (fun ns : Z * S => (fst ns, V (snd ns))) (n, y)
    (NewConcurrencyLimitInterceptor max ctx method handler) (fun o ny => fst ny = n /\ Q o (snd ny)).
Proof using HV.
  intros H Hd w [m s] [= -> Hs]. unfold NewConcurrencyLimitInterceptor.
  destruct (max <=? 0); [|destruct (negb (requiresAuth method))].
  1,2: unfold innerM; specialize (H w s Hs); by destruct (handler ctx (w, s)) as [? [? ?]].
  unfold acquire, release, deferred, emitM, fail. unfold_monad. destruct (n <? max); cbn [fst snd].
  - specialize (H w (emit (InFlight 1) s)). rewrite HV in H. specialize (H Hs).
    change (emit (InFlight 1) (n + 1, s)) with (n + 1, emit (InFlight 1) s). cbn [fst snd].
    destruct (handler ctx (w, emit (InFlight 1) s)) as [o [w' s']]. cbn in *. rewrite HV. split; [lia|done].
  - cbn. rewrite HV, Hs. split; [done|]. apply Hd. by eexists.
Qed.

Lemma inner_rule n (m : M S (outcome A)) (Q : outcome A -> Y -> Prop) :
  hspec V y m Q ->
  hspec (fun ns : Z * S => (fst ns, V (snd ns))) (n, y) (innerM m)
    (fun o ny => fst ny = n /\ Q o (snd ny)).
Proof.
  intros H w [k s] [= -> Hs]. unfold innerM. specialize (H w s Hs).
  destruct (m (w, s)) as [? [? ?]]. by split.
Qed.
End stateful.

(** * The chains *)

Definition refused (e : error) : Prop :=
  limited e \/ e = authenticationError \/ exists text, e = EStatus codes.PermissionDenied text.

(** The context [ctx'] carries the claims of a principal that the call of
    context [ctx] proved to be, and that may call the method. *)
Definition admitted (cfg : Config.Config) (auth : option Authenticator) (method : string)
    (ctx ctx' : RpcCtx) : Prop :=
  exists a c w, auth = Some a /\ principal a ctx c w /\
    permitted (Config.MethodScopes (Config.Auth cfg)) (Config.DefaultDeny (Config.Auth cfg)) method c /\
    ctx_claims ctx' = Some c /\ client_id ctx' = Some (Subject c).

(** How a call ends: refused without running the handler, or with the handler's
    own outcome, panics excepted. *)
Definition gated {S Y A} (V : S -> Y) (cfg : Config.Config) (auth : option Authenticator)
    (method : string) (ctx : RpcCtx) (handler : Handler S A) (y : Y) (o : outcome A) (y' : Y) : Prop :=
  (exists e, o = Returned (Err e) /\ refused e /\ y' = y) \/
  (exists ctx' w1 s1, admitted cfg auth method ctx ctx' /\ V s1 = y /\
     o = recovered (fst (handler ctx' (w1, s1))) /\ y' = V (snd (snd (handler ctx' (w1, s1))))).

Lemma hspec_self {S Y A} (V : S -> Y) y (m : M S (outcome A)) :
  hspec V y m (fun o y' => exists w s, V s = y /\ o = fst (m (w, s)) /\ y' = V (snd (snd (m (w, s))))).
Proof. intros w s Hs. by exists w, s. Qed.

Lemma hspec_weaken {S Y A} (V : S -> Y) y (m : M S (outcome A)) (P Q : outcome A -> Y -> Prop) :
  hspec V y m P -> (forall o y', P o y' -> Q o y') -> hspec V y m Q.
Proof. intros H HPQ w s Hs. apply HPQ, H, Hs. Qed.

Section gate.
Context {S Y A : Type} `{!Telemetry S} (V : S -> Y) (HV : silent V) (y : Y).
Context (cfg : Config.Config) (auth : option Authenticator) (method : string)
  (Hm : requiresAuth method = true).
Implicit Types (ctx : RpcCtx).

Lemma gated_refused (handler : Handler S A) ctx e :
  refused e -> gated V cfg auth method ctx handler y (recovered (Returned (Err e))) y.
Proof. left. by exists e. Qed.

Lemma handler_rule ctx ctx' (handler : Handler S A) :
  admitted cfg auth method ctx ctx' ->
  hspec V y (handler ctx') (fun o => gated V cfg auth method ctx handler y (recovered o)).
Proof.
  intros Ha. eapply hspec_weaken; [apply hspec_self|]. intros o y' (w & s & Hs & -> & ->).
  right. by exists ctx', w, s.
Qed.
End gate.

(** What the theorems observe at each layer of the server state: the slots in
    use and the part [V] of the services' state. *)
Section layers.
Context {S Y : Type} `{!Telemetry S} (V : S -> Y) (HV : silent V).

Lemma silent_slots : silent (fun ns : Z * S => (fst ns, V (snd ns))).
Proof using HV. by apply silent_pair. Qed.
Lemma silent_clients :
  silent (fun ps : PerClientRateLimiter * (Z * S) => (fst (snd ps), V (snd (snd ps)))).
Proof using HV. intros e s. apply (silent_slots e (snd s)). Qed.
Lemma silent_server :
  silent (fun st : ServerState S => (fst (snd (snd st)), V (snd (snd (snd st))))).
Proof using HV. intros e s. apply (silent_clients e (snd s)). Qed.
End layers.

Lemma unary_chain_rule {S Y A} `{!Telemetry S} (V : S -> Y) y n cfg auth ctx method (handler : Handler S A) :
  silent V -> requiresAuth method = true ->
  hspec (fun st : ServerState S => (fst (snd (snd st)), V (snd (snd (snd st))))) (n, y)
    (unary_chain cfg auth ctx method handler)
    (fun o ny => fst ny = n /\ gated V cfg auth method ctx handler y o (snd ny)).
Proof.
  intros HV Hm. unfold unary_chain.
  pose proof (silent_slots V HV) as HVn. pose proof (silent_clients V HV) as HVp.
  pose proof (silent_server V HV) as HVb.
  assert (Hdeny : forall e, refused e -> fst (n, y) = n /\
     gated V cfg auth method ctx handler y (recovered (Returned (Err e))) (snd (n, y))).
  { intros e He. split; [done|]. by apply gated_refused. }
  apply recovery_rule; [done|]. apply request_id_rule. intros rid.
  apply logging_rule; [done|]. apply metrics_rule; [done|].
  apply (rate_rule (fun ps : PerClientRateLimiter * (Z * S) => (fst (snd ps), V (snd (snd ps)))));
    [|intros e He; apply Hdeny; by left].
  apply auth_rule; [done|done| |apply Hdeny; by right; left]. intros a c w -> Hp.
  apply (per_client_rule (fun ns : Z * S => (fst ns, V (snd ns)))); [|intros e He; apply Hdeny; by left].
  eapply authz_rule; [done|done|reflexivity| |intros text; apply Hdeny; right; right; by exists text].
  intros Hperm.
  apply (concurrency_rule V HV y method _ n _ _
    (fun o => gated V cfg (Some a) method ctx handler y (recovered o))); [|intros e He; apply Hdeny; by left].
  apply audit_rule; [done|].
  apply timeout_rule; [intros base|]; apply handler_rule; by exists a, c, w.
Qed.

Lemma stream_chain_rule {S Y} `{!Telemetry S} (V : S -> Y) y n cfg auth ctx method (handler : Handler S unit) :
  silent V -> requiresAuth method = true ->
  hspec (fun st : ServerState S => (fst (snd (snd st)), V (snd (snd (snd st))))) (n, y)
    (stream_chain cfg auth ctx method handler)
    (fun o ny => fst ny = n /\ gated V cfg auth method ctx handler y o (snd ny)).
Proof.
  intros HV Hm. unfold stream_chain.
  pose proof (silent_slots V HV) as HVn. pose proof (silent_clients V HV) as HVp.
  pose proof (silent_server V HV) as HVb.
  assert (Hdeny : forall e, refused e -> fst (n, y) = n /\
     gated V cfg auth method ctx handler y (recovered (Returned (Err e))) (snd (n, y))).
  { intros e He. split; [done|]. by apply gated_refused. }
  as_unary. apply recovery_rule; [done|]. as_unary. apply request_id_rule. intros rid.
  apply stream_logging_rule; [done|]. apply stream_metrics_rule; [done|].
  apply (rate_rule (fun ps : PerClientRateLimiter * (Z * S) => (fst (snd ps), V (snd (snd ps)))));
    [|intros e He; apply Hdeny; by left].
  as_unary. apply auth_rule; [done|done| |apply Hdeny; by right; left]. intros a c w -> Hp.
  apply (per_client_rule (fun ns : Z * S => (fst ns, V (snd ns)))); [|intros e He; apply Hdeny; by left].
  as_unary. eapply authz_rule; [done|done|reflexivity| |intros text; apply Hdeny; right; right; by exists text].
  intros Hperm. as_unary. apply audit_rule; [done|].
  apply (inner_rule V y n (handler _)
    (fun o => gated V cfg (Some a) method ctx handler y (recovered o))).
  apply handler_rule. by exists a, c, w.
Qed.

(** * Properties *)

(** C8: A unary call of any method but a health check runs the handler at most
    with the claims of a principal the authenticator vouches for and the policy
    admits to the method. Otherwise the call ends in ResourceExhausted,
    Unauthenticated or PermissionDenied and nothing but telemetry and rate
    limits changes. A panic of the handler becomes an error, and the slot of
    the concurrency limit is given back in every case. *)
Theorem unary_calls_are_gated {S Y A} `{!Telemetry S} (V : S -> Y) cfg auth ctx method
    (handler : Handler S A) w b p n s o w' b' p' n' s' :
  silent V -> requiresAuth method = true ->
  unary_chain cfg auth ctx method handler (w, (b, (p, (n, s)))) = (o, (w', (b', (p', (n', s'))))) ->
  n' = n /\ (exists r, o = Returned r) /\
  gated V cfg auth method ctx handler (V s) o (V s').
Proof.
  intros HV Hm H.
  pose proof (unary_chain_rule V (V s) n cfg auth ctx method handler HV Hm w (b, (p, (n, s))) eq_refl) as HQ.
  unfold ServerState in *. rewrite H in HQ. cbn [fst snd] in HQ. destruct HQ as [Hn Hg]. split; [exact Hn|]. split; [|exact Hg].
  destruct Hg as [(e & -> & _)|(ctx' & w1 & s1 & _ & _ & -> & _)]; [by eexists|].
  destruct (fst (handler ctx' (w1, s1))); by eexists.
Qed.

(** The same holds of streams: a stream handler runs only for an admitted
    principal, and a panic of it ends the stream with an error. *)
Theorem streams_are_gated {S Y} `{!Telemetry S} (V : S -> Y) cfg auth ctx method
    (handler : Handler S unit) w b p n s o w' b' p' n' s' :
  silent V -> requiresAuth method = true ->
  stream_chain cfg auth ctx method handler (w, (b, (p, (n, s)))) = (o, (w', (b', (p', (n', s'))))) ->
  n' = n /\ (exists r, o = Returned r) /\
  gated V cfg auth method ctx handler (V s) o (V s').
Proof.
  intros HV Hm H.
  pose proof (stream_chain_rule V (V s) n cfg auth ctx method handler HV Hm w (b, (p, (n, s))) eq_refl) as HQ.
  unfold ServerState in *. rewrite H in HQ. cbn [fst snd] in HQ. destruct HQ as [Hn Hg]. split; [exact Hn|]. split; [|exact Hg].
  destruct Hg as [(e & -> & _)|(ctx' & w1 & s1 & _ & _ & -> & _)]; [by eexists|].
  destruct (fst (handler ctx' (w1, s1))); by eexists.
Qed.

End chain.

(** * Witnesses over concrete libraries *)

#[local] Existing Instance keys0.
#[local] Existing Instance libraries0.
#[local] Instance limiter0 : RateLimiter :=
  {| Bucket := Z; NewLimiter _ burst := burst; bucket_allow b _ := (0 <? b, b - 1) |}.

Definition key_auth : Authenticator :=
  mkAuthenticator "" ["0123456789abcdef"] "" "" None None false [].
Definition key_ctx : RpcCtx :=
  mkRpcCtx (Some {["x-api-key" := ["0123456789abcdef"]]}) [] "" "" None None None (Some Background).

(** A handler that counts its runs. *)
Definition count {A} (a : A) : Handler (nat * list telemetry) A := fun ctx ws =>
  let '(w, (n, events)) := ws in (Returned (Ok a), (w, (S n, events))).
Definition bucket0 : @Bucket limiter0 := 1.
Definition server0 {S} (s : S) : ServerState S :=
  (bucket0, (NewPerClientRateLimiter 1 1, (0, s))).

Lemma silent_fst {X} : silent (S := X * list telemetry) fst.
Proof. by intros e [x l]. Qed.

Lemma unary_calls_are_gated_witness :
  exists o w' b' p' n' s',
    unary_chain (fun _ => true) Config.sample (Some key_auth) key_ctx "/s/Get" (count 7)
      (clock0, server0 (0%nat, [])) = (o, (w', (b', (p', (n', s'))))) /\
    n' = 0 /\ o = Returned (Ok 7) /\ fst s' = 1%nat /\ exists r, o = Returned r.
Proof.
  do 6 eexists. split; [vm_compute; reflexivity|]. split; [|split; [reflexivity|split; [reflexivity|]]].
  - eapply (unary_calls_are_gated (fun _ => true) fst Config.sample (Some key_auth) key_ctx "/s/Get" (count 7)
      clock0 bucket0 (NewPerClientRateLimiter 1 1) 0 (0%nat, [])); [apply silent_fst|done|vm_compute; reflexivity].
  - eapply (unary_calls_are_gated (fun _ => true) fst Config.sample (Some key_auth) key_ctx "/s/Get" (count 7)
      clock0 bucket0 (NewPerClientRateLimiter 1 1) 0 (0%nat, [])); [apply silent_fst|done|vm_compute; reflexivity].
Defined.

Lemma streams_are_gated_witness :
  exists o w' b' p' n' s',
    stream_chain (fun _ => true) Config.sample (Some key_auth) key_ctx "/s/Watch" (count tt)
      (clock0, server0 (0%nat, [])) = (o, (w', (b', (p', (n', s'))))) /\
    n' = 0 /\ o = Returned (Ok tt) /\ fst s' = 1%nat.
Proof.
  do 6 eexists. split; [vm_compute; reflexivity|]. split; [|split; reflexivity].
  eapply (streams_are_gated (fun _ => true) fst Config.sample (Some key_auth) key_ctx "/s/Watch" (count tt)
      clock0 bucket0 (NewPerClientRateLimiter 1 1) 0 (0%nat, [])); [apply silent_fst|done|vm_compute; reflexivity].
Defined.

End Chain.
