(* ===== verification/Server.v ===== *)
(** [cmd/server/main.go]: which repository a configuration opens, the two doors
    to the service (the gRPC chain of [Chain] and the REST gateway of [Gateway]),
    readiness, and how a run ends. *)
From S2P Require Import Prelude GoStrings GoErrors Storage Memory CircuitBreaker Cache.
From Stdlib Require Import Ascii.
From S2P Require Import UserService Gateway Config Rpc Auth Interceptors Chain.

Module Server.

(** * Opening the repository *)

(** A repository together with the state it starts in, and the type the value
    has at run time. *)
Inductive repository_type := MemoryType | PostgresType | BreakerType | CacheType.
#[export] Instance repository_type_eq_dec : EqDecision repository_type.
Proof. solve_decision. Defined.

Record Opened := mkOpened {
  opened_state : Type;
  repo_of : Repository opened_state;
  start_of : opened_state;
  type_of : repository_type
}.

Section open.
(** The order of the cache's map, how PostgreSQL is opened, and [strconv.Quote]. *)
Context (range : nat -> gmap string CacheRepository.cacheEntry ->
                 list (string * CacheRepository.cacheEntry))
        (NewPostgresRepository : Config.StorageConfig -> res Opened)
        (Quote : string -> string).

Definition open_backend (cfg : Config.StorageConfig) : res Opened :=
  if bool_decide (Config.Backend cfg = "memory") then
    Ok (mkOpened _ MemoryRepository.repository MemoryRepository.NewMemoryRepository MemoryType)
  else if bool_decide (Config.Backend cfg = "postgres") then NewPostgresRepository cfg
  else Err (EOther ("unsupported storage backend " +:+ Quote (Config.Backend cfg))).

Definition with_breaker (cb : Config.CircuitBreakerConfig) (o : Opened) : Opened :=
  if Config.breaker_Enabled cb then
    mkOpened _ (CircuitBreakerRepository.wrap (repo_of o))
      (CircuitBreakerRepository.NewCircuitBreakerRepository (Config.breaker_config cb), start_of o)
      BreakerType
  else o.

Definition with_cache (c : Config.CacheConfig) (o : Opened) : Opened :=
  if Config.cache_Enabled c then
    mkOpened _ (CacheRepository.wrap range (repo_of o))
      (CacheRepository.NewCacheRepository (Config.TTL c), start_of o) CacheType
  else o.

Definition openRepository (cfg : Config.StorageConfig) : res Opened :=
  match open_backend cfg with
  | Err err => Err err
  | Ok repo => Ok (with_cache (Config.Cache cfg) (with_breaker (Config.CircuitBreaker cfg) repo))
  end.

(** [run] registers the pool's metrics for a value of type
    [*storage.PostgresRepository]. *)
Definition registers_db_stats (o : Opened) : bool := bool_decide (type_of o = PostgresType).

(** * Lemmas *)

(** An opened repository keeps the contract from a state without users. *)
Definition keeps_contract (o : Opened) : Prop :=
  exists view inv lossy, RepositoryLaws (repo_of o) view inv lossy /\
    inv (start_of o) /\ view (start_of o) = ∅.

Lemma with_breaker_contract cb o : keeps_contract o -> keeps_contract (with_breaker cb o).
Proof using.
  intros (view & inv & lossy & HL & Hi & Hv). unfold with_breaker. case_match; [|by exists view, inv, lossy].
  exists (fun cs => view cs.2), (fun cs => inv cs.2), lossy. split; [|by split].
  exact (CircuitBreakerRepository.breaker_laws (repo_of o) view inv lossy).
Qed.

Lemma with_cache_contract c o :
  (forall n mm, range n mm ≡ₚ map_to_list mm) -> keeps_contract o -> keeps_contract (with_cache c o).
Proof using.
  intros Hrange (view & inv & lossy & HL & Hi & Hv). unfold with_cache.
  case_match; [|by exists view, inv, lossy].
  exists (fun cs => view cs.2), (CacheRepository.cinv view inv), true. split; [|split; [|done]].
  - exact (CacheRepository.cache_laws range Hrange (repo_of o) view inv lossy).
  - split; [exact Hi|]. split; [apply CacheRepository.bounded_New|].
    intros k e. cbn. by rewrite lookup_empty.
Qed.

(** An opened repository keeps the contract without reliable answers, from the
    stored users [v]. *)
Definition keeps_users (norm : User -> User) (v : gmap string User) (o : Opened) : Prop :=
  exists view inv, RepositorySafety (repo_of o) view inv norm /\
    inv (start_of o) /\ view (start_of o) = v.

Lemma with_breaker_users norm v cb o : keeps_users norm v o -> keeps_users norm v (with_breaker cb o).
Proof using.
  intros (view & inv & HS & Hi & Hv). unfold with_breaker. case_match; [|by exists view, inv].
  exists (fun cs => view cs.2), (fun cs => inv cs.2). split; [|by split].
  exact (CircuitBreakerRepository.breaker_safety (repo_of o) view inv norm).
Qed.

Lemma with_cache_users norm v c o : keeps_users norm v o -> keeps_users norm v (with_cache c o).
Proof using.
  intros (view & inv & HS & Hi & Hv). unfold with_cache. case_match; [|by exists view, inv].
  exists (fun cs => view cs.2), (fun cs => inv cs.2). split; [|by split].
  exact (CacheRepository.cache_safety range (repo_of o) view inv norm).
Qed.

Lemma opened_keeps_users norm v cfg b :
  open_backend cfg = Ok b -> keeps_users norm v b ->
  exists o, openRepository cfg = Ok o /\ keeps_users norm v o.
Proof using.
  intros Hb Hu. unfold openRepository. rewrite Hb. eexists. split; [done|].
  by apply with_cache_users, with_breaker_users.
Qed.

(** Whatever decorators the configuration enables, the repository opened for
    the memory backend keeps the [Repository] contract and starts empty: so
    every theorem about the service over that contract holds of the server. *)
Theorem opened_repository_keeps_contract cfg :
  (forall n mm, range n mm ≡ₚ map_to_list mm) -> Config.Backend cfg = "memory" ->
  exists o, openRepository cfg = Ok o /\ keeps_contract o.
Proof using.
  intros Hrange Hb. unfold openRepository, open_backend. rewrite bool_decide_eq_true_2 by done.
  eexists. split; [reflexivity|]. apply with_cache_contract; [done|]. apply with_breaker_contract.
  exists MemoryRepository.users, MemoryRepository.wf, false.
  split; [apply MemoryRepository.memory_laws|]. split; [|done].
  intros id u. cbn. by rewrite lookup_empty.
Qed.

(** The pool's metrics are registered only for a bare PostgreSQL repository:
    enabling the circuit breaker or the cache silently turns them off. *)
Theorem db_stats_need_bare_postgres cfg o :
  openRepository cfg = Ok o ->
  (forall cfg o, NewPostgresRepository cfg = Ok o -> type_of o = PostgresType) ->
  registers_db_stats o =
    bool_decide (Config.Backend cfg = "postgres") &&
    negb (Config.breaker_Enabled (Config.CircuitBreaker cfg) || Config.cache_Enabled (Config.Cache cfg)).
Proof using.
  intros Ho Hpg. unfold openRepository, registers_db_stats in *.
  destruct (open_backend cfg) as [b|] eqn:Hb; [injection Ho as <-|done].
  unfold with_cache, with_breaker. destruct (Config.cache_Enabled _), (Config.breaker_Enabled _);
    cbn [type_of orb negb]; rewrite ?andb_false_r, ?andb_true_r; try done.
  unfold open_backend in Hb. case_bool_decide as Hm; [injection Hb as <-; by rewrite Hm|].
  destruct (decide (Config.Backend cfg = "postgres")) as [Hp|Hp].
  - rewrite (bool_decide_eq_true_2 _ Hp) in Hb |- *. by rewrite (Hpg _ _ Hb).
  - by rewrite (bool_decide_eq_false_2 _ Hp) in Hb.
Qed.
End open.

(** ** The breaker under the cache *)

(** While the breaker is open and its timeout has not passed, the cache
    behind which it sits serves no stale user: a read of an expired or missing
    entry fails with ErrCircuitOpen, although the cache still holds the expired
    user it would serve were the storage itself to answer ErrUnavailable. *)
Theorem open_breaker_disables_stale_reads range {S} (R : Repository S) ctx id w c cb s e :
  CacheRepository.m c !! id = Some e -> CacheRepository.exp e < w_now w (w_tick w) ->
  CircuitBreakerRepository.state cb = CircuitBreakerRepository.CircuitBreakerOpen ->
  CircuitBreakerRepository.since (w_now w (Datatypes.S (w_tick w))) (CircuitBreakerRepository.openSince cb)
    <= CircuitBreakerRepository.OpenTimeout (CircuitBreakerRepository.cfg cb) ->
  result_of (Storage.Get (CacheRepository.wrap range (CircuitBreakerRepository.wrap R)) ctx id) w (c, (cb, s))
    = Err (EStorage storage.ErrCircuitOpen) /\
  result_of (CacheRepository.Get_finish range id (Err (EStorage storage.ErrUnavailable))) w c
    = Ok (CacheRepository.user e).
Proof.
  intros He Hexp Hs Ht. split.
  - cbn. unfold CacheRepository.Get, CacheRepository.get. unfold_monad. rewrite He. cbn [fst snd].
    rewrite (proj2 (Z.ltb_lt _ _) Hexp). cbn [fst snd].
    change (Storage.Get (CircuitBreakerRepository.wrap R) ctx id)
      with (CircuitBreakerRepository.Get R ctx id).
    unfold CircuitBreakerRepository.Get, CircuitBreakerRepository.guarded,
      CircuitBreakerRepository.beforeCall. unfold_monad. cbn [fst snd]. rewrite Hs. cbn -[CircuitBreakerRepository.since].
    by rewrite (proj2 (Z.ltb_ge _ _) Ht).
  - unfold CacheRepository.Get_finish, CacheRepository.getStale.
    change (Is (EStorage storage.ErrUnavailable) (EStorage storage.ErrUnavailable)) with true.
    cbn [orb]. unfold_monad. cbn [fst snd]. by rewrite He.
Qed.

(** * The doors to the service *)

(** ** gRPC *)

(** The generated handler of a unary method: the service's answer, over the
    service's state next to the telemetry. *)
Definition grpc_handler {S A} (method : option Ctx -> M S (res A)) : Handler (S * list telemetry) A :=
  fun ctx =>
    r <-- outerM (method (base_ctx ctx)) ;;
    retM (Returned r).

(** * Readiness *)

Record readinessState (S : Type) := mkReadiness {
  ready : bool;
  check : option (option Ctx -> M S (option error))
}.
Arguments mkReadiness {S}.
Arguments ready {S}.
Arguments check {S}.

Section readiness.
Context {S : Type}.
Implicit Types (r : readinessState S).

Definition Set_ (value : bool) r : readinessState S := mkReadiness value (check r).
Definition Get r : bool := ready r.
Definition SetCheck (c : option Ctx -> M S (option error)) r : readinessState S :=
  mkReadiness (ready r) (Some c).

Definition Check_ r (ctx : Ctx) : M S bool :=
  if negb (ready r) then retM false else
  match check r with
  | None => retM true
  | Some check =>
      checkCtx <-- context_WithTimeout ctx (2 * 10 ^ 9) ;;
      err <-- check (Some checkCtx) ;;
      retM (bool_decide (err = None))
  end.

Definition plain : gmap string string := {["Content-Type" := "text/plain; charset=utf-8"]}.

Definition newline : string := String.String (Ascii.ascii_of_nat 10) "".

(** [http.Error] ends the text with a newline of its own. *)
Definition http_Error (text : string) (code : Z)   : Gateway.Response :=
  Gateway.mkResponse code (<["X-Content-Type-Options" := "nosniff"]> plain) (text +:+ newline).

(** The mux of the health port: any other path is unknown to it. *)
Definition healthHandler r (path : string) (ctx : Ctx) : M S Gateway.Response :=
  if bool_decide (path = "/healthz") then retM (Gateway.mkResponse 200 plain ("ok" +:+ newline))
  else if bool_decide (path = "/readyz") then
    ok <-- Check_ r ctx ;;
    if ok : bool then retM (Gateway.mkResponse 200 plain ("ready" +:+ newline))
    else retM (http_Error ("not ready" +:+ newline) 503)
  else retM (http_Error "404 page not found" 404).
End readiness.

(** * How a run ends *)

Definition normalizeServeError (err : option error) : option error :=
  match err with
  | None => None
  | Some e => if Is e EServerStopped || Is e EServerClosed then None else Some e
  end.

(** What ends the [select] of [run]: the signal, or the first listener to stop. *)
Inductive run_event := ShutdownSignal | ListenerStopped (err : option error).

(** A shutdown error is kept when nothing failed before it. *)
Definition keep_first (name : string) (err runErr : option error) : option error :=
  match err, runErr with
  | Some e, None => Some (EWrap ("shutdown " +:+ name +:+ " server") e)
  | _, _ => runErr
  end.

Definition run_result (event : run_event) (health : option error)
    (metrics gateway : option (option error)) : option error :=
  let runErr := match event with ShutdownSignal => None | ListenerStopped err => err end in
  let runErr := keep_first "health" health runErr in
  let runErr := match metrics with Some err => keep_first "metrics" err runErr | None => runErr end in
  let runErr := match gateway with Some err => keep_first "gateway" err runErr | None => runErr end in
  normalizeServeError runErr.

(** * Lemmas *)

Lemma healthz_always {S} (r : readinessState S) ctx w s :
  healthHandler r "/healthz" ctx (w, s) = (Gateway.mkResponse 200 plain ("ok" +:+ newline), (w, s)).
Proof. done. Qed.

(** Not ready before [Set_ true] and after [Set_ false], whatever the check says:
    the repository is not asked. *)
Lemma readyz_draining {S} (r : readinessState S) ctx w s :
  ready r = false -> Gateway.Status (fst (healthHandler r "/readyz" ctx (w, s))) = 503 /\
  snd (healthHandler r "/readyz" ctx (w, s)) = (w, s).
Proof. intros Hr. unfold healthHandler, Check_. cbn. unfold_monad. by rewrite Hr. Qed.

Lemma run_result_none event health metrics gateway :
  run_result event health metrics gateway = None ->
  match event with
  | ListenerStopped (Some e) => Is e EServerStopped = true \/ Is e EServerClosed = true
  | _ => True
  end.
Proof.
  destruct event as [|[e|]]; [done| |done]. unfold run_result.
  assert (H : forall name err, keep_first name err (Some e) = Some e) by by intros ? [].
  rewrite !H. assert (Hm : match metrics with Some err => keep_first "metrics" err (Some e)
    | None => Some e end = Some e) by by destruct metrics as [[]|].
  rewrite Hm. assert (Hg : match gateway with Some err => keep_first "gateway" err (Some e)
    | None => Some e end = Some e) by by destruct gateway as [[]|].
  rewrite Hg. unfold normalizeServeError. intros Hn. apply orb_true_iff. by case_match.
Qed.

Import Auth Interceptors.

(** A principal needs a credential in the metadata. *)
Lemma not_admitted `{HK : PublicKeys} `{HL : !Libraries} cfg auth method ctx ctx' :
  fst (credentialFromContext ctx) = None -> ~ Chain.admitted cfg auth method ctx ctx'.
Proof. intros Hc (a & c & w & _ & (cred & Hs & _) & _). by rewrite Hc in Hs. Qed.

(** * Properties of the doors *)

Definition create_method : string := "/example.v1.UserService/CreateUser".

(** C34: The REST gateway answers without any of the interceptors: a request that
    carries no credential, which the gRPC server refuses whatever its
    configuration and without touching the service, has the gateway create the
    user. *)
Theorem gateway_bypasses_authentication `{HK : PublicKeys} `{HL : !Libraries} `{HB : RateLimiter}
    `{HG : Gateway.Codec} valid_utf8 ParseAddress cfg auth {S} (svc : UserService.Service S) range r ctx rq u w s w' s' :
  (forall n mux, range n mux ≡ₚ map_to_list mux) ->
  Gateway.isPathLengthFallback r = false -> Gateway.Method r = "POST" -> Gateway.Path r = "/v1/users" ->
  Gateway.decode_create (Gateway.req_Body r) = Ok rq ->
  Gateway.AnnotateIncomingContext r create_method = Ok (base_ctx ctx) ->
  fst (credentialFromContext ctx) = None ->
  UserService.CreateUser ParseAddress svc (base_ctx ctx) (Some rq) (w, s) = (Ok u, (w', s')) ->
  Gateway.gatewayHandler ParseAddress svc range r (w, s)
    = (Gateway.ForwardResponseMessage Gateway.cors (Gateway.UserMsg u), (w', s')) /\
  forall w0 b p n events o w1 b1 p1 n1 s1 events1,
    Chain.unary_chain valid_utf8 cfg auth ctx create_method
      (grpc_handler (fun c => UserService.CreateUser ParseAddress svc c (Some rq)))
      (w0, (b, (p, (n, (s, events))))) = (o, (w1, (b1, (p1, (n1, (s1, events1)))))) ->
    s1 = s /\ exists e, o = Returned (Err e) /\ Chain.refused e.
Proof.
  intros Hrange Hf Hm Hp Hd Hctx Hc Hok. split.
  - rewrite (Gateway.gateway_create ParseAddress svc range Hrange r rq (base_ctx ctx)) by done.
    by rewrite Hok.
  - intros w0 b p n events o w1 b1 p1 n1 s1 events1 Hrun.
    pose proof (Chain.unary_chain_rule valid_utf8 fst s n cfg auth ctx create_method
      (grpc_handler (fun c => UserService.CreateUser ParseAddress svc c (Some rq)))
      Chain.silent_fst eq_refl w0 (b, (p, (n, (s, events)))) eq_refl) as H.
    unfold Chain.ServerState in *. rewrite Hrun in H. destruct H as [_ [(e & He & Hr & Hs)|H]].
    + split; [exact Hs|]. by exists e.
    + destruct H as (ctx' & ? & ? & Ha & _). by destruct (not_admitted cfg auth create_method ctx ctx' Hc).
Qed.

(** * Witnesses *)

Definition range0 (n : nat) (mm : gmap string CacheRepository.cacheEntry) := map_to_list mm.
Definition storage0 : Config.StorageConfig := Config.Storage Config.sample.

Lemma opened_repository_keeps_contract_witness :
  exists o, openRepository range0 (fun _ => Err (EOther "no database")) id storage0 = Ok o /\
    keeps_contract o.
Proof.
  apply (opened_repository_keeps_contract range0 (fun _ => Err (EOther "no database")) id storage0);
    [done|reflexivity].
Defined.

Definition postgres0 (cfg : Config.StorageConfig) : res Opened :=
  Ok (mkOpened _ MemoryRepository.repository MemoryRepository.NewMemoryRepository PostgresType).
Definition cached_postgres : Config.StorageConfig :=
  Config.mkStorage "postgres" "postgres://db" 4 2 1 1 3 1 1 (Config.CircuitBreaker storage0)
    (Config.mkCache true 30).

Lemma db_stats_need_bare_postgres_witness :
  exists o, openRepository range0 postgres0 id cached_postgres = Ok o /\ registers_db_stats o = false.
Proof.
  eexists. split; [reflexivity|].
  rewrite (db_stats_need_bare_postgres range0 postgres0 id cached_postgres _ eq_refl); [reflexivity|].
  by intros ? ? [= <-].
Defined.

Definition stale_cache : CacheRepository.State :=
  CacheRepository.set_m {["u" := CacheRepository.mkEntry UserService.ann 1]}
    (CacheRepository.NewCacheRepository 30).
Definition open_breaker : CircuitBreakerRepository.State :=
  CircuitBreakerRepository.set_openSince 2
    (CircuitBreakerRepository.set_state CircuitBreakerRepository.CircuitBreakerOpen
      (CircuitBreakerRepository.NewCircuitBreakerRepository
         CircuitBreakerRepository.DefaultCircuitBreakerConfig)).

Lemma open_breaker_disables_stale_reads_witness :
  result_of (Storage.Get (CacheRepository.wrap range0
      (CircuitBreakerRepository.wrap MemoryRepository.repository)) (Some Background) "u")
    clock0 (stale_cache, (open_breaker, MemoryRepository.NewMemoryRepository))
    = Err (EStorage storage.ErrCircuitOpen).
Proof.
  refine (proj1 (open_breaker_disables_stale_reads range0 MemoryRepository.repository (Some Background)
    "u" clock0 stale_cache open_breaker MemoryRepository.NewMemoryRepository
    (CacheRepository.mkEntry UserService.ann 1) _ _ _ _)); try reflexivity; vm_compute; congruence.
Defined.

#[local] Existing Instance keys0.
#[local] Existing Instance libraries0.
#[local] Existing Instance Chain.limiter0.

Definition anonymous : RpcCtx :=
  mkRpcCtx (Some ∅) [] "" "" None None None (Some Background).

Lemma gateway_bypasses_authentication_witness :
  exists res s', Gateway.gatewayHandler (HC := Gateway.codec0) UserService.parse0 UserService.service0
      Gateway.range0 (Gateway.request0 "POST" "/v1/users") (UserService.world1, MemoryRepository.NewMemoryRepository)
      = (res, s') /\ Gateway.Status res = 200.
Proof.
  pose proof (gateway_bypasses_authentication (HG := Gateway.codec0) (fun _ => true) UserService.parse0
    Config.sample None UserService.service0 Gateway.range0 (Gateway.request0 "POST" "/v1/users") anonymous
    UserService.alice_request _ UserService.world1 MemoryRepository.NewMemoryRepository _ _
    (fun _ _ => reflexivity _) eq_refl eq_refl eq_refl eq_refl eq_refl eq_refl eq_refl) as [H _].
  eexists _, _. split; [exact H|reflexivity].
Defined.

End Server.
