(* ===== verification/Retry.v ===== *)
(** The retries of [internal/storage/postgres.go]: which errors are transient,
    how long to wait before an attempt, and the loop around an operation. *)
From S2P Require Import Prelude GoStrings GoErrors Storage.

Module Retry.

(** [crypto/rand.Int(rand.Reader, max)] by the moment of the draw ([None] is the
    read error), and the [select] between a context and a timer of the given
    duration ([Some e] when the context is done first). *)
Class Waiting := {
  rand_Int : nat -> Z -> option Z;
  interrupted : Ctx -> nat -> Z -> option ctx_status
}.

Record retryConfig := mkRetry { maxAttempts : Z; baseBackoff : Z; maxBackoff : Z }.

Definition retryable_codes : list string :=
  ["40001"; "40P01"; "55P03"; "08000"; "08001"; "08003"; "08004"; "08006"; "53300"; "53400";
   "57P01"; "57P02"; "57P03"; "58000"; "58030"; "XX000"].

Definition isRetryableError (err : option error) : bool :=
  match err with
  | None => false
  | Some err =>
      if Is err ECanceled || Is err EDeadlineExceeded then false else
      if Is err EEOF || Is err EUnexpectedEOF then true else
      match as_pg err with
      | Some code => bool_decide (code ∈ retryable_codes)
      | None => false
      end
  end.

Section retry.
Context `{HW : Waiting}.

(** The product is on [int64] and wraps. *)
Definition capped_backoff (base attempt cap : Z) : Z :=
  let d := wrap64 (base * shl1_64 attempt) in
  if cap <? d then cap else d.

Definition backoffDuration (base attempt cap : Z) (t : nat) : Z :=
  let d := capped_backoff base attempt cap in
  let half := Z.quot d 2 in
  if half <=? 0 then d else
  match rand_Int t half with
  | None => d
  | Some n => d + (n - Z.quot d 4)
  end.

Section loop.
Context {S A : Type} (ctx : Ctx) (cfg : retryConfig) (op : M S (res A)).

(** The wait before attempt [attempt > 0]: the error it ends with, if any. *)
Definition wait (attempt : Z) : M S (option error) :=
  err <-- ctxErrM ctx ;;
  match err with
  | Some err => retM (Some err)
  | None => fun ws =>
      let t := w_tick ws.1 in
      (ctx_error <$> interrupted ctx t
         (backoffDuration (baseBackoff cfg) (attempt - 1) (maxBackoff cfg) t),
       (tick ws.1, ws.2))
  end.

(** The loop from [attempt] with [n] attempts left. The operation returns the
    values the closure of the source assigns to captured variables. *)
Fixpoint retry_loop (n : nat) (attempt : Z) (last : res A) : M S (res A) :=
  match n with
  | O => retM last
  | Datatypes.S n =>
      waited <-- (if 0 <? attempt then wait attempt else retM None) ;;
      match waited with
      | Some err => retM (Err err)
      | None =>
          r <-- op ;;
          match r with
          | Ok a => retM (Ok a)
          | Err err => if isRetryableError (Some err) then retry_loop n (attempt + 1) (Err err)
                       else retM (Err err)
          end
      end
  end.

(** Without attempts the captured variables keep their zero values [zero], and
    there is no error. *)
Definition retryOperation (zero : A) : M S (res A) :=
  retry_loop (Z.to_nat (maxAttempts cfg)) 0 (Ok zero).
End loop.

(** * Lemmas *)

Lemma retry_wait_run {S} ctx cfg attempt w (s : S) :
  exists r w', wait ctx cfg attempt (w, s) = (r, (w', s)) /\
    match r with Some err => exists e, err = ctx_error e | None => True end.
Proof.
  unfold wait, ctxErrM. unfold_monad. destruct (ctx_err_at ctx (w_tick w)) as [e|]; cbn.
  - exists (Some (ctx_error e)), (tick w). split; [reflexivity|]. by exists e.
  - destruct (interrupted _ _ _) as [e|]; cbn.
    + exists (Some (ctx_error e)), (tick (tick w)). split; [reflexivity|]. by exists e.
    + exists None, (tick (tick w)). by split.
Qed.

(** The rule of the loop. [Inv k] holds before an attempt that [k] failed ones
    precede; an attempt ends in [Post] or in [Fail], and a transient failure
    re-establishes the invariant. *)
Section rule.
Context {S A : Type} (ctx : Ctx) (cfg : retryConfig) (op : M S (res A)).
Context (Inv : nat -> S -> Prop) (Post : nat -> A -> S -> Prop) (Fail : nat -> error -> S -> Prop).
Context (Hop : forall k w s, Inv k s ->
  match op (w, s) with
  | (Ok a, (_, s')) => Post k a s'
  | (Err e, (_, s')) => Fail k e s'
  end).
Context (Hretry : forall k e s, Fail k e s -> isRetryableError (Some e) = true -> Inv (Datatypes.S k) s).

Definition retry_post (k n : nat) (r : res A) (s' : S) : Prop :=
  match r with
  | Ok a => exists k', (k <= k' < n)%nat /\ Post k' a s'
  | Err e => (exists k', (k' < n)%nat /\ Fail k' e s') \/
             (exists k' c, (k <= k' < n)%nat /\ (0 < k')%nat /\ Inv k' s' /\ e = ctx_error c)
  end.

Lemma retry_post_weaken k k' n r s' : (k <= k')%nat -> retry_post k' n r s' -> retry_post k n r s'.
Proof using.
  unfold retry_post. intros Hk. destruct r as [a|e].
  - intros (j & ? & ?). exists j. split; [lia|done].
  - intros [H|(j & c & ? & ?)]; [by left|]. right. exists j, c. split; [lia|done].
Qed.

Lemma retry_loop_rule n k last w s r w' s' :
  match n with
  | O => exists e j, last = Err e /\ (j < k)%nat /\ Fail j e s
  | _ => Inv k s
  end ->
  retry_loop ctx cfg op n (Z.of_nat k) last (w, s) = (r, (w', s')) ->
  retry_post k (k + n) r s'.
Proof using Hop Hretry.
  revert k last w s. induction n as [|n IH]; intros k last w s Hi; cbn [retry_loop].
  { destruct Hi as (e & j & -> & ? & ?). intros [= <- <- <-]. left. exists j. split; [lia|done]. }
  assert (Hgo : forall w1,
    (r <-- op ;;
     match r with
     | Ok a => retM (Ok a)
     | Err err => if isRetryableError (Some err) then retry_loop ctx cfg op n (Z.of_nat k + 1) (Err err)
                  else retM (Err err)
     end) (w1, s) = (r, (w', s')) -> retry_post k (k + Datatypes.S n) r s').
  { intros w1. unfold_monad. specialize (Hop k w1 s Hi). destruct (op (w1, s)) as [[a|e] [w2 s2]].
    - intros [= <- <- <-]. exists k. split; [lia|done].
    - destruct (isRetryableError (Some e)) eqn:Hr.
      + intros Hrun. specialize (IH (Datatypes.S k) (Err e) w2 s2).
        replace (Z.of_nat (Datatypes.S k)) with (Z.of_nat k + 1) in IH by lia.
        replace (k + Datatypes.S n)%nat with (Datatypes.S k + n)%nat by lia.
        apply (retry_post_weaken k (Datatypes.S k)); [lia|]. apply IH; [|done].
        destruct n; [|by eapply Hretry]. exists e, k. split; [done|]. split; [lia|done].
      + intros [= <- <- <-]. left. exists k. split; [lia|done]. }
  unfold bindM at 1. destruct (Z.ltb_spec 0 (Z.of_nat k)); [|apply Hgo].
  destruct (retry_wait_run ctx cfg (Z.of_nat k) w s) as (rw & w1 & Hw & Hc). rewrite Hw.
  destruct rw as [err|]; [|apply Hgo]. intros [= <- <- <-]. right. destruct Hc as [c ->].
  exists k, c. split; [lia|]. split; [lia|done].
Qed.

Lemma retry_rule zero w s r w' s' :
  0 < maxAttempts cfg -> Inv 0%nat s ->
  retryOperation ctx cfg op zero (w, s) = (r, (w', s')) ->
  retry_post 0 (Z.to_nat (maxAttempts cfg)) r s'.
Proof using Hop Hretry.
  intros Hn Hi Hrun. unfold retryOperation in Hrun.
  destruct (Z.to_nat (maxAttempts cfg)) as [|n] eqn:E; [lia|].
  exact (retry_loop_rule (Datatypes.S n) 0 (Ok zero) w s r w' s' Hi Hrun).
Qed.
End rule.

Lemma capped_backoff_exact base attempt cap :
  0 < base -> 0 <= attempt < 63 -> base * 2 ^ attempt <= max_int64 ->
  capped_backoff base attempt cap = Z.min (base * 2 ^ attempt) cap.
Proof.
  intros Hb Ha Ho. unfold capped_backoff, shl1_64. cbv zeta.
  assert (Hp : 0 < 2 ^ attempt) by (apply Z.pow_pos_nonneg; lia).
  assert (Hp' : 2 ^ attempt <= max_int64) by nia.
  rewrite Z.shiftl_1_l, (wrap64_small (2 ^ attempt)) by (unfold min_int64; lia).
  rewrite wrap64_small by (unfold min_int64; nia).
  destruct (Z.ltb_spec cap (base * 2 ^ attempt)); lia.
Qed.

(** * Properties *)

(** An operation that records its results next to its own state. *)
Definition recorded {S A} (op : M S (res A)) : M (list (res A) * S) (res A) :=
  r <-- innerM op ;;
  outerM (modifyM (fun l => l ++ [r])) ;;;
  retM r.

Definition transient {A} (r : res A) : Prop :=
  exists e, r = Err e /\ isRetryableError (Some e) = true.

(** C36: A storage operation is attempted at most [maxAttempts] times, and again
    only after a transient error: not after a domain error, a context error or
    an SQL error outside the list. The caller gets the result of the last
    attempt, or the context's error when that ends a wait. *)
Theorem storage_retries_are_bounded {S A} ctx cfg (op : M S (res A)) zero w s r w' results s' :
  0 < maxAttempts cfg ->
  retryOperation ctx cfg (recorded op) zero (w, ([], s)) = (r, (w', (results, s'))) ->
  1 <= Z.of_nat (length results) <= maxAttempts cfg /\
  (forall i result, results !! i = Some result -> (Datatypes.S i < length results)%nat -> transient result) /\
  (last results = Some r \/ exists c, r = Err (ctx_error c)).
Proof.
  intros Hn Hrun.
  pose (Inv := fun k (ls : list (res A) * S) => length ls.1 = k /\ Forall transient ls.1).
  pose (Done := fun k (r : res A) (ls : list (res A) * S) =>
    exists l, ls.1 = l ++ [r] /\ length l = k /\ Forall transient l).
  assert (Hend : forall k r ls, Done k r ls -> Z.of_nat k < maxAttempts cfg ->
    1 <= Z.of_nat (length ls.1) <= maxAttempts cfg /\
    (forall i result, ls.1 !! i = Some result -> (Datatypes.S i < length ls.1)%nat -> transient result) /\
    last ls.1 = Some r).
  { intros k r0 ls (l & -> & Hl & Ht) Hk. rewrite length_app, last_snoc. cbn. split; [lia|]. split; [|done].
    intros i result Hi Hlt. rewrite lookup_app_l in Hi by lia. by eapply Forall_lookup_1. }
  apply (retry_rule ctx cfg (recorded op) Inv (fun k a => Done k (Ok a)) (fun k e => Done k (Err e)))
    in Hrun; [..|exact Hn|by split].
  - destruct r as [a|e]; cbn in Hrun.
    + destruct Hrun as (k & Hk & Hd). destruct (Hend k _ _ Hd) as (? & ? & ?); [lia|]. auto.
    + destruct Hrun as [(k & Hk & Hd)|(k & c & Hk & Hk0 & [Hlen Ht] & ->)].
      { destruct (Hend k _ _ Hd) as (? & ? & ?); [lia|]. auto. }
      cbn in Hlen, Ht. split; [lia|]. split; [|by right; exists c].
      intros i result Hi _. by eapply Forall_lookup_1.
  - intros k w0 [l s0] [Hlen Ht]. unfold recorded. unfold_monad. destruct (op (w0, s0)) as [[a|e] [w1 s1]];
      cbn in *; by exists l.
  - intros k e ls (l & Hl & Hlen & Ht) He. split; rewrite Hl.
    + rewrite length_app. cbn. lia.
    + apply Forall_app. split; [done|]. apply Forall_singleton. by exists e.
Qed.

(** Before an overflow, the wait grows with the attempt up to the cap and the
    jitter moves it by a quarter of itself: it stays within a quarter of the
    cap above it and never drops below three quarters of the exponential. *)
Theorem backoff_is_jittered base attempt cap t :
  (forall t n k, 0 < n -> rand_Int t n = Some k -> 0 <= k < n) ->
  0 < base -> 0 < cap -> 0 <= attempt < 63 -> base * 2 ^ attempt <= max_int64 ->
  let d := Z.min (base * 2 ^ attempt) cap in
  d - d / 4 <= backoffDuration base attempt cap t <= d + d / 4.
Proof.
  intros Hr Hb Hc Ha Ho d. unfold backoffDuration.
  assert (Hp : 0 < 2 ^ attempt) by (apply Z.pow_pos_nonneg; lia).
  rewrite (capped_backoff_exact base attempt cap Hb Ha Ho). fold d.
  assert (Hd : 0 < d) by (subst d; nia).
  rewrite !Z.quot_div_nonneg by lia.
  pose proof (Z.div_mod d 4 ltac:(lia)). pose proof (Z.mod_pos_bound d 4 ltac:(lia)).
  pose proof (Z.div_mod d 2 ltac:(lia)). pose proof (Z.mod_pos_bound d 2 ltac:(lia)).
  destruct (Z.leb_spec (d / 2) 0); [lia|].
  destruct (rand_Int t (d / 2)) as [k|] eqn:Hk; [|lia]. specialize (Hr t (d / 2) k ltac:(lia) Hk). lia.
Qed.

(** The shift is not guarded: from the attempt on at which it overflows, the
    wait can be negative, so that the timer fires at once. The default base of
    250 ms overflows from the 37th retry on; nothing bounds the number of
    attempts a configuration may ask for. *)
Theorem storage_backoff_overflows cap t :
  0 < cap -> backoffDuration (250 * 10 ^ 6) 36 cap t = wrap64 (250 * 10 ^ 6 * 2 ^ 36) /\
  backoffDuration (250 * 10 ^ 6) 36 cap t < 0.
Proof.
  intros Hc. assert (H : backoffDuration (250 * 10 ^ 6) 36 cap t = wrap64 (250 * 10 ^ 6 * 2 ^ 36)).
  { unfold backoffDuration, capped_backoff. change (shl1_64 36) with (2 ^ 36).
    assert (Hneg : wrap64 (250 * 10 ^ 6 * 2 ^ 36) < 0) by done.
    cbv zeta. rewrite (proj2 (Z.ltb_ge _ _)) by lia.
    rewrite (proj2 (Z.leb_le _ 0)); [done|]. vm_compute. discriminate. }
  rewrite H. split; [done|]. vm_compute. reflexivity.
Qed.
End retry.

(** * Witnesses *)

#[local] Instance waiting0 : Waiting :=
  {| rand_Int _ n := Some (n - 1); interrupted _ _ _ := None |}.
Definition world0 : World := {| w_now := fun _ => 0; w_rand := fun _ => None; w_tick := 0 |}.

(** Fails once with a serialization error. *)
Definition serialize_once : M nat (res Z) := fun ws =>
  let '(w, n) := ws in
  (match n with O => Err (EWrap "get user" (EPg "40001" "serialize")) | _ => Ok 5 end,
   (w, Datatypes.S n)).
Definition three : retryConfig := mkRetry 3 (250 * 10 ^ 6) (5 * 10 ^ 9).

Lemma storage_retries_are_bounded_witness :
  exists r w' results s',
    retryOperation Background three (recorded serialize_once) 0 (world0, ([], 0%nat))
      = (r, (w', (results, s'))) /\
    1 <= Z.of_nat (length results) <= 3 /\
    results = [Err (EWrap "get user" (EPg "40001" "serialize")); Ok 5].
Proof.
  do 4 eexists. split; [vm_compute; reflexivity|]. split; [|reflexivity].
  eapply (storage_retries_are_bounded Background three serialize_once 0 world0 0%nat);
    [done|vm_compute; reflexivity].
Defined.

Lemma backoff_is_jittered_witness :
  let d := Z.min (250 * 10 ^ 6 * 2 ^ 2) (5 * 10 ^ 9) in
  d - d / 4 <= backoffDuration (250 * 10 ^ 6) 2 (5 * 10 ^ 9) 0 <= d + d / 4.
Proof.
  apply (backoff_is_jittered (250 * 10 ^ 6) 2 (5 * 10 ^ 9) 0); try lia; [|done].
  intros t n k Hn. cbn. intros [= <-]. lia.
Defined.

Lemma storage_backoff_overflows_witness : backoffDuration (250 * 10 ^ 6) 36 (5 * 10 ^ 9) 0 < 0.
Proof. refine (proj2 (storage_backoff_overflows (5 * 10 ^ 9) 0 _)). done. Defined.

End Retry.
