(* ===== verification/Engine.v ===== *)
(** What the storage layer uses of PostgreSQL through [database/sql], whatever
    the statements: what the documentation says a statement that is reported to
    have succeeded did, transactions, and a commit that may take effect although
    its acknowledgement is lost. [transact] is the shape of every transaction of
    [internal/storage/postgres.go]. A concrete faulty engine shows that the laws
    can hold. *)
From S2P Require Import Prelude GoErrors Storage.

(** * Engines *)

(** A database handle over content of type [St] and its transactions, for a
    language [stmt] of statements by the type of their result. *)
Class Engine (St : Type) (stmt : Type -> Type) := {
  DB : Type;
  Tx : Type;
  content : DB -> St;
  working : Tx -> St;
  BeginTx : Ctx -> M DB (res Tx);
  QueryTx : forall {A}, Ctx -> stmt A -> M Tx (res A);
  Commit : Tx -> M DB (option error);
  Rollback : Tx -> M DB unit;
  QueryDB : forall {A}, Ctx -> stmt A -> M DB (res A);
  PingContext : Ctx -> M DB (option error);
  CloseDB : M DB (option error)
}.

(** The meaning of the statements: the result and the content each leaves, and
    the constraints it must respect to succeed. *)
Class Semantics (St : Type) (stmt : Type -> Type) := {
  denote : forall {A}, stmt A -> St -> A * St;
  allowed : forall {A}, stmt A -> St -> Prop
}.

Class EngineLaws {St stmt} (E : Engine St stmt) `{!Semantics St stmt} := {
  begin_ok : forall ctx w d tx w' d', BeginTx ctx (w, d) = (Ok tx, (w', d')) ->
    working tx = content d /\ content d' = content d;
  begin_err : forall ctx w d e w' d', BeginTx ctx (w, d) = (Err e, (w', d')) -> content d' = content d;
  query_tx_ok : forall A ctx (q : stmt A) w t a w' t', QueryTx ctx q (w, t) = (Ok a, (w', t')) ->
    denote q (working t) = (a, working t') /\ allowed q (working t);
  commit_ok : forall tx w d w' d', Commit tx (w, d) = (None, (w', d')) -> content d' = working tx;
  commit_err : forall tx w d e w' d', Commit tx (w, d) = (Some e, (w', d')) ->
    content d' = content d \/ content d' = working tx;
  rollback : forall tx w d u w' d', Rollback tx (w, d) = (u, (w', d')) -> content d' = content d;
  query_ok : forall A ctx (q : stmt A) w d a w' d', QueryDB ctx q (w, d) = (Ok a, (w', d')) ->
    denote q (content d) = (a, content d') /\ allowed q (content d);
  query_err : forall A ctx (q : stmt A) w d e w' d', QueryDB ctx q (w, d) = (Err e, (w', d')) ->
    content d' = content d \/ (content d' = snd (denote q (content d)) /\ allowed q (content d));
  ping_content : forall ctx w d r w' d', PingContext ctx (w, d) = (r, (w', d')) -> content d' = content d;
  close_content : forall w d r w' d', CloseDB (w, d) = (r, (w', d')) -> content d' = content d
}.

(** * Steps *)

(** [if err != nil { return wrap(err) }] after a step. *)
Definition try {S A B} (m : M S (res A)) (wrap : error -> error) (k : A -> M S (res B)) : M S (res B) :=
  r <-- m ;;
  match r with
  | Err err => retM (Err (wrap err))
  | Ok a => k a
  end.

Section try.
Context {S A B : Type} (m : M S (res A)) (wrap : error -> error) (k : A -> M S (res B)).

Lemma try_ok ws a ws1 : m ws = (Ok a, ws1) -> try m wrap k ws = k a ws1.
Proof. intros H. unfold try, bindM. by rewrite H. Qed.

Lemma try_err ws e ws1 : m ws = (Err e, ws1) -> try m wrap k ws = (Err (wrap e), ws1).
Proof. intros H. unfold try, bindM. by rewrite H. Qed.

Lemma try_inv ws r ws' :
  try m wrap k ws = (r, ws') ->
  (exists a ws1, m ws = (Ok a, ws1) /\ k a ws1 = (r, ws')) \/
  (exists e, m ws = (Err e, ws') /\ r = Err (wrap e)).
Proof.
  unfold try, bindM, retM. destruct (m ws) as [[a|e] ws1].
  - intros H. left. by exists a, ws1.
  - intros [= <- <-]. right. by exists e.
Qed.
End try.

(** Go on to the successful outcome of the next step. *)
Ltac next_ok H Hq :=
  let x := fresh "x" in let w := fresh "w" in let tx := fresh "tx" in
  apply try_inv in H as [(x & [w tx] & Hq & H)|(? & _ & ?)]; [|done].

(** * Transactions *)

Section transactions.
Context {St stmt} `{HE : Engine St stmt}.

(** [BeginTx], the deferred [Rollback], and the final [Commit]. *)
Definition transact {A} (ctx : Ctx) (on_begin : error -> error) (on_commit : A -> error -> error)
    (body : M Tx (res A)) : M DB (res A) :=
  try (BeginTx ctx) on_begin (fun tx ws =>
    let '(w, d) := ws in
    let '(r, (w, tx)) := body (w, tx) in
    match r with
    | Err err => (Rollback tx ;;; retM (Err err)) (w, d)
    | Ok a =>
        (err <-- Commit tx ;;
         match err with
         | Some err => Rollback tx ;;; retM (Err (on_commit a err))
         | None => retM (Ok a)
         end) (w, d)
    end).

(** How a transaction over the content [t] ends, and the content it leaves. *)
Inductive transacted {A} (on_begin : error -> error) (on_commit : A -> error -> error)
    (body : M Tx (res A)) (t : St) : res A -> St -> Prop :=
| not_begun e : transacted on_begin on_commit body t (Err (on_begin e)) t
| body_failed w tx e w' tx' :
    body (w, tx) = (Err e, (w', tx')) -> working tx = t -> transacted on_begin on_commit body t (Err e) t
| committed w tx a w' tx' :
    body (w, tx) = (Ok a, (w', tx')) -> working tx = t ->
    transacted on_begin on_commit body t (Ok a) (working tx')
| commit_failed w tx a w' tx' e t' :
    body (w, tx) = (Ok a, (w', tx')) -> working tx = t -> t' = t \/ t' = working tx' ->
    transacted on_begin on_commit body t (Err (on_commit a e)) t'.

Context `{HS : !Semantics St stmt} `{HL : !EngineLaws HE}.

Lemma transact_run {A} ctx on_begin on_commit (body : M Tx (res A)) w d r w' d' :
  transact ctx on_begin on_commit body (w, d) = (r, (w', d')) ->
  transacted on_begin on_commit body (content d) r (content d').
Proof.
  unfold transact. intros [(tx & [w1 d1] & Hb & H)|(e & Hb & ->)]%try_inv.
  2:{ rewrite (begin_err _ _ _ _ _ _ Hb). constructor. }
  apply begin_ok in Hb as [Hw Hd1]. unfold bindM, retM in H.
  destruct (body (w1, tx)) as [[a|e] [w2 tx2]] eqn:Hbody.
  - destruct (Commit tx2 (w2, d1)) as [[err|] [w3 d3]] eqn:Hc.
    + destruct (Rollback tx2 (w3, d3)) as [u [w4 d4]] eqn:Hr. injection H as <- <- <-.
      apply rollback in Hr. apply commit_err in Hc. rewrite Hr.
      eapply commit_failed; [done|done|]. by rewrite <- Hd1.
    + injection H as <- <- <-. rewrite (commit_ok _ _ _ _ _ Hc). by eapply committed.
  - destruct (Rollback tx2 (w2, d1)) as [u [w3 d3]] eqn:Hr. injection H as <- <- <-.
    apply rollback in Hr. rewrite Hr, Hd1. by eapply body_failed.
Qed.

(** When every successful run of the body relates the content before and after
    by [P], a transaction ends with its body's result and effect, or in an error
    with or without the effect. *)
Lemma transact_rule {A} ctx on_begin on_commit (body : M Tx (res A)) w d r w' d' (P : A -> St -> Prop) :
  (forall w tx a w' tx', body (w, tx) = (Ok a, (w', tx')) -> working tx = content d -> P a (working tx')) ->
  transact ctx on_begin on_commit body (w, d) = (r, (w', d')) ->
  match r with
  | Ok a => P a (content d')
  | Err _ => content d' = content d \/ exists a, P a (content d')
  end.
Proof.
  intros HP H%transact_run. revert H. generalize (content d'). intros t' H.
  destruct H as [e|w1 tx e w2 tx2 _ _|w1 tx a w2 tx2 Hb Htx|w1 tx a w2 tx2 e t' Hb Htx Ht];
    [by left|by left|by eapply HP|]. destruct Ht as [->| ->]; [by left|]. right. exists a. by eapply HP.
Qed.

(** A read that succeeds or fails leaves the content alone. *)
Lemma read_content {A} ctx (q : stmt A) w d r w' d' :
  (forall t, snd (denote q t) = t) -> QueryDB ctx q (w, d) = (r, (w', d')) ->
  content d' = content d /\
  match r with Ok a => a = fst (denote q (content d)) /\ allowed q (content d) | Err _ => True end.
Proof.
  intros Hread Hq. destruct r as [a|e].
  - apply query_ok in Hq as [Hq Ha]. pose proof (Hread (content d)) as Hr. rewrite Hq in Hr |- *.
    by split_and!.
  - split; [|done]. apply query_err in Hq as [->|[-> _]]; [done|apply Hread].
Qed.

(** ** Invariants of the content *)

Section invariant.
Context (I : St -> Prop)
  (Hdenote : forall A (q : stmt A) t, I t -> allowed q t -> I (snd (denote q t))).

(** The successful outcomes of a step of a transaction keep the invariant. *)
Definition keeps {A} (m : M Tx (res A)) : Prop := forall w tx a w' tx',
  I (working tx) -> m (w, tx) = (Ok a, (w', tx')) -> I (working tx').

Lemma keeps_query {A} ctx (q : stmt A) : keeps (QueryTx ctx q).
Proof using Hdenote HL.
  intros w tx a w' tx' Hs [Hq Ha]%query_tx_ok. pose proof (Hdenote _ q _ Hs Ha) as H.
  by rewrite Hq in H.
Qed.
Lemma keeps_result {A} (r : res A) : keeps (retM r).
Proof using. by intros w tx a w' tx' Hs [= _ _ <-]. Qed.
Lemma keeps_world {A} (f : World -> res A * World) : keeps (worldM f).
Proof using.
  intros w tx a w' tx' Hs. unfold worldM. cbn [fst snd]. destruct (f w). by intros [= _ _ <-].
Qed.
Lemma keeps_try {A B} (m : M Tx (res A)) wrap (k : A -> M Tx (res B)) :
  keeps m -> (forall a, keeps (k a)) -> keeps (try m wrap k).
Proof using.
  intros Hm Hk w tx b w' tx' Hs [(a & [w1 tx1] & H1 & H2)|(e & _ & ?)]%try_inv; [|done].
  eapply Hk; [|exact H2]. by eapply Hm.
Qed.

Lemma transact_keeps {A} ctx on_begin on_commit (body : M Tx (res A)) w d r w' d' :
  keeps body -> I (content d) ->
  transact ctx on_begin on_commit body (w, d) = (r, (w', d')) -> I (content d').
Proof using HL.
  intros Hb Hs H.
  assert (HP : forall w tx a w' tx', body (w, tx) = (Ok a, (w', tx')) -> working tx = content d ->
    I (working tx')).
  { intros w1 tx a w2 tx2 H1 Htx. eapply Hb; [|exact H1]. by rewrite Htx. }
  apply (transact_rule _ _ _ _ _ _ _ _ _ (fun _ => I) HP) in H. destruct r; [done|].
  by destruct H as [->|[_ ?]].
Qed.

Lemma query_keeps {A} ctx (q : stmt A) w d r w' d' :
  I (content d) -> QueryDB ctx q (w, d) = (r, (w', d')) -> I (content d').
Proof using Hdenote HL.
  intros Hs Hq. destruct r as [a|e].
  - apply query_ok in Hq as [Hq Ha]. pose proof (Hdenote _ q _ Hs Ha) as H. by rewrite Hq in H.
  - apply query_err in Hq as [->|[-> Ha]]; [done|]. by apply Hdenote.
Qed.
End invariant.
End transactions.

(** * A faulty engine *)

(** Content in memory behind a connection that fails as [fault] says at each
    interaction: with an error, before or after the interaction took effect. *)
Section faulty.
Context {St stmt} `{HS : !Semantics St stmt} (fault : nat -> option (error * bool))
  (violation : forall A, stmt A -> St -> option error)
  (Hviolation : forall A (q : stmt A) t, violation A q t = None -> allowed q t).

Definition faulty_tx {A} (ctx : Ctx) (q : stmt A) : M St (res A) := fun '(w, t) =>
  match fault (w_tick w), violation A q t with
  | Some (e, _), _ => (Err e, (tick w, t))
  | None, Some e => (Err e, (tick w, t))
  | None, None => let '(a, t) := denote q t in (Ok a, (tick w, t))
  end.

Definition faulty_db {A} (ctx : Ctx) (q : stmt A) : M St (res A) := fun '(w, t) =>
  match fault (w_tick w), violation A q t with
  | Some (e, applied), v =>
      (Err e, (tick w, if applied && bool_decide (v = None) then snd (denote q t) else t))
  | None, Some e => (Err e, (tick w, t))
  | None, None => let '(a, t) := denote q t in (Ok a, (tick w, t))
  end.

Definition faulty : Engine St stmt := {|
  DB := St;
  Tx := St;
  content := id;
  working := id;
  BeginTx ctx '(w, d) :=
    (match fault (w_tick w) with Some (e, _) => Err e | None => Ok d end, (tick w, d));
  QueryTx A := faulty_tx;
  Commit tx '(w, d) :=
    match fault (w_tick w) with
    | Some (e, applied) => (Some e, (tick w, if applied : bool then tx else d))
    | None => (None, (tick w, tx))
    end;
  Rollback tx '(w, d) := (tt, (w, d));
  QueryDB A := faulty_db;
  PingContext ctx '(w, d) := (fst <$> fault (w_tick w), (tick w, d));
  CloseDB '(w, d) := (None, (w, d))
|}.

Lemma faulty_tx_ok {A} ctx (q : stmt A) w t :
  fault (w_tick w) = None -> violation A q t = None ->
  faulty_tx ctx q (w, t) = (Ok (fst (denote q t)), (tick w, snd (denote q t))).
Proof using. intros Hf Hv. unfold faulty_tx. rewrite Hf, Hv. by destruct (denote q t). Qed.

Lemma faulty_tx_violation {A} ctx (q : stmt A) w t e :
  fault (w_tick w) = None -> violation A q t = Some e -> faulty_tx ctx q (w, t) = (Err e, (tick w, t)).
Proof using. intros Hf Hv. unfold faulty_tx. by rewrite Hf, Hv. Qed.

Lemma faulty_laws : EngineLaws faulty.
Proof using Hviolation.
  split; cbn.
  - intros ctx w d tx w' d'. case_match; [by case_match|]. by intros [= -> <- ->].
  - intros ctx w d e w' d'. by intros [= _ _ ->].
  - intros A ctx q w t a w' t'. unfold faulty_tx. case_match eqn:Hx; [by case_match|].
    case_match eqn:Hv; [done|]. destruct (denote q t) as [a' t1] eqn:Hd. intros [= <- <- <-].
    split; [done|by apply Hviolation].
  - intros tx w d w' d'. case_match; [by case_match|]. by intros [= _ ->].
  - intros tx w d e w' d'. case_match; [|done]. case_match. intros [= _ _ <-]. case_match; auto.
  - by intros ? ? ? ? ? ? [= _ _ ->].
  - intros A ctx q w t a w' t'. unfold faulty_db. case_match eqn:Hx; [by case_match|].
    case_match eqn:Hv; [done|]. destruct (denote q t) as [a' t1] eqn:Hd. intros [= <- <- <-].
    split; [done|by apply Hviolation].
  - intros A ctx q w t e w' t'. unfold faulty_db. case_match eqn:Hx; case_match eqn:Hv.
    + intros [= _ _ <-]. case_match eqn:Ha; [|by left]. apply andb_true_iff in Ha as [_ Hn%bool_decide_eq_true_1].
      right. split; [done|by apply Hviolation].
    + by intros [= _ _ <-]; left.
    + destruct (denote q t). done.
  - by intros ? ? ? ? ? ? [= _ _ ->].
  - by intros ? ? ? ? ? [= _ _ ->].
Qed.
End faulty.

(** Every interaction succeeds but the [n]-th, whose acknowledgement is lost after
    it took effect. *)
Definition lost_ack (e : error) (n i : nat) : option (error * bool) :=
  if Nat.eqb i n then Some (e, true) else None.

Lemma lost_ack_ok e n i : i <> n -> lost_ack e n i = None.
Proof. intros H. unfold lost_ack. by rewrite (proj2 (Nat.eqb_neq _ _) H). Qed.

Lemma lost_ack_at e n : lost_ack e n n = Some (e, true).
Proof. unfold lost_ack. by rewrite Nat.eqb_refl. Qed.
