(* ===== verification/Database.v ===== *)
(** The tables of the migrations under [internal/storage/migrations] and the SQL
    statements [internal/storage/postgres.go] issues against them, as a language
    of statements for the engines of [Engine]. A query and the reading of its
    rows are one step, which fails with the error of the query. *)
From S2P Require Import Prelude GoStrings GoErrors Storage Engine.

(** * Tables *)

(** [users] by primary key, and [idempotency_keys]: the user of each key. *)
Record Tables := mkTables { t_users : gmap string User; t_keys : gmap string string }.

Definition set_t_users (m : gmap string User) (t : Tables) : Tables :=
  {| t_users := m; t_keys := t_keys t |}.

(** The [CHECK] constraints of [0001_users.sql]. *)
Definition row_ok (u : User) : Prop :=
  1 <= slen (Name u) <= 4096 /\ 3 <= slen (Email u) <= 4096 /\ 0 <= Age u <= 150.
#[export] Instance row_ok_dec u : Decision (row_ok u).
Proof. unfold row_ok. apply _. Defined.

(** * Statements *)

(** The statements the repository issues, by the type of their result. *)
Inductive stmt : Type -> Type :=
| LockCapacity : stmt unit
| CountUsers : stmt Z
| InsertUser (u : User) : stmt unit
| SelectKey (key : string) : stmt (option string)
| InsertKey (key id : string) : stmt unit
| SelectUser (id : string) : stmt (option User)
| SelectUserForUpdate (id : string) : stmt (option User)
| ExistsForUpdate (id : string) : stmt bool
| UpdateUsers (u : User) : stmt Z
| DeleteUsers (id : string) : stmt Z
| SelectAfter (after : string) (limit : Z) : stmt (list User).

(** How the server keeps and orders text and times: [stored] is the user a row
    reads back as, in the resolution of [TIMESTAMPTZ]; [collate] is the
    collation of text columns. *)
Class Rows := {
  stored : User -> User;
  collate : string -> string -> Prop;
  collate_dec :: RelDecision collate
}.

Definition isUniqueViolation (err : error) : bool := bool_decide (as_pg err = Some "23505").

Section semantics.
Context `{HR : Rows}.

Definition insert_row (u : User) (t : Tables) : Tables :=
  set_t_users (<[Id u := stored u]> (t_users t)) t.

(** [ON DELETE CASCADE]. *)
Definition delete_row (id : string) (t : Tables) : Tables :=
  {| t_users := delete id (t_users t);
     t_keys := filter (fun kv => kv.2 <> id) (t_keys t) |}.

Definition insert_key (key id : string) (t : Tables) : Tables :=
  {| t_users := t_users t; t_keys := <[key := id]> (t_keys t) |}.

(** [WHERE id > $1 ORDER BY id ASC], by the collation. *)
Definition after_ids (after : string) (t : Tables) : list string :=
  merge_sort collate
    (List.filter (fun id => bool_decide (collate after id /\ id <> after)) (map fst (map_to_list (t_users t)))).

(** The result of a statement and the tables it leaves. *)
Definition denote_stmt {A} (q : stmt A) (t : Tables) : A * Tables :=
  match q in stmt A return A * Tables with
  | LockCapacity => (tt, t)
  | CountUsers => (Z.of_nat (size (t_users t)), t)
  | InsertUser u => (tt, insert_row u t)
  | SelectKey key => (t_keys t !! key, t)
  | InsertKey key id => (tt, insert_key key id t)
  | SelectUser id => (t_users t !! id, t)
  | SelectUserForUpdate id => (t_users t !! id, t)
  | ExistsForUpdate id => (bool_decide (is_Some (t_users t !! id)), t)
  | UpdateUsers u =>
      match t_users t !! Id u with
      | Some _ => (1, insert_row u t)
      | None => (0, t)
      end
  | DeleteUsers id =>
      match t_users t !! id with
      | Some _ => (1, delete_row id t)
      | None => (0, t)
      end
  | SelectAfter after limit =>
      (omap (fun id => t_users t !! id) (take (Z.to_nat limit) (after_ids after t)), t)
  end.

(** The constraints a statement must respect to succeed: primary keys, the
    foreign key, the checks, and a [LIMIT] that is not negative. *)
Definition allowed_stmt {A} (q : stmt A) (t : Tables) : Prop :=
  match q with
  | InsertUser u => t_users t !! Id u = None /\ row_ok u
  | InsertKey key id => t_keys t !! key = None /\ is_Some (t_users t !! id)
  | UpdateUsers u => is_Some (t_users t !! Id u) -> row_ok u
  | SelectAfter _ limit => 0 <= limit
  | _ => True
  end.

#[export] Instance tables_semantics : Semantics Tables stmt := {|
  denote A := denote_stmt;
  allowed A := allowed_stmt
|}.
End semantics.

(** * The documented behaviour *)

(** A stored row keeps every field but the resolution of its times, the collation
    is a total order, and a statement is refused as a violation of uniqueness
    only when its primary key is taken. *)
Class DatabaseLaws `{HR : Rows} (E : Engine Tables stmt) := {
  engine_laws :: EngineLaws E;
  stored_fields : forall u, Id (stored u) = Id u /\ Name (stored u) = Name u /\
    Email (stored u) = Email u /\ Age (stored u) = Age u;
  collate_total :: Total collate;
  collate_trans :: Transitive collate;
  collate_anti :: AntiSymm (=) collate;
  insert_unique : forall ctx u w t e w' t', QueryTx ctx (InsertUser u) (w, t) = (Err e, (w', t')) ->
    isUniqueViolation e = true -> is_Some (t_users (working t) !! Id u)
}.

(** * A faulty database *)

(** The error a statement that breaks a constraint is refused with. *)
Definition violation (A : Type) (q : stmt A) (t : Tables) : option error :=
  match q with
  | InsertUser u =>
      match t_users t !! Id u with
      | Some _ => Some (EPg "23505" "duplicate key value violates unique constraint")
      | None => if decide (row_ok u) then None else Some (EPg "23514" "violates check constraint")
      end
  | InsertKey key id =>
      match t_keys t !! key with
      | Some _ => Some (EPg "23505" "duplicate key value violates unique constraint")
      | None => match t_users t !! id with
                | Some _ => None
                | None => Some (EPg "23503" "violates foreign key constraint")
                end
      end
  | UpdateUsers u =>
      match t_users t !! Id u with
      | Some _ => if decide (row_ok u) then None else Some (EPg "23514" "violates check constraint")
      | None => None
      end
  | SelectAfter _ limit => if limit <? 0 then Some (EPg "2201W" "LIMIT must not be negative") else None
  | _ => None
  end.

(** Times to the microsecond. *)
Definition micro (t : Timestamp) : Timestamp :=
  {| Seconds := Seconds t; Nanos := Nanos t / 1000 * 1000 |}.
Definition micro_user (u : User) : User :=
  {| Id := Id u; Name := Name u; Email := Email u; Age := Age u;
     CreatedAt := micro <$> CreatedAt u; UpdatedAt := micro <$> UpdatedAt u |}.

#[local] Instance rows0 : Rows := {| stored := micro_user; collate := String.le |}.

Lemma violation_allowed A (q : stmt A) t : violation A q t = None -> allowed q t.
Proof.
  destruct q; cbn; try done.
  - destruct (t_users t !! Id u); [done|]. by case_decide.
  - destruct (t_keys t !! key); [done|]. by destruct (t_users t !! id).
  - intros Hv [u' Hu]. rewrite Hu in Hv. by case_decide.
  - case_match; [done|]. by bools.
Qed.

(** The laws hold of every such database, if no fault poses as a violation of a
    primary key. *)
Lemma faulty_database_laws fault :
  (forall n e applied, fault n = Some (e, applied) -> isUniqueViolation e = false) ->
  DatabaseLaws (faulty fault violation).
Proof.
  intros Hf. split; [apply faulty_laws, violation_allowed|done|apply _|apply _|apply _|].
  intros ctx u w t e w' t'. cbn [QueryTx faulty]. unfold faulty_tx. case_match eqn:Hx.
  { case_match. intros [= <- _ _] Hu. by rewrite (Hf _ _ _ Hx) in Hu. }
  cbn. destruct (t_users t !! Id u) eqn:Hu; [intros; by eexists|].
  case_decide; [done|]. by intros [= <- _ _].
Qed.
