(* ===== verification/Postgres.v ===== *)
(** [PostgresRepository] of [internal/storage/postgres.go] over the database of
    [Database], with the retries of [Retry]: every operation, and what it leaves
    in the tables when acknowledgements are lost and attempts repeated.

    Calls with the nil context, which [database/sql] answers with a panic, are
    outside the model; the service refuses them. *)
From S2P Require Import Prelude GoStrings GoErrors Storage Retry Engine Database.
Import Retry.

Module Postgres.

Section postgres.
Context `{HW : Waiting} `{HR : Rows} `{HD : !Engine Tables stmt}.

(** * The repository *)

Definition defaultRetryAttempts : Z := 3.
Definition defaultRetryBackoff : Z := 250 * 10 ^ 6.
Definition defaultRetryMaxBackoff : Z := 5 * 10 ^ 9.

Record PostgresConfig := mkPostgres {
  URL : string;
  MaxOpenConns : Z;
  MaxIdleConns : Z;
  ConnMaxLifetime : Z;
  PingTimeout : Z;
  RetryAttempts : Z;
  RetryBackoff : Z;
  RetryMaxBackoff : Z
}.

(** The settings [NewPostgresRepository] gives the repository; the handle is the
    state. *)
Record PostgresRepository := mkRepo {
  retryAttempts : Z;
  retryBackoff : Z;
  retryMaxBackoff : Z
}.

Definition repository_of (cfg : PostgresConfig) : PostgresRepository := {|
  retryAttempts := if RetryAttempts cfg <=? 0 then defaultRetryAttempts else RetryAttempts cfg;
  retryBackoff := if RetryBackoff cfg <=? 0 then defaultRetryBackoff else RetryBackoff cfg;
  retryMaxBackoff := if RetryMaxBackoff cfg <=? 0 then defaultRetryMaxBackoff else RetryMaxBackoff cfg
|}.

Definition retryCfg (r : PostgresRepository) : retryConfig :=
  mkRetry (retryAttempts r) (retryBackoff r) (retryMaxBackoff r).

(** ** Steps of an operation *)

Definition zero_time_seconds : Z := -62135596800.
Definition IsZero (t : Timestamp) : bool :=
  Seconds t * 10 ^ 9 + Nanos t =? zero_time_seconds * 10 ^ 9.

Definition userTimes (user : User) : option error :=
  match CreatedAt user, UpdatedAt user with
  | Some createdAt, Some updatedAt =>
      if negb (IsZero createdAt) && negb (IsZero updatedAt) then None
      else Some (EStorage storage.ErrInvalid)
  | _, _ => Some (EStorage storage.ErrInvalid)
  end.

Definition usable (user : User) : bool :=
  negb (bool_decide (Id user = "") || bool_decide (Name user = "") || bool_decide (Email user = "")).

Definition insert_error (err : error) : error :=
  if isUniqueViolation err then EStorage storage.ErrAlreadyExists else EWrap "insert user" err.

(** * Operations *)

(** The capacity check and the insertion. *)
Definition insert_checked (ctx : Ctx) (user : User) (maxUsers : Z) : M Tx (res unit) :=
  try (QueryTx ctx CountUsers) (EWrap "count users") (fun count =>
  if maxUsers <=? count then retM (Err (EStorage storage.ErrCapacity)) else
  try (QueryTx ctx (InsertUser user)) insert_error (fun _ => retM (Ok tt))).

Definition create_once (ctx : Ctx) (user : User) (maxUsers : Z) : M DB (res unit) :=
  match userTimes user with
  | Some err => retM (Err err)
  | None =>
      transact ctx (EWrap "begin create") (fun _ => EWrap "commit create")
        (try (QueryTx ctx LockCapacity) (EWrap "lock user capacity") (fun _ =>
         insert_checked ctx user maxUsers))
  end.

Definition Create (r : PostgresRepository) (ctx : Ctx) (user : option User) (maxUsers : Z)
  : M DB (option error) :=
  match user with
  | None => retM (Some (EStorage storage.ErrInvalid))
  | Some user =>
      if usable user then
        o <-- retryOperation ctx (retryCfg r) (create_once ctx user maxUsers) tt ;;
        retM (match o with Ok _ => None | Err err => Some err end)
      else retM (Some (EStorage storage.ErrInvalid))
  end.

(** [scanUserTx]. *)
Definition scanUserTx (ctx : Ctx) (id : string) : M Tx (res User) :=
  try (QueryTx ctx (SelectUser id)) (EWrap "load user") (fun u =>
  match u with
  | None => retM (Err (EStorage storage.ErrNotFound))
  | Some u => retM (Ok u)
  end).

Definition keyed_once (ctx : Ctx) (user : User) (maxUsers : Z) (idempotencyKey : string)
  : M DB (res (User * bool)) :=
  match userTimes user with
  | Some err => retM (Err err)
  | None =>
      transact ctx (EWrap "begin idempotent create")
        (fun '(_, replayed) err => if replayed : bool then err else EWrap "commit idempotent create" err)
        (try (QueryTx ctx LockCapacity) (EWrap "lock user capacity") (fun _ =>
         try (QueryTx ctx (SelectKey idempotencyKey)) (EWrap "lookup idempotency key") (fun existingID =>
         match existingID with
         | Some existingID =>
             try (scanUserTx ctx existingID) (fun err => err) (fun u => retM (Ok (u, true)))
         | None =>
             try (insert_checked ctx user maxUsers) (fun err => err) (fun _ =>
             try (QueryTx ctx (InsertKey idempotencyKey (Id user))) (EWrap "insert idempotency key") (fun _ =>
             retM (Ok (user, false))))
         end)))
  end.

(** The user a nil pointer reads as. *)
Definition nil_user : User := mkUser "" "" "" 0 None None.

Definition CreateWithIdempotency (r : PostgresRepository) (ctx : Ctx) (user : option User)
    (maxUsers : Z) (idempotencyKey : string) : M DB (res (User * bool)) :=
  if bool_decide (idempotencyKey = "") then
    err <-- Create r ctx user maxUsers ;;
    retM (match err, user with
          | Some err, _ => Err err
          | None, Some user => Ok (user, false)
          | None, None => Ok (nil_user, false)
          end)
  else
    match user with
    | None => retM (Err (EStorage storage.ErrInvalid))
    | Some user =>
        if usable user
        then retryOperation ctx (retryCfg r) (keyed_once ctx user maxUsers idempotencyKey) (nil_user, false)
        else retM (Err (EStorage storage.ErrInvalid))
    end.

Definition Get (r : PostgresRepository) (ctx : Ctx) (id : string) : M DB (res User) :=
  retryOperation ctx (retryCfg r)
    (try (QueryDB ctx (SelectUser id)) (EWrap "get user") (fun u =>
     match u with
     | None => retM (Err (EStorage storage.ErrNotFound))
     | Some u => retM (Ok u)
     end)) nil_user.

Definition List (r : PostgresRepository) (ctx : Ctx) (limit : Z) (afterID : string)
  : M DB (res (list User * string)) :=
  if limit <=? 0 then retM (Err (EStorage storage.ErrInvalid)) else
  retryOperation ctx (retryCfg r)
    (try (QueryDB ctx (SelectAfter afterID (wrap64 (limit + 1)))) (EWrap "list users") (fun collected =>
     if limit <? Z.of_nat (length collected) then
       let page := take (Z.to_nat limit) collected in
       retM (Ok (page, from_option Id "" (last page)))
     else retM (Ok (collected, "")))) ([], "").

Definition update_once (ctx : Ctx) (user : User) : M DB (res unit) :=
  match userTimes user with
  | Some err => retM (Err err)
  | None =>
      transact ctx (EWrap "begin update") (fun _ err => err)
        (try (QueryTx ctx (ExistsForUpdate (Id user))) (EWrap "lock user for update") (fun exists_ =>
         if negb exists_ then retM (Err (EStorage storage.ErrNotFound)) else
         try (QueryTx ctx (UpdateUsers user)) (EWrap "update user") (fun rows =>
         if rows =? 0 then retM (Err (EStorage storage.ErrNotFound)) else retM (Ok tt))))
  end.

Definition Update (r : PostgresRepository) (ctx : Ctx) (user : option User) : M DB (option error) :=
  match user with
  | None => retM (Some (EStorage storage.ErrInvalid))
  | Some user =>
      if usable user then
        o <-- retryOperation ctx (retryCfg r) (update_once ctx user) tt ;;
        retM (match o with Ok _ => None | Err err => Some err end)
      else retM (Some (EStorage storage.ErrInvalid))
  end.

Definition delete_once (ctx : Ctx) (id : string) : M DB (res unit) :=
  try (QueryDB ctx (DeleteUsers id)) (EWrap "delete user") (fun rows =>
  if rows =? 0 then retM (Err (EStorage storage.ErrNotFound)) else retM (Ok tt)).

Definition Delete (r : PostgresRepository) (ctx : Ctx) (id : string) : M DB (option error) :=
  o <-- retryOperation ctx (retryCfg r) (delete_once ctx id) tt ;;
  retM (match o with Ok _ => None | Err err => Some err end).

(** The callback runs in the middle of the transaction. *)
Definition mutate_once (ctx : Ctx) (id : string) (mutate : ReadModifyUpdateFn) : M DB (res User) :=
  transact ctx (EWrap "begin read-modify-update") (fun _ => EWrap "commit read-modify-update")
    (try (QueryTx ctx (SelectUserForUpdate id)) (EWrap "lock user for read-modify-update") (fun loaded =>
     match loaded with
     | None => retM (Err (EStorage storage.ErrNotFound))
     | Some loaded =>
         try (worldM (mutate loaded)) (fun err => err) (fun working =>
         match userTimes working with
         | Some err => retM (Err err)
         | None =>
             try (QueryTx ctx (UpdateUsers working)) (EWrap "update user in read-modify-update") (fun _ =>
             retM (Ok working))
         end)
     end)).

Definition ReadModifyUpdate (r : PostgresRepository) (ctx : Ctx) (id : string)
    (mutate : option ReadModifyUpdateFn) : M DB (res User) :=
  if blank id then retM (Err (EStorage storage.ErrInvalid)) else
  match mutate with
  | None => retM (Err (EStorage storage.ErrInvalid))
  | Some mutate => retryOperation ctx (retryCfg r) (mutate_once ctx id mutate) nil_user
  end.

Definition Ping (r : PostgresRepository) (ctx : option Ctx) : M DB (option error) :=
  match ctx with
  | None => retM (Some (EStorage storage.ErrInvalid))
  | Some ctx => PingContext ctx
  end.

Definition Close (r : PostgresRepository) : M DB (option error) := CloseDB.

(** * Lemmas *)

Context `{HDL : !DatabaseLaws HD}.

Lemma insert_checked_ok ctx u max w tx r w' tx' :
  insert_checked ctx u max (w, tx) = (Ok r, (w', tx')) ->
  t_users (working tx) !! Id u = None /\ Z.of_nat (size (t_users (working tx))) < max /\ row_ok u /\
  working tx' = insert_row u (working tx).
Proof.
  unfold insert_checked. intros [(n & [w1 t1] & Hq & H)|(e & _ & ?)]%try_inv; [|done].
  apply query_tx_ok in Hq as [Hq _]. injection Hq as <- Ht1.
  destruct (Z.leb_spec max (Z.of_nat (size (t_users (working tx))))); [done|].
  apply try_inv in H as [(x & [w2 t2] & Hq & H)|(e & _ & ?)]; [|done]. injection H as _ <- <-.
  apply query_tx_ok in Hq as [Hq [Hf Hok]]. injection Hq as _ Ht2. rewrite <- Ht1 in Hf, Ht2. auto.
Qed.

(** An insertion is refused as existing only when the id is taken. *)
Lemma insert_checked_exists ctx u max w tx w' tx' :
  insert_checked ctx u max (w, tx) = (Err (EStorage storage.ErrAlreadyExists), (w', tx')) ->
  is_Some (t_users (working tx) !! Id u).
Proof.
  unfold insert_checked. intros [(n & [w1 t1] & Hq & H)|(e & _ & ?)]%try_inv; [|done].
  apply query_tx_ok in Hq as [Hq _]. injection Hq as <- Ht1. case_match; [done|].
  apply try_inv in H as [(x & ws & _ & ?)|(e & Hq & He)]; [done|].
  unfold insert_error in He. case_match; [|done]. rewrite Ht1. by eapply insert_unique.
Qed.

(** ** What each attempt does to the tables *)

(** There is room for the user, and the schema takes it. *)
Definition admissible (u : User) (max : Z) (t : Tables) : Prop :=
  t_users t !! Id u = None /\ Z.of_nat (size (t_users t)) < max /\ row_ok u.

Lemma insert_row_present u t : t_users (insert_row u t) !! Id u = Some (stored u).
Proof. apply lookup_insert_eq. Qed.

(** The tables before a call, or after its insertion took effect. *)
Definition maybe_created (u : User) (max : Z) (t t' : Tables) : Prop :=
  t' = t \/ (admissible u max t /\ t' = insert_row u t).

Lemma create_once_step u max ctx t w d r w' d' :
  maybe_created u max t (content d) -> create_once ctx u max (w, d) = (r, (w', d')) ->
  match r with
  | Ok _ => admissible u max t /\ content d' = insert_row u t
  | Err e => maybe_created u max t (content d') /\
             (e = EStorage storage.ErrAlreadyExists -> is_Some (t_users (content d') !! Id u))
  end.
Proof using HDL.
  intros Hi. unfold create_once. destruct (userTimes u) as [e|] eqn:Hut.
  { intros [= <- _ <-]. split; [done|]. intros ->. unfold userTimes in Hut. repeat case_match; done. }
  intros H%transact_run. revert H.
  match goal with |- transacted _ ?oc ?b _ _ _ -> _ => set (on_commit := oc); set (body := b) end.
  assert (Hbody : forall w tx a w' tx', body (w, tx) = (Ok a, (w', tx')) -> working tx = content d ->
    admissible u max t /\ working tx' = insert_row u t).
  { intros w1 tx a w2 tx2 Hb Htx. next_ok Hb Hq. apply query_tx_ok in Hq as [Hq _]. injection Hq as _ Ht3.
    apply insert_checked_ok in Hb as (Hf & Hs & Hr & Ht2). rewrite <- Ht3, Htx in Hf, Hs, Ht2.
    destruct Hi as [Hi|[_ Hi]]; rewrite Hi in Hf, Hs, Ht2; [by split_and!|].
    by rewrite insert_row_present in Hf. }
  generalize (content d') as t'.
  intros t' [e|w1 tx e w2 tx2 Hb Htx|w1 tx a w2 tx2 Hb Htx|w1 tx a w2 tx2 e t'' Hb Htx Ht];
    [done| |by eapply Hbody|].
  - split; [done|]. intros ->. apply try_inv in Hb as [(x & [w3 t3] & Hq & Hins)|(e & _ & ?)]; [|done].
    apply query_tx_ok in Hq as [Hq _]. injection Hq as _ Ht3. rewrite <- Htx, Ht3.
    by eapply insert_checked_exists.
  - destruct (Hbody _ _ _ _ _ Hb Htx) as [Ha Hw]. split; [|done]. destruct Ht as [->| ->]; [done|by right].
Qed.

Definition maybe_keyed (u : User) (max : Z) (key : string) (t t' : Tables) : Prop :=
  t' = t \/ (admissible u max t /\ t_keys t !! key = None /\
            t' = insert_key key (Id u) (insert_row u t)).

(** The key belongs to the stored user [st]. *)
Definition recorded_user (key : string) (st : User) (t : Tables) : Prop :=
  exists id, t_keys t !! key = Some id /\ t_users t !! id = Some st.

Lemma scanUserTx_ok ctx id w tx u w' tx' :
  scanUserTx ctx id (w, tx) = (Ok u, (w', tx')) ->
  t_users (working tx) !! id = Some u /\ working tx' = working tx.
Proof using HDL.
  unfold scanUserTx. intros H. next_ok H Hq. apply query_tx_ok in Hq as [Hq _]. injection Hq as Hx Ht.
  destruct x; [|done]. injection H as <- _ <-. by rewrite Hx, Ht.
Qed.

Lemma keyed_once_step u max key ctx t w d r w' d' :
  maybe_keyed u max key t (content d) -> keyed_once ctx u max key (w, d) = (r, (w', d')) ->
  match r with
  | Ok (st, false) => st = u /\ admissible u max t /\ t_keys t !! key = None /\
                      content d' = insert_key key (Id u) (insert_row u t)
  | Ok (st, true) => maybe_keyed u max key t (content d') /\ recorded_user key st (content d')
  | Err _ => maybe_keyed u max key t (content d')
  end.
Proof using HDL.
  intros Hi. unfold keyed_once. destruct (userTimes u) as [e|]; [by intros [= <- _ <-]|].
  intros H%transact_run. revert H.
  match goal with |- transacted _ ?oc ?b _ _ _ -> _ => set (on_commit := oc); set (body := b) end.
  assert (Hbody : forall w tx st (rep : bool) w' tx',
    body (w, tx) = (Ok (st, rep), (w', tx')) -> working tx = content d ->
    if rep then working tx' = content d /\ recorded_user key st (content d)
    else st = u /\ admissible u max t /\ t_keys t !! key = None /\
         working tx' = insert_key key (Id u) (insert_row u t)).
  { subst body. intros w1 tx st rep w2 tx2 Hb Htx. next_ok Hb Hq1.
    apply query_tx_ok in Hq1 as [Hq1 _]. injection Hq1 as _ Ht1.
    next_ok Hb Hq2. apply query_tx_ok in Hq2 as [Hq2 _]. injection Hq2 as Hk Ht2.
    rewrite <- Ht1, Htx in Ht2, Hk. destruct x0 as [id|].
    - next_ok Hb Hq3. injection Hb as <- <- _ <-. apply scanUserTx_ok in Hq3 as [Hu ->].
      rewrite <- Ht2 in Hu |- *. split; [done|]. by exists id.
    - next_ok Hb Hq3. apply insert_checked_ok in Hq3 as (Hf & Hs & Hr & Ht3).
      next_ok Hb Hq4. injection Hb as <- <- _ <-. apply query_tx_ok in Hq4 as [Hq4 _].
      injection Hq4 as _ Ht4. rewrite <- Ht4, Ht3. rewrite <- Ht2 in Hf, Hs |- *.
      destruct Hi as [Hi|(_ & _ & Hi)]; rewrite Hi in Hf, Hs, Hk |- *; [by split_and!|].
      cbn in Hk. by rewrite lookup_insert_eq in Hk. }
  generalize (content d') as t'.
  intros t' [e|w1 tx e ws _ _|w1 tx [st rep] w2 tx2 Hb Htx|w1 tx [st rep] w2 tx2 e t'' Hb Htx Ht]; [done|done| |].
  - pose proof (Hbody _ _ _ _ _ _ Hb Htx) as Hp. destruct rep; [|exact Hp]. by destruct Hp as [-> ?].
  - pose proof (Hbody _ _ _ _ _ _ Hb Htx) as Hp. destruct rep.
    + destruct Hp as [Hw _]. destruct Ht as [->| ->]; [done|by rewrite Hw].
    + destruct Hp as (_ & ? & ? & Hw). destruct Ht as [->| ->]; [done|right]. by split_and!.
Qed.

Definition maybe_deleted (id : string) (t t' : Tables) : Prop :=
  t' = t \/ (is_Some (t_users t !! id) /\ t' = delete_row id t).

Lemma delete_once_step id ctx t w d r w' d' :
  maybe_deleted id t (content d) -> delete_once ctx id (w, d) = (r, (w', d')) ->
  match r with
  | Ok _ => is_Some (t_users t !! id) /\ content d' = delete_row id t
  | Err e => maybe_deleted id t (content d') /\
             (e = EStorage storage.ErrNotFound -> t_users (content d') !! id = None)
  end.
Proof using HDL.
  intros Hi. unfold delete_once.
  assert (Hden : forall n t', denote (DeleteUsers id) (content d) = (n, t') ->
    (n = 0 /\ t' = content d /\ t_users t' !! id = None) \/
    (n = 1 /\ is_Some (t_users t !! id) /\ t' = delete_row id t)).
  { intros n t'. cbn. destruct (t_users (content d) !! id) eqn:Hu; intros [= <- <-]; [right|by left].
    destruct Hi as [Hi|[_ Hi]]; rewrite Hi in Hu |- *; [split; [done|]; split; [by eexists|done]|].
    cbn in Hu. by rewrite lookup_delete_eq in Hu. }
  intros [(n & [w1 d1] & Hq & H)|(e & Hq & ->)]%try_inv.
  - apply query_ok in Hq as [Hq _]. destruct (Hden _ _ Hq) as [(-> & Hd & Hn)|(-> & Hp & Hd)].
    + injection H as <- _ <-. rewrite Hd in *. by split.
    + injection H as <- _ <-. by split.
  - apply query_err in Hq as [Hd|[Hd _]]; (split; [|done]).
    + by rewrite Hd.
    + destruct (denote (DeleteUsers id) (content d)) as [n t'] eqn:E. cbn in Hd. rewrite Hd.
      destruct (Hden _ _ eq_refl) as [(_ & -> & _)|(_ & Hp & ->)]; [done|by right].
Qed.

Definition maybe_updated (u : User) (t t' : Tables) : Prop :=
  t' = t \/ (is_Some (t_users t !! Id u) /\ t' = insert_row u t).

Lemma insert_row_twice u t : insert_row u (insert_row u t) = insert_row u t.
Proof using. unfold insert_row, set_t_users. cbn. by rewrite insert_insert_eq. Qed.

Lemma update_once_step u ctx t w d r w' d' :
  maybe_updated u t (content d) -> update_once ctx u (w, d) = (r, (w', d')) ->
  match r with
  | Ok _ => is_Some (t_users t !! Id u) /\ content d' = insert_row u t
  | Err _ => maybe_updated u t (content d')
  end.
Proof using HDL.
  intros Hi. unfold update_once. destruct (userTimes u) as [e|]; [by intros [= <- _ <-]|].
  intros H%transact_run. revert H.
  match goal with |- transacted _ ?oc ?b _ _ _ -> _ => set (on_commit := oc); set (body := b) end.
  assert (Hbody : forall w tx a w' tx',
    body (w, tx) = (Ok a, (w', tx')) -> working tx = content d ->
    is_Some (t_users t !! Id u) /\ working tx' = insert_row u t).
  { subst body. intros w1 tx a w2 tx2 Hb Htx. next_ok Hb Hq1.
    apply query_tx_ok in Hq1 as [Hq1 _]. injection Hq1 as _ Ht1. destruct (negb x); [done|].
    next_ok Hb Hq2. apply query_tx_ok in Hq2 as [Hq2 _]. rewrite <- Ht1, Htx in Hq2. cbn in Hq2.
    destruct (t_users (content d) !! Id u) as [u0|] eqn:Hu; injection Hq2 as <- Ht2; [|done].
    injection Hb as _ _ <-. rewrite <- Ht2.
    destruct Hi as [Hi|[Hp Hi]]; rewrite Hi in Hu |- *; [by eauto|].
    split; [done|apply insert_row_twice]. }
  generalize (content d') as t'.
  intros t' [e|w1 tx e ws _ _|w1 tx a w2 tx2 Hb Htx|w1 tx a w2 tx2 e t'' Hb Htx Ht];
    [done|done|by eapply Hbody|].
  destruct (Hbody _ _ _ _ _ Hb Htx) as [Ha Hw]. destruct Ht as [->| ->]; [done|by right].
Qed.

(** [mutations id mutate n t last t']: the callback, applied [n] times in [n]
    transactions to the row as the one before left it, turns [t] into [t'];
    [last] is the user of the last one. *)
Inductive mutations (id : string) (mutate : ReadModifyUpdateFn) (t : Tables)
    : nat -> option User -> Tables -> Prop :=
| mutations_none : mutations id mutate t 0 None t
| mutations_more n last t' u u' w w' :
    mutations id mutate t n last t' -> t_users t' !! id = Some u -> mutate u w = (Ok u', w') ->
    mutations id mutate t (S n) (Some u') (insert_row u' t').

Definition keyed (t : Tables) : Prop := forall id u, t_users t !! id = Some u -> Id u = id.

Lemma keyed_insert_row u t : keyed t -> keyed (insert_row u t).
Proof using HDL.
  intros Hk id u'. cbn. rewrite lookup_insert. case_decide; [|apply Hk].
  intros [= <-]. subst id. by destruct (stored_fields u).
Qed.

Definition mutated (id : string) (mutate : ReadModifyUpdateFn) (t : Tables) (bound : nat) (t' : Tables)
  : Prop := keyed t' /\ exists n last, (n <= bound)%nat /\ mutations id mutate t n last t'.

Lemma mutate_once_step id mutate ctx t k w d r w' d' :
  keeps_id mutate -> mutated id mutate t k (content d) ->
  mutate_once ctx id mutate (w, d) = (r, (w', d')) ->
  match r with
  | Ok u => exists n, (n <= k)%nat /\ mutations id mutate t (S n) (Some u) (content d')
  | Err _ => mutated id mutate t (S k) (content d')
  end.
Proof using HDL.
  intros Hid (Hk & n & lst & Hn & Hm) H%transact_run. revert H.
  match goal with |- transacted _ ?oc ?b _ _ _ -> _ => set (on_commit := oc); set (body := b) end.
  assert (Hbody : forall w tx u' w' tx',
    body (w, tx) = (Ok u', (w', tx')) -> working tx = content d ->
    keyed (working tx') /\ mutations id mutate t (S n) (Some u') (working tx')).
  { subst body. intros w1 tx u' w2 tx2 Hb Htx. next_ok Hb Hq1.
    apply query_tx_ok in Hq1 as [Hq1 _]. rewrite Htx in Hq1. injection Hq1 as Hu Ht1.
    destruct x as [u|]; [|done]. next_ok Hb Hmu. unfold worldM in Hmu. cbn [fst snd] in Hmu.
    destruct (mutate u w0) as [ru wm] eqn:Hmut. injection Hmu as -> <- <-.
    destruct (userTimes x); [done|]. next_ok Hb Hq2. injection Hb as <- _ <-.
    apply query_tx_ok in Hq2 as [Hq2 _]. rewrite <- Ht1 in Hq2. cbn in Hq2.
    assert (Hx : Id x = id) by (rewrite (Hid _ _ _ _ Hmut); by apply Hk).
    rewrite Hx, Hu in Hq2. injection Hq2 as _ <-.
    split; [by apply keyed_insert_row|]. by econstructor. }
  assert (Hsame : mutated id mutate t (S k) (content d)).
  { split; [done|]. exists n, lst. split; [lia|done]. }
  generalize (content d') as t'.
  intros t' [e|w1 tx e ws _ _|w1 tx a w2 tx2 Hb Htx|w1 tx a w2 tx2 e t'' Hb Htx Ht];
    [done|done|by exists n; destruct (Hbody _ _ _ _ _ Hb Htx)|].
  destruct (Hbody _ _ _ _ _ Hb Htx) as [Hk' Hm']. destruct Ht as [->| ->]; [done|].
  split; [done|]. exists (S n), (Some a). split; [lia|done].
Qed.

(** ** The constraints of the schema *)

(** What the constraints of the migrations say: primary keys, checks, and the
    foreign key of [idempotency_keys]. *)
Definition schema_ok (t : Tables) : Prop :=
  (forall id u, t_users t !! id = Some u -> Id u = id /\ row_ok u) /\
  (forall key id, t_keys t !! key = Some id -> is_Some (t_users t !! id)).

Lemma stored_row_ok u : row_ok u -> row_ok (stored u).
Proof using HDL.
  unfold row_ok. by destruct (stored_fields u) as (_ & -> & -> & ->).
Qed.

Lemma schema_insert_row u t : row_ok u -> schema_ok t -> schema_ok (insert_row u t).
Proof using HDL.
  intros Hu [H1 H2]. split; cbn.
  - intros id u'. rewrite lookup_insert. case_decide; [|apply H1]. intros [= <-]. subst id.
    split; [by destruct (stored_fields u)|by apply stored_row_ok].
  - intros key id Hk. rewrite lookup_insert. case_decide; [by eexists|by eapply H2].
Qed.

Lemma schema_denote {A} (q : stmt A) t :
  schema_ok t -> allowed q t -> schema_ok (snd (denote q t)).
Proof using HDL.
  intros Hs Ha. destruct q; cbn in *; try done.
  - destruct Ha. by apply schema_insert_row.
  - destruct Hs as [H1 H2]. split; [exact H1|]. cbn. intros key' id'. rewrite lookup_insert.
    case_decide; [intros [= <-]; apply Ha|apply H2].
  - destruct (t_users t !! Id u) eqn:Hu; [|done]. apply schema_insert_row; [|done]. apply Ha. by eexists.
  - destruct (t_users t !! id); [|done]. destruct Hs as [H1 H2]. split; cbn.
    + intros id' u'. rewrite lookup_delete_Some. intros [_ ?]. by apply H1.
    + intros key' id'. rewrite map_lookup_filter_Some. cbn. intros [Hk Hne].
      rewrite lookup_delete_ne by done. by eapply H2.
Qed.

(** The steps of a transaction keep the constraints, by the rules of [Engine]. *)
Ltac keeps_schema_tac :=
  repeat first [ apply keeps_query; intros; by apply schema_denote | apply keeps_result | apply keeps_world
               | apply keeps_try; [|intros]
               | match goal with |- keeps _ (match ?x with _ => _ end) => destruct x end
               | match goal with |- keeps _ (if ?x then _ else _) => destruct x end
               | progress unfold scanUserTx, insert_checked ].

Lemma transact_schema {A} ctx on_begin on_commit (body : M Tx (res A)) w d r w' d' :
  keeps schema_ok body -> schema_ok (content d) ->
  transact ctx on_begin on_commit body (w, d) = (r, (w', d')) -> schema_ok (content d').
Proof using HDL. apply transact_keeps. Qed.

Lemma query_schema {A} ctx (q : stmt A) w d r w' d' :
  schema_ok (content d) -> QueryDB ctx q (w, d) = (r, (w', d')) -> schema_ok (content d').
Proof using HDL. apply query_keeps. intros. by apply schema_denote. Qed.

Lemma retry_schema {A} r ctx (op : M DB (res A)) zero w d o w' d' :
  (forall w d o w' d', schema_ok (content d) -> op (w, d) = (o, (w', d')) -> schema_ok (content d')) ->
  schema_ok (content d) -> retryOperation ctx (retryCfg r) op zero (w, d) = (o, (w', d')) ->
  0 < retryAttempts r -> schema_ok (content d').
Proof using HDL.
  intros Hop Hs Hrun Hr.
  apply (retry_rule ctx (retryCfg r) op (fun _ d => schema_ok (content d))
    (fun _ _ d => schema_ok (content d)) (fun _ _ d => schema_ok (content d))) in Hrun; [|..|done|done].
  - destruct o; cbn in Hrun; [by destruct Hrun as (? & ? & ?)|].
    by destruct Hrun as [(? & ? & ?)|(? & ? & ? & ? & ? & ?)].
  - intros _ w0 d0 H0. specialize (Hop w0 d0). destruct (op (w0, d0)) as [[a|e] [w1 d1]]; by eapply Hop.
  - done.
Qed.

Lemma repository_of_attempts cfg : 0 < retryAttempts (repository_of cfg).
Proof using. cbn. case_match; bools; [done|lia]. Qed.

(** A call of any operation, with any arguments. *)
Inductive call (r : PostgresRepository) (d : DB) : DB -> Prop :=
| call_create ctx user max w : call r d (state_of (Create r ctx user max) w d)
| call_keyed ctx user max key w : call r d (state_of (CreateWithIdempotency r ctx user max key) w d)
| call_get ctx id w : call r d (state_of (Get r ctx id) w d)
| call_list ctx limit after w : call r d (state_of (List r ctx limit after) w d)
| call_update ctx user w : call r d (state_of (Update r ctx user) w d)
| call_delete ctx id w : call r d (state_of (Delete r ctx id) w d)
| call_mutate ctx id mutate w : call r d (state_of (ReadModifyUpdate r ctx id mutate) w d)
| call_ping ctx w : call r d (state_of (Ping r ctx) w d)
| call_close w : call r d (state_of (Close r) w d).

(** Name the outcome of the run in the goal, for a lemma about it. *)
Ltac name_run Hrun :=
  match goal with |- context [snd (snd (?m (?w, ?d)))] =>
    let o := fresh "o" in let w' := fresh "w'" in let d' := fresh "d'" in
    destruct (m (w, d)) as [o [w' d']] eqn:Hrun; cbn [fst snd] end.

Lemma create_schema cfg ctx user max w d :
  schema_ok (content d) -> schema_ok (content (state_of (Create (repository_of cfg) ctx user max) w d)).
Proof using HDL.
  intros Hs. unfold Create, state_of. destruct user as [user|]; [|done]. destruct (usable user); [|done].
  unfold_monad. destruct (retryOperation _ _ _ tt (w, d)) as [o [w' d']] eqn:Hrun. cbn [fst snd].
  eapply retry_schema; [|exact Hs|exact Hrun|apply repository_of_attempts].
  intros w0 d0 o0 w1 d1 H0. unfold create_once. destruct (userTimes user); [by intros [= _ _ <-]|].
  apply transact_schema; [|done]. keeps_schema_tac.
Qed.

Lemma call_schema cfg d d' : call (repository_of cfg) d d' -> schema_ok (content d) -> schema_ok (content d').
Proof using HDL.
  intros Hc Hs. destruct Hc; [by apply create_schema|..]; unfold state_of.
  - unfold CreateWithIdempotency. case_bool_decide.
    { unfold bindM, retM. pose proof (create_schema cfg ctx user max w d Hs) as H1. unfold state_of in H1.
      by destruct (Create _ ctx user max (w, d)) as [? [? ?]]. }
    destruct user as [user|]; [|done]. destruct (usable user); [|done].
    name_run Hrun. eapply retry_schema; [|exact Hs|exact Hrun|apply repository_of_attempts].
    intros w0 d0 o0 w1 d1 H0. unfold keyed_once. destruct (userTimes user); [by intros [= _ _ <-]|].
    apply transact_schema; [|done]. keeps_schema_tac.
  - unfold Get. name_run Hrun. eapply retry_schema; [|exact Hs|exact Hrun|apply repository_of_attempts].
    intros w0 d0 o0 w1 d1 H0 [(u & [w2 d2] & Hq & H2)|(e & Hq & _)]%try_inv; [|by eapply query_schema].
    destruct u; injection H2 as _ _ <-; by eapply query_schema.
  - unfold List. destruct (limit <=? 0); [done|].
    name_run Hrun. eapply retry_schema; [|exact Hs|exact Hrun|apply repository_of_attempts].
    intros w0 d0 o0 w1 d1 H0 [(u & [w2 d2] & Hq & H2)|(e & Hq & _)]%try_inv; [|by eapply query_schema].
    destruct (limit <? _); injection H2 as _ _ <-; by eapply query_schema.
  - unfold Update. destruct user as [user|]; [|done]. destruct (usable user); [|done].
    unfold bindM, retM. destruct (retryOperation _ _ _ tt (w, d)) as [o [w' d']] eqn:Hrun. cbn [fst snd].
    eapply retry_schema; [|exact Hs|exact Hrun|apply repository_of_attempts].
    intros w0 d0 o0 w1 d1 H0. unfold update_once. destruct (userTimes user); [by intros [= _ _ <-]|].
    apply transact_schema; [|done]. keeps_schema_tac.
  - unfold Delete. unfold bindM, retM. destruct (retryOperation _ _ _ tt (w, d)) as [o [w' d']] eqn:Hrun. cbn [fst snd].
    eapply retry_schema; [|exact Hs|exact Hrun|apply repository_of_attempts].
    intros w0 d0 o0 w1 d1 H0 [(n & [w2 d2] & Hq & H2)|(e & Hq & _)]%try_inv; [|by eapply query_schema].
    destruct (n =? 0); injection H2 as _ _ <-; by eapply query_schema.
  - unfold ReadModifyUpdate. destruct (blank id); [done|]. destruct mutate as [mutate|]; [|done].
    name_run Hrun. eapply retry_schema; [|exact Hs|exact Hrun|apply repository_of_attempts].
    intros w0 d0 o0 w1 d1 H0. unfold mutate_once. apply transact_schema; [|done]. keeps_schema_tac.
  - unfold Ping. destruct ctx as [ctx|]; [|done]. name_run Hrun. apply ping_content in Hrun. by rewrite Hrun.
  - unfold Close. name_run Hrun. apply close_content in Hrun. by rewrite Hrun.
Qed.

Lemma keyed_create_run cfg ctx u max key w d o w' d' :
  key <> "" ->
  CreateWithIdempotency (repository_of cfg) ctx (Some u) max key (w, d) = (o, (w', d')) ->
  maybe_keyed u max key (content d) (content d') /\
  match o with
  | Ok (st, false) => st = u /\ recorded_user key (stored u) (content d') /\
                      t_users (content d) !! Id u = None /\ t_keys (content d) !! key = None
  | Ok (st, true) => recorded_user key st (content d')
  | Err _ => True
  end.
Proof using HDL.
  intros Hkey. unfold CreateWithIdempotency. rewrite bool_decide_eq_false_2 by done.
  destruct (usable u); [|intros [= <- _ <-]; split; [by left|done]]. intros Hrun.
  pose (Inv := fun d1 => maybe_keyed u max key (content d) (content d1)).
  apply (retry_rule _ _ _ (fun _ => Inv)
    (fun _ (a : User * bool) d1 => match a with
       | (st, false) => st = u /\ admissible u max (content d) /\ t_keys (content d) !! key = None /\
                        content d1 = insert_key key (Id u) (insert_row u (content d))
       | (st, true) => Inv d1 /\ recorded_user key st (content d1)
       end) (fun _ _ => Inv)) in Hrun; [|..|apply repository_of_attempts|by left].
  - destruct o as [[st []]|e]; cbn in Hrun.
    + destruct Hrun as (_ & _ & ? & ?). by split.
    + destruct Hrun as (_ & _ & -> & Ha & Hk & Hd). split; [by right; split_and!|].
      split; [done|]. split; [|split; [apply Ha|done]]. exists (Id u). rewrite Hd. cbn.
      by rewrite !lookup_insert_eq.
    + split; [|done]. by destruct Hrun as [(? & ? & ?)|(? & ? & ? & ? & ? & ?)].
  - intros _ w0 d0 H0. destruct (keyed_once _ _ _ _ (w0, d0)) as [r0 [w2 d2]] eqn:H.
    pose proof (keyed_once_step _ _ _ _ _ _ _ _ _ _ H0 H) as Hs. by destruct r0 as [[? []]|].
  - done.
Qed.

(** ** Calls *)

Lemma create_run cfg ctx u max w d o w' d' :
  Create (repository_of cfg) ctx (Some u) max (w, d) = (o, (w', d')) ->
  match o with
  | None => admissible u max (content d) /\ content d' = insert_row u (content d)
  | Some e => maybe_created u max (content d) (content d') /\
              (e = EStorage storage.ErrAlreadyExists -> is_Some (t_users (content d') !! Id u))
  end.
Proof using HDL.
  unfold Create. destruct (usable u); [|intros [= <- _ <-]; split; [by left|done]]. unfold bindM, retM.
  destruct (retryOperation _ _ _ tt (w, d)) as [ro [w1 d1]] eqn:Hrun. intros [= <- _ <-].
  apply (retry_rule _ _ _ (fun _ d1 => maybe_created u max (content d) (content d1))
    (fun _ _ d1 => admissible u max (content d) /\ content d1 = insert_row u (content d))
    (fun _ e d1 => maybe_created u max (content d) (content d1) /\
      (e = EStorage storage.ErrAlreadyExists -> is_Some (t_users (content d1) !! Id u)))) in Hrun;
    [|..|apply repository_of_attempts|by left].
  - destruct ro; cbn in Hrun; [by destruct Hrun as (? & ? & ?)|].
    destruct Hrun as [(? & ? & ?)|(? & c & ? & ? & ? & ->)]; [done|]. split; [done|]. by destruct c.
  - intros _ w0 d0 H0. destruct (create_once _ _ _ (w0, d0)) as [r0 [w2 d2]] eqn:H.
    pose proof (create_once_step _ _ _ _ _ _ _ _ _ H0 H) as Hs. by destruct r0.
  - by intros k e s [H _] _.
Qed.

Lemma update_run cfg ctx u w d o w' d' :
  Update (repository_of cfg) ctx (Some u) (w, d) = (o, (w', d')) ->
  match o with
  | None => is_Some (t_users (content d) !! Id u) /\ content d' = insert_row u (content d)
  | Some _ => maybe_updated u (content d) (content d')
  end.
Proof using HDL.
  unfold Update. destruct (usable u); [|intros [= <- _ <-]; by left]. unfold bindM, retM.
  destruct (retryOperation _ _ _ tt (w, d)) as [ro [w1 d1]] eqn:Hrun. intros [= <- _ <-].
  apply (retry_rule _ _ _ (fun _ d1 => maybe_updated u (content d) (content d1))
    (fun _ _ d1 => is_Some (t_users (content d) !! Id u) /\ content d1 = insert_row u (content d))
    (fun _ _ d1 => maybe_updated u (content d) (content d1))) in Hrun;
    [|..|apply repository_of_attempts|by left].
  - destruct ro; cbn in Hrun; [by destruct Hrun as (? & ? & ?)|].
    by destruct Hrun as [(? & ? & ?)|(? & c & ? & ? & ? & ->)].
  - intros _ w0 d0 H0. destruct (update_once _ _ (w0, d0)) as [r0 [w2 d2]] eqn:H.
    pose proof (update_once_step _ _ _ _ _ _ _ _ H0 H) as Hs. by destruct r0.
  - done.
Qed.

(** A retried read leaves the tables alone. *)
Lemma reads_run {A B} cfg ctx (q : stmt A) wrap (k : A -> M DB (res B)) zero w d o w' d' :
  (forall t, snd (denote q t) = t) -> (forall a, keeps_state (k a)) ->
  retryOperation ctx (retryCfg (repository_of cfg)) (try (QueryDB ctx q) wrap k) zero (w, d)
    = (o, (w', d')) -> content d' = content d.
Proof using HDL.
  intros Hq Hk Hrun.
  apply (retry_rule _ _ _ (fun _ d1 => content d1 = content d) (fun _ _ d1 => content d1 = content d)
    (fun _ _ d1 => content d1 = content d)) in Hrun; [|..|apply repository_of_attempts|done].
  - destruct o; cbn in Hrun; [by destruct Hrun as (? & ? & ?)|].
    by destruct Hrun as [(? & ? & ?)|(? & c & ? & ? & ? & ->)].
  - intros _ w0 d0 H0. destruct (try _ _ _ (w0, d0)) as [r0 [w2 d2]] eqn:H.
    assert (Hc : content d2 = content d); [|by destruct r0].
    apply try_inv in H as [(x & [w1 d1] & Hr & H)|(e & Hr & _)].
    + pose proof (Hk x w1 d1) as Hd. rewrite H in Hd. cbn in Hd. subst d2.
      apply read_content in Hr as [-> _]; [exact H0|exact Hq].
    + apply read_content in Hr as [-> _]; [exact H0|exact Hq].
  - done.
Qed.

Lemma mutate_run cfg ctx id mutate w d o w' d' :
  keeps_id mutate -> keyed (content d) ->
  ReadModifyUpdate (repository_of cfg) ctx id (Some mutate) (w, d) = (o, (w', d')) ->
  exists n lst, Z.of_nat n <= retryAttempts (repository_of cfg) /\
    mutations id mutate (content d) n lst (content d') /\
    match o with
    | Ok u => lst = Some u /\ t_users (content d') !! Id u = Some (stored u)
    | Err _ => True
    end.
Proof using HDL.
  intros Hid Hk. pose proof (repository_of_attempts cfg) as Hr.
  assert (Hnone : exists n lst, Z.of_nat n <= retryAttempts (repository_of cfg) /\
    mutations id mutate (content d) n lst (content d) /\ True).
  { exists 0%nat, None. split; [lia|]. split; [constructor|done]. }
  unfold ReadModifyUpdate. destruct (blank id); [intros [= <- _ <-]; exact Hnone|]. intros Hrun.
  apply (retry_rule _ _ _ (fun k d1 => mutated id mutate (content d) k (content d1))
    (fun k u d1 => exists n, (n <= k)%nat /\ mutations id mutate (content d) (S n) (Some u) (content d1))
    (fun k _ d1 => mutated id mutate (content d) (S k) (content d1))) in Hrun; [|..|done|].
  - unfold retry_post in Hrun. cbn [maxAttempts retryCfg] in Hrun. destruct o as [u|e].
    + destruct Hrun as (k & Hk' & n & Hn & Hm). exists (S n), (Some u). split; [lia|]. split; [done|].
      split; [done|]. inversion Hm as [|n' lst' t' u0 u' w0 w1 Hm' Hu0 Hmu Hn0 Hl Ht]. subst.
      apply insert_row_present.
    + assert (Hd : exists k, Z.of_nat k <= retryAttempts (repository_of cfg) /\
        mutated id mutate (content d) k (content d')).
      { destruct Hrun as [(k & ? & ?)|(k & c & ? & ? & ? & _)]; [exists (S k)|exists k]; (split; [lia|done]). }
      destruct Hd as (k & Hk' & _ & n & lst & Hn & Hm). exists n, lst. split; [lia|done].
  - intros k w0 d0 H0. destruct (mutate_once _ _ _ (w0, d0)) as [r0 [w2 d2]] eqn:H.
    pose proof (mutate_once_step _ _ _ _ _ _ _ _ _ _ Hid H0 H) as Hs. by destruct r0.
  - done.
  - split; [done|]. exists 0%nat, None. split; [lia|constructor].
Qed.

Lemma deletes_run cfg ctx id w d o w' d' :
  Delete (repository_of cfg) ctx id (w, d) = (o, (w', d')) ->
  match o with
  | None => is_Some (t_users (content d) !! id) /\ content d' = delete_row id (content d)
  | Some e => maybe_deleted id (content d) (content d') /\
              (e = EStorage storage.ErrNotFound -> t_users (content d') !! id = None)
  end.
Proof using HDL.
  unfold Delete, bindM, retM.
  destruct (retryOperation _ _ _ tt (w, d)) as [ro [w1 d1]] eqn:Hrun. intros [= <- _ <-].
  apply (retry_rule _ _ _ (fun _ d1 => maybe_deleted id (content d) (content d1))
    (fun _ _ d1 => is_Some (t_users (content d) !! id) /\ content d1 = delete_row id (content d))
    (fun _ e d1 => maybe_deleted id (content d) (content d1) /\
      (e = EStorage storage.ErrNotFound -> t_users (content d1) !! id = None))) in Hrun;
    [|..|apply repository_of_attempts|by left].
  - destruct ro; cbn in Hrun; [by destruct Hrun as (? & ? & ?)|].
    destruct Hrun as [(? & ? & ?)|(? & c & ? & ? & ? & ->)]; [done|]. split; [done|]. by destruct c.
  - intros _ w0 d0 H0. destruct (delete_once _ _ (w0, d0)) as [r0 [w2 d2]] eqn:H.
    pose proof (delete_once_step _ _ _ _ _ _ _ _ H0 H) as Hs. by destruct r0.
  - intros k e s [H _] _. exact H.
Qed.

(** * Properties *)

(** C13: A create is all or nothing however often it is attempted: one that
    reports success found room and a free id and inserted the user; one that
    fails has either changed nothing or, when the acknowledgement of its commit
    was lost, inserted the user once. After ErrAlreadyExists the id is taken. *)
Theorem postgres_create_is_atomic cfg ctx u max w d o w' d' :
  Create (repository_of cfg) ctx (Some u) max (w, d) = (o, (w', d')) ->
  match o with
  | None => admissible u max (content d) /\ content d' = insert_row u (content d)
  | Some e => maybe_created u max (content d) (content d') /\
              (e = EStorage storage.ErrAlreadyExists -> is_Some (t_users (content d') !! Id u))
  end.
Proof using HDL. apply create_run. Qed.

(** C4: With an idempotency key a create stores at most one user whatever
    acknowledgements are lost, and an answer is never about anything else: the
    user that is returned is the one the key is recorded with, either the one
    just inserted or, on a replay, the stored one. *)
Theorem postgres_keyed_create_is_exactly_once cfg ctx u max key w d o w' d' :
  key <> "" ->
  CreateWithIdempotency (repository_of cfg) ctx (Some u) max key (w, d) = (o, (w', d')) ->
  maybe_keyed u max key (content d) (content d') /\
  match o with
  | Ok (st, false) => st = u /\ recorded_user key (stored u) (content d') /\
                      t_users (content d) !! Id u = None /\ t_keys (content d) !! key = None
  | Ok (st, true) => recorded_user key st (content d')
  | Err _ => True
  end.
Proof using HDL. apply keyed_create_run. Qed.

(** C14: A read-modify-write applies its callback once per attempt that took
    effect, each time to the row as the one before left it: after a success the
    user returned is the result of the last application, which is the row now
    stored; after a failure the callback may still have been applied, at most
    once per attempt. Only the row of [id] changes. *)
Theorem postgres_mutations_are_chained cfg ctx id mutate w d o w' d' :
  keeps_id mutate -> keyed (content d) ->
  ReadModifyUpdate (repository_of cfg) ctx id (Some mutate) (w, d) = (o, (w', d')) ->
  exists n lst, Z.of_nat n <= retryAttempts (repository_of cfg) /\
    mutations id mutate (content d) n lst (content d') /\
    match o with
    | Ok u => lst = Some u /\ t_users (content d') !! Id u = Some (stored u)
    | Err _ => True
    end.
Proof using HDL. apply mutate_run. Qed.

(** A delete that reports success found the user and removed it with its
    idempotency keys; one that fails has either changed nothing or done the
    same, and after ErrNotFound the user is absent in both cases. *)
Theorem postgres_delete_is_atomic cfg ctx id w d o w' d' :
  Delete (repository_of cfg) ctx id (w, d) = (o, (w', d')) ->
  match o with
  | None => is_Some (t_users (content d) !! id) /\ content d' = delete_row id (content d)
  | Some e => maybe_deleted id (content d) (content d') /\
              (e = EStorage storage.ErrNotFound -> t_users (content d') !! id = None)
  end.
Proof using HDL. apply deletes_run. Qed.

(** ** Pages *)

Lemma take_incl {A} n (l : list A) x : x ∈ take n l -> x ∈ l.
Proof using. rewrite elem_of_take. intros (i & Hi & _). by eapply list_elem_of_lookup_2. Qed.

Lemma after_ids_stored after t id : id ∈ after_ids after t -> is_Some (t_users t !! id).
Proof using.
  unfold after_ids. rewrite merge_sort_Permutation, list_elem_of_In, filter_In, in_map_iff.
  intros [([k u] & <- & Hin) _]. apply list_elem_of_In, elem_of_map_to_list in Hin. by eexists.
Qed.

Lemma omap_stored (ids : list string) t :
  (forall id, id ∈ ids -> is_Some (t_users t !! id)) -> keyed t ->
  Id <$> (omap (fun id => t_users t !! id) ids) = ids.
Proof using.
  intros Hs Hk. induction ids as [|id ids IH]; [done|].
  destruct (Hs id) as [u Hu]; [apply list_elem_of_here|]. cbn. rewrite Hu. cbn. f_equal; [by apply Hk|].
  apply IH. intros id' Hin. apply Hs. by apply list_elem_of_further.
Qed.

Lemma take_omap_stored n (ids : list string) t :
  (forall id, id ∈ ids -> is_Some (t_users t !! id)) ->
  take n (omap (fun id => t_users t !! id) ids) = omap (fun id => t_users t !! id) (take n ids).
Proof using.
  revert n. induction ids as [|id ids IH]; intros [|n] Hs; try done.
  destruct (Hs id) as [u Hu]; [apply list_elem_of_here|]. cbn. rewrite Hu. cbn. f_equal.
  apply IH. intros id' Hin. apply Hs. by apply list_elem_of_further.
Qed.

Lemma page_sorted after t n : StronglySorted collate (take n (after_ids after t)).
Proof using HDL.
  eapply StronglySorted_app_1_l. rewrite take_drop. unfold after_ids.
  apply StronglySorted_merge_sort; apply _.
Qed.

(** A page holds the users of the first [limit] ids above [afterID] in the
    order of the database's collation, and the token of the next page is the id
    of its last user exactly when more users follow. Listing changes nothing. *)
Theorem postgres_list_pages cfg ctx limit after w d us next w' d' :
  limit <= max_int64 -> keyed (content d) ->
  List (repository_of cfg) ctx limit after (w, d) = (Ok (us, next), (w', d')) ->
  let ids := after_ids after (content d) in
  let page := take (Z.to_nat limit) ids in
  0 < limit < max_int64 /\ content d' = content d /\ Id <$> us = page /\ StronglySorted collate page /\
  (forall u, u ∈ us -> t_users (content d) !! Id u = Some u) /\
  next = (if limit <? Z.of_nat (length ids) then default "" (last page) else "").
Proof using HDL.
  intros Hmax Hk Hrun ids page. unfold List in Hrun. destruct (Z.leb_spec limit 0); [done|].
  assert (Hwrap : 0 <= wrap64 (limit + 1) -> limit < max_int64).
  { unfold wrap64, max_int64 in *. intros Hw. destruct (decide (limit = 2 ^ 63 - 1)) as [->|]; [done|lia]. }
  apply (retry_rule _ _ _ (fun _ d1 => content d1 = content d)
    (fun _ a d1 => limit < max_int64 /\ content d1 = content d /\ a = (omap (fun id => t_users (content d) !! id) page,
       if limit <? Z.of_nat (length ids) then default "" (last page) else ""))
    (fun _ _ d1 => content d1 = content d)) in Hrun;
    [|..|apply repository_of_attempts|done].
  - destruct Hrun as (k & _ & Hlt & Hd & [= -> ->]). split; [done|]. split; [done|].
    assert (Hs : forall id, id ∈ page -> is_Some (t_users (content d) !! id)).
    { intros id Hin. apply (after_ids_stored after). by eapply take_incl. }
    split; [by apply omap_stored|]. split; [apply page_sorted|]. split; [|done].
    intros u. rewrite list_elem_of_omap. intros (id & Hin & Hu). by rewrite (Hk _ _ Hu).
  - intros _ w0 d0 H0.
    destruct (try _ _ _ (w0, d0)) as [r0 [w2 d2]] eqn:Htry.
    apply try_inv in Htry as [(x & [w1 d1] & Hq & Hr)|(e & Hq & ->)].
    2:{ apply read_content in Hq as [Hc _]; [by rewrite Hc|done]. }
    apply read_content in Hq as (Hc & Hx & Hwr); [|done]. apply Hwrap in Hwr. rewrite H0 in Hx, Hc. cbn [denote tables_semantics denote_stmt fst] in Hx.
    rewrite wrap64_small in Hx by (unfold min_int64, max_int64 in *; lia). fold ids in Hx.
    assert (Hs : forall id, id ∈ ids -> is_Some (t_users (content d) !! id)) by apply after_ids_stored.
    assert (Hids : Id <$> x = take (Z.to_nat (limit + 1)) ids).
    { subst x. apply omap_stored; [|done]. intros id Hin. apply Hs. by eapply take_incl. }
    assert (Hlen : length x = Nat.min (Z.to_nat (limit + 1)) (length ids)).
    { by rewrite <- length_take, <- Hids, length_fmap. }
    assert (Hpage : take (Z.to_nat limit) x = omap (fun id => t_users (content d) !! id) page).
    { subst x. rewrite take_omap_stored by (intros id Hin; apply Hs; by eapply take_incl).
      subst page. by rewrite take_take, Nat.min_l by lia. }
    assert (Hpids : Id <$> (take (Z.to_nat limit) x) = page).
    { rewrite Hpage. apply omap_stored; [|done]. intros id Hin. apply Hs. by eapply take_incl. }
    destruct (Z.ltb_spec limit (Z.of_nat (length x))); injection Hr as <- _ <-; (split; [done|]); (split; [done|]).
    + rewrite (proj2 (Z.ltb_lt limit _)) by lia. rewrite Hpage at 1. f_equal.
      rewrite <- Hpids, fmap_last. by destruct (last _).
    + rewrite (proj2 (Z.ltb_ge limit _)) by lia. f_equal. rewrite Hx. subst page.
      by rewrite !take_ge by lia.
  - done.
Qed.

End postgres.
(** * Over the faulty database *)

#[local] Existing Instance waiting0.
#[local] Existing Instance rows0.

Lemma lost_ack_laws e n : isUniqueViolation e = false -> DatabaseLaws (faulty (lost_ack e n) violation).
Proof.
  intros He. apply faulty_database_laws. intros i e' applied. unfold lost_ack. case_match; [|done]. by intros [= <- _].
Qed.

(** The world in which the calls below are made. *)
Definition at_start (now : nat -> Z) : World := mkWorld now (fun _ => None) 0.

(** An attempt that ends the loop at once. *)
Lemma retry_once `{HR : Rows} {S A} cfg (op : M S (res A)) zero ws o ws' :
  op ws = (o, ws') -> match o with Ok _ => True | Err e => isRetryableError (Some e) = false end ->
  retryOperation Background (retryCfg (repository_of cfg)) op zero ws = (o, ws').
Proof.
  intros H Ho. unfold retryOperation, repository_of. cbn [maxAttempts retryCfg retryAttempts].
  destruct (Z.to_nat _) as [|n] eqn:En; [destruct (Z.leb_spec (RetryAttempts cfg) 0); unfold defaultRetryAttempts in *; lia|].
  cbn [retry_loop]. unfold bindM, retM. cbn [Z.ltb Z.compare]. rewrite H. destruct o; [done|]. by rewrite Ho.
Qed.

(** A transient failure, an uninterrupted wait, and a second attempt that ends
    the loop. *)
Lemma retry_twice `{HR : Rows} {S A} r (op : M S (res A)) zero w s e w1 s1 o w2 s2 :
  2 <= retryAttempts r -> op (w, s) = (Err e, (w1, s1)) -> isRetryableError (Some e) = true ->
  op (tick (tick w1), s1) = (o, (w2, s2)) ->
  match o with Ok _ => True | Err e => isRetryableError (Some e) = false end ->
  retryOperation Background (retryCfg r) op zero (w, s) = (o, (w2, s2)).
Proof.
  intros Hr H1 He H2 Ho. unfold retryOperation. cbn [maxAttempts retryCfg].
  destruct (Z.to_nat (retryAttempts r)) as [|[|n]] eqn:En; [lia..|]. cbn [retry_loop].
  assert (Hw : wait Background (retryCfg r) (0 + 1) (w1, s1) = (None, (tick (tick w1), s1))) by done.
  unfold bindM. cbn [Z.ltb Z.compare]. unfold retM at 1. rewrite H1, He.
  unfold retry_loop. unfold bindM. change (0 <? 0 + 1) with true. cbv iota. rewrite Hw, H2.
  destruct o as [a|e']; [done|]. by rewrite Ho.
Qed.

Section lost.
Context (u : User) (max : Z) (t : Tables).
Context (Ht : userTimes u = None) (Hadm : admissible u max t)
  (Hroom : Z.of_nat (size (t_users t)) + 1 < max).

Lemma no_violation : violation _ (InsertUser u) t = None.
Proof using Hadm. clear Hroom. destruct Hadm as (Hf & _ & Hr). cbn. rewrite Hf. by rewrite decide_True. Qed.

(** The next statement of a transaction succeeds. *)
Ltac step_ok :=
  erewrite try_ok;
  [|apply faulty_tx_ok; [apply lost_ack_ok; cbn [tick w_tick]; lia|first [reflexivity|apply no_violation|assumption]]];
  cbn [denote tables_semantics denote_stmt fst snd].

Lemma insert_checked_lost e n w :
  w_tick w <> n -> S (w_tick w) <> n ->
  insert_checked (HD := faulty (lost_ack e n) violation) Background u max (w, t)
    = (Ok tt, (tick (tick w), insert_row u t)).
Proof using Hadm.
  clear Hroom. intros H1 H2. unfold insert_checked. cbn [QueryTx faulty].
  step_ok. rewrite (proj2 (Z.leb_gt _ _)) by (destruct Hadm as (_ & ? & _); lia).
  by step_ok.
Qed.

(** An attempt whose commit is the interaction that is lost stores the user and
    does not learn of it; any other one stores the user. *)
Lemma create_once_lost e n w :
  (n = w_tick w + 4 \/ n < w_tick w)%nat ->
  create_once (HD := faulty (lost_ack e n) violation) Background u max (w, t)
    = (if Nat.eqb n (w_tick w + 4) then Err (EWrap "commit create" e) else Ok tt,
       (tick (tick (tick (tick (tick w)))), insert_row u t)).
Proof using Ht Hadm.
  clear Hroom. intros Hw. unfold create_once. rewrite Ht. unfold transact.
  erewrite try_ok; [|cbn [BeginTx faulty]; by rewrite lost_ack_ok by lia].
  cbn [QueryTx Commit Rollback faulty]. unfold id in *.
  erewrite try_ok; [|apply faulty_tx_ok; [apply lost_ack_ok; cbn; lia|done]]. cbn [denote tables_semantics denote_stmt fst snd].
  rewrite insert_checked_lost by (cbn; lia).
  unfold bindM, retM. cbn [w_tick tick]. destruct (Nat.eqb_spec n (w_tick w + 4)) as [->|Hn].
  - by replace (S (S (S (S (w_tick w))))) with (w_tick w + 4)%nat by lia; rewrite lost_ack_at.
  - by rewrite lost_ack_ok by lia.
Qed.

Lemma create_first w :
  w_tick w = 0%nat ->
  create_once (HD := faulty (lost_ack EEOF 4) violation) Background u max (w, t)
    = (Err (EWrap "commit create" EEOF),
       (tick (tick (tick (tick (tick w)))), insert_row u t)).
Proof using Ht Hadm. clear Hroom. intros Hw. rewrite create_once_lost by (rewrite Hw; by left). by rewrite Hw. Qed.

(** The second one runs into the row of the first. *)
Lemma create_second w :
  (4 < w_tick w)%nat ->
  create_once (HD := faulty (lost_ack EEOF 4) violation) Background u max (w, insert_row u t)
    = (Err (EStorage storage.ErrAlreadyExists),
       (tick (tick (tick (tick w))), insert_row u t)).
Proof using Ht Hadm Hroom.
  intros Hw. unfold create_once. rewrite Ht. unfold transact.
  erewrite try_ok; [|cbn [BeginTx faulty]; by rewrite lost_ack_ok by lia].
  cbn [QueryTx Commit Rollback faulty]. unfold id in *.
  erewrite try_ok; [|apply faulty_tx_ok; [apply lost_ack_ok; cbn; lia|done]]. cbn [denote tables_semantics denote_stmt fst snd].
  unfold insert_checked. cbn [QueryTx faulty]. step_ok.
  rewrite (proj2 (Z.leb_gt _ _)).
  2:{ destruct Hadm as (Hf & _ & _). cbn. rewrite map_size_insert_None by done. lia. }
  erewrite try_err by (apply faulty_tx_violation; [apply lost_ack_ok; cbn; lia|];
    cbn; by rewrite lookup_insert_eq).
  reflexivity.
Qed.

Section keyed_create.
Context (key : string) (Hk : t_keys t !! key = None).

Lemma keyed_first w :
  w_tick w = 0%nat ->
  keyed_once (HD := faulty (lost_ack EEOF 6) violation) Background u max key (w, t)
    = (Err (EWrap "commit idempotent create" EEOF),
       (tick (tick (tick (tick (tick (tick (tick w)))))), insert_key key (Id u) (insert_row u t))).
Proof using Ht Hadm Hroom Hk.
  intros Hw. unfold keyed_once. rewrite Ht. unfold transact.
  erewrite try_ok; [|cbn [BeginTx faulty]; by rewrite Hw].
  cbn [QueryTx Commit Rollback faulty]. unfold id in *. step_ok. step_ok. rewrite Hk.
  erewrite try_ok by (apply insert_checked_lost; cbn; lia).
  erewrite try_ok by (apply faulty_tx_ok; [apply lost_ack_ok; cbn; lia|];
    cbn; by rewrite Hk, lookup_insert_eq).
  cbn [denote tables_semantics denote_stmt fst snd]. unfold bindM, retM. cbn [w_tick tick]. by rewrite Hw.
Qed.

Lemma keyed_second w :
  (6 < w_tick w)%nat ->
  keyed_once (HD := faulty (lost_ack EEOF 6) violation) Background u max key (w, insert_key key (Id u) (insert_row u t))
    = (Ok (stored u, true),
       (tick (tick (tick (tick (tick w)))), insert_key key (Id u) (insert_row u t))).
Proof using Ht.
  intros Hw. unfold keyed_once. rewrite Ht. unfold transact.
  erewrite try_ok; [|cbn [BeginTx faulty]; by rewrite lost_ack_ok by lia].
  cbn [QueryTx Commit Rollback faulty]. unfold id in *. step_ok. step_ok.
  change (t_keys (insert_key key (Id u) (insert_row u t)) !! key)
    with (<[key := Id u]> (t_keys t) !! key).
  rewrite lookup_insert_eq. unfold scanUserTx. cbn [QueryTx faulty].
  erewrite try_ok.
  2:{ step_ok. change (t_users (insert_key key (Id u) (insert_row u t)) !! Id u)
        with (<[Id u := stored u]> (t_users t) !! Id u).
      rewrite lookup_insert_eq. reflexivity. }
  unfold bindM, retM. cbn [w_tick tick]. rewrite lost_ack_ok by lia. reflexivity.
Qed.
End keyed_create.
End lost.

(** When the acknowledgement of its commit is lost, a create without an
    idempotency key is attempted again, collides with its own row, and reports
    ErrAlreadyExists for a user it has stored; with a key the second attempt
    finds the key and reports the stored user. *)
Theorem lost_acknowledgement_needs_a_key cfg u max key t now :
  2 <= retryAttempts (repository_of cfg) -> usable u = true -> userTimes u = None ->
  admissible u max t -> Z.of_nat (size (t_users t)) + 1 < max ->
  key <> "" -> t_keys t !! key = None ->
  (exists w', Create (HD := faulty (lost_ack EEOF 4) violation) (repository_of cfg) Background (Some u) max (at_start now, t)
     = (Some (EStorage storage.ErrAlreadyExists), (w', insert_row u t))) /\
  (exists w', CreateWithIdempotency (HD := faulty (lost_ack EEOF 6) violation) (repository_of cfg) Background (Some u) max
       key (at_start now, t)
     = (Ok (stored u, true), (w', insert_key key (Id u) (insert_row u t)))).
Proof.
  intros Hatt Hu Ht Hadm Hroom Hkey Hk. split.
  - unfold Create. rewrite Hu. unfold bindM, retM.
    erewrite (retry_twice (repository_of cfg)
      (create_once (HD := faulty (lost_ack EEOF 4) violation) Background u max)) by
      first [exact Hatt | by apply create_first | reflexivity
            | apply create_second; try done; cbn; lia | reflexivity].
    by eexists.
  - unfold CreateWithIdempotency. rewrite bool_decide_eq_false_2 by done. rewrite Hu.
    erewrite (retry_twice (repository_of cfg)
      (keyed_once (HD := faulty (lost_ack EEOF 6) violation) Background u max key)) by
      first [exact Hatt | by apply keyed_first | reflexivity
            | apply keyed_second; try done; cbn; lia | done].
    by eexists.
Qed.

(** * Witnesses *)

Definition default_config : PostgresConfig := mkPostgres "postgres://db" 4 2 1 1 0 0 0.
Definition carol : User :=
  mkUser "user-1" "Carol" "carol@d.e" 41 (Some (mkTimestamp 5 1500)) (Some (mkTimestamp 5 1500)).
Definition no_users : Tables := mkTables ∅ ∅.
Definition one_user : Tables := insert_row carol no_users.
Definition start0 : World := at_start (fun _ => 0).

(** The database whose only fault is the one named. *)
#[local] Instance db0 : Engine Tables stmt := faulty (lost_ack EEOF 6) violation.
#[local] Instance db0_laws : DatabaseLaws db0 := lost_ack_laws EEOF 6 eq_refl.

Definition as_db (t : Tables) : @DB _ _ db0 := t.

Lemma postgres_create_is_atomic_witness :
  admissible carol 3 no_users /\
  content (snd (snd (Create (repository_of default_config) Background (Some carol) 3
    (start0, as_db no_users)))) = one_user.
Proof.
  destruct (Create (repository_of default_config) Background (Some carol) 3 (start0, as_db no_users))
    as [o [w' d']] eqn:Hrun.
  pose proof (postgres_create_is_atomic default_config Background carol 3 start0 (as_db no_users) o w' d' Hrun) as H.
  assert (Ho : o = None) by (vm_compute in Hrun; by injection Hrun as <- _ _).
  rewrite Ho in H. exact H.
Defined.

Lemma postgres_keyed_create_is_exactly_once_witness :
  exists w' d', CreateWithIdempotency (repository_of default_config) Background (Some carol) 3 "k"
      (start0, as_db no_users) = (Ok (stored carol, true), (w', d')) /\
    maybe_keyed carol 3 "k" no_users d' /\ recorded_user "k" (stored carol) d'.
Proof.
  do 2 eexists. split; [vm_compute; reflexivity|].
  eapply (postgres_keyed_create_is_exactly_once default_config Background carol 3 "k" start0 (as_db no_users)
    (Ok (stored carol, true))); [done|vm_compute; reflexivity].
Defined.

Definition birthday : ReadModifyUpdateFn := fun u w =>
  (Ok (mkUser (Id u) (Name u) (Email u) (Age u + 1) (CreatedAt u) (UpdatedAt u)), w).

Lemma birthday_keeps_id : keeps_id birthday.
Proof. by intros u w u' w' [= <- _]. Qed.

Lemma keyed_one_user : keyed one_user.
Proof.
  intros id u. cbn. rewrite lookup_insert. case_decide; [|by rewrite lookup_empty].
  by intros [= <-].
Qed.

Lemma postgres_mutations_are_chained_witness :
  exists u w' d', ReadModifyUpdate (repository_of default_config) Background "user-1" (Some birthday)
      (start0, as_db one_user) = (Ok u, (w', d')) /\
    Age u = 42 /\ exists n lst, Z.of_nat n <= 3 /\ mutations "user-1" birthday one_user n lst (content d') /\
      lst = Some u.
Proof.
  destruct (ReadModifyUpdate (repository_of default_config) Background "user-1" (Some birthday)
    (start0, as_db one_user)) as [o [w' d']] eqn:Hrun.
  pose proof (postgres_mutations_are_chained default_config Background "user-1" birthday start0
    (as_db one_user) o w' d' birthday_keeps_id keyed_one_user Hrun) as (n & lst & Hn & Hm & Hl).
  assert (Ho : o = Ok (mkUser "user-1" "Carol" "carol@d.e" 42 (Some (mkTimestamp 5 1000))
    (Some (mkTimestamp 5 1000)))) by (vm_compute in Hrun; by injection Hrun as <- _ _).
  rewrite Ho in Hl |- *. do 3 eexists. split; [reflexivity|]. split; [reflexivity|].
  exists n, lst. split; [exact Hn|]. split; [exact Hm|exact (proj1 Hl)].
Defined.

Lemma postgres_delete_is_atomic_witness :
  t_users (content (snd (snd (Delete (repository_of default_config) Background "user-2"
    (start0, as_db one_user))))) !! "user-2" = None.
Proof.
  destruct (Delete (repository_of default_config) Background "user-2" (start0, as_db one_user))
    as [o [w' d']] eqn:Hrun.
  pose proof (postgres_delete_is_atomic default_config Background "user-2" start0 (as_db one_user) o w' d' Hrun) as H.
  assert (Ho : o = Some (EStorage storage.ErrNotFound)) by (vm_compute in Hrun; by injection Hrun as <- _ _).
  rewrite Ho in H. exact (proj2 H eq_refl).
Defined.

Lemma lost_acknowledgement_needs_a_key_witness :
  exists w', Create (HD := faulty (lost_ack EEOF 4) violation) (repository_of default_config) Background (Some carol) 3
    (start0, no_users) = (Some (EStorage storage.ErrAlreadyExists), (w', one_user)).
Proof.
  refine (proj1 (lost_acknowledgement_needs_a_key default_config carol 3 "k" no_users (fun _ => 0)
    _ eq_refl eq_refl _ _ _ eq_refl)).
  - vm_compute. discriminate.
  - split; [reflexivity|]. split; [reflexivity|]. vm_compute. by repeat split.
  - reflexivity.
  - discriminate.
Defined.

Lemma postgres_list_pages_witness :
  exists us next w' d', List (repository_of default_config) Background 1 "" (start0, as_db one_user)
      = (Ok (us, next), (w', d')) /\ Id <$> us = ["user-1"] /\ next = "".
Proof.
  destruct (List (repository_of default_config) Background 1 "" (start0, as_db one_user))
    as [[[us next]|e] [w' d']] eqn:Hrun; [|by vm_compute in Hrun].
  exists us, next, w', d'. split; [reflexivity|].
  destruct (postgres_list_pages default_config Background 1 "" start0 (as_db one_user) us next w' d'
    ltac:(by vm_compute) keyed_one_user Hrun) as (_ & _ & Hus & _ & _ & Hn).
  split; [exact Hus|exact Hn].
Defined.

End Postgres.
