(* ===== verification/Transactions.v ===== *)
(** The transactions of [internal/storage/postgres.go] as they interleave on one
    PostgreSQL server: every transaction of the repository as a script of
    statements (what [Postgres] runs from [BEGIN] to [COMMIT], shown to be the
    same code), and a server that executes the scripts of any number of callers
    statement by statement at the level [READ COMMITTED] the code asks for, with
    the advisory lock of the capacity and the locks on rows.

    A statement sees the rows committed so far and the rows its own transaction
    wrote; it is granted when no other transaction holds a lock it needs, and
    evaluated then. Locks are held to the end of the transaction; a commit
    publishes the rows written. A transaction may be rolled back at any moment: by
    its own error, by a broken connection, by a context that ends. *)
From S2P Require Import Prelude GoStrings GoErrors Storage Retry Engine Database Postgres.

Module Transactions.

(** * Scripts *)

(** The body of a transaction: statements with the wrapping of their errors and
    what follows, and calls of the caller's own code. *)
Inductive script (A : Type) : Type :=
| Return (r : res A)
| Ask {B : Type} (q : stmt B) (wrap : error -> error) (k : B -> script A)
| Callback {B : Type} (f : World -> res B * World) (k : B -> script A).
Arguments Return {A} r.
Arguments Ask {A B} q wrap k.
Arguments Callback {A B} f k.

Definition NotFound {A} : script A := Return (Err (EStorage storage.ErrNotFound)).

Definition insert_script {A} (user : User) (maxUsers : Z) (k : script A) : script A :=
  Ask CountUsers (EWrap "count users") (fun count =>
  if maxUsers <=? count then Return (Err (EStorage storage.ErrCapacity)) else
  Ask (InsertUser user) Postgres.insert_error (fun _ => k)).

Definition create_script (user : User) (maxUsers : Z) : script unit :=
  Ask LockCapacity (EWrap "lock user capacity") (fun _ =>
  insert_script user maxUsers (Return (Ok tt))).

Definition scan_script {A} (id : string) (k : User -> script A) : script A :=
  Ask (SelectUser id) (EWrap "load user") (fun u =>
  match u with None => NotFound | Some u => k u end).

Definition record_script (user : User) (key : string) : script (User * bool) :=
  Ask (InsertKey key (Id user)) (EWrap "insert idempotency key") (fun _ => Return (Ok (user, false))).

Definition lookup_script (user : User) (maxUsers : Z) (key : string) : script (User * bool) :=
  Ask (SelectKey key) (EWrap "lookup idempotency key") (fun existingID =>
  match existingID with
  | Some existingID => scan_script existingID (fun u => Return (Ok (u, true)))
  | None => insert_script user maxUsers (record_script user key)
  end).

Definition keyed_script (user : User) (maxUsers : Z) (key : string) : script (User * bool) :=
  Ask LockCapacity (EWrap "lock user capacity") (fun _ => lookup_script user maxUsers key).

Definition replace_script (user : User) : script unit :=
  Ask (UpdateUsers user) (EWrap "update user") (fun rows =>
  if rows =? 0 then NotFound else Return (Ok tt)).

Definition update_script (user : User) : script unit :=
  Ask (ExistsForUpdate (Id user)) (EWrap "lock user for update") (fun exists_ =>
  if negb exists_ then NotFound else replace_script user).

Definition store_script (working : User) : script User :=
  match Postgres.userTimes working with
  | Some err => Return (Err err)
  | None => Ask (UpdateUsers working) (EWrap "update user in read-modify-update") (fun _ =>
            Return (Ok working))
  end.

Definition mutate_script (id : string) (mutate : ReadModifyUpdateFn) : script User :=
  Ask (SelectUserForUpdate id) (EWrap "lock user for read-modify-update") (fun loaded =>
  match loaded with
  | None => NotFound
  | Some loaded => Callback (mutate loaded) store_script
  end).

(** ** The scripts are the code of [Postgres] *)

Section run.
Context `{HW : Waiting} `{HR : Rows} `{HD : !Engine Tables stmt} (ctx : Ctx).

(** A script within a transaction of one caller. *)
Fixpoint run {A} (p : script A) : M Tx (res A) :=
  match p with
  | Return r => retM r
  | Ask q wrap k => try (QueryTx ctx q) wrap (fun a => run (k a))
  | Callback f k => try (worldM f) (fun err => err) (fun b => run (k b))
  end.

Lemma try_ext {S A B} (m : M S (res A)) wrap (k1 k2 : A -> M S (res B)) ws :
  (forall a ws, k1 a ws = k2 a ws) -> try m wrap k1 ws = try m wrap k2 ws.
Proof. intros Hk. unfold try, bindM. destruct (m ws) as [[a|e] ws1]; [apply Hk|done]. Qed.

Lemma try_assoc {S A B C} (m : M S (res A)) wrap (k : A -> M S (res B)) (k' : B -> M S (res C)) ws :
  try (try m wrap k) (fun err => err) k' ws = try m wrap (fun a => try (k a) (fun err => err) k') ws.
Proof. unfold try, bindM, retM. by destruct (m ws) as [[a|e] ws1]. Qed.

Lemma transact_ext {A} ob oc (b1 b2 : M Tx (res A)) ws :
  (forall ws, b1 ws = b2 ws) -> transact ctx ob oc b1 ws = transact ctx ob oc b2 ws.
Proof.
  intros Hb. unfold transact. apply try_ext. intros tx [w d]. by rewrite Hb.
Qed.

(** Checking and inserting, then going on. *)
Lemma run_insert {A} u max (m : M Tx (res A)) (p : script A) ws :
  (forall ws, m ws = run p ws) ->
  try (Postgres.insert_checked ctx u max) (fun err => err) (fun _ => m) ws = run (insert_script u max p) ws.
Proof.
  intros Hm. unfold Postgres.insert_checked. rewrite try_assoc. cbn [run insert_script]. apply try_ext.
  intros count ws1. destruct (max <=? count); [done|]. rewrite try_assoc. cbn [run]. apply try_ext.
  intros [] ws2. apply Hm.
Qed.

Lemma create_once_script u max ws :
  Postgres.create_once ctx u max ws =
  match Postgres.userTimes u with
  | Some err => retM (Err err) ws
  | None => transact ctx (EWrap "begin create") (fun _ => EWrap "commit create") (run (create_script u max)) ws
  end.
Proof.
  unfold Postgres.create_once. case_match; [done|]. apply transact_ext. intros ws1. cbn [run create_script].
  apply try_ext. intros [] ws2. rewrite <- (run_insert u max (retM (Ok tt))) by done.
  unfold try at 1, bindM at 1. destruct (Postgres.insert_checked _ _ _ ws2) as [[[]|e] ws3]; done.
Qed.

Lemma keyed_once_script u max key ws :
  Postgres.keyed_once ctx u max key ws =
  match Postgres.userTimes u with
  | Some err => retM (Err err) ws
  | None => transact ctx (EWrap "begin idempotent create")
      (fun '(_, replayed) err => if replayed : bool then err else EWrap "commit idempotent create" err)
      (run (keyed_script u max key)) ws
  end.
Proof.
  unfold Postgres.keyed_once. case_match; [done|]. apply transact_ext. intros ws1. cbn [run keyed_script].
  apply try_ext. intros [] ws2. apply try_ext. intros [id|] ws3.
  - unfold Postgres.scanUserTx. rewrite try_assoc. cbn [run scan_script]. apply try_ext. by intros [st|] ws4.
  - by apply run_insert.
Qed.

Lemma update_once_script u ws :
  Postgres.update_once ctx u ws =
  match Postgres.userTimes u with
  | Some err => retM (Err err) ws
  | None => transact ctx (EWrap "begin update") (fun _ err => err) (run (update_script u)) ws
  end.
Proof.
  unfold Postgres.update_once. case_match; [done|]. apply transact_ext. intros ws1. cbn [run update_script].
  apply try_ext. intros b ws2. destruct (negb b); [done|]. apply try_ext. intros rows ws3. by case_match.
Qed.

Lemma mutate_once_script id mutate ws :
  Postgres.mutate_once ctx id mutate ws =
  transact ctx (EWrap "begin read-modify-update") (fun _ => EWrap "commit read-modify-update")
    (run (mutate_script id mutate)) ws.
Proof.
  unfold Postgres.mutate_once. apply transact_ext. intros ws1. cbn [run mutate_script].
  apply try_ext. intros [l|] ws2; [|done]. cbn [run]. apply try_ext. intros v ws3.
  unfold store_script. by case_match.
Qed.
End run.

(** * One transaction alone *)

(** The transactions of the repository. *)
Inductive transaction :=
| CreateTx (user : User) (maxUsers : Z)
| KeyedTx (user : User) (maxUsers : Z) (key : string)
| UpdateTx (user : User)
| MutateTx (id : string) (mutate : ReadModifyUpdateFn).

Definition answer (x : transaction) : Type :=
  match x with
  | CreateTx _ _ => unit
  | KeyedTx _ _ _ => User * bool
  | UpdateTx _ => unit
  | MutateTx _ _ => User
  end.

Definition script_of (x : transaction) : script (answer x) :=
  match x with
  | CreateTx user maxUsers => create_script user maxUsers
  | KeyedTx user maxUsers key => keyed_script user maxUsers key
  | UpdateTx user => update_script user
  | MutateTx id mutate => mutate_script id mutate
  end.

Section server.
Context `{HR : Rows}.

(** [exec p t a t']: alone on the tables [t] the script [p] succeeds with [a] and
    leaves [t']. *)
Fixpoint exec {A} (p : script A) (t : Tables) (a : A) (t' : Tables) : Prop :=
  match p with
  | Return r => r = Ok a /\ t' = t
  | Ask q _ k => allowed q t /\ exec (k (fst (denote q t))) (snd (denote q t)) a t'
  | Callback f k => exists w b w', f w = (Ok b, w') /\ exec (k b) t a t'
  end.

(** So does it in a transaction of [Engine]. *)
Lemma run_exec `{HD : !Engine Tables stmt} `{HDL : !DatabaseLaws HD} {A} ctx (p : script A) w tx a w' tx' :
  run ctx p (w, tx) = (Ok a, (w', tx')) -> exec p (working tx) a (working tx').
Proof.
  revert w tx. induction p as [r|B q wrap k IH|B f k IH]; intros w tx; cbn [run exec].
  - by intros [= -> _ <-].
  - intros [(b & [w1 tx1] & Hq & H)|(e & _ & ?)]%try_inv; [|done].
    apply query_tx_ok in Hq as [Hq Ha]. split; [done|]. rewrite Hq. by eapply IH.
  - intros [(b & [w1 tx1] & Hq & H)|(e & _ & ?)]%try_inv; [|done].
    unfold worldM in Hq. cbn [fst snd] in Hq. destruct (f w) as [r w2] eqn:Hf.
    injection Hq as -> <- <-. exists w, b, w2. split; [done|]. by eapply IH.
Qed.

(** * Many transactions *)

Inductive write := PutUser (u : User) | PutKey (key id : string) | DropUser (id : string).

Definition put (t : Tables) (w : write) : Tables :=
  match w with
  | PutUser u => insert_row u t
  | PutKey key id => insert_key key id t
  | DropUser id => delete_row id t
  end.

(** The rows a transaction wrote, over the rows committed. *)
Definition publish (ws : list write) (t : Tables) : Tables := fold_left put ws t.

(** The rows a statement writes. *)
Definition stmt_writes {A} (q : stmt A) (t : Tables) : list write :=
  match q with
  | InsertUser u => [PutUser u]
  | InsertKey key id => [PutKey key id]
  | UpdateUsers u => match t_users t !! Id u with Some _ => [PutUser u] | None => [] end
  | DeleteUsers id => match t_users t !! id with Some _ => [DropUser id] | None => [] end
  | _ => []
  end.

Lemma publish_writes {A} (q : stmt A) t : publish (stmt_writes q t) t = snd (denote q t).
Proof using. destruct q; cbn; try done; by case_match. Qed.

Lemma publish_app ws1 ws2 t : publish (ws1 ++ ws2) t = publish ws2 (publish ws1 t).
Proof using. apply fold_left_app. Qed.

(** The advisory lock, the lock of a row or of its place in the primary key, and
    the place of an idempotency key. *)
Inductive lock := Capacity | Row (id : string) | Key (key : string).
#[export] Instance lock_eq_dec : EqDecision lock.
Proof. solve_decision. Defined.
#[export] Instance lock_countable : Countable lock.
Proof.
  refine (inj_countable'
    (fun l => match l with Capacity => inl tt | Row id => inr (inl id) | Key key => inr (inr key) end)
    (fun s => match s with inl _ => Capacity | inr (inl id) => Row id | inr (inr key) => Key key end) _).
  by intros [].
Qed.

(** The locks a statement needs: those of the rows it finds and writes or reads
    [FOR UPDATE], and of the places it fills. *)
Definition stmt_locks {A} (q : stmt A) (t : Tables) : gset lock :=
  let found id := match t_users t !! id with Some _ => {[ Row id ]} | None => ∅ end in
  match q with
  | LockCapacity => {[ Capacity ]}
  | InsertUser u => {[ Row (Id u) ]}
  | InsertKey key id => {[ Key key ]}
  | SelectUserForUpdate id | ExistsForUpdate id => found id
  | UpdateUsers u => found (Id u)
  | DeleteUsers id => found id
  | _ => ∅
  end.

(** ** The next step of a script over the rows it sees *)

Definition asks {A} (p : script A) (t : Tables) : Prop :=
  match p with Ask q _ _ => allowed q t | _ => False end.
Definition needs {A} (p : script A) (t : Tables) : gset lock :=
  match p with Ask q _ _ => stmt_locks q t | _ => ∅ end.
Definition writes {A} (p : script A) (t : Tables) : list write :=
  match p with Ask q _ _ => stmt_writes q t | _ => [] end.
Definition after {A} (p : script A) (t : Tables) : script A :=
  match p with Ask q _ k => k (fst (denote q t)) | _ => p end.
Definition resume {A} (p : script A) (w : World) : option (script A) :=
  match p with
  | Callback f k => match fst (f w) with Ok b => Some (k b) | Err _ => None end
  | _ => None
  end.

(** ** The database server *)

(** A running transaction: what it has still to do, the rows it wrote, the locks
    it holds; [tx_seen] records the tables that were committed while it ran. *)
Record Txn := mkTxn {
  tx_kind : transaction;
  tx_rest : script (answer tx_kind);
  tx_writes : list write;
  tx_locks : gset lock;
  tx_seen : list Tables
}.

Record System := mkSystem { committed : Tables; running : gmap nat Txn }.

Definition fresh (x : transaction) (t : Tables) : Txn := mkTxn x (script_of x) [] ∅ [t].

Definition view (s : System) (tx : Txn) : Tables := publish (tx_writes tx) (committed s).

Definition statement (tx : Txn) (t : Tables) : Txn := {|
  tx_kind := tx_kind tx;
  tx_rest := after (tx_rest tx) t;
  tx_writes := tx_writes tx ++ writes (tx_rest tx) t;
  tx_locks := tx_locks tx ∪ needs (tx_rest tx) t;
  tx_seen := tx_seen tx
|}.

Definition resumed (tx : Txn) (p : script (answer (tx_kind tx))) : Txn :=
  mkTxn (tx_kind tx) p (tx_writes tx) (tx_locks tx) (tx_seen tx).

Definition witness (t : Tables) (tx : Txn) : Txn :=
  mkTxn (tx_kind tx) (tx_rest tx) (tx_writes tx) (tx_locks tx) (t :: tx_seen tx).

(** No other transaction holds a lock of [ls]. *)
Definition grantable (s : System) (i : nat) (ls : gset lock) : Prop :=
  forall j tx, running s !! j = Some tx -> j <> i -> ls ## tx_locks tx.

Context (issued : transaction -> Prop).

Inductive step (s : System) : System -> Prop :=
| begins i x : running s !! i = None -> issued x ->
    step s (mkSystem (committed s) (<[i := fresh x (committed s)]> (running s)))
| executes i tx : running s !! i = Some tx ->
    grantable s i (needs (tx_rest tx) (view s tx)) -> asks (tx_rest tx) (view s tx) ->
    step s (mkSystem (committed s) (<[i := statement tx (view s tx)]> (running s)))
| calls_back i tx w p : running s !! i = Some tx -> resume (tx_rest tx) w = Some p ->
    step s (mkSystem (committed s) (<[i := resumed tx p]> (running s)))
| rolls_back i : step s (mkSystem (committed s) (delete i (running s)))
| commits i tx a : running s !! i = Some tx -> tx_rest tx = Return (Ok a) ->
    step s (mkSystem (view s tx) (witness (view s tx) <$> delete i (running s)))
| deletes id : (forall j tx, running s !! j = Some tx -> stmt_locks (DeleteUsers id) (committed s) ## tx_locks tx) ->
    step s (mkSystem (snd (denote (DeleteUsers id) (committed s)))
      (witness (snd (denote (DeleteUsers id) (committed s))) <$> running s)).

(** The specification: one whole transaction after another. *)
Inductive serial (t : Tables) : Tables -> Prop :=
| serial_transaction x a t' : issued x -> exec (script_of x) t a t' -> serial t t'
| serial_delete id : serial t (snd (denote (DeleteUsers id) t)).

(** * Where a running transaction stands *)

(** [inserting user max k t]: on the way through [insert_script user max k] when
    [t] is committed. *)
Inductive inserting {A} (user : User) (maxUsers : Z) (k : script A) (t : Tables)
    : script A -> list write -> gset lock -> Prop :=
| to_count : inserting user maxUsers k t (insert_script user maxUsers k) [] {[ Capacity ]}
| to_insert : Z.of_nat (size (t_users t)) < maxUsers ->
    inserting user maxUsers k t (Ask (InsertUser user) Postgres.insert_error (fun _ => k)) [] {[ Capacity ]}
| inserted : Postgres.admissible user maxUsers t ->
    inserting user maxUsers k t k [PutUser user] {[ Capacity; Row (Id user) ]}.

Inductive keying (user : User) (maxUsers : Z) (key : string) (t : Tables) (seen : list Tables)
    : script (User * bool) -> list write -> gset lock -> Prop :=
| keyed_begun : keying user maxUsers key t seen (keyed_script user maxUsers key) [] ∅
| to_look_up : keying user maxUsers key t seen (lookup_script user maxUsers key) [] {[ Capacity ]}
| to_scan id : t_keys t !! key = Some id \/ t_users t !! id = None ->
    keying user maxUsers key t seen (scan_script id (fun u => Return (Ok (u, true)))) [] {[ Capacity ]}
| replayed st t0 : t0 ∈ seen -> exec (keyed_script user maxUsers key) t0 (st, true) t0 ->
    keying user maxUsers key t seen (Return (Ok (st, true))) [] {[ Capacity ]}
| to_create p ws ls : t_keys t !! key = None -> inserting user maxUsers (record_script user key) t p ws ls ->
    keying user maxUsers key t seen p ws ls
| recorded : t_keys t !! key = None -> Postgres.admissible user maxUsers t ->
    keying user maxUsers key t seen (Return (Ok (user, false))) [PutUser user; PutKey key (Id user)]
      {[ Capacity; Row (Id user); Key key ]}.

Inductive updating (user : User) (t : Tables) : script unit -> list write -> gset lock -> Prop :=
| update_begun : updating user t (update_script user) [] ∅
| to_update : is_Some (t_users t !! Id user) ->
    updating user t (replace_script user) [] {[ Row (Id user) ]}
| updated : is_Some (t_users t !! Id user) -> row_ok user ->
    updating user t (Return (Ok tt)) [PutUser user] {[ Row (Id user) ]}.

Inductive mutating (id : string) (mutate : ReadModifyUpdateFn) (t : Tables)
    : script User -> list write -> gset lock -> Prop :=
| mutate_begun : mutating id mutate t (mutate_script id mutate) [] ∅
| to_call l : t_users t !! id = Some l ->
    mutating id mutate t (Callback (mutate l) store_script) [] {[ Row id ]}
| to_store l w u w' : t_users t !! id = Some l -> mutate l w = (Ok u, w') -> Id u = id ->
    mutating id mutate t (store_script u) [] {[ Row id ]}
| mutated l w u w' : t_users t !! id = Some l -> mutate l w = (Ok u, w') -> Id u = id ->
    Postgres.userTimes u = None -> row_ok u ->
    mutating id mutate t (Return (Ok u)) [PutUser u] {[ Row id ]}.

(** A transaction of the kind [x], which has seen [seen], when [t] is committed. *)
Definition stage (x : transaction) (t : Tables) (seen : list Tables)
    : script (answer x) -> list write -> gset lock -> Prop :=
  match x return script (answer x) -> list write -> gset lock -> Prop with
  | CreateTx user maxUsers => fun p ws ls =>
      (p = create_script user maxUsers /\ ws = [] /\ ls = ∅) \/
      inserting user maxUsers (Return (Ok tt)) t p ws ls
  | KeyedTx user maxUsers key => keying user maxUsers key t seen
  | UpdateTx user => updating user t
  | MutateTx id mutate => mutating id mutate t
  end.

(** Bound to fail. *)
Definition failing {A} (p : script A) : Prop := exists e, p = Return (Err e).

Definition stands (t : Tables) (tx : Txn) : Prop :=
  failing (tx_rest tx) \/ stage (tx_kind tx) t (tx_seen tx) (tx_rest tx) (tx_writes tx) (tx_locks tx).

Definition well_formed (x : transaction) : Prop :=
  match x with MutateTx _ mutate => keeps_id mutate | _ => True end.

(** ** Its own steps *)

Lemma inserting_step {A} u max (k : script A) t p ws ls :
  inserting u max k t p ws ls -> asks p (publish ws t) ->
  let v := publish ws t in
  failing (after p v) \/ inserting u max k t (after p v) (ws ++ writes p v) (ls ∪ needs p v) \/
  (p = k /\ ws = [PutUser u] /\ ls = {[ Capacity; Row (Id u) ]} /\ Postgres.admissible u max t).
Proof using.
  intros [|Hn|Ha] Hasks v; cbn in *.
  - destruct (Z.leb_spec max (Z.of_nat (size (t_users t)))) as [|Hn]; [left; by eexists|]. right. left.
    rewrite union_empty_r_L. by constructor.
  - right. left. constructor. by destruct Hasks.
  - by right; right.
Qed.

Lemma keying_step u max key t seen p ws ls :
  t ∈ seen -> keying u max key t seen p ws ls -> asks p (publish ws t) ->
  let v := publish ws t in
  failing (after p v) \/ keying u max key t seen (after p v) (ws ++ writes p v) (ls ∪ needs p v).
Proof using.
  intros Hseen [| |id Hid|st t0 Ht0 He|p1 ws1 ls1 Hk Hins|Hk Ha] Hasks v; try done; cbn in *.
  - right. rewrite union_empty_l_L. constructor.
  - right. rewrite union_empty_r_L. destruct (t_keys t !! key) as [id|] eqn:Hk.
    + constructor. by left.
    + apply to_create; [done|constructor].
  - destruct (t_users t !! id) as [st|] eqn:Hu; [|left; by eexists].
    right. rewrite union_empty_r_L. apply (replayed _ _ _ _ _ st t); [done|].
    destruct Hid as [Hid|]; [|done]. cbn. rewrite Hid. cbn. by rewrite Hu.
  - destruct (inserting_step _ _ _ _ _ _ _ Hins Hasks) as [Hf|[Hi|(-> & -> & -> & Ha)]].
    + by left.
    + right. by apply to_create.
    + right. by apply recorded.
Qed.

Lemma updating_step u t p ws ls :
  updating u t p ws ls -> asks p (publish ws t) ->
  let v := publish ws t in
  failing (after p v) \/ updating u t (after p v) (ws ++ writes p v) (ls ∪ needs p v).
Proof using.
  intros [|[u0 Hu]|? ?] Hasks v; try done; cbn in *.
  - rewrite union_empty_l_L. destruct (t_users t !! Id u) as [u0|] eqn:Hu; [|left; by eexists].
    right. rewrite bool_decide_eq_true_2 by by eexists. by constructor.
  - rewrite Hu in *. cbn. right. rewrite union_idemp_L. constructor; [by eexists|]. apply Hasks. by eexists.
Qed.

Lemma mutating_step id mutate t p ws ls :
  mutating id mutate t p ws ls -> asks p (publish ws t) ->
  let v := publish ws t in
  failing (after p v) \/ mutating id mutate t (after p v) (ws ++ writes p v) (ls ∪ needs p v).
Proof using.
  intros [|l Hl|l w u w' Hl Hm Hu|? ? ? ? ? ? ? ? ?] Hasks v; try done; cbn in *.
  - rewrite union_empty_l_L. destruct (t_users t !! id) as [l|] eqn:Hl; [|left; by eexists].
    right. by constructor.
  - unfold store_script in *. destruct (Postgres.userTimes u) eqn:Hut; [done|]. cbn in *. subst id. rewrite Hl in *.
    right. rewrite union_idemp_L. econstructor; [done..|]. apply Hasks. by eexists.
Qed.

Lemma stands_statement t tx :
  t ∈ tx_seen tx -> stands t tx -> asks (tx_rest tx) (publish (tx_writes tx) t) ->
  stands t (statement tx (publish (tx_writes tx) t)).
Proof using.
  destruct tx as [x p ws ls seen]. unfold stands. cbn. intros Hseen [[e ->]|Hs] Hasks; [done|].
  destruct x as [u max|u max key|u|id mutate]; cbn in *.
  - destruct Hs as [(-> & -> & ->)|Hs].
    + right. right. cbn. rewrite union_empty_l_L. constructor.
    + destruct (inserting_step _ _ _ _ _ _ _ Hs Hasks) as [?|[?|(-> & _)]]; auto. done.
  - by apply keying_step.
  - by apply updating_step.
  - by apply mutating_step.
Qed.

Lemma stands_resumed t tx w p :
  Postgres.keyed t -> well_formed (tx_kind tx) -> stands t tx -> resume (tx_rest tx) w = Some p -> stands t (resumed tx p).
Proof using.
  destruct tx as [x q ws ls seen]. unfold stands. cbn. intros Hk Hwf [[e ->]|Hs] Hr; [done|].
  destruct x as [u max|u max key|u|id mutate]; cbn in *.
  - revert Hr. destruct Hs as [(-> & _)|[]]; discriminate.
  - revert Hr. destruct Hs as [| |id|st t0|p1 ws1 ls1 Hk' []|]; discriminate.
  - revert Hr. destruct Hs; discriminate.
  - destruct Hs as [|l Hl|l w0 u w' Hl Hm Hu|]; try done; cbn in Hr.
    + destruct (mutate l w) as [[u|e] w'] eqn:Hm; [|done]. injection Hr as <-.
      right. econstructor; [done..|]. rewrite (Hwf _ _ _ _ Hm). by apply Hk.
    + unfold store_script in Hr. by destruct (Postgres.userTimes u).
Qed.

(** ** The steps of the others *)

(** What the locks [ls] protect from a change of the tables from [t] to [t']:
    the rows locked; and under the advisory lock nothing is inserted, and a key
    is only lost with its user. *)
Definition protected (ls : gset lock) (t t' : Tables) : Prop :=
  (forall id, Row id ∈ ls -> t_users t' !! id = t_users t !! id) /\
  (Capacity ∈ ls ->
     (forall id, is_Some (t_users t' !! id) -> is_Some (t_users t !! id)) /\
     (forall key, t_keys t !! key = None -> t_keys t' !! key = None) /\
     (forall key id, t_keys t !! key = Some id -> t_keys t' !! key = Some id \/ t_users t' !! id = None)).

Lemma protected_size ls t t' :
  protected ls t t' -> Capacity ∈ ls -> (size (t_users t') <= size (t_users t))%nat.
Proof using.
  intros [_ H] (Hd & _)%H. rewrite <- !size_dom. apply subseteq_size. intros id.
  rewrite !elem_of_dom. apply Hd.
Qed.

Lemma admissible_others u max ls t t' :
  protected ls t t' -> Capacity ∈ ls -> Row (Id u) ∈ ls ->
  Postgres.admissible u max t -> Postgres.admissible u max t'.
Proof using.
  intros Hp Hc Hr (Hf & Hs & Hok). pose proof (protected_size _ _ _ Hp Hc). destruct Hp as [Hrow _].
  split; [by rewrite Hrow|]. split; [lia|done].
Qed.

Lemma inserting_others {A} u max (k : script A) t t' p ws ls :
  protected ls t t' -> inserting u max k t p ws ls -> inserting u max k t' p ws ls.
Proof using.
  intros Hp Hi. revert Hp. destruct Hi as [|Hn|Ha]; intros Hp; constructor.
  - assert (Hc : Capacity ∈ ({[Capacity]} : gset lock)) by set_solver.
    pose proof (protected_size _ _ _ Hp Hc). lia.
  - eapply admissible_others; [exact Hp| | |exact Ha]; set_solver.
Qed.

Lemma inserting_capacity {A} u max (k : script A) t p ws ls : inserting u max k t p ws ls -> Capacity ∈ ls.
Proof using. intros []; set_solver. Qed.

Lemma keying_others u max key t t' seen p ws ls :
  protected ls t t' -> keying u max key t seen p ws ls -> keying u max key t' (t' :: seen) p ws ls.
Proof using.
  intros Hp Hi. revert Hp. destruct Hi as [| |id Hid|st t0 Ht0 He|p1 ws1 ls1 Hk Hins|Hk Ha]; intros Hp.
  - constructor.
  - constructor.
  - constructor. destruct Hp as [_ [Hd [_ Hk]]]; [set_solver|]. destruct Hid as [Hid|Hid]; [by apply Hk|].
    right. apply eq_None_not_Some. intros Hs%Hd. rewrite Hid in Hs. by destruct Hs.
  - econstructor; [by apply list_elem_of_further|done].
  - apply to_create; [|by eapply inserting_others]. apply inserting_capacity in Hins.
    destruct Hp as [_ [_ [Hnone _]]]; [done|]. by apply Hnone.
  - constructor; [|eapply admissible_others; [exact Hp| | |exact Ha]; set_solver].
    destruct Hp as [_ [_ [Hnone _]]]; [set_solver|]. by apply Hnone.
Qed.

Lemma stands_others t t' tx :
  protected (tx_locks tx) t t' -> stands t tx -> stands t' (witness t' tx).
Proof using.
  destruct tx as [x p ws ls seen]. unfold stands. cbn. intros Hp [Hf|Hs]; [by left|right].
  destruct x as [u max|u max key|u|id mutate]; cbn in *.
  - destruct Hs as [?|Hs]; [by left|right]. by eapply inserting_others.
  - by eapply keying_others.
  - revert Hp. destruct Hs as [|Hu|Hu Hr]; intros Hp; constructor; try done; (destruct Hp as [Hrow _]; rewrite Hrow by set_solver; done).
  - revert Hp. destruct Hs; intros Hp; econstructor; try done; (destruct Hp as [Hrow _]; rewrite Hrow by set_solver; done).
Qed.

(** ** Commits *)

(** What a transaction that commits answers is what its script answers alone: on
    the tables committed last, which become those its script leaves; or on tables
    it has seen, when it wrote nothing. *)
Definition answers (x : transaction) (t : Tables) (seen : list Tables) (a : answer x) (t' : Tables) : Prop :=
  exec (script_of x) t a t' \/ (t' = t /\ exists t0, t0 ∈ seen /\ exec (script_of x) t0 a t0).

(** The rows it wrote are locked, and without the advisory lock it has only
    replaced rows. *)
Definition within (ls : gset lock) (t t' : Tables) : Prop :=
  (forall id, t_users t' !! id <> t_users t !! id -> Row id ∈ ls) /\
  (Capacity ∉ ls -> t_keys t' = t_keys t /\ forall id, is_Some (t_users t' !! id) -> is_Some (t_users t !! id)).

Lemma inserting_exec {A} u max (k : script A) t a t' :
  Postgres.admissible u max t -> exec k (insert_row u t) a t' -> exec (insert_script u max k) t a t'.
Proof using.
  intros (Hf & Hs & Hr) He. cbn. split; [done|]. rewrite (proj2 (Z.leb_gt _ _)) by done. cbn. by split_and!.
Qed.

Lemma within_same ls t : within ls t t.
Proof using. by split. Qed.

Lemma within_insert u ls t :
  Row (Id u) ∈ ls -> is_Some (t_users t !! Id u) \/ Capacity ∈ ls -> within ls t (insert_row u t).
Proof using.
  intros Hr Hc. split; cbn.
  - intros id. rewrite lookup_insert. case_decide as Hid; [by subst id|done].
  - intros Hn. split; [done|]. intros id. rewrite lookup_insert. case_decide as Hid; [|done]. subst id.
    by destruct Hc.
Qed.

Lemma within_key key id ls t t' : within ls t t' -> Capacity ∈ ls -> within ls t (insert_key key id t').
Proof using. intros [H1 H2] Hc. by split. Qed.

Lemma stands_commit t tx a :
  Postgres.keyed t -> stands t tx -> tx_rest tx = Return (Ok a) ->
  answers (tx_kind tx) t (tx_seen tx) a (publish (tx_writes tx) t) /\
  within (tx_locks tx) t (publish (tx_writes tx) t).
Proof using.
  destruct tx as [x p ws ls seen]. unfold stands, answers. cbn. intros Hk [[e ->]|Hs] Hp; [done|].
  destruct x as [u max|u max key|u|id mutate]; cbn in *.
  - revert Hp. destruct Hs as [(-> & _)|[]]; try discriminate. intros [= <-]. split.
    + left. split; [done|]. by apply inserting_exec.
    + apply within_insert; set_solver.
  - revert Hp. destruct Hs as [| |id Hid|st t0 Ht0 He|p1 ws1 ls1 Hk' []|Hk' Ha]; try discriminate.
    + intros [= <-]. split; [|apply within_same]. right. split; [done|]. by exists t0.
    + intros [= <-]. split.
      * left. split; [done|]. split; [done|]. rewrite Hk'. apply inserting_exec; [done|]. cbn.
        rewrite Hk', lookup_insert_eq. split; [|done]. split; [done|by eexists].
      * cbn. apply within_key; [apply within_insert|]; set_solver.
  - revert Hp. destruct Hs as [|Hu|Hu Hr]; try discriminate. intros [= <-]. split.
    + left. split; [done|]. rewrite bool_decide_eq_true_2 by done. cbn. split; [done|]. destruct Hu as [u0 Hu].
      by rewrite Hu.
    + apply within_insert; [set_solver|by left].
  - revert Hp. destruct Hs as [|l Hl|l w u w' Hl Hm Hu|l w u w' Hl Hm Hu Hut Hr]; try discriminate.
    { unfold store_script. case_match; discriminate. }
    intros [= <-]. subst id. split.
    + left. split; [done|]. rewrite Hl. exists w, u, w'. split; [done|]. unfold store_script. rewrite Hut. cbn.
      by rewrite Hl.
    + apply within_insert; [set_solver|]. left. by eexists.
Qed.

(** * All reachable states *)

Context (Hstored : forall u, Id (stored u) = Id u) (Hissued : forall x, issued x -> well_formed x).

Record consistent (s : System) : Prop := {
  rows_keyed : Postgres.keyed (committed s);
  txns_stand : forall i tx, running s !! i = Some tx ->
    issued (tx_kind tx) /\ committed s ∈ tx_seen tx /\ stands (committed s) tx;
  locks_exclusive : forall i j txi txj,
    running s !! i = Some txi -> running s !! j = Some txj -> i <> j -> tx_locks txi ## tx_locks txj
}.

Lemma keyed_publish ws t : Postgres.keyed t -> Postgres.keyed (publish ws t).
Proof using Hstored.
  revert t. induction ws as [|[u|key id|id] ws IH]; intros t Hk; [done|..]; apply IH; [|done|].
  - intros id u'. cbn. rewrite lookup_insert. case_decide; [|apply Hk]. intros [= <-]. subst id. apply Hstored.
  - intros id' u'. cbn. rewrite lookup_delete_Some. intros [_ Hu]. by apply Hk.
Qed.

(** A change within the locks of one transaction is one the locks of the others
    protect them from. *)
Lemma within_protects ls ls' t t' : within ls t t' -> ls ## ls' -> protected ls' t t'.
Proof using.
  clear issued Hstored Hissued.
  intros [Hrow Hcap] Hd. split.
  - intros id Hid. apply dec_stable. intros Hne%Hrow. by apply (Hd (Row id)).
  - intros Hc. assert (Hn : Capacity ∉ ls) by (intros ?; by apply (Hd Capacity)).
    destruct (Hcap Hn) as [Hk Hu]. rewrite Hk. split_and!; try done. by left.
Qed.

Lemma delete_protects id t ls' :
  stmt_locks (DeleteUsers id) t ## ls' -> protected ls' t (snd (denote (DeleteUsers id) t)).
Proof using.
  clear issued Hstored Hissued.
  cbn. destruct (t_users t !! id) as [u|] eqn:Hu; cbn.
  2:{ intros _. split; [done|]. intros _. split_and!; [done|done|by left]. }
  intros Hd. split; cbn.
  - intros id' Hid. apply lookup_delete_ne. intros ->. set_solver.
  - intros _. split_and!.
    + intros id' [u' [_ Hu']%lookup_delete_Some]. by eexists.
    + intros key Hk. by rewrite map_lookup_filter, Hk.
    + intros key id' Hk. destruct (decide (id' = id)) as [->|Hne].
      * right. by rewrite lookup_delete_eq.
      * left. apply map_lookup_filter_Some. by split.
Qed.

Lemma delete_keyed id t : Postgres.keyed t -> Postgres.keyed (snd (denote (DeleteUsers id) t)).
Proof using Hstored. rewrite <- publish_writes. apply keyed_publish. Qed.

(** One transaction takes a step of its own. *)
Lemma consistent_own s i tx' :
  consistent s -> issued (tx_kind tx') -> committed s ∈ tx_seen tx' -> stands (committed s) tx' ->
  (forall j txj, running s !! j = Some txj -> j <> i -> tx_locks tx' ## tx_locks txj) ->
  consistent (mkSystem (committed s) (<[i := tx']> (running s))).
Proof using.
  intros [Hk Ht Hd] Hx Hseen Hst Hl. split; cbn; [done|..].
  - intros j txj. rewrite lookup_insert. case_decide; [by intros [= <-]|apply Ht].
  - intros j1 j2 tx1 tx2. rewrite !lookup_insert. do 2 case_decide; subst.
    + by intros [= <-] [= <-].
    + intros [= <-] H2 Hne. by eapply Hl.
    + intros H1 [= <-] Hne. symmetry. by eapply Hl.
    + apply Hd.
Qed.

(** The others after a change of the committed tables. *)
Lemma consistent_others s t' (m : gmap nat Txn) :
  consistent s -> m ⊆ running s -> Postgres.keyed t' ->
  (forall i tx, m !! i = Some tx -> protected (tx_locks tx) (committed s) t') ->
  consistent (mkSystem t' (witness t' <$> m)).
Proof using.
  intros [Hk Ht Hd] Hm Hk' Hp. split; cbn; [done|..].
  - intros i tx'. rewrite lookup_fmap_Some. intros (tx & <- & Hi). cbn.
    destruct (Ht i tx) as (Hx & _ & Hs); [by eapply lookup_weaken|]. split; [done|].
    split; [by left|]. apply (stands_others (committed s)); [by eapply Hp|done].
  - intros i j txi txj. rewrite !lookup_fmap_Some. intros (tx1 & <- & H1) (tx2 & <- & H2). cbn.
    by eapply Hd; eapply lookup_weaken.
Qed.

Lemma consistent_step s s' : consistent s -> step s s' ->
  consistent s' /\ rtc serial (committed s) (committed s').
Proof using Hstored Hissued.
  intros Hc Hstep. destruct Hstep as [i x Hi Hx|i tx Hi Hg Ha|i tx w p Hi Hr|i|i tx a Hi Hr|id Hg];
    cbn [committed].
  - split; [|done]. apply consistent_own; cbn; [done|done|by left| |intros; apply disjoint_empty_l].
    unfold stands. cbn. right. destruct x; cbn; [by left|constructor..].
  - split; [|done]. destruct (txns_stand _ Hc i tx Hi) as (Hx & Hseen & Hst).
    apply consistent_own; cbn; [done..|by apply stands_statement|].
    intros j txj Hj Hne. apply disjoint_union_l. split; [|by eapply Hg].
    by eapply (locks_exclusive _ Hc i j).
  - split; [|done]. destruct (txns_stand _ Hc i tx Hi) as (Hx & Hseen & Hst).
    apply consistent_own; cbn; try done.
    + exact (stands_resumed _ tx w p (rows_keyed _ Hc) (Hissued _ Hx) Hst Hr).
    + intros j txj Hj Hne. by eapply (locks_exclusive _ Hc i j).
  - split; [|done]. destruct Hc as [Hk Ht Hd]. split; cbn; [done|..].
    + intros j txj [_ Hj]%lookup_delete_Some. by eapply Ht.
    + intros j1 j2 tx1 tx2 [_ H1]%lookup_delete_Some [_ H2]%lookup_delete_Some. by eapply Hd.
  - destruct (txns_stand _ Hc i tx Hi) as (Hx & Hseen & Hst).
    destruct (stands_commit _ _ _ (rows_keyed _ Hc) Hst Hr) as [Ha Hw]. split.
    + apply consistent_others with (s := s); [done|apply delete_subseteq|apply keyed_publish, rows_keyed, Hc|].
      intros j txj [Hne Hj]%lookup_delete_Some. eapply within_protects; [exact Hw|].
      by eapply (locks_exclusive _ Hc i j).
    + destruct Ha as [He|[Heq _]]; [apply rtc_once; by eapply serial_transaction|]. unfold view. by rewrite Heq.
  - split; [|apply rtc_once, serial_delete].
    apply consistent_others with (s := s); [done|done|apply delete_keyed, rows_keyed, Hc|].
    intros j txj Hj. apply delete_protects. by eapply Hg.
Qed.

Definition idle (t : Tables) : System := mkSystem t ∅.

Lemma reachable_consistent t s : Postgres.keyed t -> rtc step (idle t) s ->
  consistent s /\ rtc serial t (committed s).
Proof using Hstored Hissued.
  intros Hk Hrun.
  assert (H0 : consistent (idle t)).
  { split; [done|..]; cbn; intros *; by rewrite lookup_empty. }
  change (consistent s /\ rtc serial (committed (idle t)) (committed s)). revert H0. induction Hrun as [s|s1 s2 s3 H12 _ IH]; intros H0.
  - by split.
  - destruct (consistent_step s1 s2 H0 H12) as [H2 Hs]. destruct (IH H2) as [H3 Hs']. split; [done|].
    by etrans.
Qed.

(** ** Locks *)

(** A transaction that holds locks but not the advisory lock needs no more. *)
Lemma stage_locks x t seen p ws ls :
  stage x t seen p ws ls -> Capacity ∈ ls \/ ls = ∅ \/ needs p (publish ws t) ⊆ ls.
Proof using.
  clear issued Hstored Hissued.
  destruct x as [u max|u max key|u|id mutate]; cbn.
  - intros [(_ & _ & ->)|Hs%inserting_capacity]; auto.
  - intros [| | | |? ? ? _ Hs%inserting_capacity|]; [by right; left|left..]; set_solver.
  - intros [| |]; [by right; left|right; right..]; cbn; [case_match|]; set_solver.
  - intros [| |l w u w' Hl Hm <-|]; [by right; left|right; right..]; cbn; [set_solver| |set_solver].
    unfold store_script. case_match; cbn; [set_solver|]. case_match; set_solver.
Qed.

Lemma stands_locks t tx : stands t tx ->
  Capacity ∈ tx_locks tx \/ tx_locks tx = ∅ \/ needs (tx_rest tx) (publish (tx_writes tx) t) ⊆ tx_locks tx.
Proof using.
  intros [[e He]|Hs]; [|by eapply stage_locks]. right. right. rewrite He. apply empty_subseteq.
Qed.

(** Find a transaction with a property, or all have it not. *)
Lemma find_txn (P : Txn -> Prop) `{!forall tx, Decision (P tx)} (m : gmap nat Txn) :
  (exists i tx, m !! i = Some tx /\ P tx) \/ forall i tx, m !! i = Some tx -> ~ P tx.
Proof using.
  destruct (decide (map_Exists (fun _ tx => P tx) m)) as [(i & tx & Hi & Hp)|Hn]; [left; by exists i, tx|].
  right. intros i tx Hi Hp. apply Hn. by exists i, tx.
Qed.

Lemma consistent_progress s :
  consistent s -> running s <> ∅ ->
  exists i tx, running s !! i = Some tx /\ grantable s i (needs (tx_rest tx) (view s tx)).
Proof using.
  clear Hstored Hissued.
  intros Hc Hne.
  assert (Hown : forall i tx, running s !! i = Some tx -> needs (tx_rest tx) (view s tx) ⊆ tx_locks tx ->
    grantable s i (needs (tx_rest tx) (view s tx))).
  { intros i tx Hi Hn j txj Hj Hij. pose proof (locks_exclusive _ Hc i j _ _ Hi Hj (not_eq_sym Hij)). set_solver. }
  destruct (find_txn (fun tx => needs (tx_rest tx) (view s tx) ⊆ tx_locks tx) (running s)) as [(i & tx & Hi & Hp)|Hall].
  { exists i, tx. split; [done|]. by apply Hown. }
  destruct (find_txn (fun tx => Capacity ∈ tx_locks tx) (running s)) as [(i & tx & Hi & Hp)|Hnone].
  - exists i, tx. split; [done|]. intros j txj Hj Hij.
    destruct (txns_stand _ Hc j txj Hj) as (_ & _ & [Hcap|[->|Hn]]%stands_locks).
    + pose proof (locks_exclusive _ Hc i j _ _ Hi Hj (not_eq_sym Hij)). set_solver.
    + apply disjoint_empty_r.
    + by destruct (Hall j txj Hj).
  - destruct (map_choose _ Hne) as (i & tx & Hi). exists i, tx. split; [done|]. intros j txj Hj Hij.
    destruct (txns_stand _ Hc j txj Hj) as (_ & _ & [Hcap|[->|Hn]]%stands_locks).
    + by destruct (Hnone j txj Hj).
    + apply disjoint_empty_r.
    + by destruct (Hall j txj Hj).
Qed.

(** ** Capacity *)

Definition limit_of (x : transaction) : option Z :=
  match x with
  | CreateTx _ maxUsers | KeyedTx _ maxUsers _ => Some maxUsers
  | _ => None
  end.

Lemma insert_script_size {A} u max (k : script A) t a t' cap :
  (forall t1 t2, exec k t1 a t2 -> t_users t2 = t_users t1) -> max <= cap ->
  exec (insert_script u max k) t a t' -> Z.of_nat (size (t_users t')) <= cap.
Proof using.
  intros Hk Hcap. cbn. intros [_ H]. destruct (Z.leb_spec max (Z.of_nat (size (t_users t)))); [by destruct H|].
  destruct H as [[Hf _] H%Hk]. rewrite H. cbn. rewrite map_size_insert_None by done. lia.
Qed.

Lemma exec_size x t a t' cap :
  (forall max, limit_of x = Some max -> max <= cap) -> exec (script_of x) t a t' ->
  Z.of_nat (size (t_users t)) <= cap -> Z.of_nat (size (t_users t')) <= cap.
Proof using.
  intros Hmax He Ht. destruct x as [u max|u max key|u|id mutate]; cbn [script_of limit_of] in *.
  - destruct He as [_ He]. eapply insert_script_size; [|by apply Hmax|exact He]. by intros t1 t2 [_ ->].
  - destruct He as [_ [_ He]]. cbn in He. destruct (t_keys t !! key) as [id|].
    + destruct He as [_ He]. cbn in He. destruct (t_users t !! id); by destruct He as [? ->].
    + eapply insert_script_size; [|by apply Hmax|exact He]. by intros t1 t2 [_ [_ ->]].
  - cbn in He. destruct He as [_ He]. case_bool_decide as Hu; [|by destruct He]. cbn in He.
    destruct He as [_ He], Hu as [u0 Hu]. rewrite Hu in He. destruct He as [_ ->]. cbn.
    by rewrite map_size_insert_Some by by eexists.
  - cbn in He. destruct He as [_ He]. destruct (t_users t !! id); [|by destruct He].
    destruct He as (w & v & w' & _ & He). unfold store_script in He. case_match; [by destruct He|].
    cbn in He. destruct He as [_ [_ ->]]. destruct (t_users t !! Id v) eqn:Hv; [|done]. cbn.
    by rewrite map_size_insert_Some by by eexists.
Qed.

(** ** Transactions alone *)

Lemma exec_alone x p ws ls seen t a t' : exec p (publish ws t) a t' ->
  rtc step (mkSystem t {[0%nat := mkTxn x p ws ls seen]}) (idle t').
Proof using.
  set (s0 := 0%nat). revert ws ls seen. induction p as [r|B q wrap k IH|B f k IH]; intros ws ls seen He; cbn in He.
  - destruct He as [-> ->]. apply rtc_once.
    replace (idle (publish ws t)) with (mkSystem (publish ws t)
      (witness (publish ws t) <$> delete s0 ({[s0 := mkTxn x (Return (Ok a)) ws ls seen]} : gmap nat Txn))).
    2:{ by rewrite delete_singleton_eq, fmap_empty. }
    apply (commits (mkSystem t _) s0 (mkTxn x (Return (Ok a)) ws ls seen) a); [apply lookup_singleton_eq|done].
  - destruct He as [Ha He]. set (tx := mkTxn x (Ask q wrap k) ws ls seen). eapply rtc_l.
    + apply (executes (mkSystem t _) s0 tx); [apply lookup_singleton_eq| |exact Ha].
      intros j txj Hj Hne. change (({[s0 := tx]} : gmap nat Txn) !! j = Some txj) in Hj.
      by apply lookup_singleton_Some in Hj as [<- _].
    + cbn [committed running]. rewrite insert_singleton_eq. apply (IH (fst (denote q (publish ws t)))).
      rewrite publish_app. cbn [writes tx tx_rest]. unfold view. cbn. by rewrite publish_writes.
  - destruct He as (w & b & w' & Hf & He). set (tx := mkTxn x (Callback f k) ws ls seen). eapply rtc_l.
    + apply (calls_back (mkSystem t _) s0 tx w (k b)); [apply lookup_singleton_eq|]. cbn. by rewrite Hf.
    + cbn [committed running]. rewrite insert_singleton_eq. by apply IH.
Qed.

Lemma serial_alone t t' : serial t t' -> rtc step (idle t) (idle t').
Proof using.
  intros [x a t1 Hx He|id].
  - eapply rtc_l; [by apply (begins (idle t) 0 x); [apply lookup_empty|]|]. cbn. rewrite insert_empty.
    by apply (exec_alone x (script_of x) [] ∅ [t] t a t1).
  - apply rtc_once. unfold idle at 2. rewrite <- (fmap_empty (witness (snd (denote (DeleteUsers id) t)))).
    apply (deletes (idle t) id). intros j tx. cbn. by rewrite lookup_empty.
Qed.

(** * Properties *)

(** C3: Whatever transactions run at the same time and however their statements
    interleave and fail, the tables that can be committed are those that some of
    the transactions leave when executed alone one after another, and all of
    these. What a transaction answers when it commits is what it answers alone:
    on the tables committed last, which it turns into those it publishes, or,
    when it has written nothing (the replay of a key), on tables that were
    committed while it ran. *)
Theorem transactions_serialize t :
  Postgres.keyed t ->
  (forall t', rtc serial t t' <-> exists s, rtc step (idle t) s /\ committed s = t') /\
  forall s i tx a, rtc step (idle t) s -> running s !! i = Some tx -> tx_rest tx = Return (Ok a) ->
    answers (tx_kind tx) (committed s) (tx_seen tx) a (view s tx).
Proof using Hstored Hissued.
  intros Hk. split.
  - intros t'. split.
    + intros Hs. exists (idle t'). split; [|done]. clear Hk. induction Hs as [|t1 t2 t3 H _ IH]; [done|].
      etrans; [by apply serial_alone|exact IH].
    + intros (s & Hrun & <-). by destruct (reachable_consistent t s Hk Hrun).
  - intros s i tx a Hrun Hi Hr. destruct (reachable_consistent t s Hk Hrun) as [Hc _].
    destruct (txns_stand _ Hc i tx Hi) as (_ & _ & Hst). by apply stands_commit; [apply rows_keyed|..].
Qed.

(** C15: The count of users before an insertion and the insertion are separate
    statements, yet creates that run at the same time never exceed the capacity
    together: they hold the advisory lock from the count to the commit. *)
Theorem capacity_holds_under_concurrency t s cap :
  Postgres.keyed t -> (forall x max, issued x -> limit_of x = Some max -> max <= cap) ->
  Z.of_nat (size (t_users t)) <= cap -> rtc step (idle t) s ->
  Z.of_nat (size (t_users (committed s))) <= cap.
Proof using Hstored Hissued.
  intros Hk Hmax Ht Hrun. destruct (reachable_consistent t s Hk Hrun) as [_ Hs].
  clear Hrun Hk. induction Hs as [t|t t1 t2 [x a t' Hx He|id] _ IH]; [done|..]; apply IH.
  - eapply exec_size; [|exact He|done]. intros max. by apply Hmax.
  - cbn. destruct (t_users t !! id) as [u|] eqn:Hu; [|done]. cbn.
    rewrite map_size_delete_Some by by eexists. lia.
Qed.

(** C26: Transactions never wait for one another in a circle: while any run, the
    next statement of one of them is granted (or it has none and can end). *)
Theorem transactions_never_deadlock t s :
  Postgres.keyed t -> rtc step (idle t) s -> running s <> ∅ ->
  exists i tx, running s !! i = Some tx /\ grantable s i (needs (tx_rest tx) (view s tx)).
Proof using Hstored Hissued.
  intros Hk Hrun. destruct (reachable_consistent t s Hk Hrun) as [Hc _]. by apply consistent_progress.
Qed.

End server.

(** * Witnesses *)

#[local] Existing Instance rows0.

(** A create and a keyed create of the same user for two places, and changes of
    that user. *)
Definition requests (x : transaction) : Prop :=
  x = CreateTx Postgres.carol 2 \/ x = KeyedTx Postgres.carol 2 "k" \/ x = UpdateTx Postgres.carol \/
  x = MutateTx "user-1" Postgres.birthday.

Lemma requests_well_formed x : requests x -> well_formed x.
Proof. intros [->|[->|[->| ->]]]; try done. apply Postgres.birthday_keeps_id. Qed.

Lemma keyed_no_users : Postgres.keyed Postgres.no_users.
Proof. intros id u. cbn. by rewrite lookup_empty. Qed.

(** Both creates have begun: one of them will wait. *)
Definition two_creates : System :=
  mkSystem Postgres.no_users
    (<[1%nat := fresh (KeyedTx Postgres.carol 2 "k") Postgres.no_users]>
      (<[0%nat := fresh (CreateTx Postgres.carol 2) Postgres.no_users]> ∅)).

Lemma two_creates_reachable : rtc (step requests) (idle Postgres.no_users) two_creates.
Proof.
  eapply rtc_l; [apply (begins requests (idle Postgres.no_users) 0 (CreateTx Postgres.carol 2)); [apply lookup_empty|by left]|].
  apply rtc_once.
  apply (begins requests (mkSystem Postgres.no_users _) 1 (KeyedTx Postgres.carol 2 "k")); [done|by right; left].
Qed.

(** The keyed create runs alone, then the row is updated. *)
Lemma keyed_then_updated :
  rtc (serial requests) Postgres.no_users (insert_row Postgres.carol (insert_key "k" "user-1" Postgres.one_user)).
Proof.
  eapply rtc_l.
  { apply (serial_transaction requests _ (KeyedTx Postgres.carol 2 "k") (Postgres.carol, false)); [by right; left|].
    vm_compute. repeat split; try (intros [=]; fail); try (by eexists). }
  apply rtc_once. apply (serial_transaction requests _ (UpdateTx Postgres.carol) tt); [by right; right; left|].
  vm_compute. repeat split; intros; try done; intros [=].
Qed.

Lemma transactions_serialize_witness :
  exists s, rtc (step requests) (idle Postgres.no_users) s /\
    committed s = insert_row Postgres.carol (insert_key "k" "user-1" Postgres.one_user).
Proof.
  apply (proj1 (transactions_serialize (HR := rows0) requests (fun u => eq_refl) requests_well_formed Postgres.no_users
    keyed_no_users)). exact keyed_then_updated.
Defined.

Lemma capacity_holds_under_concurrency_witness : Z.of_nat (size (t_users (committed two_creates))) <= 2.
Proof.
  apply (capacity_holds_under_concurrency (HR := rows0) requests (fun u => eq_refl) requests_well_formed Postgres.no_users
    two_creates 2 keyed_no_users).
  - intros x max [->|[->|[->| ->]]]; cbn; intros [=]; lia.
  - by vm_compute.
  - exact two_creates_reachable.
Defined.

Lemma transactions_never_deadlock_witness :
  exists i tx, running two_creates !! i = Some tx /\ grantable two_creates i (needs (tx_rest tx) (view two_creates tx)).
Proof.
  apply (transactions_never_deadlock (HR := rows0) requests (fun u => eq_refl) requests_well_formed Postgres.no_users
    two_creates keyed_no_users two_creates_reachable).
  intros H. apply (f_equal (lookup 0%nat)) in H. discriminate H.
Defined.

End Transactions.
