(* ===== verification/Migrations.v ===== *)
(** The schema migrations of [internal/storage/postgres.go] and the files under
    [internal/storage/migrations]: the start-up loop of [NewPostgresRepository],
    what a start does to the schema, and rolling back. *)
From S2P Require Import Prelude GoStrings GoErrors Storage Retry Rpc Engine Postgres.
Import Retry Postgres.

Module Migrations.

(** * The schema *)

(** The statements of a script: [CREATE TABLE IF NOT EXISTS] with the table a
    foreign key refers to, [CREATE INDEX IF NOT EXISTS], [DROP ... IF EXISTS]. *)
Inductive ddl :=
| CreateTable (name : string) (references : option string)
| CreateIndex (name table : string)
| DropTable (name : string)
| DropIndex (name : string).

Abbreviation script := (list ddl).

(** The tables with what they refer to, the indexes with their tables, and the
    rows of [schema_migrations], which exists when they are [Some]. *)
Record Schema := mkSchema {
  tables : gmap string (option string);
  indexes : gmap string string;
  versions : option (gset Z)
}.
#[export] Instance Schema_eq_dec : EqDecision Schema.
Proof. solve_decision. Defined.

Definition set_versions (vs : option (gset Z)) (s : Schema) : Schema :=
  {| tables := tables s; indexes := indexes s; versions := vs |}.

(** What a statement of a script does; [None] when it is refused: an index needs
    its table, a foreign key the table it refers to, and a table another one
    refers to is not dropped. A table is dropped with its indexes. *)
Definition run_ddl (q : ddl) (s : Schema) : option Schema :=
  match q with
  | CreateTable name references =>
      match tables s !! name, references with
      | Some _, _ => Some s
      | None, Some table =>
          if tables s !! table is Some _
          then Some (mkSchema (<[name := references]> (tables s)) (indexes s) (versions s)) else None
      | None, None => Some (mkSchema (<[name := None]> (tables s)) (indexes s) (versions s))
      end
  | CreateIndex name table =>
      match tables s !! table, indexes s !! name with
      | None, _ => None
      | Some _, Some _ => Some s
      | Some _, None => Some (mkSchema (tables s) (<[name := table]> (indexes s)) (versions s))
      end
  | DropTable name =>
      if bool_decide (name = "schema_migrations") then Some (set_versions None s) else
      if bool_decide (map_Forall (fun _ references => references <> Some name) (tables s))
      then Some (mkSchema (delete name (tables s)) (filter (fun kv => kv.2 <> name) (indexes s)) (versions s))
      else None
  | DropIndex name => Some (mkSchema (tables s) (delete name (indexes s)) (versions s))
  end.

Fixpoint run_script (qs : script) (s : Schema) : option Schema :=
  match qs with
  | [] => Some s
  | q :: qs => s ← run_ddl q s; run_script qs s
  end.

(** * Statements *)

Inductive stmt : Type -> Type :=
| AdvisoryLock : stmt unit
| CreateVersions : stmt unit
| SelectVersions : stmt (list Z)
| ExecScript (body : script) : stmt unit
| InsertVersion (version : Z) : stmt unit
| DeleteVersion (version : Z) : stmt unit.

Definition create_versions (s : Schema) : Schema := set_versions (Some (default ∅ (versions s))) s.

(** The result of a statement and the schema it leaves; [None] when it is
    refused. *)
Definition run_stmt {A} (q : stmt A) (s : Schema) : option (A * Schema) :=
  match q in stmt A return option (A * Schema) with
  | AdvisoryLock => Some (tt, s)
  | CreateVersions => Some (tt, create_versions s)
  | SelectVersions => vs ← versions s; Some (elements vs, s)
  | ExecScript body => s ← run_script body s; Some (tt, s)
  | InsertVersion version =>
      vs ← versions s;
      if bool_decide (version ∈ vs) then None else Some (tt, set_versions (Some ({[version]} ∪ vs)) s)
  | DeleteVersion version => vs ← versions s; Some (tt, set_versions (Some (vs ∖ {[version]})) s)
  end.

(** A refused statement has no result of its own; the value here is never
    returned. *)
Definition no_result {A} (q : stmt A) : A :=
  match q in stmt A return A with
  | SelectVersions => []
  | AdvisoryLock | CreateVersions | ExecScript _ | InsertVersion _ | DeleteVersion _ => tt
  end.

#[export] Instance schema_semantics : Semantics Schema stmt := {|
  denote A q s := default (no_result q, s) (run_stmt q s);
  allowed A q s := is_Some (run_stmt q s)
|}.

(** * The code *)

Record migrationRecord := mkMigration { name : string; version : Z }.

(** [strings.Index(s, sep)] and the slice before it; [None] where it is [-1]. *)
Definition before (s sep : string) : option string :=
  i ← String.index 0 sep s; Some (String.substring 0 i s).

Definition parseMigrationVersion (name : string) : res Z :=
  if negb (HasSuffix name ".sql") then
    Err (EOther ("migration " +:+ name +:+ " has an unrecognized extension")) else
  let base := if HasSuffix name ".down.sql" then TrimSuffix name ".down.sql" else TrimSuffix name ".sql" in
  match before base "_" with
  | None | Some "" => Err (EOther ("migration " +:+ name +:+ " is missing a numeric version prefix"))
  | Some prefix =>
      match ParseInt prefix with
      | Some version => Ok version
      | None => Err (EWrap ("migration " +:+ name +:+ " has an invalid version prefix") (EOther "invalid syntax"))
      end
  end.

Definition down_file (name : string) : bool := HasSuffix name ".down.sql".
Definition up_file (name : string) : bool := HasSuffix name ".sql" && negb (down_file name).

(** The scan of the directory: the records of the files that are wanted. *)
Fixpoint records (wanted : string -> bool) (entries : list string) : res (list migrationRecord) :=
  match entries with
  | [] => Ok []
  | name :: entries =>
      if negb (wanted name) then records wanted entries else
      match parseMigrationVersion name with
      | Err err => Err err
      | Ok version =>
          match records wanted entries with
          | Err err => Err err
          | Ok all => Ok (mkMigration name version :: all)
          end
      end
  end.

(** The orders of [sort.Slice]. *)
Definition version_le (a b : migrationRecord) : Prop := version a <= version b.
Definition version_ge (a b : migrationRecord) : Prop := version b <= version a.
#[export] Instance version_le_dec : RelDecision version_le.
Proof. intros a b. unfold version_le. apply _. Defined.
#[export] Instance version_ge_dec : RelDecision version_ge.
Proof. intros a b. unfold version_ge. apply _. Defined.

(** The loop that looks for the first version without a file. *)
Fixpoint first_gap (fuel : nat) (expected : Z) (upVersions : gset Z) : Z :=
  match fuel with
  | O => expected
  | S fuel => if bool_decide (expected ∈ upVersions) then first_gap fuel (expected + 1) upVersions
              else expected
  end.

Definition check_chain (upVersions : gset Z) : option error :=
  if (first_gap (S (size upVersions)) 1 upVersions =? 1) && (0 <? Z.of_nat (size upVersions))
  then Some (EOther "migration chain does not start at version 1") else None.

(** When several applied versions have no file, Go does not say which of them the
    iteration over the map names. *)
Definition check_applied (upVersions applied : gset Z) : option error :=
  match List.find (fun v => negb (bool_decide (v ∈ upVersions))) (elements applied) with
  | Some v => Some (EOther ("applied migration version " +:+ pretty v +:+ " not found in embedded migrations"))
  | None => None
  end.

Section migrations.
Context `{HE : !Engine Schema stmt}.
(** The embedded files by name, in the order of [ReadDir]. *)
Context (migrationFiles : list (string * script)).

Definition ReadFile (name : string) : res script :=
  match List.find (fun f => bool_decide (f.1 = name)) migrationFiles with
  | Some (_, body) => Ok body
  | None => Err (EOther "file does not exist")
  end.

Definition entries : list string := map fst migrationFiles.

Definition loadAppliedVersions (ctx : Ctx) : M Tx (res (gset Z)) :=
  try (QueryTx ctx SelectVersions) (EWrap "read schema_migrations") (fun rows =>
  retM (Ok (list_to_set rows))).

Definition pendingMigrations (ctx : Ctx) : M Tx (res (list migrationRecord)) :=
  match records up_file entries with
  | Err err => retM (Err err)
  | Ok all =>
      let all := merge_sort version_le all in
      try (loadAppliedVersions ctx) (fun err => err) (fun applied =>
      retM (Ok (List.filter (fun m => negb (bool_decide (version m ∈ applied))) all)))
  end.

Definition verifyMigrations (ctx : Ctx) : M Tx (res unit) :=
  match records up_file entries with
  | Err err => retM (Err err)
  | Ok ups =>
      let upVersions := list_to_set (map version ups) in
      match check_chain upVersions with
      | Some err => retM (Err err)
      | None =>
          try (loadAppliedVersions ctx) (fun err => err) (fun applied =>
          retM (match check_applied upVersions applied with Some err => Err err | None => Ok tt end))
      end
  end.

Fixpoint apply_pending (ctx : Ctx) (pending : list migrationRecord) : M Tx (res unit) :=
  match pending with
  | [] => retM (Ok tt)
  | m :: pending =>
      try (retM (ReadFile (name m))) (EWrap ("read migration " +:+ name m)) (fun body =>
      try (QueryTx ctx (ExecScript body)) (EWrap ("apply migration " +:+ name m)) (fun _ =>
      try (QueryTx ctx (InsertVersion (version m))) (EWrap ("record migration " +:+ pretty (version m))) (fun _ =>
      apply_pending ctx pending)))
  end.

Definition migrate_body (ctx : Ctx) : M Tx (res unit) :=
  try (QueryTx ctx AdvisoryLock) (fun err => err) (fun _ =>
  try (QueryTx ctx CreateVersions) (fun err => err) (fun _ =>
  try (pendingMigrations ctx) (fun err => err) (fun pending =>
  try (verifyMigrations ctx) (fun err => err) (fun _ =>
  apply_pending ctx pending)))).

Definition migrateAndPing (ctx : Ctx) : M DB (res unit) :=
  err <-- PingContext ctx ;;
  match err with
  | Some err => retM (Err err)
  | None => transact ctx (fun err => err) (fun _ err => err) (migrate_body ctx)
  end.

(** ** Start-up *)

Context `{HW : Waiting}.

(** The attempts [attempt ..] of [NewPostgresRepository], of which [n] are left. *)
Fixpoint startup (ctx : Ctx) (cfg : PostgresConfig) (repo : PostgresRepository) (n : nat) (attempt : Z)
    (lastErr : error) : M DB (res PostgresRepository) :=
  match n with
  | O => CloseDB ;;; retM (Err (EWrap "initialize postgres" lastErr))
  | S n =>
      pingCtx <-- context_WithTimeout ctx (PingTimeout cfg) ;;
      r <-- migrateAndPing pingCtx ;;
      match r with
      | Ok _ => retM (Ok repo)
      | Err err =>
          if attempt <? retryAttempts repo - 1 then
            done <-- (fun ws => (interrupted ctx (w_tick ws.1) (wrap64 ((attempt + 1) * retryBackoff repo)),
                                 (tick ws.1, ws.2))) ;;
            match done with
            | Some e => CloseDB ;;; retM (Err (ctx_error e))
            | None => startup ctx cfg repo n (attempt + 1) err
            end
          else startup ctx cfg repo n (attempt + 1) err
      end
  end.

(** [open_error] is the error of [sql.Open], if any; the handle is the state. *)
Definition NewPostgresRepository (open_error : option error) (ctx : Ctx) (cfg : PostgresConfig)
  : M DB (res PostgresRepository) :=
  match open_error with
  | Some err => retM (Err (EWrap "open postgres" err))
  | None =>
      let repo := repository_of cfg in
      startup ctx cfg repo (Z.to_nat (retryAttempts repo)) 0 (EOther "%!w(<nil>)")
  end.

(** ** Rolling back *)

(** The map from version to name of the down files: a later file replaces an
    earlier one. *)
Definition down_names (downs : list migrationRecord) : gmap Z string :=
  fold_left (fun m r => <[version r := name r]> m) downs ∅.

Definition pendingDownMigrations (ctx : Ctx) : M Tx (res (list migrationRecord)) :=
  match records down_file entries with
  | Err err => retM (Err err)
  | Ok downs =>
      let downByName := down_names downs in
      if bool_decide (downByName = ∅) then retM (Ok []) else
      try (loadAppliedVersions ctx) (fun err => err) (fun applied =>
      retM (Ok (merge_sort version_ge
        (omap (fun v => (fun name => mkMigration name v) <$> downByName !! v) (elements applied)))))
  end.

(** The loop over the down files: the number of those applied and the error that
    ended it. *)
Fixpoint roll_back (ctx : Ctx) (count applied : Z) (down : list migrationRecord)
  : M Tx (Z * option error) :=
  match down with
  | [] => retM (applied, None)
  | m :: down =>
      if count <=? applied then retM (applied, None) else
      match ReadFile (name m) with
      | Err err => retM (applied, Some (EWrap ("read down migration " +:+ name m) err))
      | Ok body =>
          r <-- QueryTx ctx (ExecScript body) ;;
          match r with
          | Err err => retM (applied, Some (EWrap ("apply down migration " +:+ name m) err))
          | Ok _ =>
              r <-- QueryTx ctx (DeleteVersion (version m)) ;;
              match r with
              | Err err => retM (applied, Some (EWrap ("unrecord migration " +:+ pretty (version m)) err))
              | Ok _ => roll_back ctx count (applied + 1) down
              end
          end
      end
  end.

Definition roll_back_body (ctx : Ctx) (count : Z) : M Tx (Z * option error) :=
  r <-- try (QueryTx ctx AdvisoryLock) (fun err => err) (fun _ => pendingDownMigrations ctx) ;;
  match r with
  | Err err => retM (0, Some err)
  | Ok down => roll_back ctx count 0 down
  end.

(** The deferred [Rollback] does nothing after a commit. *)
Definition ApplyDownMigrations (ctx : Ctx) (count : Z) : M DB (Z * option error) :=
  r <-- BeginTx ctx ;;
  match r with
  | Err err => retM (0, Some err)
  | Ok tx => fun ws =>
      let '(w, d) := ws in
      let '((applied, err), (w, tx)) := roll_back_body ctx count (w, tx) in
      match err with
      | Some err => (Rollback tx ;;; retM (applied, Some err)) (w, d)
      | None =>
          if applied =? 0 then (Rollback tx ;;; retM (0, None)) (w, d) else
          (err <-- Commit tx ;;
           match err with
           | Some err => Rollback tx ;;; retM (applied, Some err)
           | None => retM (applied, None)
           end) (w, d)
      end
  end.
End migrations.

(** * The repository's files *)

Definition users_up : script :=
  [CreateTable "users" None; CreateIndex "users_updated_at_idx" "users"].
Definition users_down : script := [DropTable "users"; DropTable "schema_migrations"].
Definition user_indexes_up : script :=
  [CreateIndex "users_email_idx" "users"; CreateIndex "users_created_at_idx" "users"].
Definition user_indexes_down : script := [DropIndex "users_email_idx"; DropIndex "users_created_at_idx"].
Definition idempotency_keys_up : script := [CreateTable "idempotency_keys" (Some "users")].
Definition idempotency_keys_down : script := [DropTable "idempotency_keys"].

Definition migrationFiles : list (string * script) :=
  [("0001_users.down.sql", users_down); ("0001_users.sql", users_up);
   ("0002_user_indexes.down.sql", user_indexes_down); ("0002_user_indexes.sql", user_indexes_up);
   ("0003_idempotency_keys.down.sql", idempotency_keys_down);
   ("0003_idempotency_keys.sql", idempotency_keys_up)].

(** * Specification *)

(** What a start does to the schema: nothing ([None]) when the files or the
    recorded versions are inconsistent or a script is refused. *)
Section specification.
Context (files : list (string * script)).

Fixpoint run_pending (pending : list migrationRecord) (s : Schema) : option Schema :=
  match pending with
  | [] => Some s
  | m :: pending =>
      match ReadFile files (name m) with
      | Err _ => None
      | Ok body =>
          s ← run_script body s;
          '(_, s) ← run_stmt (InsertVersion (version m)) s;
          run_pending pending s
      end
  end.

Definition missing (all : list migrationRecord) (applied : gset Z) : list migrationRecord :=
  List.filter (fun m => negb (bool_decide (version m ∈ applied))) (merge_sort version_le all).

Definition consistent (upVersions applied : gset Z) : bool :=
  bool_decide (check_chain upVersions = None /\ check_applied upVersions applied = None).

Definition migrated (s : Schema) : option Schema :=
  match records up_file (entries files) with
  | Err _ => None
  | Ok all =>
      let applied := default ∅ (versions s) in
      if consistent (list_to_set (map version all)) applied
      then run_pending (missing all applied) (create_versions s) else None
  end.

(** What a roll back of [count] migrations does: the number it reports and the
    schema, [None] when it fails. *)
Fixpoint run_down (count applied : Z) (down : list migrationRecord) (s : Schema) : Z * option Schema :=
  match down with
  | [] => (applied, Some s)
  | m :: down =>
      if count <=? applied then (applied, Some s) else
      match ReadFile files (name m) with
      | Err _ => (applied, None)
      | Ok body =>
          match s ← run_script body s; run_stmt (DeleteVersion (version m)) s with
          | None => (applied, None)
          | Some (_, s) => run_down count (applied + 1) down s
          end
      end
  end.

Definition rolled_back (count : Z) (s : Schema) : Z * option Schema :=
  match records down_file (entries files) with
  | Err _ => (0, None)
  | Ok downs =>
      if bool_decide (down_names downs = ∅) then (0, Some s) else
      match versions s with
      | None => (0, None)
      | Some applied =>
          run_down count 0 (merge_sort version_ge
            (omap (fun v => (fun name => mkMigration name v) <$> down_names downs !! v) (elements applied))) s
      end
  end.
End specification.

(** * Lemmas *)

Section refinement.
Context `{HE : !Engine Schema stmt} `{HL : !EngineLaws HE}.
Context (files : list (string * script)).

Lemma query_ok_run {A} ctx (q : stmt A) w tx a w' tx' :
  QueryTx ctx q (w, tx) = (Ok a, (w', tx')) -> run_stmt q (working tx) = Some (a, working tx').
Proof using HL.
  intros [Hd [[a' s'] Ha]]%query_tx_ok. cbn in Hd. rewrite Ha in Hd |- *. by injection Hd as <- <-.
Qed.

Lemma loadAppliedVersions_ok ctx w tx applied w' tx' :
  loadAppliedVersions ctx (w, tx) = (Ok applied, (w', tx')) ->
  versions (working tx) = Some applied /\ working tx' = working tx.
Proof using HL.
  unfold loadAppliedVersions. intros H. next_ok H Hq. apply query_ok_run in Hq. injection H as <- _ <-.
  cbn in Hq. destruct (versions (working tx)) as [vs|]; [|done]. injection Hq as <- <-.
  by rewrite list_to_set_elements_L.
Qed.

Lemma apply_pending_ok ctx pending w tx u w' tx' :
  apply_pending files ctx pending (w, tx) = (Ok u, (w', tx')) ->
  run_pending files pending (working tx) = Some (working tx').
Proof using HL.
  revert w tx. induction pending as [|m pending IH]; intros w tx H; cbn [apply_pending run_pending] in H |- *.
  { by injection H as _ _ <-. }
  apply try_inv in H as [(body & [w1 tx1] & Hb & H)|(? & _ & ?)]; [|done].
  injection Hb as Hb <- <-. rewrite Hb.
  next_ok H Hq1. apply query_ok_run in Hq1. cbn in Hq1.
  destruct (run_script body (working tx)) as [s|]; [|done]. injection Hq1 as _ ->. cbn.
  next_ok H Hq2. apply query_ok_run in Hq2. cbn in Hq2.
  destruct (versions _) as [vs|]; [|done]. cbn in Hq2 |- *. case_bool_decide; [done|].
  injection Hq2 as _ Hq2. cbn. rewrite Hq2. by eapply IH.
Qed.

Lemma migrate_body_ok ctx w tx u w' tx' :
  migrate_body files ctx (w, tx) = (Ok u, (w', tx')) -> migrated files (working tx) = Some (working tx').
Proof using HL.
  unfold migrate_body. intros H. next_ok H Hq1. apply query_ok_run in Hq1. injection Hq1 as _ Ht1.
  next_ok H Hq2. apply query_ok_run in Hq2. injection Hq2 as _ Ht2. rewrite <- Ht1 in Ht2.
  next_ok H Hp. next_ok H Hv. apply apply_pending_ok in H. unfold migrated.
  unfold pendingMigrations in Hp. unfold verifyMigrations in Hv.
  destruct (records up_file (entries files)) as [all|]; [|done].
  apply try_inv in Hp as [(applied & [w5 tx5] & Hl & Hp)|(? & _ & ?)]; [|done].
  apply loadAppliedVersions_ok in Hl as [Hvs Ht5]. injection Hp as <- <- <-.
  destruct (check_chain _) eqn:Hchain; [done|].
  apply try_inv in Hv as [(applied' & [w6 tx6] & Hl & Hv)|(? & _ & ?)]; [|done].
  apply loadAppliedVersions_ok in Hl as [Hvs' Ht6]. injection Hv as Hv <- <-.
  destruct (check_applied _ applied') eqn:Happ; [done|].
  rewrite Ht5 in Hvs', Ht6. rewrite Hvs in Hvs'. injection Hvs' as <-.
  rewrite <- Ht2 in Hvs, Ht6. injection Hvs as Hvs. rewrite Hvs. unfold consistent.
  rewrite bool_decide_eq_true_2 by done. by rewrite <- Ht6.
Qed.

Lemma roll_back_ok ctx count applied down w tx n w' tx' :
  roll_back files ctx count applied down (w, tx) = ((n, None), (w', tx')) ->
  run_down files count applied down (working tx) = (n, Some (working tx')).
Proof using HL.
  revert applied w tx. induction down as [|m down IH]; intros applied w tx H; cbn in H |- *.
  { by injection H as <- _ <-. }
  case_match; [by injection H as <- _ <-|].
  destruct (ReadFile files (name m)) as [body|]; [|done]. unfold bindM in H.
  destruct (QueryTx ctx (ExecScript body) (w, tx)) as [[u|] [w1 tx1]] eqn:Hq; [|done].
  apply query_ok_run in Hq. cbn in Hq. destruct (run_script body (working tx)) as [s|]; [|done].
  injection Hq as _ ->. destruct (QueryTx ctx (DeleteVersion (version m)) (w1, tx1)) as [[u'|] [w2 tx2]] eqn:Hq; [|done].
  apply query_ok_run in Hq. cbn in Hq |- *. destruct (versions (working tx1)); [|done].
  injection Hq as _ Hq. cbn. rewrite Hq. by eapply IH.
Qed.

Lemma roll_back_body_ok ctx count w tx n w' tx' :
  roll_back_body files ctx count (w, tx) = ((n, None), (w', tx')) ->
  rolled_back files count (working tx) = (n, Some (working tx')).
Proof using HL.
  unfold roll_back_body, bindM. intros H.
  destruct (try _ _ _ (w, tx)) as [[down|] [w1 tx1]] eqn:Hd; [|done]. next_ok Hd Hq.
  apply query_ok_run in Hq. injection Hq as _ Ht. unfold pendingDownMigrations in Hd. unfold rolled_back.
  destruct (records down_file (entries files)) as [downs|]; [|done].
  apply roll_back_ok in H. rewrite Ht. case_bool_decide.
  { injection Hd as <- _ <-. by injection H as <- <-. }
  apply try_inv in Hd as [(applied & [w2 tx2] & Hl & Hd)|(? & _ & ?)]; [|done].
  apply loadAppliedVersions_ok in Hl as [Hvs Ht2]. injection Hd as <- _ <-. by rewrite Hvs, <- Ht2.
Qed.
End refinement.

(** * A server that comes up *)

(** A refused statement answers with an SQL error. *)
Definition refusal (A : Type) (q : stmt A) (s : Schema) : option error :=
  match run_stmt q s with Some _ => None | None => Some (EPg "42P01" "undefined table") end.

(** Every interaction before the moment [up] fails. *)
Definition outage (up : nat) (i : nat) : option (error * bool) :=
  if (i <? up)%nat then Some (EEOF, false) else None.

(** The schema behind a connection that is down until the moment [up]. *)
#[local] Instance server (up : nat) : Engine Schema stmt | 10 := faulty (outage up) refusal.

Lemma refusal_allowed A (q : stmt A) s : refusal A q s = None -> allowed q s.
Proof. unfold refusal. cbn. by destruct (run_stmt q s). Qed.

#[local] Instance server_laws up : EngineLaws (server up) := faulty_laws _ _ refusal_allowed.

Section up.
Context (up : nat) (files : list (string * script)).
Implicit Types (w : World) (s : Schema).

Lemma outage_over i : (up <= i)%nat -> outage up i = None.
Proof using. intros H. unfold outage. by rewrite (proj2 (Nat.ltb_ge _ _) H). Qed.

Lemma query_up {A} ctx (q : stmt A) w s a s' :
  (up <= w_tick w)%nat -> run_stmt q s = Some (a, s') ->
  QueryTx (Engine := server up) ctx q (w, s) = (Ok a, (tick w, s')).
Proof using.
  intros Hw Hr. cbn [QueryTx server faulty].
  rewrite faulty_tx_ok; [|by apply outage_over|unfold refusal; by rewrite Hr]. cbn. by rewrite Hr.
Qed.

(** The next step of a transaction succeeds. *)
Ltac step_up := erewrite try_ok by (apply query_up; [cbn; lia|reflexivity || eassumption]).

Lemma loadAppliedVersions_up ctx w s applied :
  (up <= w_tick w)%nat -> versions s = Some applied ->
  loadAppliedVersions (HE := server up) ctx (w, s) = (Ok applied, (tick w, s)).
Proof using.
  intros Hw Hv. unfold loadAppliedVersions.
  erewrite try_ok by (apply query_up; [done|]; cbn; by rewrite Hv).
  unfold retM. by rewrite list_to_set_elements_L.
Qed.

Lemma apply_pending_up ctx pending w s s' :
  (up <= w_tick w)%nat -> run_pending files pending s = Some s' ->
  exists w', (up <= w_tick w')%nat /\
    apply_pending (HE := server up) files ctx pending (w, s) = (Ok tt, (w', s')).
Proof using.
  revert w s. induction pending as [|m pending IH]; intros w s Hw; cbn [apply_pending run_pending].
  { intros [= ->]. by exists w. }
  destruct (ReadFile files (name m)) as [body|] eqn:Hb; [|done].
  intros (s1 & H1 & [[u s2] [H2 H3]]%bind_Some)%bind_Some.
  erewrite try_ok by reflexivity.
  erewrite try_ok by (apply query_up; [done|]; cbn; by rewrite H1).
  erewrite try_ok by (apply query_up; [cbn; lia|exact H2]).
  by apply IH; [cbn; lia|].
Qed.

Lemma migrate_body_up ctx w s s' :
  (up <= w_tick w)%nat -> migrated files s = Some s' ->
  exists w', (up <= w_tick w')%nat /\
    migrate_body (HE := server up) files ctx (w, s) = (Ok tt, (w', s')).
Proof using.
  intros Hw Hm. unfold migrated in Hm. unfold migrate_body.
  do 2 step_up. unfold pendingMigrations, verifyMigrations.
  destruct (records up_file (entries files)) as [all|]; [|done].
  destruct (consistent _ _) eqn:Hc; [|done]. apply bool_decide_eq_true in Hc as [Hchain Happ].
  erewrite try_ok; cycle 1.
  { erewrite try_ok by (apply loadAppliedVersions_up; [cbn; lia|reflexivity]). reflexivity. }
  rewrite Hchain. erewrite try_ok; cycle 1.
  { erewrite try_ok by (apply loadAppliedVersions_up; [cbn; lia|reflexivity]). rewrite Happ. reflexivity. }
  apply apply_pending_up; [cbn; lia|exact Hm].
Qed.

(** A start during the outage fails at its ping; one after it succeeds. *)
Lemma migrateAndPing_down ctx w s :
  (w_tick w < up)%nat ->
  migrateAndPing (HE := server up) files ctx (w, s) = (Err EEOF, (tick w, s)).
Proof using.
  intros Hw. unfold migrateAndPing, bindM, retM. cbn [PingContext server faulty]. unfold outage.
  by rewrite (proj2 (Nat.ltb_lt _ _) Hw).
Qed.

Lemma migrateAndPing_up ctx w s s' :
  (up <= w_tick w)%nat -> migrated files s = Some s' ->
  exists w', migrateAndPing (HE := server up) files ctx (w, s) = (Ok tt, (w', s')).
Proof using.
  intros Hw Hm. unfold migrateAndPing, bindM. cbn [PingContext server faulty].
  rewrite outage_over by done. cbn [fmap option_fmap option_map]. unfold transact.
  erewrite try_ok by (cbn [BeginTx server faulty]; by rewrite outage_over by (cbn; lia)).
  destruct (migrate_body_up ctx (tick (tick w)) s s') as (w' & Hw' & Hb); [cbn; lia|done|].
  cbn [Tx DB server faulty] in *. rewrite Hb. cbn [Commit server faulty]. unfold bindM, retM.
  rewrite outage_over by done. by eexists.
Qed.
End up.

(** * Runs *)

Section runs.
Context `{HE : !Engine Schema stmt} `{HL : !EngineLaws HE}.
Context (files : list (string * script)).

(** A start that succeeds did what the specification says; one that fails did
    nothing or, when its acknowledgement was lost, the same. *)
Lemma migrateAndPing_run ctx w d r w' d' :
  migrateAndPing files ctx (w, d) = (r, (w', d')) ->
  match r with
  | Ok _ => migrated files (content d) = Some (content d')
  | Err _ => content d' = content d \/ migrated files (content d) = Some (content d')
  end.
Proof using HL.
  unfold migrateAndPing, bindM, retM. destruct (PingContext ctx (w, d)) as [[e|] [w1 d1]] eqn:Hp;
    apply ping_content in Hp; rewrite <- Hp.
  { intros [= <- _ <-]. by left. }
  intros H. apply (transact_rule _ _ _ _ _ _ _ _ _ (fun _ s => migrated files (content d1) = Some s)) in H.
  - destruct r; [done|]. by destruct H as [?|[_ ?]]; [left|right].
  - intros w0 tx a w2 tx2 Hb <-. by eapply migrate_body_ok.
Qed.

Lemma ApplyDownMigrations_run ctx count w d n err w' d' :
  ApplyDownMigrations files ctx count (w, d) = ((n, err), (w', d')) ->
  match err with
  | None => exists s, rolled_back files count (content d) = (n, Some s) /\
                      content d' = (if n =? 0 then content d else s)
  | Some _ => content d' = content d \/ rolled_back files count (content d) = (n, Some (content d'))
  end.
Proof using HL.
  unfold ApplyDownMigrations, bindM, retM. destruct (BeginTx ctx (w, d)) as [[tx|e] [w1 d1]] eqn:Hb.
  2:{ intros [= _ <- _ <-]. left. by eapply begin_err. }
  apply begin_ok in Hb as [Htx Hd1].
  destruct (roll_back_body files ctx count (w1, tx)) as [[k [e|]] [w2 tx2]] eqn:Hbody.
  { destruct (Rollback tx2 (w2, d1)) as [u [w3 d3]] eqn:Hr. intros [= _ <- _ <-].
    apply rollback in Hr. left. by rewrite Hr. }
  apply roll_back_body_ok in Hbody. rewrite Htx in Hbody.
  destruct (Z.eqb_spec k 0) as [->|Hk].
  { destruct (Rollback tx2 (w2, d1)) as [u [w3 d3]] eqn:Hr. intros [= <- <- _ <-].
    apply rollback in Hr. exists (working tx2). split; [done|]. by rewrite Hr. }
  destruct (Commit tx2 (w2, d1)) as [[e|] [w3 d3]] eqn:Hc.
  - destruct (Rollback tx2 (w3, d3)) as [u [w4 d4]] eqn:Hr. intros [= <- <- _ <-].
    apply rollback in Hr. apply commit_err in Hc. rewrite Hr, Hbody.
    destruct Hc as [->| ->]; [by left|by right].
  - intros [= <- <- _ <-]. apply commit_ok in Hc. exists (working tx2). by rewrite (proj2 (Z.eqb_neq _ _) Hk).
Qed.
End runs.

(** ** The stages of the schema *)

Definition all_migrations : list migrationRecord :=
  match records up_file (entries migrationFiles) with Ok all => all | Err _ => [] end.

Definition unmigrated : Schema := mkSchema ∅ ∅ None.

(** The schema after the first [n] migrations. *)
Definition stage (n : nat) : Schema :=
  default unmigrated (run_pending migrationFiles (take n all_migrations) (create_versions unmigrated)).

Definition latest : Schema := stage 3.

(** A blank database, or one a start has left, perhaps rolled back since. *)
Definition on_chain (s : Schema) : Prop := s = unmigrated \/ exists n, (1 <= n <= 3)%nat /\ s = stage n.

Ltac stages H :=
  destruct H as [->|(n & ? & ->)];
  [|destruct n as [|[|[|[|n]]]]; [lia| | | |lia]].

Lemma migrated_chain s : on_chain s -> migrated migrationFiles s = Some latest.
Proof. intros H. stages H; vm_compute; reflexivity. Qed.

Lemma run_down_cap files c c' applied down s :
  applied + Z.of_nat (length down) <= c -> applied + Z.of_nat (length down) <= c' ->
  run_down files c applied down s = run_down files c' applied down s.
Proof.
  revert applied s. induction down as [|m down IH]; intros applied s H1 H2; [done|].
  cbn [length run_down] in *. rewrite (proj2 (Z.leb_gt c applied)), (proj2 (Z.leb_gt c' applied)) by lia.
  destruct (ReadFile files (name m)); [|done]. case_match; [|done]. case_match. apply IH; lia.
Qed.

Lemma rolled_back_cap files c c' s vs :
  versions s = Some vs -> Z.of_nat (size vs) = c' -> c' <= c ->
  rolled_back files c s = rolled_back files c' s.
Proof.
  intros Hvs H1 H2. unfold rolled_back. destruct (records _ _); [|done]. case_bool_decide; [done|].
  rewrite Hvs.
  match goal with |- run_down _ _ _ (merge_sort _ ?l) _ = _ => assert (Hl : (length l <= size vs)%nat) end.
  { unfold size, set_size. cbn. generalize (elements vs). intros l. induction l as [|v l IH]; [done|].
    cbn. destruct (down_names _ !! v); cbn; lia. }
  apply run_down_cap; rewrite merge_sort_Permutation; lia.
Qed.

Lemma rolled_back_nothing files c s : c <= 0 -> rolled_back files c s = rolled_back files 0 s.
Proof.
  intros H. unfold rolled_back. destruct (records _ _); [|done]. case_bool_decide; [done|].
  destruct (versions s); [|done]. destruct (merge_sort _ _); [done|]. cbn.
  by rewrite (proj2 (Z.leb_le c 0) H).
Qed.

Lemma stage_versions n :
  (1 <= n <= 3)%nat -> exists vs, versions (stage n) = Some vs /\ Z.of_nat (size vs) = Z.of_nat n.
Proof.
  intros Hn. destruct n as [|[|[|[|n]]]]; [lia| | | |lia]; eexists; (split; vm_compute; reflexivity).
Qed.

(** Every migration but the first can be rolled back: the script of the first
    drops [schema_migrations], from which its version is to be deleted next. *)
Lemma rolled_back_chain n count :
  (1 <= n <= 3)%nat ->
  rolled_back migrationFiles count (stage n) =
    if count <? Z.of_nat n then (Z.max 0 count, Some (stage (n - Z.to_nat count)))
    else (Z.of_nat n - 1, None).
Proof.
  intros Hn. destruct (Z.le_gt_cases count 0) as [Hc|Hc].
  { rewrite rolled_back_nothing by done. rewrite (proj2 (Z.ltb_lt _ _)) by lia.
    rewrite Z.max_l by lia. replace (Z.to_nat count) with 0%nat by lia.
    destruct n as [|[|[|[|n]]]]; [lia| | | |lia]; vm_compute; reflexivity. }
  destruct (Z.ltb_spec count (Z.of_nat n)) as [Hlt|Hge].
  { assert (count = 1 \/ count = 2) as [->| ->] by lia;
      destruct n as [|[|[|[|n]]]]; try lia; vm_compute; reflexivity. }
  destruct (stage_versions n Hn) as (vs & Hvs & Hsize).
  rewrite (rolled_back_cap _ count (Z.of_nat n) _ vs Hvs Hsize Hge).
  destruct n as [|[|[|[|n]]]]; [lia| | | |lia]; vm_compute; reflexivity.
Qed.

Lemma rolled_back_blank count : rolled_back migrationFiles count unmigrated = (0, None).
Proof. reflexivity. Qed.

(** * Properties *)

(** A start or a roll back, with any arguments, in any world. *)
Inductive schema_call `{HE : !Engine Schema stmt} (d : DB) : DB -> Prop :=
| call_migrate ctx w : schema_call d (state_of (migrateAndPing migrationFiles ctx) w d)
| call_down ctx count w : schema_call d (state_of (ApplyDownMigrations migrationFiles ctx count) w d).

Section properties.
Context `{HE : !Engine Schema stmt} `{HL : !EngineLaws HE}.

(** C16: A start that reports success did to the schema what the specification says,
    one that fails did nothing or, when the acknowledgement of its commit was
    lost, the same; a roll back likewise, with the number it reports. *)
Theorem migrations_refine_specification files ctx w d :
  (forall r w' d', migrateAndPing files ctx (w, d) = (r, (w', d')) ->
     match r with
     | Ok _ => migrated files (content d) = Some (content d')
     | Err _ => content d' = content d \/ migrated files (content d) = Some (content d')
     end) /\
  (forall count n err w' d', ApplyDownMigrations files ctx count (w, d) = ((n, err), (w', d')) ->
     match err with
     | None => exists s, rolled_back files count (content d) = (n, Some s) /\
                         content d' = (if n =? 0 then content d else s)
     | Some _ => content d' = content d \/ rolled_back files count (content d) = (n, Some (content d'))
     end).
Proof using HL.
  split; [intros r w' d'; apply migrateAndPing_run|].
  intros count n err w' d'. apply ApplyDownMigrations_run.
Qed.

(** C27: However starts and roll backs follow each other, and whatever fails on the
    way, the schema of a database that was blank is at one of the four stages of
    the migrations: a failure never leaves part of a script. *)
Theorem schema_stays_on_chain d d' : on_chain (content d) -> rtc schema_call d d' -> on_chain (content d').
Proof using HL.
  intros Hc H. induction H as [|d1 d2 d3 H12 _ IH]; [done|]. apply IH. clear IH.
  destruct H12 as [ctx w|ctx count w]; unfold state_of.
  - destruct (migrateAndPing _ ctx (w, d1)) as [r [w' d']] eqn:Hrun. apply migrateAndPing_run in Hrun.
    rewrite migrated_chain in Hrun by done. cbn.
    assert (Hl : on_chain latest) by (right; exists 3%nat; split; [lia|done]).
    destruct r; [by injection Hrun as <-|]. destruct Hrun as [->|[= <-]]; done.
  - destruct (ApplyDownMigrations _ ctx count (w, d1)) as [[n err] [w' d']] eqn:Hrun.
    apply ApplyDownMigrations_run in Hrun. cbn.
    assert (H : content d' = content d1 \/
                rolled_back migrationFiles count (content d1) = (n, Some (content d'))).
    { destruct err; [done|]. destruct Hrun as (s & ? & Hd). destruct (n =? 0); [by left|right; by rewrite Hd]. }
    destruct H as [->|H]; [done|]. destruct Hc as [Hc|(k & Hk & Hc)]; rewrite Hc in H.
    { by rewrite rolled_back_blank in H. }
    rewrite rolled_back_chain in H by done. destruct (Z.ltb_spec count (Z.of_nat k)); [|done].
    injection H as _ <-. right. exists (k - Z.to_nat count)%nat. split; [lia|done].
Qed.

(** The first migration cannot be rolled back: asked for as many migrations as
    have been applied, or more, [ApplyDownMigrations] fails and leaves the
    schema as it is. *)
Theorem first_migration_cannot_be_rolled_back ctx count n w d k err w' d' :
  (1 <= n <= 3)%nat -> content d = stage n -> Z.of_nat n <= count ->
  ApplyDownMigrations migrationFiles ctx count (w, d) = ((k, err), (w', d')) ->
  err <> None /\ content d' = content d.
Proof using HL.
  intros Hn Hc Hcount Hrun%ApplyDownMigrations_run. rewrite Hc, rolled_back_chain in Hrun by done.
  rewrite (proj2 (Z.ltb_ge _ _)) in Hrun by done. rewrite Hc.
  destruct err; [|by destruct Hrun as (s & ? & _)]. by destruct Hrun as [?|?].
Qed.

(** C40: A roll back that reports success undoes exactly the migrations asked for, and
    the next start restores what it undid. *)
Theorem rollback_then_start_round_trip ctx count w d k w1 d1 ctx' w2 u w3 d3 :
  content d = latest ->
  ApplyDownMigrations migrationFiles ctx count (w, d) = ((k, None), (w1, d1)) ->
  migrateAndPing migrationFiles ctx' (w2, d1) = (Ok u, (w3, d3)) ->
  k = Z.max 0 count /\ k < 3 /\ content d1 = stage (3 - Z.to_nat count) /\ content d3 = content d.
Proof using HL.
  intros Hd (s & Hr & Hd1)%ApplyDownMigrations_run Hm%migrateAndPing_run. unfold latest in Hd. rewrite Hd in Hr, Hd1 |- *.
  rewrite rolled_back_chain in Hr by lia. change (Z.of_nat 3) with 3 in Hr. destruct (count <? 3) eqn:Hlt; bools; [|done].
  injection Hr as <- <-.
  assert (Hs : content d1 = stage (3 - Z.to_nat count)).
  { rewrite Hd1. destruct (Z.eqb_spec (Z.max 0 count) 0); [|done]. f_equal. lia. }
  rewrite migrated_chain in Hm. 2:{ right. exists (3 - Z.to_nat count)%nat. split; [lia|done]. }
  injection Hm as <-. split_and!; [done|lia|done|done].
Qed.
End properties.

(** ** Start-up *)

Section startup.
Context `{HE : !Engine Schema stmt} `{HL : !EngineLaws HE} `{HW : Waiting}.

Lemma startup_run ctx cfg repo n attempt lastErr w d r w' d' :
  on_chain (content d) ->
  startup migrationFiles ctx cfg repo n attempt lastErr (w, d) = (r, (w', d')) ->
  match r with
  | Ok repo' => repo' = repo /\ content d' = latest
  | Err _ => content d' = content d \/ content d' = latest
  end.
Proof using HL.
  assert (Hl : on_chain latest) by (right; exists 3%nat; split; [lia|done]).
  revert attempt lastErr w d. induction n as [|n IH]; intros attempt lastErr w d Hc; cbn [startup];
    unfold bindM, retM.
  { destruct (CloseDB (w, d)) as [e [w1 d1]] eqn:Hclose. intros [= <- _ <-]. left. by eapply close_content. }
  unfold context_WithTimeout at 1. cbn [fst snd].
  destruct (migrateAndPing _ _ (tick w, d)) as [[[]|e] [w1 d1]] eqn:Hm; apply migrateAndPing_run in Hm;
    rewrite migrated_chain in Hm by done.
  { injection Hm as Hm. intros [= <- _ <-]. by rewrite Hm. }
  assert (Hd1 : content d1 = content d \/ content d1 = latest) by (destruct Hm as [?|[= ?]]; auto).
  assert (Hc1 : on_chain (content d1)) by (by destruct Hd1 as [->| ->]).
  assert (Hnext : forall w d2, content d2 = content d1 ->
    startup migrationFiles ctx cfg repo n (attempt + 1) e (w, d2) = (r, (w', d')) ->
    match r with
    | Ok repo' => repo' = repo /\ content d' = latest
    | Err _ => content d' = content d \/ content d' = latest
    end).
  { intros w2 d2 Hd2 H2. apply IH in H2; [|by rewrite Hd2]. rewrite Hd2 in H2. destruct r; [done|].
    destruct H2 as [->|?]; [done|by right]. }
  destruct (attempt <? _); [|by apply Hnext]. destruct (interrupted _ _ _) as [c|]; [|by apply Hnext].
  cbn [fst snd]. destruct (CloseDB (tick w1, d1)) as [e1 [w2 d2]] eqn:Hclose. intros [= <- _ <-].
  apply close_content in Hclose. by rewrite Hclose.
Qed.

(** A repository is returned only over a database whose schema is the latest one,
    whatever stage it was found at; a start that gives up leaves the schema as it
    was or, when an acknowledgement was lost, migrated. *)
Theorem repository_opens_on_latest_schema open_error ctx cfg w d r w' d' :
  on_chain (content d) ->
  NewPostgresRepository migrationFiles open_error ctx cfg (w, d) = (r, (w', d')) ->
  match r with
  | Ok repo => repo = repository_of cfg /\ content d' = latest
  | Err _ => content d' = content d \/ content d' = latest
  end.
Proof using HL.
  intros Hc. unfold NewPostgresRepository. destruct open_error; [intros [= <- _ <-]; by left|].
  by apply startup_run.
Qed.
End startup.

(** ** A start during an outage *)

Section outage.
Context `{HW : Waiting} (up : nat) (cfg : PostgresConfig).

Lemma startup_up ctx repo n attempt lastErr w s :
  (forall t d, interrupted ctx t d = None) -> on_chain s -> (0 < n)%nat ->
  attempt + Z.of_nat n = retryAttempts repo -> (up <= w_tick w + 3 * (n - 1) + 1)%nat ->
  exists w', startup (HE := server up) migrationFiles ctx cfg repo n attempt lastErr (w, s) = (Ok repo, (w', latest)).
Proof using.
  intros Hi Hs. revert attempt lastErr w.
  induction n as [|n IH]; intros attempt lastErr w Hn Ha Hup; [lia|]. cbn [startup].
  unfold bindM, retM. unfold context_WithTimeout at 1. cbn [fst snd].
  destruct (decide (up <= S (w_tick w))%nat) as [Hle|Hlt].
  - destruct (migrateAndPing_up up migrationFiles
      (WithDeadline (w_now w) (w_tick w) (w_now w (w_tick w) + PingTimeout cfg) ctx) (tick w) s latest)
      as [w' Hm]; [done|by apply migrated_chain|].
    cbn [DB server faulty] in *. rewrite Hm. by eexists.
  - rewrite migrateAndPing_down by (cbn; lia). rewrite (proj2 (Z.ltb_lt _ _)) by lia.
    cbn [fst snd]. rewrite Hi. apply IH; cbn [w_tick tick]; lia.
Qed.

(** A start that finds the server down keeps trying: when the server is back
    before its last attempt and the wait is not interrupted, the repository
    opens, with the schema migrated. *)
Theorem startup_outlasts_outage ctx w s :
  (forall t d, interrupted ctx t d = None) -> on_chain s ->
  Z.of_nat up <= Z.of_nat (w_tick w) + 3 * (retryAttempts (repository_of cfg) - 1) + 1 ->
  exists w', NewPostgresRepository (HE := server up) migrationFiles None ctx cfg (w, s)
    = (Ok (repository_of cfg), (w', latest)).
Proof using.
  intros Hi Hs Hup. unfold NewPostgresRepository. pose proof (repository_of_attempts cfg) as Hr.
  apply startup_up; try done; lia.
Qed.
End outage.

(** ** The verification of the chain *)

Lemma first_gap_spec fuel e X :
  e <= first_gap fuel e X /\ (forall v, e <= v < first_gap fuel e X -> v ∈ X) /\
  (first_gap fuel e X ∉ X \/ first_gap fuel e X = e + Z.of_nat fuel).
Proof.
  revert e. induction fuel as [|fuel IH]; intros e; cbn [first_gap].
  { split; [lia|]. split; [lia|right; lia]. }
  case_bool_decide as He; [|split; [lia|]; split; [lia|by left]].
  destruct (IH (e + 1)) as (H1 & H2 & H3). split; [lia|]. split.
  - intros v Hv. destruct (decide (v = e)) as [->|]; [done|]. apply H2. lia.
  - destruct H3; [by left|right; lia].
Qed.

(** As many steps as there are files and one more find a version without a file. *)
Lemma first_gap_missing X : first_gap (S (size X)) 1 X ∉ X.
Proof.
  destruct (first_gap_spec (S (size X)) 1 X) as (_ & Hin & [H|H]); [done|]. exfalso.
  assert (Hsub : list_to_set (seqZ 1 (Z.of_nat (S (size X)))) ⊆ X).
  { intros v. rewrite elem_of_list_to_set, elem_of_seqZ. intros Hv. apply Hin. lia. }
  apply subseteq_size in Hsub. rewrite size_list_to_set in Hsub by apply NoDup_seqZ.
  rewrite length_seqZ in Hsub. lia.
Qed.

Lemma check_chain_None X : check_chain X = None <-> X = ∅ \/ 1 ∈ X.
Proof.
  unfold check_chain. destruct (decide (1 ∈ X)) as [H1|H1].
  - assert (first_gap (S (size X)) 1 X <> 1) as Hne.
    { intros He. pose proof (first_gap_missing X) as H. by rewrite He in H. }
    rewrite (proj2 (Z.eqb_neq _ _) Hne). by split; [right|].
  - cbn [first_gap]. rewrite bool_decide_eq_false_2 by done. cbn.
    destruct (Z.ltb_spec 0 (Z.of_nat (size X))); split; try done.
    + intros [->|?]; [|done]. by rewrite size_empty in *.
    + intros _. left. apply leibniz_equiv, size_empty_iff. lia.
Qed.

Lemma check_applied_None X applied : check_applied X applied = None <-> applied ⊆ X.
Proof.
  unfold check_applied. destruct (List.find _ _) as [v|] eqn:Hf; split; try done.
  - apply find_some in Hf as [Hv Hn]. apply list_elem_of_In, elem_of_elements in Hv. bools. intros Hsub. destruct Hn. by apply Hsub.
  - intros _ v Hv. apply elem_of_elements, list_elem_of_In in Hv.
    pose proof (find_none _ _ Hf _ Hv) as Hn. cbn in Hn. apply negb_false_iff in Hn. by bools.
Qed.

(** The verification accepts exactly the files that are none at all or include
    version 1, with applied versions among them: that the versions follow each
    other, as the comment has it, is not checked. *)
Theorem verification_allows_gaps up files all ctx w s applied :
  records up_file (entries files) = Ok all -> versions s = Some applied -> (up <= w_tick w)%nat ->
  let upVersions : gset Z := list_to_set (map version all) in
  (fst (verifyMigrations (HE := server up) files ctx (w, s)) = Ok tt <->
   (upVersions = ∅ \/ 1 ∈ upVersions) /\ applied ⊆ upVersions).
Proof.
  intros Hall Hv Hw upVersions. rewrite <- check_chain_None, <- check_applied_None.
  unfold verifyMigrations. rewrite Hall. fold upVersions. destruct (check_chain upVersions); [by split; [|intros [? _]]|].
  erewrite try_ok by (by apply loadAppliedVersions_up). cbn.
  destruct (check_applied upVersions applied); [by split; [|intros [_ ?]]|by split].
Qed.

(** * Witnesses *)

#[local] Existing Instance waiting0.

Definition start : World := at_start (fun _ => 0).
Definition as_schema (s : Schema) : @DB _ _ (server 0) := s.

Lemma content_as_schema s : content (as_schema s) = s.
Proof. reflexivity. Qed.

Lemma migrations_refine_specification_witness :
  migrated migrationFiles unmigrated = Some (content (state_of
    (migrateAndPing migrationFiles Background) start (as_schema unmigrated))).
Proof.
  unfold state_of. destruct (migrateAndPing migrationFiles Background (start, as_schema unmigrated)) as [r [w' d']] eqn:Hrun.
  pose proof (proj1 (migrations_refine_specification migrationFiles Background start (as_schema unmigrated)) r w' d' Hrun) as H.
  assert (Hr : r = Ok tt) by (vm_compute in Hrun; by injection Hrun as <- _ _).
  rewrite Hr in H. exact H.
Defined.

Lemma schema_stays_on_chain_witness :
  on_chain (content (state_of (ApplyDownMigrations migrationFiles Background 1) start (as_schema latest))).
Proof.
  apply (schema_stays_on_chain (as_schema latest)).
  - rewrite content_as_schema. right. exists 3%nat. split; [lia|done].
  - apply rtc_once. constructor.
Defined.

(** The number reported counts migrations that have been rolled back with the
    transaction: the schema is unchanged. *)
Lemma first_migration_cannot_be_rolled_back_witness :
  exists e w' d', ApplyDownMigrations migrationFiles Background 3 (start, as_schema latest)
      = ((2, Some e), (w', d')) /\ content d' = latest.
Proof.
  destruct (ApplyDownMigrations migrationFiles Background 3 (start, as_schema latest))
    as [[k err] [w' d']] eqn:Hrun.
  pose proof (content_as_schema latest) as Hc. unfold latest in Hc at 2.
  destruct (first_migration_cannot_be_rolled_back Background 3 3 start (as_schema latest) k err w' d')
    as [He Hd]; [lia|exact Hc|lia|exact Hrun|].
  assert (Hk : k = 2) by (vm_compute in Hrun; by injection Hrun as <- _ _ _).
  destruct err as [e|]; [|exfalso; exact (He eq_refl)]. exists e, w', d'. rewrite Hk. split; [reflexivity|].
  rewrite Hd. apply content_as_schema.
Defined.

Lemma rollback_then_start_round_trip_witness :
  exists w1 d1 w3 d3,
    ApplyDownMigrations migrationFiles Background 2 (start, as_schema latest) = ((2, None), (w1, d1)) /\
    migrateAndPing migrationFiles Background (w1, d1) = (Ok tt, (w3, d3)) /\ content d3 = latest.
Proof.
  destruct (ApplyDownMigrations migrationFiles Background 2 (start, as_schema latest))
    as [[k err] [w1 d1]] eqn:Hrun.
  assert (Hk : k = 2 /\ err = None) by (vm_compute in Hrun; by injection Hrun as <- <- _ _).
  destruct Hk as [-> ->].
  destruct (migrateAndPing migrationFiles Background (w1, d1)) as [r [w3 d3]] eqn:Hm.
  assert (Hr : r = Ok tt) by (vm_compute in Hrun; injection Hrun as <- <-; vm_compute in Hm; by injection Hm as <- _ _).
  rewrite Hr in Hm. exists w1, d1, w3, d3. split; [reflexivity|]. split; [exact Hm|].
  etransitivity; [|apply content_as_schema].
  apply (rollback_then_start_round_trip Background 2 start (as_schema latest) 2 w1 d1
    Background w1 tt w3 d3 (content_as_schema _) Hrun Hm).
Defined.

Lemma repository_opens_on_latest_schema_witness :
  exists w' d', NewPostgresRepository migrationFiles None Background default_config
      (start, as_schema (stage 1)) = (Ok (repository_of default_config), (w', d')) /\ content d' = latest.
Proof.
  destruct (NewPostgresRepository migrationFiles None Background default_config (start, as_schema (stage 1)))
    as [r [w' d']] eqn:Hrun.
  assert (Hr : r = Ok (repository_of default_config)) by (vm_compute in Hrun; by injection Hrun as <- _ _).
  rewrite Hr in Hrun |- *. exists w', d'. split; [reflexivity|].
  refine (proj2 (repository_opens_on_latest_schema None Background default_config start (as_schema (stage 1))
    _ w' d' _ Hrun)).
  rewrite content_as_schema. right. exists 1%nat. split; [lia|done].
Defined.

(** Two attempts find the server down, the third one opens the repository. *)
Lemma startup_outlasts_outage_witness :
  exists w', NewPostgresRepository (HE := server 7) migrationFiles None Background default_config (start, unmigrated)
    = (Ok (repository_of default_config), (w', latest)).
Proof.
  apply (startup_outlasts_outage 7 default_config Background start unmigrated).
  - reflexivity.
  - by left.
  - vm_compute. discriminate.
Defined.

(** Versions 1 and 3 without a version 2. *)
Definition gap_files : list (string * script) := [("0001_users.sql", users_up); ("0003_keys.sql", [])].

Lemma verification_allows_gaps_witness :
  fst (verifyMigrations (HE := server 0) gap_files Background (start, stage 1)) = Ok tt.
Proof.
  eapply (verification_allows_gaps 0 gap_files _ Background start (stage 1) {[1]}).
  - vm_compute. reflexivity.
  - vm_compute. reflexivity.
  - apply Nat.le_0_l.
  - split; [right|]; apply (bool_decide_unpack _); vm_compute; exact I.
Defined.

Example migration_versions :
  records up_file (entries migrationFiles) = Ok
    [mkMigration "0001_users.sql" 1; mkMigration "0002_user_indexes.sql" 2;
     mkMigration "0003_idempotency_keys.sql" 3].
Proof. vm_compute. reflexivity. Qed.

End Migrations.
