(* ===== verification/Observability.v ===== *)
(** Prometheus metrics ([pkg/metrics]) and the process-wide log level
    ([pkg/logging]): the registry the interceptors of [Interceptors] write to,
    the gauge of active streams under concurrent streams, the collector of the
    database pool, and the reload of the level on SIGHUP ([cmd/server/main.go]). *)
From S2P Require Import Prelude GoStrings GoErrors Storage Config Rpc Interceptors.

Module Metrics.

(** * Instruments *)

(** The values of the instruments: counters by label, observed durations with
    the trace of their exemplar, and gauges. Counters and gauges are float64;
    the model counts exactly, as they do below 2^53. *)
Record Registry := mkRegistry {
  TotalRequests : gmap string Z;
  TotalErrors : gmap (string * string) Z;
  RequestDuration : gmap string (list (Z * option string));
  ActiveStreams : Z;
  InFlightRequests : Z;
  LoadShed : gmap string Z
}.

Definition empty_registry : Registry := mkRegistry ∅ ∅ ∅ 0 0 ∅.

(** [vec.WithLabelValues(label).Inc()]. *)
Definition inc {K} `{Countable K} (k : K) (m : gmap K Z) : gmap K Z := <[k := default 0 (m !! k) + 1]> m.

Definition IncLoadShed (method : string) (r : Registry) : Registry :=
  mkRegistry (TotalRequests r) (TotalErrors r) (RequestDuration r) (ActiveStreams r) (InFlightRequests r)
    (inc method (LoadShed r)).
Definition AddInFlight (delta : Z) (r : Registry) : Registry :=
  mkRegistry (TotalRequests r) (TotalErrors r) (RequestDuration r) (ActiveStreams r)
    (InFlightRequests r + delta) (LoadShed r).
Definition IncTotalRequests (method : string) (r : Registry) : Registry :=
  mkRegistry (inc method (TotalRequests r)) (TotalErrors r) (RequestDuration r) (ActiveStreams r)
    (InFlightRequests r) (LoadShed r).
Definition IncTotalErrors (method code : string) (r : Registry) : Registry :=
  mkRegistry (TotalRequests r) (inc (method, code) (TotalErrors r)) (RequestDuration r) (ActiveStreams r)
    (InFlightRequests r) (LoadShed r).

Definition observe (method : string) (o : Z * option string) (r : Registry) : Registry :=
  mkRegistry (TotalRequests r) (TotalErrors r)
    (<[method := default [] (RequestDuration r !! method) ++ [o]]> (RequestDuration r))
    (ActiveStreams r) (InFlightRequests r) (LoadShed r).
Definition ObserveRequestDuration (method : string) (duration : Z) (r : Registry) : Registry :=
  observe method (duration, None) r.
(** The histograms of the client library take exemplars. *)
Definition ObserveRequestDurationExemplar (method : string) (duration : Z) (traceID : string) (r : Registry)
  : Registry :=
  observe method (duration, if bool_decide (traceID <> "") then Some traceID else None) r.

Definition set_ActiveStreams (n : Z) (r : Registry) : Registry :=
  mkRegistry (TotalRequests r) (TotalErrors r) (RequestDuration r) n (InFlightRequests r) (LoadShed r).
Definition IncActiveStreams (r : Registry) : Registry := set_ActiveStreams (ActiveStreams r + 1) r.

(** The gauge is read, and decremented in a second step when the value read was
    positive. *)
Definition getGaugeValue (r : Registry) : Z := ActiveStreams r.
Definition dec (seen : Z) (r : Registry) : Registry :=
  if 0 <? seen then set_ActiveStreams (ActiveStreams r - 1) r else r.
Definition DecActiveStreams (r : Registry) : Registry := dec (getGaugeValue r) r.

(** What the interceptors emit, as calls of these functions. *)
Definition record (e : telemetry) (r : Registry) : Registry :=
  match e with
  | Rpc.TotalRequests method => IncTotalRequests method r
  | Rpc.TotalErrors method code => IncTotalErrors method code r
  | Rpc.RequestDuration method duration traceID => ObserveRequestDurationExemplar method duration traceID r
  | Rpc.ActiveStreams delta => if 0 <? delta then IncActiveStreams r else DecActiveStreams r
  | Rpc.LoadShed method => IncLoadShed method r
  | Rpc.InFlight delta => AddInFlight delta r
  | _ => r
  end.
#[export] Instance telemetry_registry : Telemetry Registry := {| emit := record |}.

(** * Concurrent streams *)

(** Where a stream stands in [StreamMetricsInterceptor]: before its increment,
    running, between the two steps of its decrement, and finished. *)
Inductive stream_pc := Waiting | Running | Decrementing (seen : Z) | Finished.
#[export] Instance stream_pc_eq_dec : EqDecision stream_pc.
Proof. solve_decision. Defined.

Definition counted (pc : stream_pc) : Z :=
  match pc with Running | Decrementing _ => 1 | Waiting | Finished => 0 end.

Inductive stream_step : list stream_pc * Registry -> list stream_pc * Registry -> Prop :=
| stream_start pcs i r :
    pcs !! i = Some Waiting -> stream_step (pcs, r) (<[i := Running]> pcs, IncActiveStreams r)
| stream_read pcs i r :
    pcs !! i = Some Running -> stream_step (pcs, r) (<[i := Decrementing (getGaugeValue r)]> pcs, r)
| stream_dec pcs i r seen :
    pcs !! i = Some (Decrementing seen) -> stream_step (pcs, r) (<[i := Finished]> pcs, dec seen r).

Fixpoint active (pcs : list stream_pc) : Z :=
  match pcs with [] => 0 | pc :: pcs => counted pc + active pcs end.

Lemma active_nonneg pcs : 0 <= active pcs.
Proof. induction pcs as [|[] pcs IH]; cbn; lia. Qed.

Lemma active_waiting n : active (replicate n Waiting) = 0.
Proof. by induction n. Qed.

Lemma active_insert pcs i pc pc' :
  pcs !! i = Some pc -> active (<[i := pc']> pcs) = active pcs - counted pc + counted pc'.
Proof.
  revert i. induction pcs as [|p pcs IH]; intros [|i] H; try done.
  - injection H as ->. cbn. lia.
  - change (counted p + active (<[i := pc']> pcs) = counted p + active pcs - counted pc + counted pc').
    rewrite (IH i H). lia.
Qed.

Lemma active_member pcs i pc : pcs !! i = Some pc -> counted pc <= active pcs.
Proof.
  revert i. induction pcs as [|p pcs IH]; intros [|i] H; try done; cbn in H |- *.
  - injection H as ->. pose proof (active_nonneg pcs). lia.
  - specialize (IH i H). assert (0 <= counted p) by (by destruct p). lia.
Qed.

(** The gauge counts the streams that run, and a value read by a stream that is
    about to decrement is positive. *)
Definition streams_inv (s : list stream_pc * Registry) : Prop :=
  ActiveStreams s.2 = active s.1 /\ Forall (fun pc => match pc with Decrementing seen => 0 < seen | _ => True end) s.1.

Lemma stream_step_inv s s' : streams_inv s -> stream_step s s' -> streams_inv s'.
Proof.
  unfold streams_inv. intros [Ha Hf] H. destruct H as [pcs i r Hi|pcs i r Hi|pcs i r seen Hi]; cbn [fst snd] in *.
  - split; [rewrite (active_insert _ _ _ _ Hi); cbn; lia|by apply Forall_insert].
  - split; [rewrite (active_insert _ _ _ _ Hi); cbn; lia|]. apply Forall_insert; [done|].
    pose proof (active_member _ _ _ Hi) as Hm. cbn in Hm. unfold getGaugeValue. lia.
  - split; [|by apply Forall_insert]. rewrite (active_insert _ _ _ _ Hi).
    pose proof (Forall_lookup_1 _ _ _ _ Hf Hi) as Hs. cbn in Hs. unfold dec.
    rewrite (proj2 (Z.ltb_lt _ _) Hs). cbn. lia.
Qed.

(** However the streams of a server interleave, even between the two steps of a
    decrement, the gauge of active streams is the number of those that have
    started and not finished; in particular it is never negative, and the clamp
    of [DecActiveStreams] never takes effect. *)
Theorem active_streams_are_exact n pcs r :
  rtc stream_step (replicate n Waiting, empty_registry) (pcs, r) ->
  ActiveStreams r = Z.of_nat (length (filter (fun pc => counted pc = 1) pcs)) /\ 0 <= ActiveStreams r.
Proof.
  intros H.
  assert (Hinv : streams_inv (pcs, r)).
  { remember (replicate n Waiting, empty_registry) as s0. remember (pcs, r) as s1.
    assert (H0 : streams_inv s0).
    { subst s0. split; [symmetry; apply active_waiting|]. by apply Forall_replicate. }
    clear Heqs0 Heqs1. induction H as [|s1' s2 s3 H12 _ IH]; [done|]. apply IH. by eapply stream_step_inv. }
  destruct Hinv as [Ha _]. cbn in Ha. rewrite Ha.
  assert (Hc : active pcs = Z.of_nat (length (filter (fun pc => counted pc = 1) pcs))).
  { clear. induction pcs as [|p pcs IH]; [done|]. cbn [active]. rewrite IH, filter_cons.
    case_decide as Hp; cbn [length]; [lia|]. destruct p; cbn in *; lia. }
  rewrite Hc. split; [done|lia].
Qed.

(** The clamp does not hold across two decrements that overlap: without the
    increments that pair with them, both read the same positive value and the
    gauge ends below zero. *)
Theorem overlapping_decrements_go_negative r :
  ActiveStreams r = 1 -> let seen := getGaugeValue r in
  ActiveStreams (dec seen (dec seen r)) = -1 /\ ActiveStreams (DecActiveStreams (DecActiveStreams r)) = 0.
Proof.
  destruct r as [a b c n e f]. cbn. intros ->. by split.
Qed.

(** * A call in the registry *)

(** A unary call adds one request; when the handler returns, one observed
    duration, and an error under its code when it returned one. A handler that
    panics leaves the request counted, and neither a duration nor an error. *)
Theorem unary_calls_are_counted {A} ctx method (handler : Handler Registry A) w r o w' r1 :
  handler ctx (tick w, IncTotalRequests method r) = (o, (w', r1)) ->
  exists elapsed w2 r2, Interceptors.UnaryMetricsInterceptor ctx method handler (w, r) = (o, (w2, r2)) /\
    r2 = match o with
         | Panicked _ => r1
         | Returned (Ok _) => ObserveRequestDurationExemplar method elapsed (trace_id ctx) r1
         | Returned (Err e) =>
             IncTotalErrors method (getErrorCode (Some e))
               (ObserveRequestDurationExemplar method elapsed (trace_id ctx) r1)
         end.
Proof.
  intros Hh. unfold Interceptors.UnaryMetricsInterceptor, after, emitM. unfold_monad. cbn [emit telemetry_registry record].
  rewrite Hh. destruct o as [[a|e]|v]; cbn [emit telemetry_registry record fst snd];
    (exists (w_now w' (w_tick w') - w_now w (w_tick w))); by do 2 eexists.
Qed.
(** * Witnesses *)

Lemma active_streams_are_exact_witness :
  ActiveStreams (snd ([Finished; Running],
    dec 2 (IncActiveStreams (IncActiveStreams empty_registry)))) = 1.
Proof.
  assert (H : rtc stream_step (replicate 2 Waiting, empty_registry)
    ([Finished; Running], dec 2 (IncActiveStreams (IncActiveStreams empty_registry)))).
  { eapply rtc_l; [exact (stream_start [Waiting; Waiting] 0 empty_registry eq_refl)|].
    eapply rtc_l; [exact (stream_start [Running; Waiting] 1 _ eq_refl)|].
    eapply rtc_l; [exact (stream_read [Running; Running] 0 _ eq_refl)|].
    apply rtc_once. exact (stream_dec [Decrementing 2; Running] 0 _ 2 eq_refl). }
  exact (proj1 (active_streams_are_exact 2 _ _ H)).
Defined.

Lemma overlapping_decrements_go_negative_witness :
  exists r, ActiveStreams r = 1 /\ ActiveStreams (dec 1 (dec 1 r)) = -1.
Proof.
  exists (IncActiveStreams empty_registry). split; [reflexivity|].
  exact (proj1 (overlapping_decrements_go_negative (IncActiveStreams empty_registry) eq_refl)).
Defined.

Lemma unary_calls_are_counted_witness :
  exists w2 r2, Interceptors.UnaryMetricsInterceptor (mkRpcCtx None [] "" "" None None None None) "/m"
      (fun _ => fail (A := unit) (EStatus codes.NotFound "no")) (mkWorld (fun _ => 0) (fun _ => None) 0, empty_registry)
      = (Returned (Err (EStatus codes.NotFound "no")), (w2, r2)) /\
    TotalErrors r2 !! ("/m", "NotFound") = Some 1.
Proof.
  edestruct (unary_calls_are_counted (mkRpcCtx None [] "" "" None None None None) "/m"
    (fun _ => fail (A := unit) (EStatus codes.NotFound "no")) (mkWorld (fun _ => 0) (fun _ => None) 0)
    empty_registry) as (elapsed & w2 & r2 & Hrun & Hr); [reflexivity|].
  exists w2, r2. split; [exact Hrun|]. rewrite Hr. reflexivity.
Defined.
End Metrics.

(** * [db.go] *)

Module DBStats.

(** [sql.DBStats], with the wait in nanoseconds. *)
Record Stats := mkStats {
  MaxOpenConnections : Z;
  InUse : Z;
  Idle : Z;
  WaitCount : Z;
  WaitDuration : Z;
  MaxIdleClosed : Z;
  MaxLifetimeClosed : Z
}.

Inductive value_type := GaugeValue | CounterValue.

(** A collector over a pool of type [DB], with the full names of its metrics. *)
Record DBStatsCollector (DB : Type) := mkCollector {
  db : DB;
  maxOpen : string;
  inUse : string;
  idle : string;
  waitCount : string;
  waitDuration : string;
  maxIdleClosed : string;
  maxLifetimeClosed : string
}.
Arguments mkCollector {DB}.
Arguments db {DB}.
Arguments maxOpen {DB}.
Arguments inUse {DB}.
Arguments idle {DB}.
Arguments waitCount {DB}.
Arguments waitDuration {DB}.
Arguments maxIdleClosed {DB}.
Arguments maxLifetimeClosed {DB}.

(** What the registry answers to [prometheus.Register]. *)
Inductive registration (DB : Type) :=
| Registered
| AlreadyRegistered (existing : DBStatsCollector DB)
| Rejected (err : error).
Arguments Registered {DB}.
Arguments AlreadyRegistered {DB}.
Arguments Rejected {DB}.

Section collector.
Context {DB : Type} (BuildFQName : string -> string -> string -> string) (Stats_ : DB -> Stats).

Definition namespace : string := "grpc".

Definition newDBStatsCollector (d : DB) (subsystem : string) : DBStatsCollector DB :=
  let sub := if bool_decide (subsystem <> "") then subsystem else "db" in
  let desc := BuildFQName namespace sub in
  mkCollector d (desc "max_open_connections") (desc "in_use_connections") (desc "idle_connections")
    (desc "wait_count_total") (desc "wait_duration_seconds_total") (desc "max_idle_closed_total")
    (desc "max_lifetime_closed_total").

Definition NewDBStatsCollector (Register : DBStatsCollector DB -> registration DB) (d : DB)
    (subsystem : string) : DBStatsCollector DB :=
  let c := newDBStatsCollector d subsystem in
  match Register c with
  | AlreadyRegistered existing => existing
  | Registered | Rejected _ => c
  end.

Definition Describe (c : DBStatsCollector DB) : list string :=
  [maxOpen c; inUse c; idle c; waitCount c; waitDuration c; maxIdleClosed c; maxLifetimeClosed c].

(** One snapshot of the pool; durations stay in nanoseconds. *)
Definition Collect (c : DBStatsCollector DB) : list (string * value_type * Z) :=
  let stats := Stats_ (db c) in
  [(maxOpen c, GaugeValue, MaxOpenConnections stats);
   (inUse c, GaugeValue, InUse stats);
   (idle c, GaugeValue, Idle stats);
   (waitCount c, CounterValue, WaitCount stats);
   (waitDuration c, CounterValue, WaitDuration stats);
   (maxIdleClosed c, CounterValue, MaxIdleClosed stats);
   (maxLifetimeClosed c, CounterValue, MaxLifetimeClosed stats)].

(** A registry that knows a collector of the same names answers with it: the
    second pool of a process is not measured, and the first one is under the
    second's name. *)
Theorem second_pool_is_not_measured Register d1 d2 subsystem :
  Register (newDBStatsCollector d2 subsystem) = AlreadyRegistered (newDBStatsCollector d1 subsystem) ->
  Collect (NewDBStatsCollector Register d2 subsystem) = Collect (newDBStatsCollector d1 subsystem) /\
  Describe (NewDBStatsCollector Register d2 subsystem) = Describe (newDBStatsCollector d2 subsystem).
Proof. intros H. unfold NewDBStatsCollector. by rewrite H. Qed.
End collector.
End DBStats.

(** * [logging.go] and the reload of the level *)

Module Logging.

(** What a logger writes to: JSON lines or a console, both on the standard output,
    nothing, or what a test installed. *)
Inductive writer := JSONWriter | ConsoleWriter | NopWriter | OtherWriter (name : string).

(** The state of the process: the global level, and the pointer to the logger. *)
Record Process (Level : Type) := mkProcess { level : Level; logger : option writer }.
Arguments mkProcess {Level}.
Arguments level {Level}.
Arguments logger {Level}.

Section logging.
Context {Level : Type} (ParseLevel : string -> option Level) (InfoLevel : Level).

(** Before [Init], over the level zerolog starts with. *)
Definition init (lvl : Level) : Process Level := mkProcess lvl (Some JSONWriter).

(** Never nil: nothing is written through a pointer that is. *)
Definition Logger (p : Process Level) : writer := default NopWriter (logger p).

Definition Init (lvl format : string) (p : Process Level) : Process Level :=
  mkProcess (default InfoLevel (ParseLevel lvl))
    (Some (if bool_decide (format = "json") then JSONWriter else ConsoleWriter)).

Definition SetLevel (lvl : string) (p : Process Level) : option error * Process Level :=
  match ParseLevel lvl with
  | None => (Some (EOther "unknown level"), p)
  | Some lvl => (None, mkProcess lvl (logger p))
  end.

Definition SetLogger (l : option writer) (p : Process Level) : Process Level := mkProcess (level p) l.

(** One SIGHUP in [watchLogLevel], given what [config.Load] returns. *)
Definition reload (loaded : res Config.Config) (l : Process Level) : Process Level :=
  match loaded with
  | Err _ => l
  | Ok cfg => snd (SetLevel (Config.Level (Config.Logging cfg)) l)
  end.

(** What the [select] of the loop receives: the end of the context, or the signal
    with what [config.Load] then returns. *)
Inductive watched := ContextDone | Hangup (loaded : res Config.Config).

Fixpoint watchLogLevel (received : list watched) (l : Process Level) : Process Level :=
  match received with
  | [] => l
  | ContextDone :: _ => l
  | Hangup loaded :: received => watchLogLevel received (reload loaded l)
  end.

(** Signals change the level of the logger and nothing else, and only to the one
    of the last configuration that loaded and whose level parses; after the end
    of the context none does. *)
Theorem reload_keeps_last_good_level l (signals : list (res Config.Config)) after :
  let levels := omap (fun loaded => match loaded with
    | Ok cfg => ParseLevel (Config.Level (Config.Logging cfg))
    | Err _ => None
    end) signals in
  watchLogLevel (map Hangup signals ++ ContextDone :: after) l = mkProcess (default (level l) (last levels)) (logger l).
Proof.
  cbv zeta. revert l. induction signals as [|s signals IH]; intros l; [by destruct l|].
  cbn [map app watchLogLevel]. rewrite IH. clear IH. cbn [omap list_omap]. unfold reload, SetLevel.
  destruct s as [cfg|e]; [|done]. destruct (ParseLevel _) as [lvl|]; [|done]. cbn [snd level logger].
  f_equal. rewrite last_cons. by destruct (last _).
Qed.
End logging.
End Logging.
