(* ===== verification/Client.v ===== *)
(** The client's interceptors ([pkg/interceptors/client.go]) and the demo client
    ([cmd/client/main.go]): what a call records, how its credential reaches the
    server's authenticator, the TLS settings, and the unary and client-streaming
    scenarios. *)
From S2P Require Import Prelude GoStrings GoErrors Storage UserService Config Rpc Auth.
From Stdlib Require Import Ascii.

Module Client.

(** * Interceptors *)

(** The metadata a call takes along, in the order it was appended, and what its
    context says. *)
Record CallCtx := mkCall { call_ctx : Ctx; outgoing : list (string * string) }.

(** [metadata.AppendToOutgoingContext], for a key in lower case. *)
Definition AppendToOutgoingContext (ctx : CallCtx) (k v : string) : CallCtx :=
  mkCall (call_ctx ctx) (outgoing ctx ++ [(k, v)]).

Inductive event :=
| Started (method : string) (stream : bool)
| Completed (method text : string) (duration : Z)
| StreamCreated (method text : string)
| ClientTotalRequests (method : string)
| ClientTotalErrors (method code : string)
| ClientRequestDuration (method : string) (duration : Z).

Definition clientErrToString (err : option error) : string :=
  match err with Some err => error_text err | None => "" end.

Definition clientGetErrorCode (err : error) : string :=
  match FromError_code err with
  | (code, true) => code_String code
  | (_, false) => "unknown"
  end.

Section interceptors.
Context {S A : Type}.

(** The transport below a call: it changes the state [S] of the server. What the
    interceptors record goes to a list beside it. *)
Definition Invoker : Type := CallCtx -> M (list event * S) (res A).
Definition Interceptor : Type := CallCtx -> string -> Invoker -> M (list event * S) (res A).

Definition note (e : event) : M (list event * S) unit := outerM (modifyM (fun l => l ++ [e])).

Definition UnaryClientLoggingInterceptor : Interceptor := fun ctx method invoker =>
  start <-- nowM ;;
  note (Started method false) ;;;
  r <-- invoker ctx ;;
  now <-- nowM ;;
  note (Completed method (clientErrToString (res_error r)) (now - start)) ;;;
  retM r.

Definition UnaryClientMetricsInterceptor : Interceptor := fun ctx method invoker =>
  start <-- nowM ;;
  note (ClientTotalRequests method) ;;;
  r <-- invoker ctx ;;
  now <-- nowM ;;
  note (ClientRequestDuration method (now - start)) ;;;
  match r with
  | Err err => note (ClientTotalErrors method (clientGetErrorCode err))
  | Ok _ => retM tt
  end ;;;
  retM r.

Definition UnaryClientAuthInterceptorWithToken (token : string) : Interceptor := fun ctx method invoker =>
  let ctx := if bool_decide (token <> "")
             then AppendToOutgoingContext ctx "authorization" ("Bearer " +:+ token) else ctx in
  invoker ctx.

Definition UnaryClientAuthInterceptor : Interceptor := UnaryClientAuthInterceptorWithToken "".

(** The stream interceptors act on the opening of the stream. *)
Definition StreamClientLoggingInterceptor : Interceptor := fun ctx method streamer =>
  note (Started method true) ;;;
  r <-- streamer ctx ;;
  note (StreamCreated method (clientErrToString (res_error r))) ;;;
  retM r.

Definition StreamClientMetricsInterceptor : Interceptor := fun ctx method streamer =>
  note (ClientTotalRequests method) ;;;
  start <-- nowM ;;
  r <-- streamer ctx ;;
  now <-- nowM ;;
  note (ClientRequestDuration method (now - start)) ;;;
  match r with
  | Err err => note (ClientTotalErrors method (clientGetErrorCode err))
  | Ok _ => retM tt
  end ;;;
  retM r.

Definition StreamClientAuthInterceptorWithToken (token : string) : Interceptor := fun ctx method streamer =>
  let ctx := if bool_decide (token <> "")
             then AppendToOutgoingContext ctx "authorization" ("Bearer " +:+ token) else ctx in
  streamer ctx.

(** The chains of [dialClient], the first interceptor outermost. *)
Definition unary_chain (token : string) : Interceptor := fun ctx method invoker =>
  UnaryClientLoggingInterceptor ctx method (fun ctx =>
  UnaryClientMetricsInterceptor ctx method (fun ctx =>
  UnaryClientAuthInterceptorWithToken token ctx method invoker)).

Definition stream_chain (token : string) : Interceptor := fun ctx method streamer =>
  StreamClientLoggingInterceptor ctx method (fun ctx =>
  StreamClientMetricsInterceptor ctx method (fun ctx =>
  StreamClientAuthInterceptorWithToken token ctx method streamer)).
End interceptors.

(** * Settings of the connection *)

Section tls.
(** Loading of PEM files: [os.ReadFile], [AppendCertsFromPEM] and
    [tls.LoadX509KeyPair]. *)
Context (ReadFile : string -> res string) (AppendCertsFromPEM : string -> bool)
  (LoadX509KeyPair : string -> string -> option error).

Record ClientTLS := mkClientTLS { tls_ServerName : string; root_pem : string; client_cert : bool }.

Definition server_name (cfg : Config.Config) : string :=
  let serverName := Config.ServerName (Config.Client cfg) in
  if bool_decide (serverName = "")
  then default "" (head (Split (Config.Address (Config.Client cfg)) ":")) else serverName.

Definition loadClientTLSCredentials (cfg : Config.Config) : res ClientTLS :=
  let tls := Config.TLS cfg in
  if bool_decide (Config.CAFile tls = "")
  then Err (EOther "tls.ca_file is required for the client when TLS is enabled") else
  match ReadFile (Config.CAFile tls) with
  | Err err => Err (EWrap "read client CA" err)
  | Ok caPEM =>
      if negb (AppendCertsFromPEM caPEM) then Err (EOther "client CA contains no valid certificates") else
      if Config.mtls_Enabled (Config.MTLS tls) then
        if bool_decide (Config.ClientCertFile tls = "") || bool_decide (Config.ClientKeyFile tls = "")
        then Err (EOther "client certificate and key are required when mTLS is enabled") else
        match LoadX509KeyPair (Config.ClientCertFile tls) (Config.ClientKeyFile tls) with
        | Some err => Err (EWrap "load client certificate" err)
        | None => Ok (mkClientTLS (server_name cfg) caPEM true)
        end
      else Ok (mkClientTLS (server_name cfg) caPEM false)
  end.

(** What the connection is opened with: the address, TLS or none, and the token
    of the chains. [NewClient] is the library's. *)
Record ClientConn := mkConn { target : string; transport : option ClientTLS; token : string }.

Definition dialClient (NewClient : string -> option error) (cfg : Config.Config) : res ClientConn :=
  let address := Config.Address (Config.Client cfg) in
  let token := Config.AuthToken (Config.Client cfg) in
  match (if Config.tls_Enabled (Config.TLS cfg)
         then match loadClientTLSCredentials cfg with Err err => Err err | Ok creds => Ok (Some creds) end
         else Ok None) with
  | Err err => Err err
  | Ok transport =>
      match NewClient address with
      | Some err => Err (EWrap "create client connection" err)
      | None => Ok (mkConn address transport token)
      end
  end.
End tls.

(** * Scenarios *)

Section scenarios.
Context {S : Type}.

(** The generated client over a connection. A metrics stream accumulates what is
    sent: [Send] and [CloseAndRecv] act on the state of the server. *)
Record UserServiceClient := mkStub {
  CreateUser : CallCtx -> UserService.CreateUserRequest -> M S (res User);
  GetUser : CallCtx -> string -> M S (res User);
  CollectUserMetrics : CallCtx -> M S (res unit);
  Send : string -> string -> Z -> M S (option error);
  CloseAndRecv : M S (res unit)
}.

Context (client : UserServiceClient) (timeout : Z).

Definition call_context : M S CallCtx :=
  c <-- context_WithTimeout Background timeout ;;
  retM (mkCall c []).

Definition createExampleUser (ctx : CallCtx) : M S (res User) :=
  now <-- nowM ;;
  r <-- CreateUser client ctx
          (UserService.mkCreateUser "Client Demo" ("client-" +:+ pretty now +:+ "@example.com") 30 "") ;;
  retM (match r with Ok user => Ok user | Err err => Err (EWrap "CreateUser failed" err) end).

(** The scenarios over a connection that has been dialled. *)
Definition runUnaryClient : M S (option error) :=
  ctx <-- call_context ;;
  user <-- createExampleUser ctx ;;
  match user with
  | Err err => retM (Some (EWrap "CreateUser failed" err))
  | Ok user =>
      getUser <-- GetUser client ctx (Id user) ;;
      retM (match getUser with Err err => Some (EWrap "GetUser failed" err) | Ok _ => None end)
  end.

(** The [for] loop with [n] messages left, from message [i]. *)
Fixpoint send_metrics (n : nat) (i : Z) : M S (option error) :=
  match n with
  | O => retM None
  | Datatypes.S n =>
      err <-- Send client "client-demo" "request_duration" (i * 100) ;;
      match err with
      | Some err => retM (Some (EWrap "stream send error" err))
      | None => send_metrics n (i + 1)
      end
  end.

Definition runClientStreamingClient : M S (option error) :=
  ctx <-- call_context ;;
  stream <-- CollectUserMetrics client ctx ;;
  match stream with
  | Err err => retM (Some (EWrap "CollectUserMetrics failed" err))
  | Ok _ =>
      err <-- send_metrics 5 0 ;;
      match err with
      | Some err => retM (Some err)
      | None =>
          resp <-- CloseAndRecv client ;;
          retM (match resp with Err err => Some (EWrap "stream close and recv error" err) | Ok _ => None end)
      end
  end.
End scenarios.

(** * Lemmas *)

(** The metadata as the server receives it: the values of a key in the order
    they were appended. *)
Definition received (md : list (string * string)) : gmap string (list string) :=
  fold_left (fun m kv => <[fst kv := md_get m (fst kv) ++ [snd kv]]> m) md ∅.

Definition server_context (ctx : CallCtx) : RpcCtx :=
  mkRpcCtx (Some (received (outgoing ctx))) [] "" "" None None None (Some (call_ctx ctx)).

Definition values (k : string) (md : list (string * string)) : list string :=
  omap (fun kv => if bool_decide (fst kv = k) then Some (snd kv) else None) md.

Lemma received_values md k : md_get (received md) k = values k md.
Proof.
  unfold received.
  assert (H : forall m, md_get (fold_left (fun m kv => <[fst kv := md_get m (fst kv) ++ [snd kv]]> m) md m) k
    = md_get m k ++ values k md); [|by rewrite H; unfold md_get; rewrite lookup_empty].
  induction md as [|[k' v] md IH]; intros m; cbn; [by rewrite app_nil_r|]. rewrite IH.
  unfold md_get at 1. cbn [fst snd]. rewrite lookup_insert. case_decide as Hk.
  - subst k'. rewrite bool_decide_eq_true_2 by done. cbn. by rewrite <- app_assoc.
  - rewrite bool_decide_eq_false_2 by done. done.
Qed.

Lemma fields_bearer token : Fields ("Bearer " +:+ token) = "Bearer" :: Fields token.
Proof. destruct token; reflexivity. Qed.

(** * Properties *)

Section properties.
Context {S A : Type}.

(** The token travels as a bearer credential through both chains and comes out
    of the server's metadata as it is: a token without white space, in a call
    whose context carries no credential of its own, is the credential the
    authenticator sees. *)
Theorem client_token_reaches_authenticator token ctx method (invoker : Invoker (S := S) (A := A)) w l s :
  Fields token = [token] -> values "authorization" (outgoing ctx) = [] ->
  exists ctx', call_ctx ctx' = call_ctx ctx /\
    Auth.credentialFromContext (server_context ctx') =
      (Some token, bool_decide (values "x-api-key" (outgoing ctx) <> [])) /\
    (forall w l, UnaryClientAuthInterceptorWithToken token ctx method invoker (w, (l, s)) = invoker ctx' (w, (l, s))) /\
    result_of (unary_chain token ctx method invoker) w (l, s) =
      fst (invoker ctx' (tick (tick w), (l ++ [Started method false] ++ [ClientTotalRequests method], s))).
Proof.
  intros Hf Hno.
  assert (Hne : token <> "") by (intros ->; done).
  exists (AppendToOutgoingContext ctx "authorization" ("Bearer " +:+ token)). split; [done|].
  unfold UnaryClientAuthInterceptorWithToken. rewrite (bool_decide_eq_true_2 (token <> "")) by done. split; [|split; [done|]].
  - unfold Auth.credentialFromContext, server_context. cbn [incoming outgoing AppendToOutgoingContext].
    rewrite !received_values. unfold values. rewrite !omap_app. fold (values "authorization" (outgoing ctx)).
    rewrite Hno. cbn [app omap list_omap fst snd]. rewrite bool_decide_eq_true_2 by done.
    rewrite (bool_decide_eq_false_2 ("authorization" = "x-api-key")) by done. rewrite app_nil_r. cbn [app].
    rewrite fields_bearer, Hf. cbn [andb].
    change (EqualFold_ascii "Bearer" "bearer") with true. rewrite (bool_decide_eq_true_2 (token <> "")) by done.
    cbn [andb]. by rewrite andb_true_r.
  - unfold unary_chain, UnaryClientLoggingInterceptor, UnaryClientMetricsInterceptor,
      UnaryClientAuthInterceptorWithToken, note. unfold_monad.
    rewrite bool_decide_eq_true_2 by done. rewrite <- app_assoc.
    destruct (invoker _ _) as [[a|e] [w' [l' s']]]; done.
Qed.

(** An empty token adds nothing; a token in a call whose context already carries
    an authorization makes two, of which the authenticator takes neither. *)
Theorem credentials_do_not_add_up token ctx method (invoker : Invoker (S := S) (A := A)) w l s v vs :
  values "authorization" (outgoing ctx) = v :: vs -> values "x-api-key" (outgoing ctx) = [] ->
  (UnaryClientAuthInterceptorWithToken "" ctx method invoker (w, (l, s)) = invoker ctx (w, (l, s))) /\
  (token <> "" -> exists ctx',
     UnaryClientAuthInterceptorWithToken token ctx method invoker (w, (l, s)) = invoker ctx' (w, (l, s)) /\
     fst (Auth.credentialFromContext (server_context ctx')) = None).
Proof.
  intros Hv Hk. split; [done|]. intros Hne. unfold UnaryClientAuthInterceptorWithToken.
  rewrite bool_decide_eq_true_2 by done. eexists. split; [reflexivity|].
  unfold Auth.credentialFromContext, server_context. cbn [incoming outgoing AppendToOutgoingContext].
  rewrite !received_values. unfold values in *. rewrite !omap_app, Hv, Hk. cbn [app omap list_omap fst snd].
  rewrite bool_decide_eq_true_2 by done. rewrite (bool_decide_eq_false_2 ("authorization" = "x-api-key")) by done.
  cbn [app]. by destruct vs.
Qed.
End properties.

Lemma split_first sep l rest cur :
  Forall (fun a => a <> sep) l ->
  head (split_go sep cur (l ++ sep :: rest)) = Some (of_bytes (rev cur ++ l)).
Proof.
  revert cur. induction l as [|a l IH]; intros cur Hl; cbn.
  - rewrite Ascii.eqb_refl. by rewrite app_nil_r.
  - apply Forall_cons in Hl as [Ha Hl]. rewrite (proj2 (Ascii.eqb_neq a sep) Ha).
    rewrite IH by done. cbn [rev]. by rewrite <- app_assoc.
Qed.

(** The name the server's certificate is verified for, when none is configured,
    is the address up to its first colon: the host of [host:port], but a single
    bracket for an IPv6 address, which no certificate is made out to. *)
Theorem server_name_is_address_prefix cfg host rest :
  Config.ServerName (Config.Client cfg) = "" ->
  Config.Address (Config.Client cfg) = of_bytes (host ++ ":"%char :: rest) ->
  Forall (fun a => a <> ":"%char) host -> server_name cfg = of_bytes host.
Proof.
  intros Hn Ha Hh. unfold server_name. rewrite Hn, Ha, bool_decide_eq_true_2 by done.
  unfold Split, bytes_of, of_bytes. rewrite String.list_ascii_of_string_of_list_ascii.
  change (@Datatypes.list ascii) with (list ascii). rewrite split_first by done. done.
Qed.

(** * Witnesses *)

Definition call0 : CallCtx := mkCall Background [("x-request-id", "r")].
Definition echo : Invoker (S := list (string * string)) (A := unit) := fun ctx ws =>
  let '(w, (l, s)) := ws in (Ok tt, (w, (l, outgoing ctx))).
Definition world0 : World := mkWorld (fun _ => 0) (fun _ => None) 0.

Lemma client_token_reaches_authenticator_witness :
  exists ctx', Auth.credentialFromContext (server_context ctx') = (Some "tok", false) /\
    result_of (unary_chain "tok" call0 "/m" echo) world0 ([], []) = Ok tt.
Proof.
  destruct (client_token_reaches_authenticator "tok" call0 "/m" echo world0 [] [] eq_refl eq_refl)
    as (ctx' & _ & Hc & _ & Hr).
  exists ctx'. split; [exact Hc|]. rewrite Hr. reflexivity.
Defined.

Lemma credentials_do_not_add_up_witness :
  exists ctx', fst (Auth.credentialFromContext (server_context ctx')) = None /\
    UnaryClientAuthInterceptorWithToken "tok" (mkCall Background [("authorization", "Bearer other")]) "/m" echo
      (world0, ([], [])) = echo ctx' (world0, ([], [])).
Proof.
  destruct (proj2 (credentials_do_not_add_up "tok" (mkCall Background [("authorization", "Bearer other")]) "/m"
    echo world0 [] [] "Bearer other" [] eq_refl eq_refl)) as (ctx' & Hr & Hc); [discriminate|].
  exists ctx'. split; [exact Hc|exact Hr].
Defined.

Definition with_address (address : string) : Config.Config :=
  let c := Config.sample in
  Config.mkConfig (Config.Server c) (Config.TLS c) (Config.Auth c) (Config.Logging c) (Config.Tracing c)
    (Config.Metrics c) (Config.Health c) (Config.Storage c) (Config.Gateway c) (Config.Reflection c)
    (Config.mkClient address "" "").

Lemma server_name_is_address_prefix_witness :
  server_name (with_address "[::1]:50051") = "[" /\ server_name (with_address "users.local:50051") = "users.local".
Proof.
  split.
  - apply (server_name_is_address_prefix (with_address "[::1]:50051") (bytes_of "[") (bytes_of ":1]:50051"));
      [reflexivity|reflexivity|]. repeat constructor; discriminate.
  - apply (server_name_is_address_prefix (with_address "users.local:50051") (bytes_of "users.local")
      (bytes_of "50051")); [reflexivity|reflexivity|]. repeat constructor; discriminate.
Defined.
End Client.
