(* ===== verification/Demo.v ===== *)
(** The scenarios of [cmd/client/main.go]: each over a connection it opens and
    closes, the stream of events that is drained to its end, and the
    conversation of [runBidiStreamingClient] with [ChatStream] of the service, as
    the goroutine that sends, the one that receives, the channel between them
    and the server at the other end of the stream. *)
From S2P Require Import Prelude GoStrings GoErrors Storage UserService Memory Config Rpc Auth Client.

Module Demo.

(** * Scenarios over their connection *)

Section scenarios.
Context {S : Type}.
(** Opening and closing a connection, and what is logged. *)
Context (dial : M S (res unit)) (Close : M S (option error)) (log : string -> M S unit).

Definition closeConnection : M S unit :=
  err <-- Close ;;
  match err with Some _ => log "client connection close failed" | None => retM tt end.

Definition over_connection (scenario : M S (option error)) : M S (option error) :=
  conn <-- dial ;;
  match conn with
  | Err err => retM (Some err)
  | Ok _ =>
      result <-- scenario ;;
      closeConnection ;;;
      retM result
  end.

Context (client : Client.UserServiceClient (S := S)) (timeout : Z).
(** The stream of events: what [Recv] yields before its error, and that. *)
Context (StreamUserEvents : Client.CallCtx -> UserService.StreamUserEventsRequest ->
           M S (res (list UserService.UserEvent * error))).

Fixpoint drain (events : list UserService.UserEvent) (last : error) : M S (option error) :=
  match events with
  | [] => retM (if bool_decide (last = EEOF) then None else Some (EWrap "stream recv error" last))
  | _ :: events => log "received event" ;;; drain events last
  end.

Definition runServerStreamingClient : M S (option error) :=
  ctx <-- Client.call_context timeout ;;
  user <-- Client.createExampleUser client ctx ;;
  match user with
  | Err err => retM (Some err)
  | Ok user =>
      stream <-- StreamUserEvents ctx (UserService.mkStreamUserEvents (Id user) ["login"; "logout"; "purchase"]) ;;
      match stream with
      | Err err => retM (Some (EWrap "StreamUserEvents failed" err))
      | Ok (events, last) => drain events last
      end
  end.

(** [main] runs every scenario, whatever the others return. *)
Fixpoint run_operations (operations : list (M S (option error))) : M S unit :=
  match operations with
  | [] => retM tt
  | operation :: operations =>
      err <-- operation ;;
      match err with Some _ => log "client operation failed" | None => retM tt end ;;;
      run_operations operations
  end.

(** The bidirectional scenario is the conversation below. *)
Definition main (runBidiStreamingClient : M S (option error)) : M S unit :=
  run_operations
    [over_connection (Client.runUnaryClient client timeout);
     over_connection runServerStreamingClient;
     over_connection (Client.runClientStreamingClient client timeout);
     over_connection runBidiStreamingClient].
End scenarios.

(** * The conversation *)

(** Where the goroutine that sends is: among its messages; at the send of its
    result; before its deferred [close]; ended. *)
Inductive sender := SendingMessages | Reporting (e : option error) | ClosingChannel | SenderEnded.

(** The main goroutine: in [Recv]; at [<-sendErr]; at the end. *)
Inductive receiver := Receiving | AwaitingSender | Finished (result : option error).

Record Chat := mkChat {
  to_send : list UserService.ChatMessage;
  snd_at : sender;
  sendErr : list (option error);          (* of capacity 1 *)
  channel_closed : bool;
  requests : list UserService.ChatMessage; (* on their way to the server *)
  half_closed : bool;                      (* by [CloseSend] *)
  status : option (option error);          (* of the stream, when the server has ended it *)
  replies : list UserService.ChatMessage;  (* on their way back *)
  received : list UserService.ChatMessage;
  rcv_at : receiver
}.

Definition demo_messages : list UserService.ChatMessage :=
  map (fun i => UserService.mkChat "" "client-demo" ("Hello " +:+ i) None) ["0"; "1"; "2"; "3"; "4"].

Definition start (msgs : list UserService.ChatMessage) : Chat :=
  mkChat msgs SendingMessages [] false [] false None [] [] Receiving.

Section chat.
Context {S : Type} (service : UserService.Service S).

(** One iteration of the loop of [ChatStream]. *)
Definition handles (msg : UserService.ChatMessage) (answer : list UserService.ChatMessage * option error) : Prop :=
  exists w st w' st', UserService.ChatStream service (fun _ => None) [Ok (Some msg)] (w, st) = (answer, (w', st')).
Definition answers (msg reply : UserService.ChatMessage) : Prop := handles msg ([reply], None).
Definition refuses (msg : UserService.ChatMessage) (err : error) : Prop := handles msg ([], Some err).

(** The client's goroutines. A [Send] fails only once the stream has ended, and
    may succeed even then, before the client hears of it; [CloseSend] of gRPC
    always returns nil. *)
Inductive client_step : Chat -> Chat -> Prop :=
| send_ok m ms ch cc rq hc st rp rc ra :
    client_step (mkChat (m :: ms) SendingMessages ch cc rq hc st rp rc ra)
      (mkChat ms SendingMessages ch cc (rq ++ [m]) hc st rp rc ra)
| send_fails m ms ch cc rq hc st rp rc ra err :
    client_step (mkChat (m :: ms) SendingMessages ch cc rq hc (Some st) rp rc ra)
      (mkChat ms (Reporting (Some (EWrap "stream send error" err))) ch cc rq hc (Some st) rp rc ra)
| close_send ch cc rq hc st rp rc ra :
    client_step (mkChat [] SendingMessages ch cc rq hc st rp rc ra)
      (mkChat [] (Reporting None) ch cc rq true st rp rc ra)
| reports ms e ch cc rq hc st rp rc ra : (length ch < 1)%nat ->
    client_step (mkChat ms (Reporting e) ch cc rq hc st rp rc ra)
      (mkChat ms ClosingChannel (ch ++ [e]) cc rq hc st rp rc ra)
| closes_channel ms ch rq hc st rp rc ra cc :
    client_step (mkChat ms ClosingChannel ch cc rq hc st rp rc ra)
      (mkChat ms SenderEnded ch true rq hc st rp rc ra)
| receives ms sa ch cc rq hc st r rp rc :
    client_step (mkChat ms sa ch cc rq hc st (r :: rp) rc Receiving)
      (mkChat ms sa ch cc rq hc st rp (rc ++ [r]) Receiving)
| receives_eof ms sa ch cc rq hc rc :
    client_step (mkChat ms sa ch cc rq hc (Some None) [] rc Receiving)
      (mkChat ms sa ch cc rq hc (Some None) [] rc AwaitingSender)
| receives_error ms sa ch cc rq hc err rc :
    client_step (mkChat ms sa ch cc rq hc (Some (Some err)) [] rc Receiving)
      (mkChat ms sa ch cc rq hc (Some (Some err)) [] rc (Finished (Some (EWrap "stream recv error" err))))
| sender_reported ms sa e ch cc rq hc st rp rc :
    client_step (mkChat ms sa (e :: ch) cc rq hc st rp rc AwaitingSender)
      (mkChat ms sa ch cc rq hc st rp rc (Finished e))
| sender_gone ms sa rq hc st rp rc :
    client_step (mkChat ms sa [] true rq hc st rp rc AwaitingSender)
      (mkChat ms sa [] true rq hc st rp rc (Finished None)).

Inductive server_step : Chat -> Chat -> Prop :=
| server_answers ms sa ch cc m rq hc rp rc ra r : answers m r ->
    server_step (mkChat ms sa ch cc (m :: rq) hc None rp rc ra) (mkChat ms sa ch cc rq hc None (rp ++ [r]) rc ra)
| server_refuses ms sa ch cc m rq hc rp rc ra err : refuses m err ->
    server_step (mkChat ms sa ch cc (m :: rq) hc None rp rc ra) (mkChat ms sa ch cc rq hc (Some (Some err)) rp rc ra)
| server_done ms sa ch cc rp rc ra :
    server_step (mkChat ms sa ch cc [] true None rp rc ra) (mkChat ms sa ch cc [] true (Some None) rp rc ra).

(** The connection breaks, or the deadline of the call passes. *)
Inductive breaks : Chat -> Chat -> Prop :=
| stream_breaks ms sa ch cc rq hc rp rp' lost rc ra err : rp = rp' ++ lost ->
    breaks (mkChat ms sa ch cc rq hc None rp rc ra) (mkChat ms sa ch cc rq hc (Some (Some err)) rp' rc ra).

Definition step (s s' : Chat) : Prop := client_step s s' \/ server_step s s'.
Definition moves (s s' : Chat) : Prop := step s s' \/ breaks s s'.

(** * The invariant *)

(** The sent messages in order: those answered, those on their way, those left. *)
Definition in_order (msgs : list UserService.ChatMessage) (s : Chat) : Prop :=
  exists handled, msgs = handled ++ requests s ++ to_send s /\ Forall2 answers handled (received s ++ replies s).

(** The goroutine reports once, into an empty channel. *)
Definition reported (s : Chat) : Prop :=
  (exists e, sendErr s = [e]) \/ (sendErr s = [] /\ exists result, rcv_at s = Finished result).

Definition sender_ok (s : Chat) : Prop :=
  match snd_at s with
  | SendingMessages | Reporting _ => sendErr s = [] /\ channel_closed s = false
  | ClosingChannel => channel_closed s = false /\ reported s
  | SenderEnded => channel_closed s = true /\ reported s
  end.

Definition closing_ok (s : Chat) : Prop :=
  if half_closed s then
    to_send s = [] /\ snd_at s <> SendingMessages /\ (forall e, snd_at s = Reporting e -> e = None) /\
    Forall (fun e => e = None) (sendErr s)
  else snd_at s = SendingMessages \/ is_Some (status s).

Definition stream_ok (msgs : list UserService.ChatMessage) (s : Chat) : Prop :=
  match status s with
  | None => in_order msgs s
  | Some None => half_closed s = true /\ requests s = [] /\ in_order msgs s
  | Some (Some _) => True
  end.

Definition receiver_ok (s : Chat) : Prop :=
  match rcv_at s with
  | Receiving => True
  | AwaitingSender | Finished None => status s = Some None /\ replies s = []
  | Finished (Some _) => exists err, status s = Some (Some err)
  end.

Definition sound (msgs : list UserService.ChatMessage) (s : Chat) : Prop :=
  sender_ok s /\ closing_ok s /\ stream_ok msgs s /\ receiver_ok s.

(** ** It is kept *)

Lemma in_order_same msgs s s' :
  requests s' ++ to_send s' = requests s ++ to_send s -> received s' ++ replies s' = received s ++ replies s ->
  in_order msgs s -> in_order msgs s'.
Proof using. intros H1 H2 (handled & ? & ?). exists handled. by rewrite H1, H2. Qed.

Ltac chat_simpl :=
  unfold sound, sender_ok, closing_ok, stream_ok, receiver_ok, reported in *;
  cbn [to_send snd_at sendErr channel_closed requests half_closed status replies received rcv_at] in *.

Ltac chat_go :=
  chat_simpl;
  repeat match goal with
  | H : _ /\ _ |- _ => destruct H
  | hc : bool |- _ => destruct hc
  | st : option (option error) |- _ => destruct st as [[?|]|]
  | H : context [match ?st with Some _ => True | None => _ end] |- _ => destruct st
  | sa : sender |- _ => destruct sa
  | ra : receiver |- _ => destruct ra as [| |[?|]]
  | H : Forall _ (_ :: _) |- _ => apply Forall_cons in H as [-> H]
  end;
  split_and?; try done;
  try (eapply in_order_same; [| |eassumption]; cbn; rewrite <- ?app_assoc; done);
  try naive_solver.

Lemma client_step_sound msgs s s' : client_step s s' -> sound msgs s -> sound msgs s'.
Proof using. intros Hst (Hs & Hc & Ho & Hr). destruct Hst; chat_go. Qed.

Lemma in_order_answer msgs m r s s' :
  answers m r -> requests s = m :: requests s' -> to_send s' = to_send s ->
  received s' ++ replies s' = (received s ++ replies s) ++ [r] -> in_order msgs s -> in_order msgs s'.
Proof using.
  intros Ha Hq Ht Hr (handled & -> & Hf). exists (handled ++ [m]). rewrite Hq, Ht, Hr, <- app_assoc.
  split; [done|]. apply Forall2_app; [done|]. by constructor.
Qed.

Lemma server_step_sound msgs s s' : server_step s s' -> sound msgs s -> sound msgs s'.
Proof using.
  intros Hst (Hs & Hc & Ho & Hr). destruct Hst; chat_go.
  all: eapply in_order_answer; [eassumption| | | |eassumption]; cbn; rewrite ?app_assoc; done.
Qed.

Lemma breaks_sound msgs s s' : breaks s s' -> sound msgs s -> sound msgs s'.
Proof using. intros Hst (Hs & Hc & Ho & Hr). destruct Hst; chat_go. Qed.

Lemma chat_start_sound msgs : sound msgs (start msgs).
Proof using. unfold sound. split_and?; [done|by left| |done]. exists []. by split; [|constructor]. Qed.

Lemma chat_sound msgs s : rtc moves (start msgs) s -> sound msgs s.
Proof using.
  intros H. pose proof (chat_start_sound msgs) as Hs. induction H as [|s1 s2 s3 [[Hm|Hm]|Hm] _ IH]; [done|..]; apply IH.
  - by eapply client_step_sound.
  - by eapply server_step_sound.
  - by eapply breaks_sound.
Qed.

(** ** Nobody is left waiting *)

Definition sender_cost (sa : sender) : nat :=
  match sa with SendingMessages => 3 | Reporting _ => 2 | ClosingChannel => 1 | SenderEnded => 0 end.
Definition receiver_cost (ra : receiver) : nat :=
  match ra with Receiving => 2 | AwaitingSender => 1 | Finished _ => 0 end.
Definition cost (s : Chat) : nat :=
  3 * length (to_send s) + sender_cost (snd_at s) + 2 * length (requests s) + length (replies s) +
  receiver_cost (rcv_at s) + (if status s then 0 else 1).

Lemma chat_step_cost s s' : step s s' -> (cost s' < cost s)%nat.
Proof using.
  intros [Hst|Hst]; destruct Hst; unfold cost; cbn; rewrite ?length_app; cbn; lia.
Qed.

(** What the service makes of one message: an echo or an error. *)
Definition echoes (msg reply : UserService.ChatMessage) : Prop :=
  UserService.chat_UserId reply = UserService.chat_UserId msg /\
  UserService.chat_Message reply = UserService.chat_Message msg.

Lemma chat_one msg w st :
  match fst (UserService.ChatStream service (fun _ => None) [Ok (Some msg)] (w, st)) with
  | ([r], None) => echoes msg r
  | ([], Some _) => True
  | _ => False
  end.
Proof using.
  unfold UserService.ChatStream. cbn [UserService.ChatStream_loop].
  destruct (UserService.validateText service (UserService.chat_UserId msg) "user_id"); [done|].
  destruct (UserService.validateText service (UserService.chat_Message msg) "message"); [done|].
  unfold_monad. rewrite UserService.newID_run. by destruct (w_rand _ _).
Qed.

Lemma answers_echo msg r : answers msg r -> echoes msg r.
Proof using. intros (w & st & w' & st' & H). pose proof (chat_one msg w st) as Ho. by rewrite H in Ho. Qed.

Context (w0 : World) (st0 : S).

Lemma server_handles msg : (exists r, answers msg r) \/ (exists err, refuses msg err).
Proof using w0 st0.
  pose proof (chat_one msg w0 st0) as Ho. unfold answers, refuses, handles.
  destruct (UserService.ChatStream _ _ _ _) as [[[|r [|? ?]] [e|]] [w' st']] eqn:H; cbn in Ho; try done.
  - right. exists e, w0, st0, w', st'. exact H.
  - left. exists r, w0, st0, w', st'. exact H.
Qed.

Lemma chat_progress msgs s :
  sound msgs s -> (forall s', ~ step s s') -> exists result, rcv_at s = Finished result /\ snd_at s = SenderEnded.
Proof using w0 st0.
  intros (Hs & Hc & Ho & Hr) Hno.
  assert (Hclient : forall s', ~ client_step s s') by (intros s' H; apply (Hno s'); by left).
  assert (Hserver : forall s', ~ server_step s s') by (intros s' H; apply (Hno s'); by right).
  clear Hno. destruct s as [ms sa ch cc rq hc st rp rc ra]. chat_simpl.
  destruct sa as [|e| |].
  - exfalso. destruct Hs as [-> ->]. destruct ms as [|m ms]; [by eapply Hclient, close_send|].
    destruct st as [st|]; [|by eapply Hclient, send_ok].
    eapply Hclient, (send_fails m ms [] false rq hc st rp rc ra EEOF).
  - exfalso. destruct Hs as [-> ->]. eapply Hclient, reports. cbn. lia.
  - exfalso. by eapply Hclient, closes_channel.
  - destruct Hs as [-> Hrep]. destruct ra as [| |result]; [exfalso..|by exists result].
    + destruct rp as [|r rp]; [|by eapply Hclient, receives]. destruct st as [[err|]|].
      * by eapply Hclient, receives_error.
      * by eapply Hclient, receives_eof.
      * destruct hc; [|by destruct Hc as [|[? ?]]]. destruct rq as [|m rq]; [by eapply Hserver, server_done|].
        destruct (server_handles m) as [[r Hm]|[err Hm]]; eapply Hserver; [by eapply server_answers|by eapply server_refuses].
    + destruct ch as [|e ch]; [by eapply Hclient, sender_gone|by eapply Hclient, sender_reported].
Qed.

(** * Properties *)

(** C39: The bidirectional scenario succeeds only when the whole conversation took
    place: each message was sent, and echoed in order, whatever the interleaving
    of the client's goroutines with the server and whenever the stream breaks. *)
Theorem chat_success_is_complete msgs s :
  rtc moves (start msgs) s -> rcv_at s = Finished None -> Forall2 echoes msgs (received s).
Proof using.
  intros (_ & Hc & Ho & Hr)%chat_sound Hf. unfold receiver_ok in Hr. rewrite Hf in Hr. destruct Hr as [Hst Hrp].
  unfold stream_ok in Ho. rewrite Hst in Ho. destruct Ho as (Hh & Hrq & handled & -> & Ha).
  unfold closing_ok in Hc. rewrite Hh in Hc. destruct Hc as [Hts _].
  rewrite Hrq, Hts, Hrp, !app_nil_r in *. eapply Forall2_impl; [exact Ha|]. apply answers_echo.
Qed.

(** No goroutine of the scenario is left waiting: every conversation stops
    after a bounded number of steps, and when it has stopped the main goroutine
    has its result and the one that sends has ended; the result is nil unless the
    stream ended with an error. *)
Theorem chat_ends msgs s :
  rtc moves (start msgs) s ->
  (forall n s', nsteps step n s s' -> (n <= cost s)%nat) /\
  ((forall s', ~ step s s') -> exists result, rcv_at s = Finished result /\ snd_at s = SenderEnded /\
     (result = None \/ exists err, status s = Some (Some err))).
Proof using w0 st0.
  intros Hs%chat_sound. split.
  - intros n s' H. induction H as [s|n s1 s2 s3 Hst _ IH]; [lia|].
    pose proof (chat_step_cost _ _ Hst). assert (Hs2 : sound msgs s2); [|specialize (IH Hs2); lia].
    destruct Hst; [by eapply client_step_sound|by eapply server_step_sound].
  - intros Hno. destruct (chat_progress msgs s Hs Hno) as (result & Hr & Hsa). exists result.
    split; [done|]. split; [done|]. destruct Hs as (_ & _ & _ & Hok). unfold receiver_ok in Hok. rewrite Hr in Hok.
    destruct result; [by right|by left].
Qed.
End chat.


(** Draining logs every event and succeeds exactly at the end of the stream: an
    error that only wraps [io.EOF] is reported. *)
Theorem drain_logs_every_event events last w (l : list string) :
  drain (fun line => modifyM (fun l => l ++ [line])) events last (w, l) =
  (if bool_decide (last = EEOF) then None else Some (EWrap "stream recv error" last),
   (w, l ++ map (fun _ => "received event") events)).
Proof.
  revert l. induction events as [|e events IH]; intros l; cbn [drain map]; [by rewrite app_nil_r|].
  unfold_monad. cbn [fst snd]. rewrite IH, <- app_assoc. done.
Qed.

(** * Witnesses *)

Definition hello : UserService.ChatMessage := UserService.mkChat "" "client-demo" "Hello 0" None.
Definition echoed : UserService.ChatMessage := Eval vm_compute in
  match fst (UserService.ChatStream UserService.service0 (fun _ => None) [Ok (Some hello)]
          (UserService.world1, MemoryRepository.NewMemoryRepository)) with
  | (r :: _, _) => r
  | _ => hello
  end.

(** One message, the goroutine that receives waiting for the one that sends. *)
Lemma conversation :
  exists s, rtc (moves UserService.service0) (start [hello]) s /\ rcv_at s = Finished None /\ received s = [echoed].
Proof.
  assert (Ha : answers UserService.service0 hello echoed).
  { exists UserService.world1, MemoryRepository.NewMemoryRepository. do 2 eexists. vm_compute. reflexivity. }
  eexists. split; [|split]; cycle 1.
  { instantiate (1 := mkChat _ _ _ _ _ _ _ _ _ _). cbn. reflexivity. } { cbn. reflexivity. }
  eapply rtc_l; [left; left; apply send_ok|].
  eapply rtc_l; [left; right; apply (server_answers _ _ _ _ _ hello [] _ _ _ _ echoed), Ha|].
  eapply rtc_l; [left; left; apply close_send|].
  eapply rtc_l; [left; right; apply server_done|].
  eapply rtc_l; [left; left; apply receives|].
  eapply rtc_l; [left; left; apply receives_eof|].
  eapply rtc_l; [left; left; apply reports; cbn; lia|].
  eapply rtc_l; [left; left; apply sender_reported|].
  apply rtc_refl.
Qed.

Lemma chat_success_is_complete_witness :
  exists s, rcv_at s = Finished None /\ Forall2 echoes [hello] (received s) /\ received s = [echoed].
Proof.
  destruct conversation as (s & Hr & Hf & He). exists s. split; [exact Hf|]. split; [|exact He].
  exact (chat_success_is_complete UserService.service0 [hello] s Hr Hf).
Defined.

Lemma chat_ends_witness :
  exists s', nsteps (step UserService.service0) 1 (start demo_messages) s' /\ (1 <= cost (start demo_messages))%nat /\
    cost (start demo_messages) = 21%nat.
Proof.
  eexists. assert (Hst : nsteps (step UserService.service0) 1 (start demo_messages)
    (mkChat (tail demo_messages) SendingMessages [] false ([] ++ take 1 demo_messages) false None [] [] Receiving)).
  { eapply nsteps_once. left. apply send_ok. }
  split; [exact Hst|]. split; [|reflexivity].
  exact (proj1 (chat_ends UserService.service0 UserService.world1 MemoryRepository.NewMemoryRepository demo_messages
    (start demo_messages) (rtc_refl _ _)) 1%nat _ Hst).
Defined.

End Demo.
