(* ===== verification/Transport.v ===== *)
(** The settings that [cmd/server/main.go] and [pkg/tracing] make of the
    configuration: the options of the gRPC server with the values gRPC works
    with, TLS, the HTTP servers, and the exporter and sampler of traces. The
    certificate loader, the file system and the exporter are parameters. *)
From S2P Require Import Prelude GoStrings GoErrors Storage Config.
From Stdlib Require Import SpecFloat Ascii.

Module Transport.

Definition Second : Z := 10 ^ 9.
Definition Minute : Z := 60 * Second.

(** [uint32(n)]. *)
Definition uint32 (n : Z) : Z := n mod 2 ^ 32.

(** * The gRPC server *)

Inductive ClientAuthType := NoClientCert | RequireAndVerifyClientCert.

(** [tls.Config], over the types of certificates and of pools of authorities. *)
Record tlsConfig {Certificate CertPool : Type} := mkTlsConfig {
  MinVersion : Z;
  Certificates : list Certificate;
  ClientCAs : option CertPool;
  ClientAuth : ClientAuthType
}.
Arguments tlsConfig : clear implicits.

Definition VersionTLS12 : Z := 771.

Record ServerParameters := mkServerParameters {
  MaxConnectionIdle : Z; MaxConnectionAge : Z; MaxConnectionAgeGrace : Z; Time : Z; keepalive_Timeout : Z }.
Record EnforcementPolicy := mkEnforcementPolicy { MinTime : Z; PermitWithoutStream : bool }.

Section server.
Context {Certificate CertPool : Type}.
(** [AppendCertsFromPEM] onto an empty pool; [None] when it adds none. *)
Context (LoadX509KeyPair : string -> string -> res Certificate)
        (ReadFile : string -> res string)
        (AppendCertsFromPEM : string -> option CertPool).

Definition loadTLSCredentials (cfg : Config.TLSConfig) : res (tlsConfig Certificate CertPool) :=
  match LoadX509KeyPair (Config.CertFile cfg) (Config.KeyFile cfg) with
  | Err err => Err (EWrap "load server certificate" err)
  | Ok serverCert =>
      if Config.mtls_Enabled (Config.MTLS cfg) then
        match ReadFile (Config.ClientCAFile (Config.MTLS cfg)) with
        | Err err => Err (EWrap "read client CA" err)
        | Ok clientCA =>
            match AppendCertsFromPEM clientCA with
            | None => Err (EOther "client CA contains no valid certificates")
            | Some certPool =>
                Ok (mkTlsConfig _ _ VersionTLS12 [serverCert] (Some certPool) RequireAndVerifyClientCert)
            end
        end
      else Ok (mkTlsConfig _ _ VersionTLS12 [serverCert] None NoClientCert)
  end.

(** The options beside the interceptors, which are [Chain]'s. *)
Inductive ServerOption :=
| MaxRecvMsgSize (m : Z)
| MaxSendMsgSize (m : Z)
| MaxConcurrentStreams (n : Z)
| KeepaliveParams (p : ServerParameters)
| KeepaliveEnforcementPolicy (p : EnforcementPolicy)
| Creds (c : tlsConfig Certificate CertPool)
| StatsHandler.

(** [serverOptions] of the vendored gRPC, as far as the options set them. *)
Record serverOptions := mkServerOptions {
  maxReceiveMessageSize : Z;
  maxSendMessageSize : Z;
  maxConcurrentStreams : Z;
  keepaliveParams : option ServerParameters;
  keepalivePolicy : option EnforcementPolicy;
  creds : option (tlsConfig Certificate CertPool);
  statsHandler : bool
}.

Definition defaultServerOptions : serverOptions :=
  mkServerOptions (1024 * 1024 * 4) (2 ^ 31 - 1) (2 ^ 32 - 1) None None None false.

Definition apply (o : ServerOption) (s : serverOptions) : serverOptions :=
  let '(mkServerOptions recv send streams params policy c stats) := s in
  match o with
  | MaxRecvMsgSize m => mkServerOptions m send streams params policy c stats
  | MaxSendMsgSize m => mkServerOptions recv m streams params policy c stats
  | MaxConcurrentStreams n =>
      mkServerOptions recv send (if n =? 0 then 2 ^ 32 - 1 else n) params policy c stats
  | KeepaliveParams p => mkServerOptions recv send streams (Some p) policy c stats
  | KeepaliveEnforcementPolicy p => mkServerOptions recv send streams params (Some p) c stats
  | Creds c => mkServerOptions recv send streams params policy (Some c) stats
  | StatsHandler => mkServerOptions recv send streams params policy c true
  end.

(** [grpc.NewServer]. *)
Definition NewServer (opts : list ServerOption) : serverOptions :=
  fold_left (fun s o => apply o s) opts defaultServerOptions.

(** [mb * 1024 * 1024] of [int]s. *)
Definition megabytes (mb : Z) : Z := wrap64 (wrap64 (mb * 1024) * 1024).

Definition newGRPCServer (cfg : Config.Config) : res serverOptions :=
  let s := Config.Server cfg in
  let opts := [
    MaxRecvMsgSize (megabytes (Config.MaxRecvMessageMB s));
    MaxSendMsgSize (megabytes (Config.MaxSendMessageMB s));
    MaxConcurrentStreams (uint32 (Config.MaxConns s));
    KeepaliveParams {|
      MaxConnectionIdle := 15 * Minute;
      MaxConnectionAge := 30 * Minute;
      MaxConnectionAgeGrace := Config.Timeout s;
      Time := 1 * Minute;
      keepalive_Timeout := 20 * Second
    |};
    KeepaliveEnforcementPolicy {| MinTime := 10 * Second; PermitWithoutStream := false |} ] in
  let traced opts := if Config.tracing_Enabled (Config.Tracing cfg) then opts ++ [StatsHandler] else opts in
  if Config.tls_Enabled (Config.TLS cfg) then
    match loadTLSCredentials (Config.TLS cfg) with
    | Err err => Err (EWrap "load TLS credentials" err)
    | Ok creds => Ok (NewServer (traced (opts ++ [Creds creds])))
    end
  else Ok (NewServer (traced opts)).

(** What gRPC refuses as too large, of a message of [length] bytes. *)
Definition too_large (limit length : Z) : bool := limit <? length.

(** ** Lemmas *)

Lemma megabytes_exact mb : 0 <= mb < 2 ^ 43 -> megabytes mb = mb * 2 ^ 20.
Proof using.
  intros H. unfold megabytes. rewrite (wrap64_small (mb * 1024)) by (unfold min_int64, max_int64; lia).
  rewrite wrap64_small by (unfold min_int64, max_int64; lia). lia.
Qed.

Lemma newGRPCServer_ok cfg o :
  newGRPCServer cfg = Ok o ->
  maxReceiveMessageSize o = megabytes (Config.MaxRecvMessageMB (Config.Server cfg)) /\
  maxSendMessageSize o = megabytes (Config.MaxSendMessageMB (Config.Server cfg)) /\
  maxConcurrentStreams o =
    (let n := uint32 (Config.MaxConns (Config.Server cfg)) in if n =? 0 then 2 ^ 32 - 1 else n) /\
  statsHandler o = Config.tracing_Enabled (Config.Tracing cfg) /\
  if Config.tls_Enabled (Config.TLS cfg)
  then exists c, loadTLSCredentials (Config.TLS cfg) = Ok c /\ creds o = Some c
  else creds o = None.
Proof using.
  unfold newGRPCServer. destruct (Config.tls_Enabled _); [destruct (loadTLSCredentials _) as [c|] eqn:Hc|];
    intros [= <-]; destruct (Config.tracing_Enabled _); repeat split; cbn; eauto.
Qed.

(** For every configuration that validates, the limits gRPC works with are
    those configured as long as they are below 2^43 megabytes and 2^32
    connections; nothing checks that they are. *)
Theorem server_limits_are_exact cfg o :
  Config.valid_server (Config.Server cfg) -> newGRPCServer cfg = Ok o ->
  let s := Config.Server cfg in
  (Config.MaxRecvMessageMB s < 2 ^ 43 ->
     forall length, too_large (maxReceiveMessageSize o) length = (Config.MaxRecvMessageMB s * 2 ^ 20 <? length)) /\
  (Config.MaxSendMessageMB s < 2 ^ 43 ->
     forall length, too_large (maxSendMessageSize o) length = (Config.MaxSendMessageMB s * 2 ^ 20 <? length)) /\
  (Config.MaxConns s < 2 ^ 32 -> maxConcurrentStreams o = Config.MaxConns s) /\
  (2 ^ 43 <= Config.MaxRecvMessageMB s < 2 ^ 44 ->
     forall length, 0 <= length -> too_large (maxReceiveMessageSize o) length = true) /\
  (Config.MaxConns s mod 2 ^ 32 = 0 -> maxConcurrentStreams o = 2 ^ 32 - 1).
Proof using.
  intros (_ & _ & Hconns & _ & Hrecv & Hsend & _) (-> & -> & -> & _)%newGRPCServer_ok. cbv zeta.
  unfold too_large, uint32. split; [|split; [|split; [|split]]].
  - intros H length. by rewrite megabytes_exact by lia.
  - intros H length. by rewrite megabytes_exact by lia.
  - intros H. rewrite Z.mod_small by lia. by rewrite (proj2 (Z.eqb_neq _ _)) by lia.
  - intros H length Hl. apply Z.ltb_lt. unfold megabytes.
    set (mb := Config.MaxRecvMessageMB (Config.Server cfg)) in *.
    rewrite (wrap64_small (mb * 1024)) by (unfold min_int64, max_int64; lia).
    assert (Hw : wrap64 (mb * 1024 * 1024) = mb * 2 ^ 20 - 2 ^ 64).
    { unfold wrap64. rewrite (Z.mod_eq _ (2 ^ 64)) by lia.
      rewrite <- (Z.div_unique (mb * 1024 * 1024 + 2 ^ 63) (2 ^ 64) 1 (mb * 2 ^ 20 - 2 ^ 63)) by lia. lia. }
    rewrite Hw. lia.
  - intros ->. reflexivity.
Qed.

(** C28: A server is only built with the transport security its configuration asks
    for: with mTLS every client must show a certificate of one of the authorities
    in the configured file, with TLS the configured certificate is served at
    TLS 1.2 or above; when a file does not load, there is no server. *)
Theorem transport_security_is_enforced cfg o :
  Config.valid_tls (Config.TLS cfg) -> newGRPCServer cfg = Ok o ->
  let t := Config.TLS cfg in
  (Config.mtls_Enabled (Config.MTLS t) = true ->
     exists c pem pool, creds o = Some c /\ ClientAuth c = RequireAndVerifyClientCert /\
       ReadFile (Config.ClientCAFile (Config.MTLS t)) = Ok pem /\
       AppendCertsFromPEM pem = Some pool /\ ClientCAs c = Some pool) /\
  (Config.tls_Enabled t = true ->
     exists c cert, creds o = Some c /\ VersionTLS12 <= MinVersion c /\
       LoadX509KeyPair (Config.CertFile t) (Config.KeyFile t) = Ok cert /\ Certificates c = [cert]) /\
  (Config.tls_Enabled t = false -> creds o = None).
Proof using.
  intros [Hm _] (_ & _ & _ & _ & Ho)%newGRPCServer_ok. cbv zeta. split; [|split].
  - intros He. destruct (Hm He) as [Ht _]. rewrite Ht in Ho. destruct Ho as (c & Hc & Ho).
    unfold loadTLSCredentials in Hc. rewrite He in Hc. destruct (LoadX509KeyPair _ _); [|done].
    destruct (ReadFile _) as [pem|] eqn:Hp; [|done]. destruct (AppendCertsFromPEM pem) as [pool|] eqn:Hq; [|done].
    injection Hc as <-. by exists (mkTlsConfig _ _ VersionTLS12 [a] (Some pool) RequireAndVerifyClientCert), pem, pool.
  - intros Ht. rewrite Ht in Ho. destruct Ho as (c & Hc & Ho). exists c.
    unfold loadTLSCredentials in Hc. destruct (LoadX509KeyPair _ _) as [cert|]; [|done]. exists cert.
    split; [done|]. destruct (Config.mtls_Enabled _).
    + destruct (ReadFile _) as [pem|]; [|done]. destruct (AppendCertsFromPEM pem); [|done]. by injection Hc as <-.
    + by injection Hc as <-.
  - intros Ht. by rewrite Ht in Ho.
Qed.
End server.

(** * The HTTP servers *)

Record http_Server := mkHTTPServer {
  Addr : string; ReadHeaderTimeout : Z; ReadTimeout : Z; WriteTimeout : Z; IdleTimeout : Z }.

Definition newHTTPServer (address : string) : http_Server :=
  mkHTTPServer address (5 * Second) (10 * Second) (10 * Second) (60 * Second).

(** * Tracing *)

Inductive Sampler := AlwaysSample | TraceIDRatioBased (fraction : spec_float) | ParentBased (root : Sampler).

Definition one : spec_float := S754_finite false 4503599627370496 (-52).
Definition two63 : spec_float := S754_finite false 4503599627370496 11.

Definition samplerFor (ratio : spec_float) : Sampler :=
  if SFleb ratio (S754_zero false) || SFleb one ratio then ParentBased AlwaysSample
  else ParentBased (TraceIDRatioBased ratio).

(** Whether a span is recorded: [parent] is the decision of a valid parent, and
    [x] are the 63 bits of the trace id the ratio is compared with. *)
Fixpoint ShouldSample (s : Sampler) (parent : option bool) (x : Z) : bool :=
  match s with
  | AlwaysSample => true
  | TraceIDRatioBased fraction =>
      if SFleb one fraction then true
      else if SFleb fraction (S754_zero false) then false
      else x <? Config.trunc (SFmul 53 1024 fraction two63)
  | ParentBased root => match parent with Some sampled => sampled | None => ShouldSample root parent x end
  end.

Record TracerProvider := mkTracerProvider {
  endpoint : string; exporter_Timeout : Z; insecure : bool; sampler : Sampler; service_name : string }.

Lemma prefix_app (p s : string) : String.prefix p s = true -> exists t, s = p +:+ t.
Proof.
  revert s. induction p as [|a p IH]; intros s; [by exists s|]. destruct s as [|b s]; cbn; [done|].
  destruct (ascii_dec a b) as [->|]; [|done]. intros [t ->]%IH. by exists t.
Qed.

Lemma https_not_http s : HasPrefix s "https://" = true -> HasPrefix s "http://" = false.
Proof. by intros [t ->]%prefix_app. Qed.

Section tracing.
(** [otlptracehttp.New]. *)
Context (new_exporter : string -> bool -> option error).

(** [None] is the no-op provider. *)
Definition Init (cfg : Config.TracingConfig) : res (option TracerProvider) :=
  if negb (Config.tracing_Enabled cfg) then Ok None else
  let insecure := HasPrefix (ToLower (Config.Endpoint cfg)) "http://" in
  match new_exporter (Config.Endpoint cfg) insecure with
  | Some err => Err err
  | None => Ok (Some (mkTracerProvider (Config.Endpoint cfg) (5 * Second) insecure
                        (samplerFor (Config.SampleRatio cfg)) (Config.ServiceName cfg)))
  end.

(** Traces leave the process unencrypted only for a plain [http] endpoint. The
    hypothesis is what [net/url] says of an absolute URL with a host. *)
Theorem traces_are_plain_only_over_http ParseRequestURI cfg p u :
  (forall e u, ParseRequestURI e = Some u -> Config.url_Host u <> "" ->
     HasPrefix (ToLower e) (ToLower (Config.Scheme u) +:+ "://") = true) ->
  Config.valid_tracing ParseRequestURI cfg -> ParseRequestURI (Config.Endpoint cfg) = Some u ->
  Init cfg = Ok (Some p) -> insecure p = bool_decide (ToLower (Config.Scheme u) = "http").
Proof using.
  intros Hurl Hv Hu. unfold Init. destruct (Config.tracing_Enabled cfg) eqn:He; [|done].
  destruct (Hv He) as (_ & u' & Hu' & Hh & Hs & _). rewrite Hu in Hu'. injection Hu' as <-.
  specialize (Hurl _ _ Hu Hh). cbn [negb]. destruct (new_exporter _ _); [done|]. intros [= <-]. cbn [insecure].
  destruct Hs as [Hs|Hs]; rewrite Hs in Hurl |- *; [exact Hurl|].
  rewrite bool_decide_eq_false_2 by done. by apply https_not_http.
Qed.
End tracing.

(** ** Sampling *)

Lemma SFcompare_opp f g : SFcompare g f = CompOpp <$> SFcompare f g.
Proof.
  destruct f as [[]|[]| |[] m e], g as [[]|[]| |[] n k]; try done; cbn;
    rewrite (Z.compare_antisym e k); destruct (e ?= k); cbn; try done;
    change (Pos.compare_cont Eq n m) with (n ?= m)%positive;
    change (Pos.compare_cont Eq m n) with (m ?= n)%positive;
    by rewrite (Pos.compare_antisym m n).
Qed.

Lemma SFcompare_total f g : f <> S754_nan -> g <> S754_nan -> is_Some (SFcompare f g).
Proof. destruct f, g; try done; intros _ _; cbn; repeat case_match; by eexists. Qed.

Lemma SFltb_SFleb f g : f <> S754_nan -> g <> S754_nan -> SFleb f g = negb (SFltb g f).
Proof.
  intros Hf Hg. unfold SFleb, SFltb. destruct (SFcompare_total f g Hf Hg) as [c Hc].
  rewrite (SFcompare_opp f g), Hc. by destruct c.
Qed.

(** The decision of a parent is honoured whatever the ratio; without one, every
    span is recorded unless the ratio is strictly between 0 and 1, and then
    those below the fraction of the ids. (No check keeps a ratio from being NaN,
    of which Go does not say what [uint64] makes.) *)
Theorem sampling_follows_parent_then_ratio ratio x :
  ratio <> S754_nan ->
  (forall sampled, ShouldSample (samplerFor ratio) (Some sampled) x = sampled) /\
  ShouldSample (samplerFor ratio) None x =
    negb (SFltb (S754_zero false) ratio && SFltb ratio one) ||
    (x <? Config.trunc (SFmul 53 1024 ratio two63)).
Proof.
  intros Hn. unfold samplerFor. rewrite !SFltb_SFleb by done.
  destruct (SFltb (S754_zero false) ratio) eqn:Hz; [destruct (SFltb ratio one) eqn:Ho|]; cbn [negb orb andb ShouldSample];
    split; try done.
  rewrite !SFltb_SFleb by done. by rewrite Hz, Ho.
Qed.

(** A quarter of the ids. *)
Example quarter_sampled :
  map (ShouldSample (samplerFor (S754_finite false 4503599627370496 (-54))) None)
    [0; 2 ^ 61 - 1; 2 ^ 61; 2 ^ 63 - 1] = [true; true; false; false].
Proof. vm_compute. reflexivity. Qed.

(** * Witnesses *)

Definition mutual_tls : Config.Config :=
  let c := Config.sample in
  Config.mkConfig (Config.Server c) (Config.mkTLS true "cert.pem" "key.pem" "" "" "" (Config.mkMTLS true "ca.pem"))
    (Config.Auth c) (Config.Logging c) (Config.Tracing c) (Config.Metrics c) (Config.Health c)
    (Config.Storage c) (Config.Gateway c) (Config.Reflection c) (Config.Client c).

Definition load_pair (cert key : string) : res string := Ok (cert +:+ key).
Definition read_file (name : string) : res string := Ok name.
Definition server0 : res serverOptions := newGRPCServer load_pair read_file Some mutual_tls.

Lemma transport_security_is_enforced_witness :
  exists o c, server0 = Ok o /\ creds o = Some c /\ ClientAuth c = RequireAndVerifyClientCert /\
    ClientCAs c = Some "ca.pem".
Proof.
  destruct server0 as [o|e] eqn:Ho; [|discriminate Ho].
  destruct (transport_security_is_enforced load_pair read_file Some mutual_tls o) as [H _]; [|exact Ho|].
  - split; intros _; vm_compute; done.
  - destruct (H eq_refl) as (c & pem & pool & Hc & Ha & Hr & Hp & Hq). exists o, c.
    split; [reflexivity|]. split; [exact Hc|]. split; [exact Ha|]. rewrite Hq, <- Hp. by injection Hr as <-.
Defined.

Lemma server_limits_are_exact_witness :
  exists o, newGRPCServer load_pair read_file (@Some string) Config.sample = Ok o /\
    maxConcurrentStreams o = 100 /\ too_large (maxReceiveMessageSize o) (4 * 2 ^ 20 + 1) = true.
Proof.
  destruct (newGRPCServer load_pair read_file (@Some string) Config.sample) as [o|e] eqn:Ho; [|discriminate Ho].
  destruct (server_limits_are_exact load_pair read_file (@Some string) Config.sample o) as (Hr & _ & Hc & _);
    [by vm_compute|exact Ho|].
  exists o. split; [reflexivity|]. split; [by apply Hc|]. rewrite (Hr eq_refl). reflexivity.
Defined.

End Transport.
