(* ===== verification/Serving.v ===== *)
(** The goroutines of [run] in [cmd/server/main.go] from the start of the servers
    to the return: one [serveGRPC] or [serveHTTP] per listener with the channel
    they report to, the main goroutine with its [select] and the shutdowns, and
    [GracefulStop] beside it in [shutdownGRPC]. They interleave with one another,
    with clients and with the timer of the drain.

    [Stop] and [GracefulStop] of the vendored gRPC ([server.go]) and [Shutdown] of
    [net/http] are steps as far as they wait: for the listener's handshakes, for
    connections, for handlers, for requests. [Lifecycle] has the same run as one
    sequence of effects; that the result here is the result there is
    [shutdown_leaves_no_call]. *)
From S2P Require Import Prelude GoStrings GoErrors Storage Server.

Module Serving.

(** * The state *)

Inductive server := Grpc | Health | Metrics | Gateway.
#[export] Instance server_eq_dec : EqDecision server.
Proof. solve_decision. Defined.

(** How far the goroutine with [GracefulStop] is. It holds the mutex of the server
    while it waits for handlers. *)
Inductive graceful := NotStarted | Begun | ClosingListeners | DrainingConns | AwaitingHandlers | Stopped.
#[export] Instance graceful_eq_dec : EqDecision graceful.
Proof. solve_decision. Defined.

(** Connections in their handshake; the calls running on each open connection;
    the handlers whose connection is gone, so that their context is cancelled. *)
Record GrpcServer := mkGrpc {
  handshakes : nat;
  conns : list nat;
  cancelled : nat;
  quit : bool;
  stop : graceful
}.

(** The main goroutine: in the [select] of [run]; in that of [shutdownGRPC]; in
    [Stop]; at [<-done] after it; shutting the HTTP servers down, of which
    [called] says whether the first has been told; at the end. *)
Inductive phase :=
| Selecting
| ShutdownGRPC (ev : Server.run_event)
| StopCalled (ev : Server.run_event)
| AwaitingDone (ev : Server.run_event)
| ShutdownHTTP (ev : Server.run_event) (todo : list server) (outcomes : list (server * option error)) (called : bool)
| Returned (ev : Server.run_event) (outcomes : list (server * option error)).

Record System := mkSystem {
  main : phase;
  serving : list server;                  (* goroutines in [Serve] *)
  sending : list (server * option error); (* at the send of its result *)
  errCh : list (option error);
  grpc : GrpcServer;
  active : list server;                   (* requests in the handlers of the HTTP servers *)
  down : list server;                     (* servers whose [Shutdown] has been called *)
  signalled : bool;
  expired : bool                          (* of the drain's context *)
}.

Section serving.
(** What is enabled, and what closing a listener reports. *)
Context (metrics_on gateway_on : bool) (close_error : server -> option error).

Definition http_servers : list server :=
  [Health] ++ (if metrics_on then [Metrics] else []) ++ (if gateway_on then [Gateway] else []).

Definition capacity : nat := 4.

Definition start : System :=
  mkSystem Selecting (Grpc :: http_servers) [] [] (mkGrpc 0 [] 0 false NotStarted) [] [] false false.

(** * Steps *)

(** Of the gRPC server and the goroutine with [GracefulStop]. *)
Inductive grpc_step : GrpcServer -> GrpcServer -> Prop :=
| handshake_done h cs ca q st : grpc_step (mkGrpc (S h) cs ca q st) (mkGrpc h (cs ++ [0%nat]) ca q st)
| handshake_dropped h cs ca q st : grpc_step (mkGrpc (S h) cs ca q st) (mkGrpc h cs ca q st)
| call_ends h l1 n l2 ca q st :
    grpc_step (mkGrpc h (l1 ++ S n :: l2) ca q st) (mkGrpc h (l1 ++ n :: l2) ca q st)
| conn_closes h l1 n l2 ca q st :
    grpc_step (mkGrpc h (l1 ++ n :: l2) ca q st) (mkGrpc h (l1 ++ l2) (n + ca) q st)
| handler_ends h cs ca q st : grpc_step (mkGrpc h cs (S ca) q st) (mkGrpc h cs ca q st)
| closes_listeners h cs ca q : grpc_step (mkGrpc h cs ca q Begun) (mkGrpc h cs ca true ClosingListeners)
| drains cs ca q : grpc_step (mkGrpc 0 cs ca q ClosingListeners) (mkGrpc 0 cs ca q DrainingConns)
| conns_gone h ca q : grpc_step (mkGrpc h [] ca q DrainingConns) (mkGrpc h [] ca q AwaitingHandlers)
| handlers_gone h cs q : grpc_step (mkGrpc h cs 0 q AwaitingHandlers) (mkGrpc h cs 0 q Stopped).

(** Of the clients of the gRPC server. *)
Inductive grpc_client : GrpcServer -> GrpcServer -> Prop :=
| connects h cs ca st : grpc_client (mkGrpc h cs ca false st) (mkGrpc (S h) cs ca false st)
| call_begins h l1 n l2 ca q st :
    grpc_client (mkGrpc h (l1 ++ n :: l2) ca q st) (mkGrpc h (l1 ++ S n :: l2) ca q st).

Definition begin_graceful (g : GrpcServer) : GrpcServer :=
  mkGrpc (handshakes g) (conns g) (cancelled g) (quit g) Begun.
Definition begin_stop (g : GrpcServer) : GrpcServer :=
  mkGrpc (handshakes g) (conns g) (cancelled g) true (stop g).
(** [Stop] closes the connections, which cancels their handlers. *)
Definition close_conns (g : GrpcServer) : GrpcServer :=
  mkGrpc (handshakes g) [] (sum_list (conns g) + cancelled g) (quit g) (stop g).

(** Of the main goroutine. *)
Inductive main_step : System -> System -> Prop :=
| signal_received sv sd ch g a d ex :
    main_step (mkSystem Selecting sv sd ch g a d true ex)
      (mkSystem (ShutdownGRPC Server.ShutdownSignal) sv sd ch (begin_graceful g) a d true ex)
| listener_failed sv sd e ch g a d sg ex :
    main_step (mkSystem Selecting sv sd (e :: ch) g a d sg ex)
      (mkSystem (ShutdownGRPC (Server.ListenerStopped e)) sv sd ch (begin_graceful g) a d sg ex)
| graceful_done ev sv sd ch g a d sg ex : stop g = Stopped ->
    main_step (mkSystem (ShutdownGRPC ev) sv sd ch g a d sg ex)
      (mkSystem (ShutdownHTTP ev http_servers [] false) sv sd ch g a d sg ex)
| calls_stop ev sv sd ch g a d sg :
    main_step (mkSystem (ShutdownGRPC ev) sv sd ch g a d sg true)
      (mkSystem (StopCalled ev) sv sd ch (begin_stop g) a d sg true)
| stop_returns ev sv sd ch g a d sg ex : handshakes g = 0%nat -> stop g <> AwaitingHandlers ->
    main_step (mkSystem (StopCalled ev) sv sd ch g a d sg ex)
      (mkSystem (AwaitingDone ev) sv sd ch (close_conns g) a d sg ex)
| done_received ev sv sd ch g a d sg ex : stop g = Stopped ->
    main_step (mkSystem (AwaitingDone ev) sv sd ch g a d sg ex)
      (mkSystem (ShutdownHTTP ev http_servers [] false) sv sd ch g a d sg ex)
| calls_shutdown ev k ks res sv sd ch g a d sg ex :
    main_step (mkSystem (ShutdownHTTP ev (k :: ks) res false) sv sd ch g a d sg ex)
      (mkSystem (ShutdownHTTP ev (k :: ks) res true) sv sd ch g a (k :: d) sg ex)
| shutdown_idle ev k ks res sv sd ch g a d sg ex : k ∉ a ->
    main_step (mkSystem (ShutdownHTTP ev (k :: ks) res true) sv sd ch g a d sg ex)
      (mkSystem (ShutdownHTTP ev ks (res ++ [(k, close_error k)]) false) sv sd ch g a d sg ex)
| shutdown_expired ev k ks res sv sd ch g a d sg : k ∈ a ->
    main_step (mkSystem (ShutdownHTTP ev (k :: ks) res true) sv sd ch g a d sg true)
      (mkSystem (ShutdownHTTP ev ks (res ++ [(k, Some EDeadlineExceeded)]) false) sv sd ch g a d sg true)
| returns ev res sv sd ch g a d sg ex :
    main_step (mkSystem (ShutdownHTTP ev [] res false) sv sd ch g a d sg ex)
      (mkSystem (Returned ev res) sv sd ch g a d sg ex).

(** [Server.done], which [Stop] and [GracefulStop] fire when they return. *)
Definition done_fired (m : phase) (g : GrpcServer) : Prop :=
  stop g = Stopped \/ exists ev, m = AwaitingDone ev.

(** [Serve] of the gRPC server waits for it once the server is being stopped. *)
Definition may_return (m : phase) (g : GrpcServer) (k : server) : Prop :=
  k = Grpc -> quit g = true -> done_fired m g.

(** What goes on without clients and signals. *)
Inductive step : System -> System -> Prop :=
| main_goes_on s s' : main_step s s' -> step s s'
| grpc_goes_on m sv sd ch g g' a d sg ex : grpc_step g g' ->
    step (mkSystem m sv sd ch g a d sg ex) (mkSystem m sv sd ch g' a d sg ex)
| serve_returns m l1 k l2 e sd ch g a d sg ex : may_return m g k ->
    step (mkSystem m (l1 ++ k :: l2) sd ch g a d sg ex) (mkSystem m (l1 ++ l2) ((k, e) :: sd) ch g a d sg ex)
| sends m sv l1 k e l2 ch g a d sg ex : (length ch < capacity)%nat ->
    step (mkSystem m sv (l1 ++ (k, e) :: l2) ch g a d sg ex) (mkSystem m sv (l1 ++ l2) (ch ++ [e]) g a d sg ex)
| request_ends m sv sd ch g l1 k l2 d sg ex :
    step (mkSystem m sv sd ch g (l1 ++ k :: l2) d sg ex) (mkSystem m sv sd ch g (l1 ++ l2) d sg ex)
| drain_expires m sv sd ch g a d sg : m <> Selecting ->
    step (mkSystem m sv sd ch g a d sg false) (mkSystem m sv sd ch g a d sg true).

(** Clients, and the signal that ends the run. *)
Inductive outside : System -> System -> Prop :=
| grpc_called m sv sd ch g g' a d sg ex : grpc_client g g' ->
    outside (mkSystem m sv sd ch g a d sg ex) (mkSystem m sv sd ch g' a d sg ex)
| request_begins m sv sd ch g a d sg ex k : k ∈ http_servers -> k ∉ d ->
    outside (mkSystem m sv sd ch g a d sg ex) (mkSystem m sv sd ch g (k :: a) d sg ex)
| signal_arrives m sv sd ch g a d sg ex :
    outside (mkSystem m sv sd ch g a d sg ex) (mkSystem m sv sd ch g a d true ex).

Definition moves (s s' : System) : Prop := step s s' \/ outside s s'.

(** What [run] returns. *)
Definition server_name (k : server) : string :=
  match k with Grpc => "gRPC" | Health => "health" | Metrics => "metrics" | Gateway => "gateway" end.

Definition result (ev : Server.run_event) (outcomes : list (server * option error)) : option error :=
  Server.normalizeServeError
    (fold_left (fun runErr ke => Server.keep_first (server_name (fst ke)) (snd ke) runErr) outcomes
       match ev with Server.ShutdownSignal => None | Server.ListenerStopped err => err end).

(** * The invariant *)

Definition grpc_ok (g : GrpcServer) : Prop :=
  match stop g with
  | NotStarted | Begun => True
  | ClosingListeners => quit g = true
  | DrainingConns => quit g = true /\ handshakes g = 0%nat
  | AwaitingHandlers => quit g = true /\ handshakes g = 0%nat /\ conns g = []
  | Stopped => quit g = true /\ handshakes g = 0%nat /\ conns g = [] /\ cancelled g = 0%nat
  end.

(** Requests run only where they may: a server that has been shut down either is
    idle or was given up at the deadline. *)
Definition outcomes_ok (s : System) (outcomes : list (server * option error)) : Prop :=
  forall k e, (k, e) ∈ outcomes -> k ∈ down s /\ (k ∈ active s -> e = Some EDeadlineExceeded).

Definition phase_ok (s : System) : Prop :=
  match main s with
  | Selecting => stop (grpc s) = NotStarted
  | ShutdownGRPC _ => stop (grpc s) <> NotStarted
  | StopCalled _ => stop (grpc s) <> NotStarted /\ quit (grpc s) = true /\ expired s = true
  | AwaitingDone _ => stop (grpc s) <> NotStarted /\ quit (grpc s) = true /\ expired s = true /\
      handshakes (grpc s) = 0%nat /\ conns (grpc s) = []
  | ShutdownHTTP _ todo outcomes called =>
      stop (grpc s) = Stopped /\ map fst outcomes ++ todo = http_servers /\ outcomes_ok s outcomes /\
      (if called : bool then exists k ks, todo = k :: ks /\ k ∈ down s else True)
  | Returned _ outcomes => stop (grpc s) = Stopped /\ map fst outcomes = http_servers /\ outcomes_ok s outcomes
  end.

Definition sound (s : System) : Prop :=
  (length (serving s) + length (sending s) + length (errCh s) <= capacity)%nat /\
  grpc_ok (grpc s) /\ phase_ok s /\ active s ⊆ http_servers.

(** ** It is kept *)

(** What the rest of the system may rely on of the gRPC server. *)
Definition grpc_monotone (g g' : GrpcServer) : Prop :=
  (stop g = NotStarted <-> stop g' = NotStarted) /\
  (quit g = true -> quit g' = true) /\
  (quit g = true -> handshakes g = 0%nat -> handshakes g' = 0%nat) /\
  (quit g = true -> conns g = [] -> handshakes g = 0%nat -> conns g' = []) /\
  (grpc_ok g -> stop g = Stopped -> stop g' = Stopped).

Ltac no_conns :=
  repeat match goal with
  | H : _ /\ _ |- _ => destruct H
  | H : _ ++ _ = [] |- _ => by apply app_eq_nil in H as []
  | H : [] = _ ++ _ |- _ => symmetry in H
  end.

Lemma grpc_step_ok g g' : grpc_step g g' -> grpc_monotone g g' /\ (grpc_ok g -> grpc_ok g').
Proof using.
  unfold grpc_monotone, grpc_ok. destruct 1; cbn in *; (split; [repeat split|]);
    try match goal with st : graceful |- _ => destruct st end; intros; no_conns; subst; try done; try lia; auto.
Qed.

Lemma grpc_client_ok g g' : grpc_client g g' -> grpc_monotone g g' /\ (grpc_ok g -> grpc_ok g').
Proof using.
  unfold grpc_monotone, grpc_ok. destruct 1; cbn in *; (split; [repeat split|]);
    try match goal with st : graceful |- _ => destruct st end; intros; no_conns; subst; try done; auto.
Qed.

Lemma phase_grpc m sv sd ch g g' a d sg ex :
  grpc_monotone g g' -> grpc_ok g ->
  phase_ok (mkSystem m sv sd ch g a d sg ex) -> phase_ok (mkSystem m sv sd ch g' a d sg ex).
Proof using.
  intros (Hn & Hq & Hh & Hc & Hs) Hok. unfold phase_ok, outcomes_ok. cbn.
  destruct m; intros H; no_conns; repeat split; auto; try tauto;
    match goal with H : forall k e, _ ∈ ?l -> _, Hk : _ ∈ ?l |- _ => destruct (H _ _ Hk); auto end.
Qed.

Lemma outcomes_fewer m m' sv sv' sd sd' ch ch' g g' a a' d d' sg sg' ex ex' res :
  (forall k, k ∈ a' -> k ∈ a) -> d ⊆ d' ->
  outcomes_ok (mkSystem m sv sd ch g a d sg ex) res -> outcomes_ok (mkSystem m' sv' sd' ch' g' a' d' sg' ex') res.
Proof using. intros Ha Hd H k e Hk. destruct (H k e Hk) as [? ?]. split; [by apply Hd|]. intros. by auto. Qed.

Lemma close_conns_ok g :
  handshakes g = 0%nat -> stop g <> AwaitingHandlers -> stop g <> NotStarted -> quit g = true -> grpc_ok g ->
  grpc_ok (close_conns g).
Proof using.
  unfold grpc_ok, close_conns. cbn. intros H0 Hw _ Hq Hg. destruct (stop g); no_conns; try done.
  repeat split; [done..|]. rewrite H2, H3. done.
Qed.

Lemma outcomes_nil s : outcomes_ok s [].
Proof using. by intros k e ?%not_elem_of_nil. Qed.

Lemma outcomes_snoc m m' sv sv' sd sd' ch ch' g g' a d sg sg' ex ex' res k e :
  k ∈ d -> (k ∈ a -> e = Some EDeadlineExceeded) ->
  outcomes_ok (mkSystem m sv sd ch g a d sg ex) res ->
  outcomes_ok (mkSystem m' sv' sd' ch' g' a d sg' ex') (res ++ [(k, e)]).
Proof using.
  intros Hd He H k' e'. rewrite elem_of_app, list_elem_of_singleton. intros [Hin|[= -> ->]]; [by apply (H k' e')|done].
Qed.

Lemma main_step_sound s s' : main_step s s' -> sound s -> sound s'.
Proof using.
  intros Hst (Hn & Hg & Hp & Ha). destruct Hst; unfold sound, phase_ok in *; cbn -[http_servers] in *; no_conns;
    (split; [lia|]); (split; [|split; [|done]]); try done;
    try (match goal with H : exists k ks, _ |- _ => destruct H as (? & ? & [= <- <-] & ?) end).
  all: rewrite ?app_nil_r in *; try by split_and?; try apply outcomes_nil.
  - unfold grpc_ok, begin_stop in *. cbn. destruct (stop g); no_conns; split_and?; done.
  - by apply close_conns_ok.
  - split; [done|]. split; [done|]. split; [|by exists k, ks; split; [|left]].
    by eapply outcomes_fewer; [| |eassumption]; [|intros ? ?; right].
  - split; [done|]. rewrite map_app, <- app_assoc. split; [done|]. split; [|done]. by eapply outcomes_snoc.
  - split; [done|]. rewrite map_app, <- app_assoc. split; [done|]. split; [|done]. by eapply outcomes_snoc.
Qed.

Lemma step_sound s s' : step s s' -> sound s -> sound s'.
Proof using.
  intros Hst Hs. destruct Hst; [by eapply main_step_sound|..]; destruct Hs as (Hn & Hg & Hp & Ha);
    unfold sound; cbn -[http_servers] in *.
  - destruct (grpc_step_ok g g') as [Hm Hok]; [done|]. split_and?; auto. by eapply phase_grpc.
  - rewrite ?length_app in *; cbn in *. split_and?; [lia|done| |done].
    destruct m; cbn -[http_servers] in *; done.
  - rewrite ?length_app in *; cbn in *. split_and?; [lia|done| |done].
    destruct m; cbn -[http_servers] in *; done.
  - split_and?; [done..| |].
    + destruct m; cbn -[http_servers] in *; no_conns; split_and?; try done;
        by (eapply outcomes_fewer; [| |eassumption]; [set_solver|]).
    + set_solver.
  - split_and?; [done..| |done]. destruct m; cbn -[http_servers] in *; no_conns; by split_and?.
Qed.

Lemma outside_sound s s' : outside s s' -> sound s -> sound s'.
Proof using.
  clear close_error.
  intros Hst (Hn & Hg & Hp & Ha). destruct Hst; unfold sound; cbn -[http_servers] in *.
  - destruct (grpc_client_ok g g') as [Hm Hok]; [done|]. split_and?; auto. by eapply phase_grpc.
  - split_and?; [done..| |set_solver].
    destruct m; cbn -[http_servers] in *; no_conns; split_and?; try done.
    all: intros k' e' Hk; match goal with H : outcomes_ok _ _ |- _ => destruct (H k' e' Hk) as [Hd He] end;
      cbn in *; (split; [done|]); intros [->|?]%elem_of_cons; [done|by apply He].
  - by destruct m.
Qed.

Lemma start_sound : sound start.
Proof using.
  unfold sound. split_and?; [|done..|by intros ? ?%not_elem_of_nil].
  unfold capacity, http_servers. cbn. by destruct metrics_on, gateway_on; cbn; lia.
Qed.

Lemma reachable_sound s : rtc moves start s -> sound s.
Proof using.
  intros H. pose proof start_sound as Hs. induction H as [|s1 s2 s3 [Hm|Hm] _ IH]; [done|..]; apply IH.
  - by eapply step_sound.
  - by eapply outside_sound.
Qed.

(** * Termination *)

(** Connections cost more than the handlers they leave, handshakes more than the
    connections they become. *)
Definition conns_cost (l : list nat) : nat := sum_list_with (fun n => 2 * n + 2)%nat l.
Definition graceful_cost (st : graceful) : nat :=
  match st with
  | NotStarted => 5 | Begun => 5 | ClosingListeners => 4 | DrainingConns => 3 | AwaitingHandlers => 2 | Stopped => 1
  end.
Definition grpc_cost (g : GrpcServer) : nat :=
  3 * handshakes g + conns_cost (conns g) + cancelled g + graceful_cost (stop g).
Definition phase_cost (m : phase) : nat :=
  match m with
  | Selecting => 20 | ShutdownGRPC _ => 15 | StopCalled _ => 14 | AwaitingDone _ => 13
  | ShutdownHTTP _ todo _ called => 2 * length todo + (if called then 1 else 2)
  | Returned _ _ => 0
  end.
Definition cost (s : System) : nat :=
  phase_cost (main s) + 2 * length (serving s) + length (sending s) + grpc_cost (grpc s) + length (active s) +
  (if expired s then 0 else 1).

Lemma conns_cost_app l1 l2 : conns_cost (l1 ++ l2) = (conns_cost l1 + conns_cost l2)%nat.
Proof using. apply sum_list_with_app. Qed.

Lemma conns_cost_cons n l : conns_cost (n :: l) = (2 * n + 2 + conns_cost l)%nat.
Proof using. reflexivity. Qed.

Lemma conns_cost_sum l : (sum_list l <= conns_cost l)%nat.
Proof using. induction l as [|n l IH]; [done|]. unfold conns_cost in *. cbn in *. lia. Qed.

Lemma grpc_step_cost g g' : grpc_step g g' -> (grpc_cost g' < grpc_cost g)%nat.
Proof using.
  unfold grpc_cost. destruct 1; cbn [handshakes conns cancelled stop graceful_cost];
    rewrite ?conns_cost_app, ?conns_cost_cons; try (change (conns_cost []) with 0%nat); lia.
Qed.

Lemma begin_graceful_cost g : stop g = NotStarted -> grpc_cost (begin_graceful g) = grpc_cost g.
Proof using. unfold grpc_cost. intros ->. reflexivity. Qed.

Lemma close_conns_cost g : (grpc_cost (close_conns g) <= grpc_cost g)%nat.
Proof using.
  unfold grpc_cost, close_conns. cbn [handshakes conns cancelled stop]. pose proof (conns_cost_sum (conns g)).
  change (conns_cost []) with 0%nat. lia.
Qed.

Lemma http_servers_length : (length http_servers <= 3)%nat.
Proof using. unfold http_servers. destruct metrics_on, gateway_on; cbn; lia. Qed.

Lemma step_cost s s' : step s s' -> sound s -> (cost s' < cost s)%nat.
Proof using.
  intros Hst (_ & _ & Hp & _). pose proof http_servers_length as Hlen. unfold cost.
  destruct Hst as [s s' Hm| | | | |]; cbn [main serving sending grpc active expired].
  - destruct Hm; unfold phase_ok in Hp; cbn [main serving sending grpc active expired phase_cost length] in *;
      rewrite ?begin_graceful_cost by done; change (grpc_cost (begin_stop g)) with (grpc_cost g);
      pose proof (close_conns_cost g); lia.
  - assert (grpc_cost g' < grpc_cost g)%nat by by apply grpc_step_cost. lia.
  - rewrite !length_app. cbn. lia.
  - rewrite !length_app. cbn. lia.
  - rewrite !length_app. cbn. lia.
  - cbn. lia.
Qed.

(** ** Progress against stubborn clients *)

(** What goes on although clients never end a call, close a connection or leave a
    request, and no handler ends by itself: the goroutines of the process; a
    handshake, which gRPC bounds by its connection timeout; a connection without
    calls that is being drained, which the server closes; and a handler whose
    context has been cancelled. *)
Inductive grpc_own : GrpcServer -> GrpcServer -> Prop :=
| own_handshake h cs ca q st : grpc_own (mkGrpc (S h) cs ca q st) (mkGrpc h cs ca q st)
| own_idle_closes h l1 l2 ca q : grpc_own (mkGrpc h (l1 ++ 0%nat :: l2) ca q DrainingConns) (mkGrpc h (l1 ++ l2) ca q DrainingConns)
| own_cancelled h cs ca q st : grpc_own (mkGrpc h cs (S ca) q st) (mkGrpc h cs ca q st)
| own_graceful g g' : stop g <> stop g' -> grpc_step g g' -> grpc_own g g'.

Inductive own : System -> System -> Prop :=
| own_main s s' : main_step s s' -> own s s'
| own_grpc m sv sd ch g g' a d sg ex : grpc_own g g' ->
    own (mkSystem m sv sd ch g a d sg ex) (mkSystem m sv sd ch g' a d sg ex)
| own_timer m sv sd ch g a d sg : m <> Selecting ->
    own (mkSystem m sv sd ch g a d sg false) (mkSystem m sv sd ch g a d sg true).

Lemma own_is_step s s' : own s s' -> step s s'.
Proof using.
  destruct 1 as [s s' H|m sv sd ch g g' a d sg ex H|]; [by apply main_goes_on| |by apply drain_expires].
  apply grpc_goes_on. destruct H; [apply handshake_dropped| |apply handler_ends|done].
  apply (conn_closes _ l1 0 l2).
Qed.

(** The goroutine with [GracefulStop] waits for clients only while a connection has
    a call. *)
Lemma graceful_goes_on g :
  stop g <> NotStarted -> stop g <> Stopped -> grpc_ok g -> conns g = [] -> exists g', grpc_own g g'.
Proof using.
  unfold grpc_ok. destruct g as [h cs ca q st]. cbn. intros Hn Hs Hg ->.
  destruct st; try done; no_conns.
  - eexists. by apply own_graceful; [|apply closes_listeners].
  - destruct h as [|h]; eexists; [by apply own_graceful; [|apply drains]|apply own_handshake].
  - eexists. by apply own_graceful; [|apply conns_gone].
  - destruct ca as [|ca]; eexists; [by apply own_graceful; [|apply handlers_gone]|apply own_cancelled].
Qed.

Definition returned (s : System) : Prop := exists ev outcomes, main s = Returned ev outcomes.

(** Until [run] has returned, a shutdown has a step of its own: the drain expires
    if nothing else happens, [Stop] then cancels what [GracefulStop] waits for, and
    each [Shutdown] gives up. *)
Lemma shutdown_progress s :
  sound s -> main s <> Selecting -> returned s \/ exists s', own s s'.
Proof using.
  destruct s as [m sv sd ch g a d sg ex]. intros (_ & Hg & Hp & _) Hm. unfold phase_ok in Hp.
  cbn [main expired grpc] in *. destruct ex.
  2:{ right. eexists. by apply own_timer. }
  destruct m as [|ev|ev|ev|ev todo res called|ev res]; try done; [right..|].
  - eexists. apply own_main, calls_stop.
  - destruct Hp as (Hn & _). destruct g as [[|h] cs ca q st]; cbn in *.
    + destruct (decide (st = AwaitingHandlers)) as [->|Hw].
      * unfold grpc_ok in Hg. cbn in Hg. no_conns. subst. destruct (graceful_goes_on (mkGrpc 0 [] ca true AwaitingHandlers))
          as [g' Hg']; try done. eexists. by apply own_grpc.
      * eexists. apply own_main, stop_returns; done.
    + eexists. apply own_grpc, own_handshake.
  - destruct Hp as (Hn & _ & _ & _ & Hc). destruct (decide (stop g = Stopped)) as [Hs|Hs].
    + eexists. by apply own_main, done_received.
    + destruct (graceful_goes_on g) as [g' Hg']; try done. eexists. by apply own_grpc.
  - destruct called, todo as [|k ks].
    + destruct Hp as (_ & _ & _ & ? & ? & [=] & _).
    + destruct (decide (k ∈ a)); eexists; apply own_main; [by apply shutdown_expired|by apply shutdown_idle].
    + eexists. apply own_main, returns.
    + eexists. apply own_main, calls_shutdown.
  - left. by exists ev, res.
Qed.

(** A shutdown does not go back to the [select]. *)
Lemma step_shutting s s' : step s s' -> main s <> Selecting -> main s' <> Selecting.
Proof using. destruct 1 as [s s' Hm| | | | |]; cbn; try done. by destruct Hm. Qed.

Lemma steps_sound s s' : rtc step s s' -> sound s -> main s <> Selecting -> sound s' /\ main s' <> Selecting.
Proof using.
  induction 1 as [|s1 s2 s3 Hst _ IH]; [done|]. intros Hs Hm. apply IH; [by eapply step_sound|by eapply step_shutting].
Qed.

Lemma shutdown_completes n s :
  (cost s <= n)%nat -> sound s -> main s <> Selecting -> exists s', rtc own s s' /\ returned s'.
Proof using.
  revert s. induction n as [|n IH]; intros s Hn Hs Hm;
    (destruct (shutdown_progress s Hs Hm) as [Hr|[s1 Ho]]; [by exists s|]);
    pose proof (step_cost _ _ (own_is_step _ _ Ho) Hs); [lia|].
  destruct (IH s1) as (s' & Hrtc & Hr); [lia|by eapply step_sound; [apply own_is_step|]|
    by eapply step_shutting; [apply own_is_step|]|]. exists s'. split; [by eapply rtc_l|exact Hr].
Qed.

(** * Properties *)

(** The outcome of each server's [Shutdown], of those that run. *)
Definition outcome (k : server) (outcomes : list (server * option error)) : option error :=
  match list_find (fun ke => fst ke = k) outcomes with Some (_, (_, e)) => e | None => None end.

Lemma result_is_run_result ev outcomes :
  map fst outcomes = http_servers ->
  result ev outcomes =
  Server.run_result ev (outcome Health outcomes)
    (if metrics_on then Some (outcome Metrics outcomes) else None)
    (if gateway_on then Some (outcome Gateway outcomes) else None).
Proof using.
  unfold http_servers, result, Server.run_result. destruct metrics_on, gateway_on; cbn;
    intros H; repeat (destruct outcomes as [|[? ?] outcomes]; try done; cbn in H; injection H as -> H); cbn; done.
Qed.

(** C18: When [run] has returned, no gRPC call is running, whatever the interleaving
    of clients, listeners that fail, the signal, the timer and the goroutines: the
    repository is closed after the last of them. A request can still be running
    only on an HTTP server whose shutdown ended at the deadline. What is returned
    is what the sequential account of the run says. *)
Theorem shutdown_leaves_no_call s ev outcomes :
  rtc moves start s -> main s = Returned ev outcomes ->
  (conns (grpc s) = [] /\ cancelled (grpc s) = 0%nat /\ handshakes (grpc s) = 0%nat) /\
  (forall k, k ∈ active s -> (k, Some EDeadlineExceeded) ∈ outcomes) /\
  result ev outcomes =
    Server.run_result ev (outcome Health outcomes)
      (if metrics_on then Some (outcome Metrics outcomes) else None)
      (if gateway_on then Some (outcome Gateway outcomes) else None).
Proof using.
  intros (_ & Hg & Hp & Ha)%reachable_sound Hm. unfold phase_ok in Hp. rewrite Hm in Hp.
  destruct Hp as (Hs & Hk & Ho). unfold grpc_ok in Hg. rewrite Hs in Hg. split; [by no_conns|].
  split; [|by apply result_is_run_result].
  intros k Hin. assert (Hk' : k ∈ map fst outcomes) by (rewrite Hk; by apply Ha).
  apply list_elem_of_fmap in Hk' as ([k' e] & -> & He). destruct (Ho _ _ He) as [_ Hd].
  by rewrite <- (Hd Hin).
Qed.

(** No goroutine of a server ever waits to report its end, although [run]
    receives at most one report: the channel has room for all of them. *)
Theorem reports_never_block s ke :
  rtc moves start s -> ke ∈ sending s -> (length (errCh s) < capacity)%nat.
Proof using.
  intros (Hn & _)%reachable_sound Hin. destruct (sending s); [by apply not_elem_of_nil in Hin|].
  cbn in Hn. lia.
Qed.

(** C37: A shutdown ends however stubborn the clients are: once it has begun, at
    most [cost] steps are left that clients do not start, and whatever they are,
    until [run] has returned there is one that needs no client: no call of a
    connection, no handler that was not cancelled and no HTTP request has to end
    for it, for the drain expires, [Stop] cancels the handlers [GracefulStop] waits
    for, and the HTTP servers are given up. So such steps alone lead to the return
    of [run]. What they rely on is that gRPC ends a handshake at its timeout and
    that a handler whose context is cancelled returns. *)
Theorem shutdown_terminates s :
  rtc moves start s -> main s <> Selecting ->
  (forall n s', nsteps step n s s' -> (n <= cost s)%nat) /\
  (forall s', rtc step s s' -> returned s' \/ exists s'', own s' s'') /\
  (exists s', rtc own s s' /\ returned s').
Proof using.
  intros Hs%reachable_sound Hm. split_and!.
  - clear Hm. intros n s' H. induction H as [s|n s1 s2 s3 Hst _ IH]; [lia|].
    pose proof (step_cost _ _ Hst Hs). specialize (IH (step_sound _ _ Hst Hs)). lia.
  - intros s' [Hs' Hm']%steps_sound; [|done..]. by apply shutdown_progress.
  - by eapply shutdown_completes.
Qed.

(** A connection that stays silent in its handshake holds the shutdown, whatever
    the deadline of the drain: [GracefulStop] and [Stop] both wait for it, up to
    the connection timeout of gRPC. *)
Theorem silent_connection_holds_shutdown s :
  rtc moves start s -> handshakes (grpc s) <> 0%nat ->
  match main s with Selecting | ShutdownGRPC _ | StopCalled _ => True | _ => False end.
Proof using.
  intros (_ & Hg & Hp & _)%reachable_sound Hh. unfold phase_ok in Hp. unfold grpc_ok in Hg.
  destruct (main s); try done; no_conns; try done;
    match goal with H : stop _ = Stopped |- _ => rewrite H in Hg; by no_conns end.
Qed.
End serving.


(** * Witnesses *)

(** A run with the gateway beside the health server. *)
Definition nothing (_ : server) : option error := None.
Abbreviation moves0 := (moves false true nothing).
Abbreviation start0 := (start false true).

Definition given_up : list (server * option error) := [(Health, None); (Gateway, Some EDeadlineExceeded)].

Ltac goes c := eapply rtc_l; [first [left; c | right; c]|].

(** A request to the gateway that is still in its handler when the drain expires
    outlives the run, with the repository closed under it: [Shutdown] only
    reports that it gave up. *)
Theorem gateway_call_outlives_run :
  exists s, rtc moves0 start0 s /\ main s = Returned Server.ShutdownSignal given_up /\ active s = [Gateway].
Proof.
  eexists. split; [|split]; cycle 1.
  { instantiate (1 := mkSystem _ _ _ _ _ _ _ _ _). cbn. reflexivity. } { cbn. reflexivity. }
  goes ltac:(apply (request_begins _ _ _ _ _ _ _ _ _ _ _ Gateway); cbn; set_solver).
  goes ltac:(apply signal_arrives).
  goes ltac:(apply main_goes_on, signal_received).
  goes ltac:(apply grpc_goes_on, closes_listeners).
  goes ltac:(apply grpc_goes_on, drains).
  goes ltac:(apply grpc_goes_on, conns_gone).
  goes ltac:(apply grpc_goes_on, handlers_gone).
  goes ltac:(apply main_goes_on, graceful_done; reflexivity).
  goes ltac:(apply drain_expires; discriminate).
  goes ltac:(apply main_goes_on, calls_shutdown).
  goes ltac:(apply main_goes_on, shutdown_idle; set_solver).
  goes ltac:(apply main_goes_on, calls_shutdown).
  goes ltac:(apply main_goes_on, shutdown_expired; set_solver).
  goes ltac:(apply main_goes_on, returns).
  apply rtc_refl.
Qed.
Lemma drained :
  exists s, rtc moves0 start0 s /\ main s = Returned Server.ShutdownSignal [(Health, None); (Gateway, None)].
Proof.
  eexists. split; cycle 1.
  { instantiate (1 := mkSystem _ _ _ _ _ _ _ _ _). cbn. reflexivity. }
  goes ltac:(apply signal_arrives).
  goes ltac:(apply main_goes_on, signal_received).
  goes ltac:(apply grpc_goes_on, closes_listeners).
  goes ltac:(apply grpc_goes_on, drains).
  goes ltac:(apply grpc_goes_on, conns_gone).
  goes ltac:(apply grpc_goes_on, handlers_gone).
  goes ltac:(apply main_goes_on, graceful_done; reflexivity).
  do 2 (goes ltac:(apply main_goes_on, calls_shutdown); goes ltac:(apply main_goes_on, shutdown_idle; set_solver)).
  goes ltac:(apply main_goes_on, returns).
  apply rtc_refl.
Qed.

Lemma shutdown_leaves_no_call_witness :
  exists s, rtc moves0 start0 s /\ conns (grpc s) = [] /\
    result Server.ShutdownSignal [(Health, None); (Gateway, None)] = None.
Proof.
  destruct drained as (s & Hr & Hm). exists s. split; [exact Hr|].
  destruct (shutdown_leaves_no_call false true nothing s _ _ Hr Hm) as ((Hc & _) & _ & H).
  split; [exact Hc|]. rewrite H. reflexivity.
Defined.

Lemma reports_never_block_witness :
  exists s, rtc moves0 start0 s /\ (Health, Some EServerClosed) ∈ sending s /\ (length (errCh s) < capacity)%nat.
Proof.
  eexists. assert (Hr : rtc moves0 start0 (mkSystem Selecting [Grpc; Gateway] [(Health, Some EServerClosed)] []
    (mkGrpc 0 [] 0 false NotStarted) [] [] false false)).
  { apply rtc_once. left. by apply (serve_returns _ _ _ _ [Grpc] Health [Gateway]). }
  split; [exact Hr|]. split; [by left|].
  eapply (reports_never_block false true nothing _ (Health, Some EServerClosed) Hr). by left.
Defined.

(** A call on a connection and a request at the gateway that never end: the drain
    has expired, and the shutdown goes on to the return without them. *)
Definition stubborn : System :=
  mkSystem (ShutdownGRPC Server.ShutdownSignal) [Grpc; Health; Gateway] [] []
    (mkGrpc 0 [1%nat] 0 true DrainingConns) [Gateway] [] true true.

Lemma shutdown_terminates_witness :
  rtc moves0 start0 stubborn /\ exists s', rtc (own false true nothing) stubborn s' /\ returned s'.
Proof.
  assert (Hr : rtc moves0 start0 stubborn).
  { goes ltac:(apply grpc_called, connects).
    goes ltac:(apply grpc_goes_on, handshake_done).
    goes ltac:(apply grpc_called, (call_begins _ [])).
    goes ltac:(apply (request_begins _ _ _ _ _ _ _ _ _ _ _ Gateway); cbn; set_solver).
    goes ltac:(apply signal_arrives).
    goes ltac:(apply main_goes_on, signal_received).
    goes ltac:(apply grpc_goes_on, closes_listeners).
    goes ltac:(apply grpc_goes_on, drains).
    goes ltac:(apply drain_expires; discriminate).
    apply rtc_refl. }
  split; [exact Hr|]. apply (shutdown_terminates false true nothing stubborn Hr). discriminate.
Defined.

End Serving.
