(* ===== verification/Lifecycle.v ===== *)
(** [run] of [cmd/server/main.go]: the resources a run acquires, on every path
    through start-up, serving and shutdown, with the deferred calls that release
    them and those that nothing releases, and when the server is ready. *)
From S2P Require Import Prelude GoStrings GoErrors Storage Config Auth Server.

Module Lifecycle.

#[local] Existing Instance Server.repository_type_eq_dec.

(** * Effects *)

(** [LogWatcher] is the goroutine of [watchLogLevel] with its registration for
    SIGHUP, [PoolCollector] the collector that [NewDBStatsCollector] registers. *)
Inductive resource :=
| LogWatcher | TracerProvider | StorageHandle | PoolCollector | EvictionLoop
| GrpcListener | HealthListener | MetricsListener | GatewayListener.
#[export] Instance resource_eq_dec : EqDecision resource.
Proof. solve_decision. Defined.

Inductive event :=
| Acquired (r : resource)
| Released (r : resource)
| Ready (value : bool)
| ServingStatus (value : bool)
| ServersStopped.
#[export] Instance event_eq_dec : EqDecision event.
Proof. solve_decision. Defined.

(** A run writes what it does. *)
Definition Run : Type := M (list event) (option error).
Definition note (e : event) : M (list event) unit := modifyM (fun l => l ++ [e]).

(** A step that acquires a resource or fails, the deferred call that releases it,
    and the rest of the run between. *)
Definition holding (r : resource) (outcome : option error) (wrap : error -> error) (rest : Run) : Run :=
  match outcome with
  | Some err => retM (Some (wrap err))
  | None =>
      note (Acquired r) ;;;
      result <-- rest ;;
      note (Released r) ;;;
      retM result
  end.

(** What the run observes of its environment: among it the type of the repository
    that is opened, whether a collector of the pool is registered already, and
    whether the context of the run is done by its end. *)
Record Environment := mkEnvironment {
  context_done : bool;
  tracing_Init : option error;
  open_storage : res Server.repository_type;
  registered_already : bool;
  load_TLS : option error;
  listen : string -> option error;
  RegisterUserServiceHandlerServer : option error;
  stopped_by : Server.run_event;
  health_Shutdown : option error;
  metrics_Shutdown : option error;
  gateway_Shutdown : option error
}.

Section run.
Context `{HK : Auth.PublicKeys} `{HL : !Auth.Libraries}.
Context (parse_uri : string -> option Config.url) (Quote : string -> string).
(** [net.JoinHostPort] of a host and a port. *)
Context (JoinHostPort : string -> Z -> string).
Context (cfg : Config.Config) (env : Environment).

Definition address (port : Z) : string := JoinHostPort (Config.Host (Config.Server cfg)) port.

Definition metrics_on : bool := Config.metrics_Enabled (Config.Metrics cfg).
Definition gateway_on : bool := Config.gateway_Enabled (Config.Gateway cfg).

(** From the start of the servers to their shutdown; the listeners are closed by
    their deferred calls. *)
Definition serve : Run :=
  note (Ready true) ;;;
  note (ServingStatus true) ;;;
  note (Ready false) ;;;
  note (ServingStatus false) ;;;
  note ServersStopped ;;;
  retM (Server.run_result (stopped_by env) (health_Shutdown env)
          (if metrics_on then Some (metrics_Shutdown env) else None)
          (if gateway_on then Some (gateway_Shutdown env) else None)).

Definition with_gateway (rest : Run) : Run :=
  if gateway_on then
    match RegisterUserServiceHandlerServer env with
    | Some err => retM (Some (EWrap "register gateway handler" err))
    | None =>
        let addr := address (Config.gateway_Port (Config.Gateway cfg)) in
        holding GatewayListener (listen env addr) (EWrap ("listen for gateway on " +:+ addr)) rest
    end
  else rest.

Definition with_metrics (rest : Run) : Run :=
  if metrics_on then
    if Config.metrics_Port (Config.Metrics cfg) =? Config.health_Port (Config.Health cfg)
    then retM (Some (EOther "metrics.port and health.port must differ"))
    else
      let addr := address (Config.metrics_Port (Config.Metrics cfg)) in
      holding MetricsListener (listen env addr) (EWrap ("listen for metrics on " +:+ addr)) rest
  else rest.

Definition with_listeners (rest : Run) : Run :=
  let grpcAddress := address (Config.Port (Config.Server cfg)) in
  let healthAddress := address (Config.health_Port (Config.Health cfg)) in
  holding GrpcListener (listen env grpcAddress) (EWrap ("listen for gRPC on " +:+ grpcAddress))
    (holding HealthListener (listen env healthAddress) (EWrap ("listen for health on " +:+ healthAddress))
      (with_metrics (with_gateway rest))).

(** [newGRPCServer] starts the eviction loop of the rate limiter before it loads
    the TLS files; the loop is stopped by a deferred call that an error of these
    precedes. *)
Definition with_grpc_server (rest : Run) : Run :=
  note (Acquired EvictionLoop) ;;;
  match (if Config.tls_Enabled (Config.TLS cfg) then load_TLS env else None) with
  | Some err => retM (Some (EWrap "load TLS credentials" err))
  | None =>
      result <-- rest ;;
      note (Released EvictionLoop) ;;;
      retM result
  end.

(** The watcher starts with the run and returns once the context is done; it is
    noted at the end of the run, which is the last moment it may still be there. *)
Definition watching (rest : Run) : Run :=
  note (Acquired LogWatcher) ;;;
  result <-- rest ;;
  (if context_done env then note (Released LogWatcher) else retM tt) ;;;
  retM result.

(** The pool of a bare [*PostgresRepository] is registered for metrics; nothing
    takes that back. *)
Definition registering (t : Server.repository_type) (rest : Run) : Run :=
  (if bool_decide (t = Server.PostgresType) && negb (registered_already env)
   then note (Acquired PoolCollector) else retM tt) ;;;
  rest.

Definition with_storage (rest : Run) : Run :=
  match open_storage env with
  | Err err => retM (Some (EWrap "initialize storage" err))
  | Ok t => holding StorageHandle None (fun err => err) (registering t rest)
  end.

Definition run : Run :=
  match Config.Validate parse_uri Quote (Some cfg) with
  | Some err => retM (Some err)
  | None =>
      watching
        match Auth.NewAuthenticator (Config.Auth cfg) with
        | Err err => retM (Some (EWrap "create authenticator" err))
        | Ok _ =>
            holding TracerProvider (tracing_Init env) (EWrap "initialize tracing")
              (with_storage
                (note (ServingStatus false) ;;;
                 with_grpc_server (with_listeners serve)))
        end
  end.

(** * Disciplines *)

(** Events in which what is acquired is released, innermost first, but for [left],
    which is not released at all. *)
Inductive account : list event -> list resource -> Prop :=
| account_nil : account [] []
| account_other e l left : (forall r, e <> Acquired r /\ e <> Released r) -> account l left -> account (e :: l) left
| account_held r l1 left1 l2 left2 :
    account l1 left1 -> account l2 left2 -> account (Acquired r :: l1 ++ Released r :: l2) (left1 ++ left2)
| account_left r l left : account l left -> account (Acquired r :: l) (r :: left).

(** How often something occurs. *)
Definition occurrences {A} `{EqDecision A} (x : A) (l : list A) : nat := length (filter (fun y => y = x) l).

Definition held_step (held : list resource) (e : event) : list resource :=
  match e with
  | Acquired r => r :: held
  | Released r => filter (fun r' => r' <> r) held
  | _ => held
  end.

(** The server reports ready only at moments when it holds what it needs. *)
Definition needed : list resource :=
  [StorageHandle; GrpcListener; HealthListener] ++
  (if metrics_on then [MetricsListener] else []) ++ (if gateway_on then [GatewayListener] else []).
Fixpoint ready_within (held : list resource) (l : list event) : Prop :=
  match l with
  | [] => True
  | e :: l => (e = Ready true -> needed ⊆ held) /\ ready_within (held_step held e) l
  end.

Definition readiness (before : bool) (l : list event) : bool :=
  fold_left (fun b e => match e with Ready value => value | _ => b end) l before.

(** A run that, while [held] is held, releases what it acquires but for [left], is
    ready only with what it needs, and ends not ready. *)
Definition disciplined (held left : list resource) (l : list event) : Prop :=
  account l left /\ ready_within held l /\ readiness false l = false.
Definition clean (held left : list resource) (m : Run) : Prop := forall w l,
  exists r w' l', m (w, l) = (r, (w', l ++ l')) /\ disciplined held left l'.

(** What a run leaves behind: its watcher, unless the context is done; the
    collector of the pool; and the eviction loop, when the TLS files do not load. *)
Definition tls_fails : bool :=
  Config.tls_Enabled (Config.TLS cfg) && match load_TLS env with Some _ => true | None => false end.
Definition left_by_storage : list resource :=
  match open_storage env with
  | Err _ => []
  | Ok t =>
      (if bool_decide (t = Server.PostgresType) && negb (registered_already env) then [PoolCollector] else []) ++
      (if tls_fails then [EvictionLoop] else [])
  end.
Definition left_behind : list resource :=
  match Config.Validate parse_uri Quote (Some cfg) with
  | Some _ => []
  | None =>
      (if context_done env then [] else [LogWatcher]) ++
      match Auth.NewAuthenticator (Config.Auth cfg), tracing_Init env with
      | Ok _, None => left_by_storage
      | _, _ => []
      end
  end.

(** * Lemmas *)

Lemma occurrences_cons {A} `{EqDecision A} (x y : A) l :
  occurrences x (y :: l) = ((if decide (y = x) then 1 else 0) + occurrences x l)%nat.
Proof using. unfold occurrences. rewrite filter_cons. by case_decide. Qed.

Lemma occurrences_app {A} `{EqDecision A} (x : A) l k : occurrences x (l ++ k) = (occurrences x l + occurrences x k)%nat.
Proof using. unfold occurrences. by rewrite filter_app, length_app. Qed.

Lemma account_balance l left r :
  account l left -> occurrences (Acquired r) l = (occurrences (Released r) l + occurrences r left)%nat.
Proof using.
  induction 1 as [|e l left He _ IH|r' l1 left1 l2 left2 _ IH1 _ IH2|r' l left _ IH]; [done| | |];
    rewrite ?occurrences_cons, ?occurrences_app, ?occurrences_cons.
  - destruct (He r) as [? ?]. by rewrite !decide_False.
  - repeat case_decide; simplify_eq; lia.
  - repeat case_decide; simplify_eq; lia.
Qed.

Lemma clean_ret h r : clean h [] (retM r).
Proof using. intros w l. exists r, w, []. rewrite app_nil_r. repeat split. constructor. Qed.

Lemma ready_within_app h l e :
  (forall v, e <> Ready v) -> ready_within h l -> ready_within h (l ++ [e]).
Proof using.
  intros He. revert h. induction l as [|e' l IH]; intros h; cbn.
  - intros _. split; [intros ->; by destruct (He true)|done].
  - intros [? ?]. split; [done|]. by apply IH.
Qed.

Lemma readiness_snoc l e : (forall v, e <> Ready v) -> readiness false (l ++ [e]) = readiness false l.
Proof using. unfold readiness. rewrite fold_left_app. intros He. destruct e; try done. by destruct (He value). Qed.

Lemma clean_acquired r h left rest :
  clean (r :: h) left rest -> clean h left (note (Acquired r) ;;; result <-- rest ;; note (Released r) ;;; retM result).
Proof using.
  intros Hr w l. destruct (Hr w (l ++ [Acquired r])) as (res & w' & l' & H & Hn & Hw & Hf).
  exists res, w', (Acquired r :: l' ++ [Released r]). unfold note. unfold_monad. rewrite H. cbn [fst snd].
  split; [by rewrite <- !app_assoc|]. split; [|split].
  - rewrite <- (app_nil_r left). apply account_held; [done|constructor].
  - split; [done|]. by apply ready_within_app.
  - change (readiness false (l' ++ [Released r]) = false). by rewrite readiness_snoc.
Qed.

Lemma clean_holding h left r outcome wrap rest :
  clean (r :: h) left rest -> clean h (match outcome with None => left | Some _ => [] end) (holding r outcome wrap rest).
Proof using. intros Hr. unfold holding. destruct outcome; [apply clean_ret|]. by apply clean_acquired. Qed.

(** What is acquired and never released. *)
Lemma clean_left h left r rest : clean (r :: h) left rest -> clean h (r :: left) (note (Acquired r) ;;; rest).
Proof using.
  intros Hr w l. destruct (Hr w (l ++ [Acquired r])) as (res & w' & l' & H & Hn & Hw & Hf).
  exists res, w', (Acquired r :: l'). unfold note. unfold_monad. rewrite H. split; [by rewrite <- app_assoc|].
  split; [by apply account_left|]. by split; [split|].
Qed.

Lemma clean_note h left e rest :
  (forall r, e <> Acquired r /\ e <> Released r) -> (forall v, e <> Ready v) -> clean h left rest ->
  clean h left (note e ;;; rest).
Proof using.
  intros He Hv Hr w l. destruct (Hr w (l ++ [e])) as (res & w' & l' & H & Hn & Hw & Hf).
  exists res, w', (e :: l'). unfold note. unfold_monad. rewrite H.
  split; [by rewrite <- app_assoc|]. split; [by constructor|]. split.
  - split; [intros ->; by destruct (Hv true)|]. destruct e; try done; by destruct (He r).
  - destruct e; try done. by destruct (Hv value).
Qed.

Lemma clean_serve h : needed ⊆ h -> clean h [] serve.
Proof using.
  intros Hn w l. unfold serve, note. unfold_monad. do 2 eexists.
  exists [Ready true; ServingStatus true; Ready false; ServingStatus false; ServersStopped].
  split; [by rewrite <- !app_assoc|]. split; [by repeat (constructor; [done|]); constructor|].
  split; [|done]. cbn. by repeat split.
Qed.

Lemma clean_grpc_server h rest :
  clean (EvictionLoop :: h) [] rest -> clean h (if tls_fails then [EvictionLoop] else []) (with_grpc_server rest).
Proof using.
  intros Hr. unfold with_grpc_server, tls_fails.
  destruct (Config.tls_Enabled _); [destruct (load_TLS env)|]; cbn [andb].
  - apply clean_left, clean_ret.
  - by apply clean_acquired.
  - by apply clean_acquired.
Qed.

Lemma clean_listeners h : StorageHandle ∈ h -> clean h [] (with_listeners serve).
Proof using.
  intros Hs. unfold with_listeners.
  assert (Hhold : forall h r outcome wrap rest, clean (r :: h) [] rest -> clean h [] (holding r outcome wrap rest)).
  { intros h' r outcome wrap rest Hr. pose proof (clean_holding h' [] r outcome wrap rest Hr) as H. by destruct outcome. }
  do 2 apply Hhold. unfold with_metrics, with_gateway.
  pose proof clean_serve as Hserve. unfold needed in Hserve.
  destruct metrics_on, gateway_on;
    repeat first [ apply clean_ret | apply Hhold | case_match ]; apply Hserve;
    intros r; rewrite !list_elem_of_In in *; cbn; intuition (subst; auto).
Qed.

Lemma clean_registering h left t rest :
  (forall h', h ⊆ h' -> clean h' left rest) ->
  clean h ((if bool_decide (t = Server.PostgresType) && negb (registered_already env) then [PoolCollector] else []) ++ left)
    (registering t rest).
Proof using.
  intros Hr. unfold registering. destruct (_ && _); [apply clean_left, Hr; set_solver|].
  intros w l. apply (Hr h); done.
Qed.

Lemma clean_watching h left rest :
  clean (LogWatcher :: h) left rest ->
  clean h ((if context_done env then [] else [LogWatcher]) ++ left) (watching rest).
Proof using.
  intros Hr. unfold watching. destruct (context_done env); [by apply clean_acquired|].
  pose proof (clean_left h left LogWatcher rest Hr) as H. intros w l. destruct (H w l) as (r & w' & l' & Hrun & Hd).
  exists r, w', l'. split; [|exact Hd]. revert Hrun. unfold_monad.
  destruct (note (Acquired LogWatcher) (w, l)) as [u s]. by destruct (rest s) as [? [? ?]].
Qed.

Lemma clean_storage h : clean h left_by_storage
  (with_storage (note (ServingStatus false) ;;; with_grpc_server (with_listeners serve))).
Proof using.
  unfold with_storage, left_by_storage. destruct (open_storage env) as [t|err]; [|apply clean_ret].
  refine (clean_holding h _ StorageHandle None _ _ _). apply clean_registering. intros h' Hh.
  apply clean_note; [done|done|]. apply clean_grpc_server, clean_listeners.
  apply list_elem_of_further, Hh, list_elem_of_here.
Qed.

(** * Properties *)

Lemma run_clean w : exists r w' events, run (w, []) = (r, (w', events)) /\ disciplined [] left_behind events.
Proof using.
  assert (H : clean [] left_behind run).
  { unfold run, left_behind. destruct (Config.Validate _ _ _); [apply clean_ret|]. apply clean_watching.
    destruct (Auth.NewAuthenticator _); [|apply clean_ret].
    pose proof (clean_holding [LogWatcher] left_by_storage TracerProvider (tracing_Init env)
      (EWrap "initialize tracing") _ (clean_storage _)) as H. by destruct (tracing_Init env). }
  destruct (H w []) as (r & w' & l & Hr & Hd). by exists r, w', l.
Qed.

(** C17: Whatever fails during start-up, however the servers stop and whatever their
    shutdown reports, a run releases what it has acquired, innermost first, but
    for what it leaves behind on purpose or by mistake: the goroutine that watches
    the log level, unless the context is done; the registered collector of the
    pool; and the eviction loop of the rate limiter, when the TLS files do not
    load. What it leaves is exactly that. It reports ready only while it holds the
    repository and every listener the configuration enables, and ends not ready. *)
Theorem run_accounts_for_resources w :
  exists r w' events, run (w, []) = (r, (w', events)) /\ disciplined [] left_behind events /\
    forall x, occurrences (Acquired x) events = (occurrences (Released x) events + occurrences x left_behind)%nat.
Proof using.
  destruct (run_clean w) as (r & w' & l & Hr & Hd). exists r, w', l. split; [exact Hr|]. split; [exact Hd|].
  intros x. by apply account_balance, Hd.
Qed.

(** A run that gets as far as the TLS files and cannot load them leaves the
    eviction loop of the rate limiter running. *)
Theorem tls_failure_leaves_eviction_loop w a t err :
  Config.Validate parse_uri Quote (Some cfg) = None -> Auth.NewAuthenticator (Config.Auth cfg) = Ok a ->
  tracing_Init env = None -> open_storage env = Ok t ->
  Config.tls_Enabled (Config.TLS cfg) = true -> load_TLS env = Some err ->
  exists w' events, run (w, []) = (Some (EWrap "load TLS credentials" err), (w', events)) /\
    (occurrences (Released EvictionLoop) events < occurrences (Acquired EvictionLoop) events)%nat.
Proof using.
  intros Hv Ha Ht Ho Htls Hl. destruct (run_clean w) as (r & w' & l & Hrun & Hacc & _).
  exists w', l. split.
  - rewrite Hrun. f_equal. revert Hrun. unfold run. rewrite Hv, Ha. unfold holding. rewrite Ht. unfold with_storage.
    rewrite Ho. unfold watching, holding, registering, with_grpc_server. rewrite Htls, Hl. unfold note. unfold_monad.
    destruct (_ && _), (context_done env); by intros [= <- _ _].
  - rewrite (account_balance _ _ EvictionLoop Hacc). unfold left_behind, left_by_storage, tls_fails.
    rewrite Hv, Ha, Ht, Ho, Htls, Hl. cbn [andb]. rewrite !occurrences_app, occurrences_cons, decide_True by done. lia.
Qed.
End run.

(** * The process *)

Definition defaultConfigPath : string := "configs/config.yaml".

Definition config_path (environ : gmap string string) : string :=
  let configPath := default "" (environ !! "CONFIG_PATH") in
  if blank configPath then defaultConfigPath else configPath.

(** The status [main] exits with; a return is status 0. *)
Definition main (Load : string -> res Config.Config) (run : Config.Config -> Run) (environ : gmap string string)
  : M (list event) Z :=
  match Load (config_path environ) with
  | Err _ => retM 1
  | Ok cfg =>
      err <-- run cfg ;;
      retM (match err with Some _ => 1 | None => 0 end)
  end.

(** The process exits with 0 exactly when its configuration loads and its run
    returns nil; by then the run has released all but what it leaves behind. *)
Theorem exit_status_is_sound `{HK : Auth.PublicKeys} `{HL : !Auth.Libraries} parse_uri Quote JoinHostPort Load env environ w :
  exists status w' events,
    main Load (fun cfg => run parse_uri Quote JoinHostPort cfg env) environ (w, []) = (status, (w', events)) /\
    (status = 0 <-> exists cfg, Load (config_path environ) = Ok cfg /\
       fst (run parse_uri Quote JoinHostPort cfg env (w, [])) = None) /\
    account events
      match Load (config_path environ) with
      | Ok cfg => left_behind parse_uri Quote cfg env
      | Err _ => []
      end.
Proof.
  unfold main. destruct (Load (config_path environ)) as [cfg|err].
  - destruct (run_clean parse_uri Quote JoinHostPort cfg env w) as (r & w' & l & Hr & Hn & _).
    unfold_monad. rewrite Hr. cbn [fst snd].
    exists (match r with Some _ => 1 | None => 0 end), w', l. split; [by destruct r|]. split; [|exact Hn].
    split.
    + intros Hs. exists cfg. split; [done|]. rewrite Hr. by destruct r.
    + intros (cfg' & [= <-] & H). rewrite Hr in H. cbn in H. by subst r.
  - exists 1, w, []. split; [done|]. split; [|constructor]. split; [done|]. by intros (? & ? & ?).
Qed.

(** * Witnesses *)

#[local] Existing Instance Auth.keys0.
#[local] Existing Instance Auth.libraries0.

Definition sane : Environment :=
  mkEnvironment true None (Ok Server.MemoryType) false None (fun _ => None) None Server.ShutdownSignal None None None.
Definition join (host : string) (port : Z) : string := host +:+ ":" +:+ pretty port.
Definition world0 : World := mkWorld (fun _ => 0) (fun _ => None) 0.

(** A run that the signal ends leaves nothing; one over PostgreSQL whose listener
    fails leaves its watcher and the collector. *)
Example sane_run_leaves_nothing : left_behind Config.no_uri id Config.sample sane = [].
Proof. vm_compute. reflexivity. Qed.

Definition failing_listener : Environment :=
  mkEnvironment false None (Ok Server.PostgresType) false None (fun _ => None) None
    (Server.ListenerStopped (Some (EOther "accept"))) None None None.

Example failed_run_leaves_two :
  left_behind Config.no_uri id Config.sample failing_listener = [LogWatcher; PoolCollector].
Proof. vm_compute. reflexivity. Qed.

Definition sample_tls : Config.Config :=
  let c := Config.sample in
  Config.mkConfig (Config.Server c) (Config.mkTLS true "cert.pem" "key.pem" "" "" "" (Config.mkMTLS false ""))
    (Config.Auth c) (Config.Logging c) (Config.Tracing c) (Config.Metrics c) (Config.Health c)
    (Config.Storage c) (Config.Gateway c) (Config.Reflection c) (Config.Client c).

Lemma tls_failure_leaves_eviction_loop_witness :
  exists w' events,
    run Config.no_uri id join sample_tls
      (mkEnvironment true None (Ok Server.MemoryType) false (Some (EOther "no such file")) (fun _ => None) None
         Server.ShutdownSignal None None None)
      (world0, []) = (Some (EWrap "load TLS credentials" (EOther "no such file")), (w', events)) /\
    (occurrences (Released EvictionLoop) events < occurrences (Acquired EvictionLoop) events)%nat.
Proof.
  eapply (tls_failure_leaves_eviction_loop Config.no_uri id join sample_tls); try reflexivity; vm_compute; reflexivity.
Defined.
End Lifecycle.
