(* ===== verification/System.v ===== *)
(** The whole server: the generated handlers behind the chain of the gRPC
    server, and behind the REST gateway, over the repository that a configuration
    opens. *)
From S2P Require Import Prelude GoStrings GoErrors Storage Memory UserService Gateway Config Rpc Auth Interceptors.
From S2P Require Import Chain Server.

Module System.
Import Auth Interceptors.

(** * Requests at the two doors *)

(** A call of the gRPC server with its context and its message, decoded or not;
    the stream of events with what its ticker and its peer do, a conversation
    with what its peer sends; or an HTTP request at the gateway. *)
Inductive request :=
| GetUser (ctx : RpcCtx) (dec : res UserService.GetUserRequest)
| ListUsers (ctx : RpcCtx) (dec : res UserService.ListUsersRequest)
| CreateUser (ctx : RpcCtx) (dec : res UserService.CreateUserRequest)
| UpdateUser (ctx : RpcCtx) (dec : res UserService.UpdateUserRequest)
| DeleteUser (ctx : RpcCtx) (dec : res UserService.DeleteUserRequest)
| StreamUserEvents (ctx : RpcCtx) (recv : res UserService.StreamUserEventsRequest)
    (select_done : nat -> option ctx_status) (send_error : nat -> option error)
| CollectUserMetrics (ctx : RpcCtx) (recv : list (res (option UserService.MetricData))) (close_error : option error)
| ChatStream (ctx : RpcCtx) (send_error : nat -> option error) (recv : list (res (option UserService.ChatMessage)))
| Http (r : Gateway.Request).

Section system.
Context `{HK : PublicKeys} `{HL : !Libraries} `{HB : RateLimiter} `{HG : Gateway.Codec}.
Context (valid_utf8 : string -> bool) (ParseAddress : string -> option string).
Context (cfg : Config.Config) (auth : option Authenticator).
Context {S : Type} (repository : Repository S).
Context (range : nat -> gmap string (list (Gateway.handler (S := S))) ->
                 list (string * list (Gateway.handler (S := S))))
        (Hrange : forall n mux, range n mux ≡ₚ map_to_list mux).

Definition userService : UserService.Service S :=
  UserService.NewUserServiceWithRepository (Some repository) (Config.service_limits (Config.Server cfg)).

Abbreviation State := (Chain.ServerState (S * list telemetry)).

(** The repository of the server. *)
Definition users_of (st : State) : S := fst (snd (snd (snd st))).

Definition service_method (name : string) : string := "/example.v1.UserService/" +:+ name.

(** The generated handlers: a message that does not decode ends a unary call
    before the interceptors, and a stream inside them; the handler of a streaming
    method returns the error alone. *)
Definition unary {R A} (ctx : RpcCtx) (name : string) (dec : res R) (call : option Ctx -> option R -> M S (res A)) :
    M State (outcome A) :=
  match dec with
  | Err err => retM (Returned (Err err))
  | Ok req =>
      Chain.unary_chain valid_utf8 cfg auth ctx (service_method name) (Server.grpc_handler (fun c => call c (Some req)))
  end.

Definition stream_handler {A} (call : option Ctx -> M S (A * option error)) : Handler (S * list telemetry) unit :=
  fun ctx =>
    r <-- outerM (call (base_ctx ctx)) ;;
    retM (Returned (match snd r with None => Ok tt | Some err => Err err end)).

Definition stream {A} (ctx : RpcCtx) (name : string) (call : option Ctx -> M S (A * option error)) :
    M State (outcome unit) :=
  Chain.stream_chain valid_utf8 cfg auth ctx (service_method name) (stream_handler call).

Definition StreamUserEvents_Handler recv select_done send_error (c : option Ctx) :
    M S (list UserService.UserEvent * option error) :=
  match recv with
  | Err err => retM ([], Some err)
  | Ok req =>
      UserService.StreamUserEvents userService (Some req) (UserService.mkEventStream c select_done send_error)
  end.

(** The gateway calls the service without the chain. *)
Definition http (r : Gateway.Request) : M State unit := fun '(w, (b, (p, (n, (s, events))))) =>
  let '(_, (w, s)) := Gateway.gatewayHandler ParseAddress userService range r (w, s) in
  (tt, (w, (b, (p, (n, (s, events)))))).

Definition serve (r : request) : M State unit :=
  match r with
  | GetUser ctx dec => unary ctx "GetUser" dec (UserService.GetUser userService) ;;; retM tt
  | ListUsers ctx dec => unary ctx "ListUsers" dec (UserService.ListUsers userService) ;;; retM tt
  | CreateUser ctx dec => unary ctx "CreateUser" dec (UserService.CreateUser ParseAddress userService) ;;; retM tt
  | UpdateUser ctx dec => unary ctx "UpdateUser" dec (UserService.UpdateUser ParseAddress userService) ;;; retM tt
  | DeleteUser ctx dec => unary ctx "DeleteUser" dec (UserService.DeleteUser userService) ;;; retM tt
  | StreamUserEvents ctx recv select_done send_error =>
      stream ctx "StreamUserEvents" (StreamUserEvents_Handler recv select_done send_error) ;;; retM tt
  | CollectUserMetrics ctx recv close_error =>
      stream ctx "CollectUserMetrics" (fun _ =>
        retM (tt, match UserService.CollectUserMetrics userService recv close_error with
                  | Ok _ => None
                  | Err err => Some err
                  end)) ;;; retM tt
  | ChatStream ctx send_error recv =>
      stream ctx "ChatStream" (fun _ => UserService.ChatStream userService send_error recv) ;;; retM tt
  | Http r => http r
  end.

(** One request after another, at any times. *)
Definition step (st st' : State) : Prop := exists r w, st' = state_of (serve r) w st.

(** * Each is at most one call of the service *)

Abbreviation at_most_one_call := (Gateway.at_most_one_call ParseAddress userService).

Definition modest {A} (handler : Handler (S * list telemetry) A) : Prop := forall ctx w s events,
  at_most_one_call s (fst (snd (snd (handler ctx (w, (s, events)))))).

Lemma modest_grpc {A} (call : option Ctx -> M S (res A)) :
  (forall c w s, at_most_one_call s (state_of (call c) w s)) -> modest (Server.grpc_handler call).
Proof using.
  intros Hc ctx w s events. specialize (Hc (base_ctx ctx) w s). unfold Server.grpc_handler. unfold_monad.
  destruct (call _ (w, s)) as [x [w1 s1]]. exact Hc.
Qed.

Lemma modest_stream {A} (call : option Ctx -> M S (A * option error)) :
  (forall c w s, at_most_one_call s (state_of (call c) w s)) -> modest (stream_handler call).
Proof using.
  intros Hc ctx w s events. specialize (Hc (base_ctx ctx) w s). unfold stream_handler. unfold_monad.
  destruct (call _ (w, s)) as [x [w1 s1]]. exact Hc.
Qed.

(** What a gated call leaves. *)
Lemma gated_modest {A} method ctx (handler : Handler (S * list telemetry) A) s o s' :
  modest handler -> Chain.gated fst cfg auth method ctx handler s o s' -> at_most_one_call s s'.
Proof using.
  intros Hh [(e & _ & _ & ->)|(ctx' & w1 & [s1 events] & _ & <- & _ & ->)]; [by left|apply Hh].
Qed.

Lemma unary_door {R A} ctx name (dec : res R) (call : option Ctx -> option R -> M S (res A)) w (st : State) :
  requiresAuth (service_method name) = true ->
  (forall c req w s, at_most_one_call s (state_of (call c req) w s)) ->
  at_most_one_call (users_of st) (users_of (state_of (unary ctx name dec call ;;; retM tt) w st)).
Proof using.
  intros Hm Hc. unfold unary. destruct dec as [req|err]; [|by left]. destruct st as (b & p & n & s).
  pose proof (Chain.unary_chain_rule valid_utf8 fst (fst s) n cfg auth ctx (service_method name)
    (Server.grpc_handler (fun c => call c (Some req))) Chain.silent_fst Hm w (b, (p, (n, s))) eq_refl) as [_ H].
  unfold_monad. destruct (Chain.unary_chain _ _ _ _ _ _ _) as [o ws].
  eapply gated_modest; [|exact H]. apply modest_grpc. intros c w1 s1. apply Hc.
Qed.

Lemma stream_door {A} ctx name (call : option Ctx -> M S (A * option error)) w (st : State) :
  requiresAuth (service_method name) = true -> (forall c w s, at_most_one_call s (state_of (call c) w s)) ->
  at_most_one_call (users_of st) (users_of (state_of (stream ctx name call ;;; retM tt) w st)).
Proof using.
  intros Hm Hc. unfold stream. destruct st as (b & p & n & s).
  pose proof (Chain.stream_chain_rule valid_utf8 fst (fst s) n cfg auth ctx (service_method name)
    (stream_handler call) Chain.silent_fst Hm w (b, (p, (n, s))) eq_refl) as [_ H].
  unfold_monad. destruct (Chain.stream_chain _ _ _ _ _ _ _) as [o ws].
  eapply gated_modest; [|exact H]. by apply modest_stream.
Qed.

Lemma chat_keeps send_error i recv w (s : S) :
  state_of (UserService.ChatStream_loop userService send_error i recv) w s = s.
Proof using.
  revert i w. induction recv as [|[[msg|]|err] recv IH]; intros i w; try done. cbn [UserService.ChatStream_loop].
  do 2 (case_match; [done|]). unfold_monad. rewrite UserService.newID_run. cbn [fst snd].
  destruct (w_rand _ _); [|done]. cbn. destruct (send_error i); [done|].
  specialize (IH (Datatypes.S i) (tick (tick w))). destruct (UserService.ChatStream_loop _ _ _ _ _) as [r [w' s']].
  exact IH.
Qed.

Lemma serve_calls r w st : at_most_one_call (users_of st) (users_of (state_of (serve r) w st)).
Proof using Hrange.
  destruct r; cbn [serve].
  - apply unary_door; [done|]. intros. right. apply UserService.step_get.
  - apply unary_door; [done|]. intros. right. apply UserService.step_list.
  - apply unary_door; [done|]. intros. right. apply UserService.step_create.
  - apply unary_door; [done|]. intros. right. apply UserService.step_update.
  - apply unary_door; [done|]. intros. right. apply UserService.step_delete.
  - apply stream_door; [done|]. intros. destruct recv; [right; apply UserService.step_stream|by left].
  - apply stream_door; [done|]. intros. by left.
  - apply stream_door; [done|]. intros. left. apply chat_keeps.
  - destruct st as (b & p & n & s & events). unfold http. unfold_monad.
    pose proof (Gateway.gateway_calls ParseAddress userService range Hrange r w s) as H.
    destruct (Gateway.gatewayHandler _ _ _ _ _) as [x [w1 s1]]. exact H.
Qed.

Lemma steps_call st st' : rtc step st st' -> rtc (UserService.step ParseAddress userService) (users_of st) (users_of st').
Proof using Hrange.
  induction 1 as [|st1 st2 st3 (r & w & ->) _ IH]; [done|].
  destruct (serve_calls r w st1) as [H|H]; [by rewrite <- H|by eapply rtc_l].
Qed.

Lemma sinv_served view rinv norm st0 st :
  RepositorySafety repository view rinv norm -> UserService.sinv ParseAddress userService view rinv (users_of st0) ->
  rtc step st0 st -> UserService.sinv ParseAddress userService view rinv (users_of st).
Proof using Hrange.
  intros HR Hi Hs%steps_call. induction Hs as [|s0 s1 s2 H1 _ IH]; [done|].
  apply IH. by eapply UserService.sinv_safe_step.
Qed.
End system.

(** * Properties *)

(** C7: Whatever requests reach the server, through the gRPC server with its chain
    of interceptors or through the REST gateway, authenticated or not, in any
    order and at any times: when the store at the start holds valid users within
    the capacity, it always does. It is enough that the operations of the
    repository change users only as they may, whatever they report. *)
Theorem served_users_valid `{HK : PublicKeys} `{HL : !Libraries} `{HB : RateLimiter} `{HG : Gateway.Codec}
    valid_utf8 ParseAddress cfg auth {S} (repository : Repository S) range view rinv norm st0 st :
  (forall n mux, range n mux ≡ₚ map_to_list mux) ->
  RepositorySafety repository view rinv norm ->
  UserService.sinv ParseAddress (userService cfg repository) view rinv (users_of st0) ->
  rtc (step valid_utf8 ParseAddress cfg auth repository range) st0 st ->
  (forall id u, view (users_of st) !! id = Some u ->
     Id u = id /\ id <> "" /\
     UserService.valid_user ParseAddress (UserService.maxStringBytes (userService cfg repository)) u) /\
  Z.of_nat (size (view (users_of st))) <= Z.max 0 (UserService.maxUsers (userService cfg repository)).
Proof.
  intros Hrange HS Hi Hs.
  eapply sinv_served in Hs as (Hr & Hu & Hz); [|done..]. split; [|done]. intros id u Hid.
  destruct (safe_ids (users_of st) id u Hr Hid). eauto.
Qed.

(** * Witnesses *)

#[local] Existing Instance keys0.
#[local] Existing Instance libraries0.
#[local] Existing Instance Chain.limiter0.

Definition serve0 : request -> M (Chain.ServerState (MemoryRepository.State * list telemetry)) unit :=
  serve (HG := Gateway.codec0) (fun _ => true) UserService.parse0 Config.sample
    (Some Chain.key_auth) MemoryRepository.repository Gateway.range0.

(** One user is created at the gRPC server; the gateway then answers with it, for
    the key is the same. *)
Definition empty0 : Chain.ServerState (MemoryRepository.State * list telemetry) :=
  Chain.server0 (MemoryRepository.NewMemoryRepository, []).
Definition created0 :=
  state_of (serve0 (CreateUser Chain.key_ctx (Ok UserService.alice_request))) UserService.world1 empty0.
Definition answered0 :=
  state_of (serve0 (Http (Gateway.request0 "POST" "/v1/users"))) UserService.world1 created0.

Lemma served_users_valid_witness :
  UserService.valid_user UserService.parse0 4096
    (mkUser "user-30313233343536373839616263646566" "Alice" "alice@b.c" 30
       (Some (mkTimestamp 0 17)) (Some (mkTimestamp 0 17))).
Proof.
  apply (served_users_valid (HG := Gateway.codec0) (fun _ => true) UserService.parse0 Config.sample
    (Some Chain.key_auth) MemoryRepository.repository Gateway.range0 MemoryRepository.users MemoryRepository.wf
    (fun u => u) empty0 answered0 (fun _ _ => reflexivity _) (contract_safety _ _ _ _ MemoryRepository.memory_laws))
    with (id := "user-30313233343536373839616263646566").
  - split; [done|]. split; [done|]. vm_compute. discriminate.
  - apply rtc_l with created0; [|apply rtc_once]; eexists _, _; reflexivity.
  - vm_compute. reflexivity.
Defined.

End System.
