(* ===== verification/Accountability.v ===== *)
(** Accountability: every change of the stored users that a gRPC call makes is in
    the audit trail under the authenticated caller's name, and one that the REST
    gateway makes is not.

    A chain of interceptors is followed as a relation on the state it starts and
    ends in: a preorder that emitting telemetry respects is kept by every
    interceptor whose handler keeps it, whatever the interceptor's own state; the
    audit interceptor alone establishes it. *)
From S2P Require Import Prelude GoStrings GoErrors Storage Memory UserService Gateway Config Rpc Auth Interceptors.
From S2P Require Import Chain Server System.
From stdpp Require Import relations.

Module Accountability.
Import Auth Interceptors System.

(** * Relations that a call keeps *)

Definition trails {S A} (R : S -> S -> Prop) (m : M S A) : Prop := forall w s, R s (state_of m w s).

(** The relation at the states around an interceptor's own. *)
Definition lifted {T S} (R : S -> S -> Prop) (ts ts' : T * S) : Prop := R (snd ts) (snd ts').

#[export] Instance lifted_preorder {T S} (R : S -> S -> Prop) `{!PreOrder R} : PreOrder (lifted (T := T) R).
Proof. split; [by intros [? ?]; red; reflexivity|]. intros [? ?] [? ?] [? ?] H1 H2. red. by etrans. Qed.

(** Emitting telemetry keeps the relation. *)
Class Telling {S} `{!Telemetry S} (R : S -> S -> Prop) := telling : forall e s, R s (emit e s).

#[export] Instance lifted_telling {T S} `{!Telemetry S} (R : S -> S -> Prop) `{!Telling R} :
  Telling (lifted (T := T) R).
Proof. intros e [t s]. exact (telling e s). Qed.

Create HintDb trails discriminated.

Section rules.
Context {S : Type} (R : S -> S -> Prop) `{!PreOrder R}.

Lemma trails_ret {A} (a : A) : trails R (retM a).
Proof using All. by intros w s; cbn. Qed.
Lemma trails_now : trails R nowM.
Proof using All. by intros w s; cbn. Qed.

Lemma trails_bind {A B} (m : M S A) (k : A -> M S B) :
  trails R m -> (forall a, trails R (k a)) -> trails R (bindM m k).
Proof using All.
  intros Hm Hk w s. specialize (Hm w s). unfold trails in *. unfold_monad.
  destruct (m (w, s)) as [a [w1 s1]]. cbn in *. etrans; [exact Hm|]. apply Hk.
Qed.

Lemma trails_inner {T A} (m : M S A) : trails R m -> trails (lifted (T := T) R) (innerM m).
Proof using.
  intros Hm w [t s]. specialize (Hm w s). unfold trails, lifted in *. unfold_monad.
  by destruct (m (w, s)) as [a [w1 s1]].
Qed.

(** The interceptor's own state is no part of the relation. *)
Lemma trails_outer {T A} (m : M T A) : trails (lifted R) (outerM (S := S) m).
Proof using All.
  intros w [t s]. unfold trails, lifted. unfold_monad. by destruct (m (w, t)) as [a [w1 t1]].
Qed.

Lemma trails_after {A B} (m : M S (outcome A)) (k : res A -> M S (outcome B)) :
  trails R m -> (forall r, trails R (k r)) -> trails R (after m k).
Proof using All. intros Hm Hk. apply trails_bind; [done|]. intros [r|v]; [apply Hk|apply trails_ret]. Qed.

Lemma trails_deferred {A} (m : M S (outcome A)) (d : M S unit) :
  trails R m -> trails R d -> trails R (deferred m d).
Proof using All. intros. repeat (apply trails_bind; [done|intros]). apply trails_ret. Qed.

Lemma trails_fail {A} err : trails R (fail (A := A) err).
Proof using All. apply trails_ret. Qed.

Lemma trails_emit `{!Telemetry S, !Telling R} e : trails R (emitM e).
Proof using. intros w s. exact (telling e s). Qed.
End rules.
#[export] Hint Resolve trails_ret trails_now trails_emit trails_fail trails_outer : trails.

(** Follow binds, branches and the combinators of handlers. *)
Ltac trail :=
  repeat first
    [ solve [auto with trails typeclass_instances]
    | apply trails_bind; [typeclasses eauto| |intros]
    | apply trails_after; [typeclasses eauto| |intros]
    | apply trails_deferred; [typeclasses eauto| |]
    | apply trails_inner
    | match goal with |- trails _ (match ?x with _ => _ end) => destruct x end ].

(** * Every interceptor keeps what its handler keeps *)

Section interceptors.
Context `{HK : PublicKeys} `{HL : !Libraries} {S : Type} `{!Telemetry S} (R : S -> S -> Prop) `{!PreOrder R, !Telling R}.
Context (valid_utf8 : string -> bool) {A : Type} (method : string).
Implicit Types (handler : Handler S A) (ctx : RpcCtx).

Lemma trails_recovery ctx handler :
  trails R (handler ctx) -> trails R (UnaryPanicRecoveryInterceptor ctx method handler).
Proof using PreOrder0 Telling0. intros H. unfold UnaryPanicRecoveryInterceptor. trail. Qed.

Lemma trails_request_id ctx handler :
  (forall rid, trails R (handler (set_request_id ctx rid))) -> trails R (UnaryRequestIDInterceptor ctx method handler).
Proof using.
  intros H w s. unfold UnaryRequestIDInterceptor, trails in *. unfold_monad.
  destruct (withRequestID_run ctx w s) as (rid & w' & ->). apply H.
Qed.

Lemma trails_logging ctx handler :
  trails R (handler ctx) -> trails R (UnaryLoggingInterceptor valid_utf8 ctx method handler).
Proof using PreOrder0 Telling0. intros H. unfold UnaryLoggingInterceptor. trail. Qed.

Lemma trails_metrics ctx handler :
  trails R (handler ctx) -> trails R (UnaryMetricsInterceptor ctx method handler).
Proof using PreOrder0 Telling0. intros H. unfold UnaryMetricsInterceptor. trail. Qed.

Lemma trails_audit ctx handler :
  trails R (handler ctx) -> trails R (UnaryAuditInterceptor valid_utf8 ctx method handler).
Proof using PreOrder0 Telling0. intros H. unfold UnaryAuditInterceptor, auditMutation. trail. Qed.

Lemma trails_timeout timeout ctx handler :
  (forall base, trails R (handler (withBase ctx base))) -> trails R (handler ctx) ->
  trails R (UnaryTimeoutInterceptor timeout ctx method handler).
Proof using.
  intros H H0. unfold UnaryTimeoutInterceptor, withTimeout. case_match; [done|].
  destruct (base_ctx ctx); intros w s; unfold context_WithTimeout, trails in *; unfold_monad; [apply H|apply H0].
Qed.

Lemma trails_emits events s : R s (emits events s).
Proof using PreOrder0 Telling0.
  revert s. induction events as [|e es IH]; intros s; [done|]. etrans; [apply (telling e s)|apply IH].
Qed.

(** The handler runs for a principal the authenticator vouches for. *)
Lemma trails_auth auth ctx handler :
  requiresAuth method = true ->
  (forall a c w, auth = Some a -> principal a ctx c w ->
     trails R (handler (withClaims (withClientID ctx (Subject c)) c))) ->
  trails R (UnaryAuthInterceptorWithAuthenticator valid_utf8 auth ctx method handler).
Proof using PreOrder0 Telling0.
  intros Hm H w s. unfold UnaryAuthInterceptorWithAuthenticator, state_of. rewrite Hm. unfold bindM at 1.
  destruct (authenticatePrincipal auth ctx (w, s)) as [r [w1 s1]] eqn:Hp.
  apply authenticatePrincipal_sound in Hp as (events & Hs1 & Hr). cbn in Hs1. subst s1.
  etrans; [apply (trails_emits events)|]. destruct r as [c|].
  - destruct Hr as (a & -> & Hpr). specialize (H a c w eq_refl Hpr).
    change (trails R (handler (withClaims (withClientID ctx (Subject c)) c))) in H.
    match goal with |- R _ (snd (snd (?m _))) => assert (Hm' : trails R m) end; [|apply Hm'].
    unfold auditAuthDecision. trail.
  - match goal with |- R _ (snd (snd (?m _))) => assert (Hm' : trails R m) end; [|apply Hm'].
    unfold auditAuthDecision. trail.
Qed.

Lemma trails_authz policy defaultDeny ctx c handler :
  requiresAuth method = true -> ctx_claims ctx = Some c ->
  (permitted policy defaultDeny method c -> trails R (handler ctx)) ->
  trails R (UnaryAuthorizationInterceptor valid_utf8 policy defaultDeny ctx method handler).
Proof using PreOrder0 Telling0.
  intros Hm Hc H. unfold UnaryAuthorizationInterceptor. rewrite Hm. cbn [negb].
  unfold authorize, permitted, auditAuthDecision, ClaimsFromContext in *. rewrite Hc.
  destruct (policy !! method) as [required|]; [|destruct defaultDeny].
  - case_bool_decide as Hr.
    + intros w s. apply H. left. by destruct required.
    + destruct (hasAnyScope (Scopes c) required) eqn:Hsc.
      * intros w s. apply H. right. by apply hasAnyScope_true.
      * intros w s. exact (telling _ s).
  - intros w s. exact (telling _ s).
  - intros w s. by apply H.
Qed.

Lemma trails_rate `{RateLimiter} ctx handler :
  trails R (handler ctx) -> trails (lifted (T := Bucket) R) (NewRateLimitInterceptors ctx method handler).
Proof using PreOrder0 Telling0. intros Hh. unfold NewRateLimitInterceptors. trail. Qed.

Lemma trails_per_client `{RateLimiter} ctx handler :
  trails R (handler ctx) ->
  trails (lifted (T := PerClientRateLimiter) R) (NewPerClientRateLimitInterceptors ctx method handler).
Proof using PreOrder0 Telling0. intros Hh. unfold NewPerClientRateLimitInterceptors. trail. Qed.

Lemma trails_concurrency max ctx handler :
  trails R (handler ctx) -> trails (lifted (T := Z) R) (NewConcurrencyLimitInterceptor max ctx method handler).
Proof using PreOrder0 Telling0. intros Hh. unfold NewConcurrencyLimitInterceptor. trail. Qed.

Lemma trails_stream_logging ctx (handler : Handler S unit) :
  trails R (handler ctx) -> trails R (StreamLoggingInterceptor valid_utf8 ctx method handler).
Proof using PreOrder0 Telling0. intros H. unfold StreamLoggingInterceptor. trail. Qed.

Lemma trails_stream_metrics ctx (handler : Handler S unit) :
  trails R (handler ctx) -> trails R (StreamMetricsInterceptor ctx method handler).
Proof using PreOrder0 Telling0. intros H. unfold StreamMetricsInterceptor. trail. Qed.
End interceptors.

(** * The chains *)

Section chains.
Context `{HK : PublicKeys} `{HL : !Libraries} `{HB : RateLimiter} (valid_utf8 : string -> bool).
Context {S : Type} `{!Telemetry S} (R : S -> S -> Prop) `{!PreOrder R, !Telling R}.
Context (cfg : Config.Config) (auth : option Authenticator) (ctx : RpcCtx) (method : string)
  (Hm : requiresAuth method = true).

Tactic Notation "through" uconstr(rule) := eapply rule; try typeclasses eauto; try done.

(** A chain keeps what its audit interceptor keeps for an admitted caller. *)
Lemma unary_chain_trails {A} (handler : Handler S A) :
  (forall ctx', Chain.admitted cfg auth method ctx ctx' ->
     trails R (UnaryAuditInterceptor valid_utf8 ctx' method (fun ctx =>
                 UnaryTimeoutInterceptor (Config.Timeout (Config.Server cfg)) ctx method handler))) ->
  trails (lifted (lifted (lifted R))) (Chain.unary_chain valid_utf8 cfg auth ctx method handler).
Proof using PreOrder0 Telling0 Hm.
  intros H. unfold Chain.unary_chain, Chain.ServerState. through trails_recovery. through trails_request_id. intros rid.
  through trails_logging. through trails_metrics. through trails_rate. through trails_auth. intros a c w -> Hp.
  through trails_per_client. through trails_authz. intros Hperm. through trails_concurrency.
  apply H. by exists a, c, w.
Qed.

Lemma stream_chain_trails (handler : Handler S unit) :
  (forall ctx', Chain.admitted cfg auth method ctx ctx' -> trails R (handler ctx')) ->
  trails (lifted (lifted (lifted R))) (Chain.stream_chain valid_utf8 cfg auth ctx method handler).
Proof using PreOrder0 Telling0 Hm.
  intros H. unfold Chain.stream_chain, Chain.ServerState. Chain.as_unary. through trails_recovery. Chain.as_unary.
  through trails_request_id. intros rid. through trails_stream_logging. through trails_stream_metrics.
  through trails_rate. Chain.as_unary. through trails_auth. intros a c w -> Hp. through trails_per_client.
  Chain.as_unary. through trails_authz. intros Hperm. Chain.as_unary. through trails_audit. apply trails_inner.
  apply H. by exists a, c, w.
Qed.
End chains.

(** * The trail of the server *)

(** The caller and the full name of the method of a gRPC call; the gateway has
    neither. *)
Definition door (r : request) : option (RpcCtx * string) :=
  match r with
  | GetUser ctx _ => Some (ctx, service_method "GetUser")
  | ListUsers ctx _ => Some (ctx, service_method "ListUsers")
  | CreateUser ctx _ => Some (ctx, service_method "CreateUser")
  | UpdateUser ctx _ => Some (ctx, service_method "UpdateUser")
  | DeleteUser ctx _ => Some (ctx, service_method "DeleteUser")
  | StreamUserEvents ctx _ _ _ => Some (ctx, service_method "StreamUserEvents")
  | CollectUserMetrics ctx _ _ => Some (ctx, service_method "CollectUserMetrics")
  | ChatStream ctx _ _ => Some (ctx, service_method "ChatStream")
  | Http _ => None
  end.

(** What has been logged, counted and audited. *)
Definition trail_of {HB : RateLimiter} {S} (st : Chain.ServerState (S * list telemetry)) : list telemetry :=
  snd (snd (snd (snd st))).

Section accountable.
Context `{HK : PublicKeys} `{HL : !Libraries} `{HB : RateLimiter} `{HG : Gateway.Codec}.
Context (valid_utf8 : string -> bool) (ParseAddress : string -> option string).
Context (cfg : Config.Config) (auth : option Authenticator).
Context {S : Type} (repository : Repository S).
Context (range : nat -> gmap string (list (Gateway.handler (S := S))) ->
                 list (string * list (Gateway.handler (S := S))))
        (Hrange : forall n mux, range n mux ≡ₚ map_to_list mux).
Context (view : S -> gmap string User) (rinv : S -> Prop) (norm : User -> User)
  `{HS : !RepositorySafety repository view rinv norm}.

Abbreviation svc := (userService cfg repository).
Abbreviation sinv := (UserService.sinv ParseAddress svc view rinv).

(** An audit record of a call of [method] by a principal that the caller of
    context [ctx] proved to be, and that the policy admits. *)
Definition attributed (ctx : RpcCtx) (method : string) (e : telemetry) : Prop :=
  exists a c w rid code dur, auth = Some a /\ principal a ctx c w /\
    permitted (Config.MethodScopes (Config.Auth cfg)) (Config.DefaultDeny (Config.Auth cfg)) method c /\
    e = AuditMutation method (Subject c) rid code dur.

(** The trail only grows, and a change of the users has its record in it. *)
Definition accountable (P : telemetry -> Prop) (s s' : S * list telemetry) : Prop :=
  sinv (fst s) -> sinv (fst s') /\
  exists events, snd s' = snd s ++ events /\ (view (fst s') = view (fst s) \/ Exists P events).

#[export] Instance accountable_preorder P : PreOrder (accountable P).
Proof using.
  split.
  - intros [s l] Hi. split; [done|]. exists []. split; [by rewrite app_nil_r|by left].
  - intros [s1 l1] [s2 l2] [s3 l3] H12 H23 Hi. destruct (H12 Hi) as (Hi2 & e1 & Hl2 & Hv2).
    destruct (H23 Hi2) as (Hi3 & e2 & Hl3 & Hv3). split; [done|]. cbn in *. subst. exists (e1 ++ e2).
    split; [by rewrite app_assoc|]. rewrite Exists_app.
    destruct Hv2 as [Hv2|]; [|by right; left]. destruct Hv3 as [Hv3|]; [left; congruence|by right; right].
Qed.

#[local] Instance accountable_telling P : Telling (accountable P).
Proof using. intros e [s l] Hi. split; [done|]. exists [e]. split; [done|by left]. Qed.

(** ** Handlers *)

(** A handler that returns, keeps the users valid and tells nothing itself. *)
Definition quiet {A} (handler : Handler (S * list telemetry) A) : Prop := forall ctx w s events, sinv s ->
  exists r w' s', handler ctx (w, (s, events)) = (Returned r, (w', (s', events))) /\ sinv s'.

Lemma quiet_grpc {A} (call : option Ctx -> M S (res A)) :
  (forall c w s, sinv s -> sinv (state_of (call c) w s)) -> quiet (Server.grpc_handler call).
Proof using.
  intros Hc ctx w s events Hi. specialize (Hc (base_ctx ctx) w s Hi). unfold Server.grpc_handler. unfold_monad.
  destruct (call _ (w, s)) as [r [w1 s1]]. by do 3 eexists.
Qed.

Lemma quiet_timeout {A} timeout method (handler : Handler (S * list telemetry) A) :
  quiet handler -> quiet (fun ctx => UnaryTimeoutInterceptor timeout ctx method handler).
Proof using.
  intros H ctx w s events Hi. unfold UnaryTimeoutInterceptor, withTimeout, context_WithTimeout.
  case_match; [by apply H|]. destruct (base_ctx ctx); unfold_monad; by apply H.
Qed.

(** The audit interceptor records what a quiet handler did. *)
Lemma audited_call {A} (P : telemetry -> Prop) ctx method (handler : Handler (S * list telemetry) A) :
  isMutation method = true -> quiet handler ->
  (forall rid code dur, P (AuditMutation method (extractClientID ctx) rid code dur)) ->
  trails (accountable P) (UnaryAuditInterceptor valid_utf8 ctx method handler).
Proof using.
  intros Hm Hq HP w [s events] Hi. unfold UnaryAuditInterceptor, after, auditMutation, emitM. unfold_monad.
  destruct (Hq ctx (tick w) s events Hi) as (r & w' & s' & -> & Hi'). rewrite Hm. cbn. split; [done|].
  eexists [_]. split; [done|]. right. by apply Exists_cons_hd, HP.
Qed.

(** A quiet handler that only reads. *)
Lemma reading_call {A} (P : telemetry -> Prop) ctx (handler : Handler (S * list telemetry) A) :
  quiet handler ->
  (forall ctx w s events, rinv s -> view (fst (state_of (handler ctx) w (s, events))) = view s) ->
  trails (accountable P) (handler ctx).
Proof using.
  intros Hq Hv w [s events] Hi. specialize (Hv ctx w s events (proj1 Hi)). cbn [fst snd] in Hi.
  unfold state_of in *. destruct (Hq ctx w s events Hi) as (r & w' & s' & Heq & Hi'). rewrite Heq in *. cbn in *.
  split; [done|]. exists []. split; [by rewrite app_nil_r|by left].
Qed.

(** ** Calls *)

Abbreviation trail R := (lifted (T := Bucket) (lifted (T := PerClientRateLimiter) (lifted (T := Z) R))).
Abbreviation unary := (unary valid_utf8 cfg auth).
Abbreviation stream := (stream valid_utf8 cfg auth).

Lemma unary_trails {Q A} (P : telemetry -> Prop) ctx name (dec : res Q) (call : option Ctx -> option Q -> M S (res A)) :
  (forall rq ctx', Chain.admitted cfg auth (service_method name) ctx ctx' ->
     trails (accountable P) (UnaryAuditInterceptor valid_utf8 ctx' (service_method name) (fun ctx =>
       UnaryTimeoutInterceptor (Config.Timeout (Config.Server cfg)) ctx (service_method name)
         (Server.grpc_handler (fun c => call c (Some rq)))))) ->
  requiresAuth (service_method name) = true ->
  trails (trail (accountable P)) (unary ctx name dec call ;;; retM tt).
Proof using.
  intros H Hm. apply trails_bind; [typeclasses eauto| |intros; apply trails_ret; typeclasses eauto].
  unfold System.unary. destruct dec as [rq|err]; [|apply trails_ret; typeclasses eauto].
  apply unary_chain_trails; [typeclasses eauto..|done|apply H].
Qed.

(** A mutation leaves a record under the name of its principal. *)
Lemma mutation_trails {Q A} ctx name (dec : res Q) (call : option Ctx -> option Q -> M S (res A)) :
  requiresAuth (service_method name) = true -> isMutation (service_method name) = true ->
  (forall c rq w s, sinv s -> sinv (state_of (call c rq) w s)) ->
  trails (trail (accountable (attributed ctx (service_method name)))) (unary ctx name dec call ;;; retM tt).
Proof using.
  intros Hm Hmut Hc. apply unary_trails; [|done]. intros rq ctx' (a & c & w & Ha & Hp & Hperm & _ & Hid).
  apply audited_call; [done|apply quiet_timeout, quiet_grpc; intros; by apply Hc|].
  intros rid code dur. unfold extractClientID. rewrite Hid. by exists a, c, w, rid, code, dur.
Qed.

Lemma reading_trails {Q A} P ctx name (dec : res Q) (call : option Ctx -> option Q -> M S (res A)) :
  requiresAuth (service_method name) = true ->
  (forall c rq w s, sinv s -> sinv (state_of (call c rq) w s)) ->
  (forall c rq w s, rinv s -> view (state_of (call c rq) w s) = view s) ->
  trails (trail (accountable P)) (unary ctx name dec call ;;; retM tt).
Proof using.
  intros Hm Hc Hv. apply unary_trails; [|done]. intros rq ctx' _. apply trails_audit; [typeclasses eauto..|].
  assert (Hcall : forall ctx, trails (accountable P) (Server.grpc_handler (fun c => call c (Some rq)) ctx)).
  { intros ctx1. apply reading_call; [apply quiet_grpc; intros; by apply Hc|]. intros ctx2 w s events Hr.
    specialize (Hv (base_ctx ctx2) (Some rq) w s Hr). unfold Server.grpc_handler. unfold_monad.
    by destruct (call _ _ (w, s)) as [r [w1 s1]]. }
  apply trails_timeout; [intros base|]; apply Hcall.
Qed.

Lemma stream_trails {A} P ctx name (call : option Ctx -> M S (A * option error)) :
  requiresAuth (service_method name) = true ->
  (forall c w s, sinv s -> sinv (state_of (call c) w s)) ->
  (forall c w s, rinv s -> view (state_of (call c) w s) = view s) ->
  trails (trail (accountable P)) (stream ctx name call ;;; retM tt).
Proof using.
  intros Hm Hc Hv. apply trails_bind; [typeclasses eauto| |intros; apply trails_ret; typeclasses eauto].
  apply stream_chain_trails; [typeclasses eauto..|done|]. intros ctx' _. apply reading_call.
  - intros ctx1 w s events Hi. specialize (Hc (base_ctx ctx1) w s Hi). unfold stream_handler. unfold_monad.
    destruct (call _ (w, s)) as [r [w1 s1]]. by do 3 eexists.
  - intros ctx1 w s events Hr. specialize (Hv (base_ctx ctx1) w s Hr). unfold stream_handler. unfold_monad.
    by destruct (call _ (w, s)) as [r [w1 s1]].
Qed.

Lemma sinv_call s s' : UserService.step ParseAddress svc s s' -> sinv s -> sinv s'.
Proof using HS. intros Hs Hi. by eapply UserService.sinv_safe_step. Qed.

Abbreviation serve := (serve valid_utf8 ParseAddress cfg auth repository range).

(** A stream changes nothing. *)
Definition is_stream (r : request) : bool :=
  match r with StreamUserEvents _ _ _ _ | CollectUserMetrics _ _ _ | ChatStream _ _ _ => true | _ => false end.

Lemma streams_trails P r : is_stream r = true -> trails (trail (accountable P)) (serve r).
Proof using HS.
  destruct r; intros [=]; cbn [System.serve].
  - apply stream_trails; [done| |]; intros c w s Hi; destruct recv; try done.
    + eapply sinv_call; [apply UserService.step_stream|done].
    + by apply (UserService.StreamUserEvents_reads svc repository view rinv norm eq_refl).
  - by apply stream_trails.
  - apply stream_trails; [done| |]; intros c w s Hi; unfold UserService.ChatStream; by rewrite chat_keeps.
Qed.

Lemma serve_trails r ctx method :
  door r = Some (ctx, method) -> trails (trail (accountable (attributed ctx method))) (serve r).
Proof using HS.
  destruct (is_stream r) eqn:Hr; [by intros _; apply streams_trails|].
  destruct r; try done; intros [= <- <-]; cbn [System.serve].
  - apply reading_trails; [done| |]; intros; [eapply sinv_call; [apply UserService.step_get|done]|].
    by apply (UserService.GetUser_reads svc repository view rinv norm eq_refl).
  - apply reading_trails; [done| |]; intros; [eapply sinv_call; [apply UserService.step_list|done]|].
    by apply (UserService.ListUsers_reads svc repository view rinv norm eq_refl).
  - apply mutation_trails; [done..|]. intros c rq w s. apply sinv_call, UserService.step_create.
  - apply mutation_trails; [done..|]. intros c rq w s. apply sinv_call, UserService.step_update.
  - apply mutation_trails; [done..|]. intros c rq w s. apply sinv_call, UserService.step_delete.
Qed.

Lemma accountable_mono (P P' : telemetry -> Prop) s s' :
  (forall e, P e -> P' e) -> accountable P s s' -> accountable P' s s'.
Proof using.
  intros HP Ha Hi. destruct (Ha Hi) as (Hi' & events & Hl & Hv). split; [done|]. exists events. split; [done|].
  destruct Hv as [Hv|Hv]; [by left|right]. by eapply Exists_impl.
Qed.
End accountable.

(** * Properties *)

(** C9: Every change of the stored users is accounted for: when a request changes
    them, it is a gRPC call whose caller proved to be a principal that the policy
    admits to the method, and the call leaves an audit record of the method
    under that principal's name; or it came through the REST gateway, and then
    it leaves no trace in the trail at all. *)
Theorem changes_are_attributed `{HK : PublicKeys} `{HL : !Libraries} `{HB : RateLimiter} `{HG : Gateway.Codec}
    valid_utf8 ParseAddress cfg auth {S} (repository : Repository S) range view rinv norm st0 st r w :
  (forall n mux, range n mux ≡ₚ map_to_list mux) ->
  RepositorySafety repository view rinv norm ->
  UserService.sinv ParseAddress (userService cfg repository) view rinv (users_of st0) ->
  rtc (step valid_utf8 ParseAddress cfg auth repository range) st0 st ->
  let st' := state_of (serve valid_utf8 ParseAddress cfg auth repository range r) w st in
  view (users_of st') <> view (users_of st) ->
  match door r with
  | Some (ctx, method) =>
      exists events, trail_of st' = trail_of st ++ events /\ Exists (attributed cfg auth ctx method) events
  | None => trail_of st' = trail_of st
  end.
Proof.
  intros Hrange HS Hi Hs st' Hne. eapply sinv_served in Hi; [|done..].
  destruct (door r) as [[ctx method]|] eqn:Hd.
  - destruct (serve_trails valid_utf8 ParseAddress cfg auth repository range view rinv norm r ctx method Hd w st Hi)
      as (_ & events & Hl & [Hv|He]); [done|]. by exists events.
  - destruct r; try done. subst st'. destruct st as (b & p & n & s & l). cbn. unfold System.http, state_of.
    by destruct (Gateway.gatewayHandler _ _ _ _ _) as [x [w1 s1]].
Qed.

(** * Witnesses *)

#[local] Existing Instance keys0.
#[local] Existing Instance libraries0.
#[local] Existing Instance Chain.limiter0.

Lemma changes_are_attributed_witness :
  exists events, trail_of created0 = trail_of empty0 ++ events /\
    Exists (attributed Config.sample (Some Chain.key_auth) Chain.key_ctx "/example.v1.UserService/CreateUser") events.
Proof.
  refine (changes_are_attributed (HG := Gateway.codec0) (fun _ => true) UserService.parse0 Config.sample
    (Some Chain.key_auth) MemoryRepository.repository Gateway.range0 MemoryRepository.users MemoryRepository.wf
    (fun u => u) empty0 empty0 (CreateUser Chain.key_ctx (Ok UserService.alice_request)) UserService.world1
    (fun _ _ => reflexivity _) (contract_safety _ _ _ _ MemoryRepository.memory_laws) _ (rtc_refl _ _) _).
  - split; [done|]. split; [done|]. vm_compute. discriminate.
  - intros H. apply (f_equal size) in H. vm_compute in H. discriminate H.
Defined.

End Accountability.
