(* ===== verification/Forwarding.v ===== *)
(** The REST gateway registered over a client: the other half of
    [pkg/pb/service.pb.gw.go], which forwards requests to a gRPC server, with the
    client of [pkg/pb/service_grpc.pb.go]. The program registers the service
    itself ([Gateway]); what the two registrations have in common, and in what
    they differ, is stated here.

    Writes to the HTTP peer succeed while it listens; it stops listening after
    [patience] messages of a stream. A response field with several values is
    written with commas between them. *)
From S2P Require Import Prelude GoStrings GoErrors Storage Memory UserService Gateway Config Rpc Auth Interceptors.
From S2P Require Import Chain Server System Client Accountability.
From stdpp Require Import relations.
From Stdlib Require Import Ascii.

#[local] Open Scope Z_scope.

Module Forwarding.
Import Auth Interceptors Gateway.

(** * The client *)

Abbreviation MD := (gmap string (list string)).
Abbreviation CallCtx := Client.CallCtx.

(** The methods with one answer, and those with a stream. *)
Inductive unary_method := MGetUser | MCreateUser | MUpdateUser | MDeleteUser | MListUsers.
Inductive stream_method := MStreamUserEvents | MCollectUserMetrics | MChatStream.

Definition Req (m : unary_method) : Type :=
  match m with
  | MGetUser => UserService.GetUserRequest
  | MCreateUser => UserService.CreateUserRequest
  | MUpdateUser => UserService.UpdateUserRequest
  | MDeleteUser => UserService.DeleteUserRequest
  | MListUsers => UserService.ListUsersRequest
  end.
Definition Resp (m : unary_method) : Type :=
  match m with
  | MGetUser | MCreateUser | MUpdateUser => User
  | MDeleteUser => unit
  | MListUsers => UserService.ListUsersResponse
  end.
Definition SReq (m : stream_method) : Type :=
  match m with
  | MStreamUserEvents => UserService.StreamUserEventsRequest
  | MCollectUserMetrics => UserService.MetricData
  | MChatStream => UserService.ChatMessage
  end.
Definition SResp (m : stream_method) : Type :=
  match m with
  | MStreamUserEvents => UserService.UserEvent
  | MCollectUserMetrics => UserService.CollectMetricsResponse
  | MChatStream => UserService.ChatMessage
  end.

Definition method_name (m : unary_method) : string :=
  match m with
  | MGetUser => "GetUser" | MCreateUser => "CreateUser" | MUpdateUser => "UpdateUser"
  | MDeleteUser => "DeleteUser" | MListUsers => "ListUsers"
  end.
Definition stream_name (m : stream_method) : string :=
  match m with
  | MStreamUserEvents => "StreamUserEvents" | MCollectUserMetrics => "CollectUserMetrics" | MChatStream => "ChatStream"
  end.

(** [grpc.ClientConnInterface] and the streams it opens. A call yields the header
    metadata next to its answer. *)
Record ClientConn (S : Type) := mkConn {
  Stream : stream_method -> Type;
  Invoke : forall m, CallCtx -> Req m -> M S (MD * res (Resp m));
  NewStream : forall m, CallCtx -> M S (res (Stream m));
  SendMsg : forall m, Stream m -> SReq m -> M S (option error);
  CloseSend : forall m, Stream m -> M S (option error);
  stream_Header : forall m, Stream m -> M S (res MD);
  RecvMsg : forall m, Stream m -> M S (res (SResp m))
}.
Arguments Stream {S} _ _.
Arguments Invoke {S} _ _ _ _.
Arguments NewStream {S} _ _ _.
Arguments SendMsg {S} _ _ _ _.
Arguments CloseSend {S} _ _ _.
Arguments stream_Header {S} _ _ _.
Arguments RecvMsg {S} _ _ _.

(** [UserServiceClient], with the operations of the streams it returns. *)
Record UserServiceClient (S : Type) := mkClient {
  GetUser : CallCtx -> UserService.GetUserRequest -> M S (MD * res User);
  CreateUser : CallCtx -> UserService.CreateUserRequest -> M S (MD * res User);
  UpdateUser : CallCtx -> UserService.UpdateUserRequest -> M S (MD * res User);
  DeleteUser : CallCtx -> UserService.DeleteUserRequest -> M S (MD * res unit);
  ListUsers : CallCtx -> UserService.ListUsersRequest -> M S (MD * res UserService.ListUsersResponse);
  Events : Type;
  StreamUserEvents : CallCtx -> UserService.StreamUserEventsRequest -> M S (res Events);
  events_Header : Events -> M S (res MD);
  events_Recv : Events -> M S (res UserService.UserEvent);
  Metrics : Type;
  CollectUserMetrics : CallCtx -> M S (res Metrics);
  metrics_Send : Metrics -> UserService.MetricData -> M S (option error);
  metrics_CloseSend : Metrics -> M S (option error);
  metrics_Header : Metrics -> M S (res MD);
  metrics_CloseAndRecv : Metrics -> M S (res UserService.CollectMetricsResponse);
  Chats : Type;
  ChatStream : CallCtx -> M S (res Chats);
  chat_Send : Chats -> UserService.ChatMessage -> M S (option error);
  chat_CloseSend : Chats -> M S (option error);
  chat_Header : Chats -> M S (res MD);
  chat_Recv : Chats -> M S (res UserService.ChatMessage)
}.
Arguments GetUser {S} _ _ _.
Arguments CreateUser {S} _ _ _.
Arguments UpdateUser {S} _ _ _.
Arguments DeleteUser {S} _ _ _.
Arguments ListUsers {S} _ _ _.
Arguments Events {S} _.
Arguments StreamUserEvents {S} _ _ _.
Arguments events_Header {S} _ _.
Arguments events_Recv {S} _ _.
Arguments Metrics {S} _.
Arguments CollectUserMetrics {S} _ _.
Arguments metrics_Send {S} _ _ _.
Arguments metrics_CloseSend {S} _ _.
Arguments metrics_Header {S} _ _.
Arguments metrics_CloseAndRecv {S} _ _.
Arguments Chats {S} _.
Arguments ChatStream {S} _ _.
Arguments chat_Send {S} _ _ _.
Arguments chat_CloseSend {S} _ _.
Arguments chat_Header {S} _ _.
Arguments chat_Recv {S} _ _.

Section stubs.
Context {S : Type} (cc : ClientConn S).

(** [userServiceClient.StreamUserEvents]: the one request is sent and the sending
    side closed. *)
Definition stub_StreamUserEvents (ctx : CallCtx) (req : UserService.StreamUserEventsRequest) :
    M S (res (Stream cc MStreamUserEvents)) :=
  stream <-- NewStream cc MStreamUserEvents ctx ;;
  match stream with
  | Err err => retM (Err err)
  | Ok x =>
      err <-- SendMsg cc MStreamUserEvents x req ;;
      match err with
      | Some err => retM (Err err)
      | None =>
          err <-- CloseSend cc MStreamUserEvents x ;;
          retM (match err with Some err => Err err | None => Ok x end)
      end
  end.

(** [GenericClientStream.CloseAndRecv]. *)
Definition CloseAndRecv (x : Stream cc MCollectUserMetrics) : M S (res UserService.CollectMetricsResponse) :=
  err <-- CloseSend cc MCollectUserMetrics x ;;
  match err with
  | Some err => retM (Err err)
  | None => RecvMsg cc MCollectUserMetrics x
  end.

Definition NewUserServiceClient : UserServiceClient S := {|
  GetUser := Invoke cc MGetUser;
  CreateUser := Invoke cc MCreateUser;
  UpdateUser := Invoke cc MUpdateUser;
  DeleteUser := Invoke cc MDeleteUser;
  ListUsers := Invoke cc MListUsers;
  StreamUserEvents := stub_StreamUserEvents;
  events_Header := stream_Header cc MStreamUserEvents;
  events_Recv := RecvMsg cc MStreamUserEvents;
  CollectUserMetrics := NewStream cc MCollectUserMetrics;
  metrics_Send := SendMsg cc MCollectUserMetrics;
  metrics_CloseSend := CloseSend cc MCollectUserMetrics;
  metrics_Header := stream_Header cc MCollectUserMetrics;
  metrics_CloseAndRecv := CloseAndRecv;
  ChatStream := NewStream cc MChatStream;
  chat_Send := SendMsg cc MChatStream;
  chat_CloseSend := CloseSend cc MChatStream;
  chat_Header := stream_Header cc MChatStream;
  chat_Recv := RecvMsg cc MChatStream
|}.
End stubs.

(** * Writing responses *)

(** [textproto.CanonicalMIMEHeaderKey] of a token. *)
Fixpoint canonical (upper : bool) (l : list ascii) : list ascii :=
  match l with
  | [] => []
  | c :: l => (if upper then upper_ascii c else lower_ascii c) :: canonical (Ascii.eqb c "-") l
  end.
Definition CanonicalMIMEHeaderKey (key : string) : string := of_bytes (canonical true (bytes_of key)).

(** [http.Header.Add]. *)
Definition Header_Add (k v : string) (header : gmap string string) : gmap string string :=
  let k := CanonicalMIMEHeaderKey k in
  <[k := match header !! k with Some v' => v' +:+ ", " +:+ v | None => v end]> header.

(** [defaultOutgoingHeaderMatcher]. *)
Definition outgoingHeaderMatcher (key : string) : string := "Grpc-Metadata-" +:+ key.

Definition handleForwardResponseServerMetadata (md : MD) (header : gmap string string) : gmap string string :=
  map_fold (fun k vs header => fold_left (fun header v => Header_Add (outgoingHeaderMatcher k) v header) vs header)
    header md.

(** What a response is written to: its header fields until the first byte, its
    status since. *)
Record Writer := mkWriter { w_header : gmap string string; w_status : option Z; w_body : string }.
Definition written (w : Writer) : Response := mkResponse (default 200 (w_status w)) (w_header w) (w_body w).
Definition Write (buf : string) (w : Writer) : Writer :=
  mkWriter (w_header w) (Some (default 200 (w_status w))) (w_body w +:+ buf).
Definition WriteHeader (st : Z) (w : Writer) : Writer :=
  match w_status w with Some _ => w | None => mkWriter (w_header w) (Some st) (w_body w) end.
Definition Set_ContentType (v : string) (w : Writer) : Writer :=
  match w_status w with Some _ => w | None => mkWriter (<["Content-Type" := v]> (w_header w)) None (w_body w) end.

(** The runtime's decoders of streams and of queries next to a path parameter,
    and [AnnotateContext], which makes the metadata of a call of the fields of a
    request. A stream of messages is what the decoder yields before [io.EOF]. *)
Class StreamCodec := mkStreamCodec {
  decode_metrics : string -> list (res UserService.MetricData);
  decode_chat : string -> list (res UserService.ChatMessage);
  populate_events : UserService.StreamUserEventsRequest -> string -> res UserService.StreamUserEventsRequest;
  AnnotateContext : Request -> string -> res CallCtx
}.

Section forwarding.
Context `{HC : Codec} `{HF : StreamCodec} {S : Type} (client : UserServiceClient S).
Implicit Types (pathParams header : gmap string string) (md : MD) (req : Request).

(** [HTTPError] under a context that carries the metadata of the call. *)
Definition HTTPError_with md header (err : error) : Response :=
  let r := HTTPError header err in
  match Marshal (StatusMsg (fst (Convert err)) (snd (Convert err))) with
  | Err _ => r
  | Ok _ => mkResponse (Status r) (handleForwardResponseServerMetadata md (Header r)) (Body r)
  end.

(** [forward_UserService_GetUser_0] and the other [runtime.ForwardResponseMessage]. *)
Definition forward_message md header (resp : message) : Response :=
  let header := handleForwardResponseServerMetadata md header in
  let header := <["Content-Type" := ContentType resp]> header in
  match Marshal resp with
  | Err err => HTTPError_with md header err
  | Ok buf => mkResponse 200 header buf
  end.

(** [handleForwardResponseStreamError], with the default handler of errors. The
    marshaler is no [Delimited]. *)
Definition delimiter : string := String (ascii_of_nat 10) "".

Definition stream_error (err : error) (w : Writer) : Writer :=
  let '(c, text) := Convert err in
  let msg := ErrorChunk (StatusMsg c text) in
  let w := WriteHeader (HTTPStatusFromCode c) (Set_ContentType (ContentType msg) w) in
  match Marshal msg with
  | Err _ => w
  | Ok buf => Write delimiter (Write buf w)
  end.

(** One message of the loop of [ForwardResponseStream]: what is written, and
    whether the loop goes on. *)
Definition forward_chunk (resp : message) (w : Writer) : Writer * bool :=
  let w := Set_ContentType (ContentType resp) w in
  match Marshal (ResultChunk resp) with
  | Err err => (stream_error err w, false)
  | Ok buf => (Write delimiter (Write buf w), true)
  end.

Definition forward_received {A} (to_message : A -> message) (r : res A) (w : Writer) : Writer * bool :=
  match r with
  | Err err => (if Is err EEOF then w else stream_error err w, false)
  | Ok resp => forward_chunk (to_message resp) w
  end.

Fixpoint forward_loop {A} (patience : nat) (recv : M S (res A)) (to_message : A -> message) (w : Writer) : M S Writer :=
  match patience with
  | O => retM w
  | Datatypes.S patience =>
      r <-- recv ;;
      let '(w, go) := forward_received to_message r w in
      if go then forward_loop patience recv to_message w else retM w
  end.

Definition start_stream md header : Writer := mkWriter (handleForwardResponseServerMetadata md header) None "".

Definition ForwardResponseStream {A} patience (recv : M S (res A)) (to_message : A -> message) md header : M S Response :=
  w <-- forward_loop patience recv to_message (start_stream md header) ;;
  retM (written w).

(** * The request functions *)

(** A request whose body carries nothing for the call is read to its end first. *)
Definition discard_body (r : Request) : Request :=
  mkRequest (req_Context r) (Method r) (Path r) (Query r) (req_Header r) "" (req_Form r).

Definition request_UserService_GetUser_0 (ctx : CallCtx) req pathParams : M S (MD * res User) :=
  match pathParams !! "id" with
  | None => retM (∅, Err (invalid_argument "missing parameter id"))
  | Some val => GetUser client ctx (UserService.mkGetUser val)
  end.

Definition request_UserService_CreateUser_0 (ctx : CallCtx) req pathParams : M S (MD * res User) :=
  match decode_create (req_Body req) with
  | Ok protoReq => CreateUser client ctx protoReq
  | Err err => if Is err EEOF then CreateUser client ctx (UserService.mkCreateUser "" "" 0 "")
               else retM (∅, Err (invalid_argument (error_text err)))
  end.

Definition request_UserService_UpdateUser_0 (ctx : CallCtx) req pathParams : M S (MD * res User) :=
  let call (protoReq : UserService.UpdateUserRequest) :=
    match pathParams !! "id" with
    | None => retM (∅, Err (invalid_argument "missing parameter id"))
    | Some val =>
        UpdateUser client ctx
          (UserService.mkUpdateUser val (UserService.update_Name protoReq) (UserService.update_Email protoReq)
             (UserService.update_Age protoReq))
    end in
  match decode_update (req_Body req) with
  | Ok protoReq => call protoReq
  | Err err => if Is err EEOF then call (UserService.mkUpdateUser "" "" "" 0)
               else retM (∅, Err (invalid_argument (error_text err)))
  end.

Definition request_UserService_DeleteUser_0 (ctx : CallCtx) req pathParams : M S (MD * res unit) :=
  match pathParams !! "id" with
  | None => retM (∅, Err (invalid_argument "missing parameter id"))
  | Some val => DeleteUser client ctx (UserService.mkDeleteUser val)
  end.

Definition request_UserService_ListUsers_0 (ctx : CallCtx) req pathParams : M S (MD * res UserService.ListUsersResponse) :=
  match ParseForm (discard_body req) with
  | Err err => retM (∅, Err (invalid_argument (error_text err)))
  | Ok req =>
      match populate_list (default "" (req_Form req)) with
      | Err err => retM (∅, Err (invalid_argument (error_text err)))
      | Ok protoReq => ListUsers client ctx protoReq
      end
  end.

(** The stream, once its header has arrived. *)
Definition request_UserService_StreamUserEvents_0 (ctx : CallCtx) req pathParams : M S (MD * res (Events client)) :=
  match pathParams !! "user_id" with
  | None => retM (∅, Err (invalid_argument "missing parameter user_id"))
  | Some val =>
      match ParseForm (discard_body req) with
      | Err err => retM (∅, Err (invalid_argument (error_text err)))
      | Ok req =>
          match populate_events (UserService.mkStreamUserEvents val []) (default "" (req_Form req)) with
          | Err err => retM (∅, Err (invalid_argument (error_text err)))
          | Ok protoReq =>
              stream <-- StreamUserEvents client ctx protoReq ;;
              match stream with
              | Err err => retM (∅, Err err)
              | Ok stream =>
                  header <-- events_Header client stream ;;
                  retM (match header with Err err => (∅, Err err) | Ok header => (header, Ok stream) end)
              end
          end
      end
  end.

(** The loop that sends what is decoded: [None] when it is left for the answer. *)
Fixpoint send_metrics (stream : Metrics client) (decoded : list (res UserService.MetricData)) : M S (option error) :=
  match decoded with
  | [] => retM None
  | Err err :: _ => retM (if Is err EEOF then None else Some (invalid_argument (error_text err)))
  | Ok protoReq :: decoded =>
      err <-- metrics_Send client stream protoReq ;;
      match err with
      | None => send_metrics stream decoded
      | Some err => retM (if Is err EEOF then None else Some err)
      end
  end.

Definition request_UserService_CollectUserMetrics_0 (ctx : CallCtx) req pathParams :
    M S (MD * res UserService.CollectMetricsResponse) :=
  stream <-- CollectUserMetrics client ctx ;;
  match stream with
  | Err err => retM (∅, Err err)
  | Ok stream =>
      err <-- send_metrics stream (decode_metrics (req_Body req)) ;;
      match err with
      | Some err => retM (∅, Err err)
      | None =>
          err <-- metrics_CloseSend client stream ;;
          match err with
          | Some err => retM (∅, Err err)
          | None =>
              header <-- metrics_Header client stream ;;
              match header with
              | Err err => retM (∅, Err err)
              | Ok header =>
                  msg <-- metrics_CloseAndRecv client stream ;;
                  retM (header, msg)
              end
          end
      end
  end.

(** [request_UserService_ChatStream_0] starts a goroutine that sends what is
    decoded and closes the sending side, while its caller waits for the header of
    the stream and then forwards what is received. *)
Inductive sender := Sending (decoded : list (res UserService.ChatMessage)) | Closing | SenderEnded.
Inductive receiver := AwaitingHeader | Receiving (w : Writer) | Answered (r : Response).

(** [handleSend], and what the loop around it does with its error. *)
Definition sender_step (stream : Chats client) (s : sender) : M S sender :=
  match s with
  | Sending (Ok protoReq :: decoded) =>
      err <-- chat_Send client stream protoReq ;;
      retM (match err with Some _ => Closing | None => Sending decoded end)
  | Sending _ => retM Closing
  | Closing => chat_CloseSend client stream ;;; retM SenderEnded
  | SenderEnded => retM SenderEnded
  end.

Definition receiver_step header (stream : Chats client) (r : receiver) : M S receiver :=
  match r with
  | AwaitingHeader =>
      md <-- chat_Header client stream ;;
      retM (match md with
            | Err err => Answered (HTTPError_with ∅ header err)
            | Ok md => Receiving (start_stream md header)
            end)
  | Receiving w =>
      r <-- chat_Recv client stream ;;
      let '(w, go) := forward_received ChatMsg r w in
      retM (if go then Receiving w else Answered (written w))
  | Answered r => retM (Answered r)
  end.

(** Whose turn it is, [true] for the goroutine, until the HTTP peer has what it
    gets. *)
Fixpoint converse (schedule : list bool) header (stream : Chats client) (s : sender) (r : receiver) : M S receiver :=
  match schedule with
  | [] => retM r
  | true :: schedule => s <-- sender_step stream s ;; converse schedule header stream s r
  | false :: schedule => r <-- receiver_step header stream r ;; converse schedule header stream s r
  end.

Definition received_response header (r : receiver) : Response :=
  match r with
  | AwaitingHeader => written (mkWriter header None "")
  | Receiving w => written w
  | Answered r => r
  end.

Definition request_UserService_ChatStream_0 (schedule : list bool) (ctx : CallCtx) req header : M S Response :=
  stream <-- ChatStream client ctx ;;
  match stream with
  | Err err => retM (HTTPError_with ∅ header err)
  | Ok stream =>
      r <-- converse schedule header stream (Sending (decode_chat (req_Body req))) AwaitingHeader ;;
      retM (received_response header r)
  end.

(** * The registered handlers *)

Definition annotated (rpc : string) header req (call : CallCtx -> M S Response) : M S Response :=
  match AnnotateContext req rpc with
  | Err err => retM (HTTPError header err)
  | Ok annotatedContext => call annotatedContext
  end.

(** What the handlers of methods with one answer share. *)
Definition forward_unary {A} (rpc : string) (request : CallCtx -> Request -> gmap string string -> M S (MD * res A))
    (to_message : A -> message) : HandlerFunc := fun header req pathParams =>
  annotated rpc header req (fun ctx =>
    r <-- request ctx req pathParams ;;
    retM (match snd r with
          | Err err => HTTPError_with (fst r) header err
          | Ok resp => forward_message (fst r) header (to_message resp)
          end)).

Definition forward_GetUser : HandlerFunc :=
  forward_unary "/example.v1.UserService/GetUser" request_UserService_GetUser_0 UserMsg.
Definition forward_CreateUser : HandlerFunc :=
  forward_unary "/example.v1.UserService/CreateUser" request_UserService_CreateUser_0 UserMsg.
Definition forward_UpdateUser : HandlerFunc :=
  forward_unary "/example.v1.UserService/UpdateUser" request_UserService_UpdateUser_0 UserMsg.
Definition forward_DeleteUser : HandlerFunc :=
  forward_unary "/example.v1.UserService/DeleteUser" request_UserService_DeleteUser_0 (fun _ => DeleteMsg).
Definition forward_ListUsers : HandlerFunc :=
  forward_unary "/example.v1.UserService/ListUsers" request_UserService_ListUsers_0 ListMsg.
Definition forward_StreamUserEvents (patience : nat) : HandlerFunc := fun header req pathParams =>
  annotated "/example.v1.UserService/StreamUserEvents" header req (fun ctx =>
    r <-- request_UserService_StreamUserEvents_0 ctx req pathParams ;;
    match snd r with
    | Err err => retM (HTTPError_with (fst r) header err)
    | Ok stream => ForwardResponseStream patience (events_Recv client stream) EventMsg (fst r) header
    end).
Definition forward_CollectUserMetrics : HandlerFunc :=
  forward_unary "/example.v1.UserService/CollectUserMetrics" request_UserService_CollectUserMetrics_0 SummaryMsg.
Definition forward_ChatStream (schedule : list bool) : HandlerFunc := fun header req pathParams =>
  annotated "/example.v1.UserService/ChatStream" header req (fun ctx =>
    request_UserService_ChatStream_0 schedule ctx req header).

Definition RegisterUserServiceHandlerClient (patience : nat) (schedule : list bool)
    (mux : gmap string (list handler)) : gmap string (list handler) :=
  let mux := Handle "GET" pattern_UserService_GetUser_0 forward_GetUser mux in
  let mux := Handle "POST" pattern_UserService_CreateUser_0 forward_CreateUser mux in
  let mux := Handle "PUT" pattern_UserService_UpdateUser_0 forward_UpdateUser mux in
  let mux := Handle "DELETE" pattern_UserService_DeleteUser_0 forward_DeleteUser mux in
  let mux := Handle "GET" pattern_UserService_ListUsers_0 forward_ListUsers mux in
  let mux := Handle "GET" pattern_UserService_StreamUserEvents_0 (forward_StreamUserEvents patience) mux in
  let mux := Handle "POST" pattern_UserService_CollectUserMetrics_0 forward_CollectUserMetrics mux in
  Handle "POST" pattern_UserService_ChatStream_0 (forward_ChatStream schedule) mux.

Definition forwarded (patience : nat) (schedule : list bool) : Handlers :=
  mkHandlers forward_GetUser forward_CreateUser forward_UpdateUser forward_DeleteUser forward_ListUsers
    (forward_StreamUserEvents patience) forward_CollectUserMetrics (forward_ChatStream schedule).

Lemma register_forwarded patience schedule mux :
  RegisterUserServiceHandlerClient patience schedule mux = register (forwarded patience schedule) mux.
Proof using. reflexivity. Qed.
End forwarding.

(** [RegisterUserServiceHandler]: over the connection of a client. *)
Definition RegisterUserServiceHandler `{HC : Codec} `{HF : StreamCodec} {S} patience schedule (conn : ClientConn S) mux :=
  RegisterUserServiceHandlerClient (NewUserServiceClient conn) patience schedule mux.

(** [RegisterUserServiceHandlerFromEndpoint]: over a connection it opens, which its
    goroutine closes when the context is done. *)
Definition RegisterUserServiceHandlerFromEndpoint `{HC : Codec} `{HF : StreamCodec} {S}
    (NewClient : string -> res (ClientConn S)) patience schedule mux (endpoint : string) :=
  match NewClient endpoint with
  | Err err => Err err
  | Ok conn => Ok (RegisterUserServiceHandler patience schedule conn mux, conn)
  end.

(** * What a client keeps, the gateway over it keeps *)

Import Accountability.

(** [R] is kept by the calls under contexts that [C] admits to a method, and by the
    operations of any stream. *)
Record client_keeps {S} (R : S -> S -> Prop) (C : string -> CallCtx -> Prop) (client : UserServiceClient S) : Prop := {
  keep_GetUser ctx rq : C "GetUser" ctx -> trails R (GetUser client ctx rq);
  keep_CreateUser ctx rq : C "CreateUser" ctx -> trails R (CreateUser client ctx rq);
  keep_UpdateUser ctx rq : C "UpdateUser" ctx -> trails R (UpdateUser client ctx rq);
  keep_DeleteUser ctx rq : C "DeleteUser" ctx -> trails R (DeleteUser client ctx rq);
  keep_ListUsers ctx rq : C "ListUsers" ctx -> trails R (ListUsers client ctx rq);
  keep_StreamUserEvents ctx rq : C "StreamUserEvents" ctx -> trails R (StreamUserEvents client ctx rq);
  keep_events_Header x : trails R (events_Header client x);
  keep_events_Recv x : trails R (events_Recv client x);
  keep_CollectUserMetrics ctx : C "CollectUserMetrics" ctx -> trails R (CollectUserMetrics client ctx);
  keep_metrics_Send x rq : trails R (metrics_Send client x rq);
  keep_metrics_CloseSend x : trails R (metrics_CloseSend client x);
  keep_metrics_Header x : trails R (metrics_Header client x);
  keep_metrics_CloseAndRecv x : trails R (metrics_CloseAndRecv client x);
  keep_ChatStream ctx : C "ChatStream" ctx -> trails R (ChatStream client ctx);
  keep_chat_Send x rq : trails R (chat_Send client x rq);
  keep_chat_CloseSend x : trails R (chat_CloseSend client x);
  keep_chat_Header x : trails R (chat_Header client x);
  keep_chat_Recv x : trails R (chat_Recv client x)
}.

Section keeping.
Context `{HC : Codec} `{HF : StreamCodec} {S : Type} (client : UserServiceClient S).
Context (R : S -> S -> Prop) `{!PreOrder R} (C : string -> CallCtx -> Prop) (Hclient : client_keeps R C client).

#[local] Hint Extern 1 (trails _ _) => solve [destruct Hclient; auto] : trails.

Lemma trails_forward_loop {A} patience (recv : M S (res A)) to_message w :
  trails R recv -> trails R (forward_loop patience recv to_message w).
Proof using PreOrder0.
  intros Hr. revert w. induction patience as [|n IH]; intros w; cbn [forward_loop]; [trail|].
  apply trails_bind; [done..|]. intros r. destruct (forward_received _ _ _) as [w' []]; [apply IH|trail].
Qed.

Lemma trails_send_metrics stream decoded : trails R (send_metrics client stream decoded).
Proof using PreOrder0 Hclient. induction decoded as [|[m|err] decoded IH]; cbn [send_metrics]; trail. Qed.

Lemma trails_converse schedule header stream s r : trails R (converse client schedule header stream s r).
Proof using PreOrder0 Hclient.
  revert s r. induction schedule as [|[] schedule IH]; intros s r; cbn [converse]; [trail| |];
    (apply trails_bind; [done| |intros; apply IH]); [unfold sender_step|unfold receiver_step]; trail.
Qed.

#[local] Hint Resolve trails_forward_loop trails_send_metrics trails_converse : trails.

(** The contexts of a request are admitted to the method they are made for. *)
Context (r : Request) (Hctx : forall name ctx, AnnotateContext r (System.service_method name) = Ok ctx -> C name ctx).

Lemma annotated_keeps name header (call : CallCtx -> M S Response) :
  (forall ctx, C name ctx -> trails R (call ctx)) ->
  trails R (annotated (System.service_method name) header r call).
Proof using PreOrder0 Hctx.
  intros Hc. unfold annotated. destruct (AnnotateContext _ _) as [ctx|err] eqn:Ha; [by eauto|trail].
Qed.

Lemma unary_keeps {A} name (request : CallCtx -> Request -> gmap string string -> M S (MD * res A)) to_message :
  (forall ctx ps, C name ctx -> trails R (request ctx r ps)) ->
  keeps R r (forward_unary (System.service_method name) request to_message).
Proof using PreOrder0 Hctx.
  intros Hq header ps w s. revert w s. change (trails R (forward_unary (System.service_method name) request to_message header r ps)).
  apply (annotated_keeps name header). intros ctx Hc. specialize (Hq ctx ps Hc). trail.
Qed.

Lemma forwarded_keep patience schedule : handlers_keep (forwarded client patience schedule) R r.
Proof using PreOrder0 Hclient Hctx.
  split.
  - apply (unary_keeps "GetUser"). intros ctx ps Hc. unfold request_UserService_GetUser_0. trail.
  - apply (unary_keeps "CreateUser"). intros ctx ps Hc. unfold request_UserService_CreateUser_0. trail.
  - apply (unary_keeps "UpdateUser"). intros ctx ps Hc. unfold request_UserService_UpdateUser_0. trail.
  - apply (unary_keeps "DeleteUser"). intros ctx ps Hc. unfold request_UserService_DeleteUser_0. trail.
  - apply (unary_keeps "ListUsers"). intros ctx ps Hc. unfold request_UserService_ListUsers_0. trail.
  - intros header ps. apply (annotated_keeps "StreamUserEvents" header). intros ctx Hc.
    unfold request_UserService_StreamUserEvents_0, ForwardResponseStream. trail.
  - apply (unary_keeps "CollectUserMetrics"). intros ctx ps Hc. unfold request_UserService_CollectUserMetrics_0. trail.
  - intros header ps. apply (annotated_keeps "ChatStream" header). intros ctx Hc.
    unfold request_UserService_ChatStream_0. trail.
Qed.
End keeping.

(** * Over a connection to the server *)

Section connected.
Context `{HK : PublicKeys} `{HL : !Libraries} `{HB : RateLimiter} `{HC : Codec} `{HF : StreamCodec}.
Context (valid_utf8 : string -> bool) (ParseAddress : string -> option string).
Context (cfg : Config.Config) (auth : option Authenticator).
Context {S : Type} (repository : Repository S).
Context (range : nat -> gmap string (list (handler (S := S))) -> list (string * list (handler (S := S)))).

Abbreviation State := (Chain.ServerState (S * list telemetry)).
Abbreviation serve := (System.serve valid_utf8 ParseAddress cfg auth repository range).

(** The server answers calls of [method] whose context arrived from that of a call
    of the client, any number of times. *)
Definition served_from (arrived : CallCtx -> RpcCtx -> Prop) (method : string) (ctx : CallCtx) : State -> State -> Prop :=
  rtc (fun st st' => exists r rctx w, door r = Some (rctx, System.service_method method) /\ arrived ctx rctx /\
         st' = state_of (serve r) w st).
Definition served_streams : State -> State -> Prop :=
  rtc (fun st st' => exists r w, is_stream r = true /\ st' = state_of (serve r) w st).

(** A connection reaches the state of the server only by calls of it: a call
    through [Invoke] is served under a context that arrived from its own, once,
    not at all, or, retried by the transport, several times; an operation of a
    stream lets the server run streams. *)
Class Connected (conn : ClientConn State) (arrived : CallCtx -> RpcCtx -> Prop) : Prop := mkConnected {
  Invoke_served m ctx rq : trails (served_from arrived (method_name m) ctx) (Invoke conn m ctx rq);
  NewStream_served m ctx : trails served_streams (NewStream conn m ctx);
  SendMsg_served m x rq : trails served_streams (SendMsg conn m x rq);
  CloseSend_served m x : trails served_streams (CloseSend conn m x);
  Header_served m x : trails served_streams (stream_Header conn m x);
  RecvMsg_served m x : trails served_streams (RecvMsg conn m x)
}.

(** The stubs serve what their connection serves. *)
Lemma stubs_keep (conn : ClientConn State) arrived `{!Connected conn arrived} (R : State -> State -> Prop) `{!PreOrder R} C :
  (forall name ctx st st', C name ctx -> served_from arrived name ctx st st' -> R st st') ->
  (forall st st', served_streams st st' -> R st st') ->
  client_keeps R C (NewUserServiceClient conn).
Proof using.
  intros HR Hs.
  assert (Hinvoke : forall m ctx rq, C (method_name m) ctx -> trails R (Invoke conn m ctx rq)).
  { intros m ctx rq Hc w st. eapply HR; [exact Hc|]. apply Invoke_served. }
  assert (Hop : forall A (m : M State A), trails served_streams m -> trails R m).
  { intros A m Hm w st. apply Hs, Hm. }
  assert (Hnew : forall m ctx, trails R (NewStream conn m ctx)) by (intros; eapply Hop, NewStream_served).
  assert (Hsend : forall m x rq, trails R (SendMsg conn m x rq)) by (intros; eapply Hop, SendMsg_served).
  assert (Hclose : forall m x, trails R (CloseSend conn m x)) by (intros; eapply Hop, CloseSend_served).
  assert (Hheader : forall m x, trails R (stream_Header conn m x)) by (intros; eapply Hop, Header_served).
  assert (Hrecv : forall m x, trails R (RecvMsg conn m x)) by (intros; eapply Hop, RecvMsg_served).
  split; cbn; intros; auto;
    try first [by apply (Hinvoke MGetUser)|by apply (Hinvoke MCreateUser)|by apply (Hinvoke MUpdateUser)
              |by apply (Hinvoke MDeleteUser)|by apply (Hinvoke MListUsers)
              |apply (Hrecv MStreamUserEvents)|apply (Hrecv MChatStream)].
  - unfold stub_StreamUserEvents. trail.
  - unfold CloseAndRecv. trail.
Qed.

Context (view : S -> gmap string User) (rinv : S -> Prop) (norm : User -> User)
  `{HS : !RepositorySafety repository view rinv norm}.

(** An audit record of a call that the gateway makes of request [r], by a principal
    whom the credential that arrived with the call proves. *)
Definition attributed_to_request (arrived : CallCtx -> RpcCtx -> Prop) (r : Request) (e : telemetry) : Prop :=
  exists name ctx rctx, AnnotateContext r (System.service_method name) = Ok ctx /\ arrived ctx rctx /\
    attributed cfg auth rctx (System.service_method name) e.

Abbreviation accountable P := (lifted (T := Bucket) (lifted (T := PerClientRateLimiter) (lifted (T := Z)
  (accountable ParseAddress cfg repository view rinv P)))).

Lemma served_accountable arrived r name ctx st st' :
  AnnotateContext r (System.service_method name) = Ok ctx -> served_from arrived name ctx st st' ->
  accountable (attributed_to_request arrived r) st st'.
Proof using HS.
  intros Ha. induction 1 as [st|st1 st2 st3 (rq & rctx & w & Hd & Hr & ->) _ IH]; [reflexivity|].
  etrans; [|exact IH]. eapply accountable_mono;
    [|exact (serve_trails valid_utf8 ParseAddress cfg auth repository range view rinv norm rq rctx _ Hd w st1)].
  intros e He. by exists name, ctx, rctx.
Qed.

Lemma streams_accountable P st st' : served_streams st st' -> accountable P st st'.
Proof using HS.
  induction 1 as [st|st1 st2 st3 (rq & w & Hs & ->) _ IH]; [reflexivity|]. etrans; [|exact IH].
  exact (streams_trails valid_utf8 ParseAddress cfg auth repository range view rinv norm P rq Hs w st1).
Qed.

(** The gateway over a connection to the server is accountable. *)
Lemma forwarded_accountable conn arrived `{!Connected conn arrived} range' patience schedule header r w st :
  (forall n mux, range' n mux ≡ₚ map_to_list mux) ->
  accountable (fun e => exists r', passed_on r r' /\ attributed_to_request arrived r' e) st
    (snd (snd (ServeHTTP range' (RegisterUserServiceHandler patience schedule conn ∅) header r (w, st)))).
Proof using HS.
  intros Hrange. unfold RegisterUserServiceHandler. rewrite register_forwarded.
  apply served_keeps; [done|typeclasses eauto|]. intros r' Hr.
  apply (forwarded_keep _ _ (fun name ctx => AnnotateContext r' (System.service_method name) = Ok ctx));
    [|done]. eapply stubs_keep; [done|typeclasses eauto| |].
  - intros name ctx st1 st2 Ha Hs. eapply accountable_mono; [|by eapply served_accountable]. by exists r'.
  - intros st1 st2. apply streams_accountable.
Qed.
End connected.

(** ** A connection without a network *)

Section direct.
Context `{HK : PublicKeys} `{HL : !Libraries} `{HB : RateLimiter}.
Context (valid_utf8 : string -> bool) (ParseAddress : string -> option string).
Context (cfg : Config.Config) (auth : option Authenticator) {S : Type} (repository : Repository S).

Abbreviation State := (Chain.ServerState (S * list telemetry)).
Abbreviation svc := (System.userService cfg repository).

Definition service_call (m : unary_method) : option Ctx -> option (Req m) -> M S (res (Resp m)) :=
  match m with
  | MGetUser => UserService.GetUser svc
  | MCreateUser => UserService.CreateUser ParseAddress svc
  | MUpdateUser => UserService.UpdateUser ParseAddress svc
  | MDeleteUser => UserService.DeleteUser svc
  | MListUsers => UserService.ListUsers svc
  end.

Definition request_for (m : unary_method) (ctx : RpcCtx) : Req m -> System.request :=
  match m with
  | MGetUser => fun rq => System.GetUser ctx (Ok rq)
  | MCreateUser => fun rq => System.CreateUser ctx (Ok rq)
  | MUpdateUser => fun rq => System.UpdateUser ctx (Ok rq)
  | MDeleteUser => fun rq => System.DeleteUser ctx (Ok rq)
  | MListUsers => fun rq => System.ListUsers ctx (Ok rq)
  end.

(** Every call arrives with its metadata, its answer arrives without any; no
    stream is opened. *)
Definition direct : ClientConn State := {|
  Stream := fun _ => Empty_set;
  Invoke := fun m ctx rq =>
    o <-- System.unary valid_utf8 cfg auth (Client.server_context ctx) (method_name m) (Ok rq) (service_call m) ;;
    retM (∅, match o with Returned r => r | Panicked _ => Err (EStatus codes.Unavailable "connection closed") end);
  NewStream := fun m ctx => retM (Err (EStatus codes.Unimplemented "streams are not opened"));
  SendMsg := fun m x _ => match x with end;
  CloseSend := fun m x => match x with end;
  stream_Header := fun m x => match x with end;
  RecvMsg := fun m x => match x with end
|}.

Definition arrives_unchanged (ctx : CallCtx) (rctx : RpcCtx) : Prop := rctx = Client.server_context ctx.

#[export] Instance direct_connected `{HC : Codec} range :
  Connected valid_utf8 ParseAddress cfg auth repository range direct arrives_unchanged.
Proof using.
  split; try (intros ? []; fail); [|intros m ctx w st; reflexivity].
  intros m ctx rq w st. apply rtc_once. exists (request_for m (Client.server_context ctx) rq), (Client.server_context ctx), w.
  split; [by destruct m|]. split; [done|]. cbn [Invoke direct]. unfold_monad.
  destruct m; cbn [request_for System.serve method_name service_call]; unfold_monad;
    by destruct (System.unary _ _ _ _ _ _ _ _) as [o [w' st']].
Qed.
End direct.

(** * Streams are forwarded whole *)

(** [recv] yields the values of [l] and then [last]. *)
Inductive yields {S A} (recv : M S (res A)) : World * S -> list A -> error -> World * S -> Prop :=
| yields_last ws last ws' : recv ws = (Err last, ws') -> yields recv ws [] last ws'
| yields_more ws a ws1 l last ws' : recv ws = (Ok a, ws1) -> yields recv ws1 l last ws' -> yields recv ws (a :: l) last ws'.

(** Chunks, each on a line of its own. *)
Definition lines (chunks : list string) : string := fold_right (fun buf s => buf +:+ delimiter +:+ s) "" chunks.

Section streams.
Context `{HC : Codec} {S A : Type} (recv : M S (res A)) (to_message : A -> message).
Context (written_as : A -> string) (Hmarshal : forall a, Marshal (ResultChunk (to_message a)) = Ok (written_as a)).

Lemma Set_ContentType_keeps v w : w_status (Set_ContentType v w) = w_status w /\ w_body (Set_ContentType v w) = w_body w.
Proof using. unfold Set_ContentType. by destruct (w_status w) eqn:?. Qed.

Lemma forward_loop_all patience ws l last ws' w :
  yields recv ws l last ws' -> (length l < patience)%nat ->
  exists header, forward_loop patience recv to_message w ws =
    (let w := mkWriter header (match l with [] => w_status w | _ => Some (default 200 (w_status w)) end)
                (w_body w +:+ lines (map written_as l)) in
     if Is last EEOF then w else stream_error last w, ws').
Proof using Hmarshal.
  intros Hy. revert patience w. induction Hy as [ws err ws' Hr|ws a ws1 l err ws' Hr _ IH];
    intros [|patience] w Hn; cbn [length] in Hn; try lia; cbn [forward_loop]; unfold bindM; rewrite Hr.
  - exists (w_header w). destruct w. cbn. rewrite !(right_id "" String.append). by destruct (Is _ _).
  - cbn [forward_received]. unfold forward_chunk. rewrite Hmarshal.
    destruct (Set_ContentType_keeps (ContentType (to_message a)) w) as [Hst Hbody].
    edestruct (IH patience) as (header & Heq); [lia|]. exists header. rewrite Heq. cbn [w_status w_body Write].
    rewrite Hst, Hbody. unfold lines. cbn [map fold_right]. rewrite !(assoc String.append). by destruct l.
Qed.

(** A stream that ends within the patience of the HTTP peer is written whole, in
    order, one chunk to a line, with status 200; one that fails is written up to
    its failure, which is the last chunk, and decides the status when it is the
    only one. *)
Theorem streams_are_forwarded patience md header ws l last ws' :
  yields recv ws l last ws' -> (length l < patience)%nat ->
  exists response, ForwardResponseStream patience recv to_message md header ws = (response, ws') /\
    (Is last EEOF = true -> Status response = 200 /\ Body response = lines (map written_as l)) /\
    (forall buf, Is last EEOF = false ->
       Marshal (ErrorChunk (StatusMsg (fst (Convert last)) (snd (Convert last)))) = Ok buf ->
       Status response = (match l with [] => HTTPStatusFromCode (fst (Convert last)) | _ => 200 end) /\
       Body response = lines (map written_as l ++ [buf])).
Proof using Hmarshal.
  intros Hy Hn. unfold ForwardResponseStream, bindM.
  destruct (forward_loop_all patience ws l last ws' (start_stream md header) Hy Hn) as (h' & ->).
  eexists. split; [reflexivity|]. split.
  - intros ->. cbn. by destruct l.
  - intros buf -> Hbuf. unfold stream_error. destruct (Convert last) as [c text]. cbn in Hbuf. rewrite Hbuf.
    assert (Hlines : lines (map written_as l ++ [buf]) = lines (map written_as l) +:+ buf +:+ delimiter).
    { clear. induction l as [|a l IH]; [done|]. unfold lines in *. cbn [map app fold_right]. rewrite IH.
      by rewrite !(assoc String.append). }
    rewrite Hlines. destruct l; cbn; by rewrite ?(assoc String.append).
Qed.
End streams.

(** * The two registrations *)

Section agreement.
Context `{HC : Codec} `{HF : StreamCodec} (ParseAddress : string -> option string).
Context {S : Type} (server : UserService.Service S).

(** The answer of the service, as a call without a transport yields it. *)
Definition local_answer {A} (call : M S (res A)) : M S (MD * res A) := r <-- call ;; retM (∅, r).

(** A client whose calls with one answer are those of the service. *)
Class Answers (client : UserServiceClient S) : Prop := mkAnswers {
  GetUser_answers ctx rq ws :
    GetUser client ctx rq ws = local_answer (UserService.GetUser server (Some (Client.call_ctx ctx)) (Some rq)) ws;
  CreateUser_answers ctx rq ws :
    CreateUser client ctx rq ws =
      local_answer (UserService.CreateUser ParseAddress server (Some (Client.call_ctx ctx)) (Some rq)) ws;
  UpdateUser_answers ctx rq ws :
    UpdateUser client ctx rq ws =
      local_answer (UserService.UpdateUser ParseAddress server (Some (Client.call_ctx ctx)) (Some rq)) ws;
  DeleteUser_answers ctx rq ws :
    DeleteUser client ctx rq ws = local_answer (UserService.DeleteUser server (Some (Client.call_ctx ctx)) (Some rq)) ws;
  ListUsers_answers ctx rq ws :
    ListUsers client ctx rq ws = local_answer (UserService.ListUsers server (Some (Client.call_ctx ctx)) (Some rq)) ws
}.

Definition local_client : UserServiceClient S := {|
  GetUser := fun ctx rq => local_answer (UserService.GetUser server (Some (Client.call_ctx ctx)) (Some rq));
  CreateUser := fun ctx rq => local_answer (UserService.CreateUser ParseAddress server (Some (Client.call_ctx ctx)) (Some rq));
  UpdateUser := fun ctx rq => local_answer (UserService.UpdateUser ParseAddress server (Some (Client.call_ctx ctx)) (Some rq));
  DeleteUser := fun ctx rq => local_answer (UserService.DeleteUser server (Some (Client.call_ctx ctx)) (Some rq));
  ListUsers := fun ctx rq => local_answer (UserService.ListUsers server (Some (Client.call_ctx ctx)) (Some rq));
  Events := Empty_set;
  StreamUserEvents := fun _ _ => retM (Err (EStatus codes.Unimplemented "streams are not opened"));
  events_Header := fun x => match x with end;
  events_Recv := fun x => match x with end;
  Metrics := Empty_set;
  CollectUserMetrics := fun _ => retM (Err (EStatus codes.Unimplemented "streams are not opened"));
  metrics_Send := fun x _ => match x with end;
  metrics_CloseSend := fun x => match x with end;
  metrics_Header := fun x => match x with end;
  metrics_CloseAndRecv := fun x => match x with end;
  Chats := Empty_set;
  ChatStream := fun _ => retM (Err (EStatus codes.Unimplemented "streams are not opened"));
  chat_Send := fun x _ => match x with end;
  chat_CloseSend := fun x => match x with end;
  chat_Header := fun x => match x with end;
  chat_Recv := fun x => match x with end
|}.

#[export] Instance local_client_answers : Answers local_client.
Proof using. by split. Qed.

Definition is_streaming (to : route) : bool :=
  match to with ToStreamUserEvents _ | ToCollectUserMetrics | ToChatStream => true | _ => false end.

(** Both registrations make the same context of a request, but for where its
    metadata go. *)
Definition annotates_alike (r : Request) : Prop := forall rpc,
  AnnotateIncomingContext r rpc =
  match AnnotateContext r rpc with Ok ctx => Ok (Some (Client.call_ctx ctx)) | Err err => Err err end.

(** Without metadata, responses are those of the registration of the service. *)
Lemma no_metadata header : handleForwardResponseServerMetadata ∅ header = header.
Proof using. apply map_fold_empty. Qed.
Lemma HTTPError_without header err : HTTPError_with ∅ header err = HTTPError header err.
Proof using. unfold HTTPError_with. rewrite no_metadata. destruct (Marshal _); [|done]. by destruct (HTTPError _ _). Qed.
Lemma forward_message_without header m : forward_message ∅ header m = ForwardResponseMessage header m.
Proof using.
  unfold forward_message, ForwardResponseMessage. rewrite no_metadata. destruct (Marshal m); [done|].
  apply HTTPError_without.
Qed.

Context (client : UserServiceClient S) `{!Answers client}.

Lemma unary_agree {A} rpc (request : CallCtx -> Request -> gmap string string -> M S (MD * res A))
    (local : option Ctx -> Request -> gmap string string -> M S (res A)) to_message header r ps ws :
  annotates_alike r ->
  (forall ctx ws, request ctx r ps ws = local_answer (local (Some (Client.call_ctx ctx)) r ps) ws) ->
  forward_unary rpc request to_message header r ps ws = unary rpc local to_message header r ps ws.
Proof using.
  intros Ha Hq. unfold forward_unary, annotated, unary. rewrite (Ha rpc).
  destruct (AnnotateContext r rpc) as [ctx|err]; [|done]. unfold bindM. rewrite Hq. unfold local_answer.
  unfold_monad. destruct (local _ _ _ ws) as [[a|err] ws']; cbn [fst snd].
  - by rewrite forward_message_without.
  - by rewrite HTTPError_without.
Qed.

Lemma lists_by_get m comps : route_of m comps = ToListUsers -> m = "GET".
Proof using.
  unfold route_of, same. destruct (decide (m = "GET")) as [|Hne]; [done|]. rewrite (bool_decide_eq_false_2 _ Hne).
  repeat (case_match; try done).
Qed.

Lemma ParseForm_discarded r :
  Method r = "GET" ->
  match ParseForm (discard_body r), ParseForm r with
  | Ok r1, Ok r2 => req_Form r1 = req_Form r2
  | Err err1, Err err2 => err1 = err2
  | _, _ => False
  end.
Proof using.
  intros Hm. unfold ParseForm, posts_form. cbn. rewrite Hm. cbn. destruct (req_Form r) as [f|] eqn:Hf; cbn; [by rewrite Hf|].
  destruct (query_error (Query r)); done.
Qed.

Lemma handlers_agree to patience schedule header r ws :
  annotates_alike r -> is_streaming to = false -> (to = ToListUsers -> Method r = "GET") ->
  answer (forwarded client patience schedule) to header r ws = answer (in_process ParseAddress server) to header r ws.
Proof using Answers0.
  intros Ha Hto Hget. destruct to; try done; cbn [answer forwarded in_process on_GetUser on_ListUsers on_CreateUser
    on_UpdateUser on_DeleteUser]; apply unary_agree; try exact Ha; intros ctx ws1.
  - apply GetUser_answers.
  - unfold request_UserService_ListUsers_0, local_request_UserService_ListUsers_0.
    pose proof (ParseForm_discarded r (Hget eq_refl)) as Hf.
    destruct (ParseForm (discard_body r)) as [r1|], (ParseForm r) as [r2|]; try done; [rewrite Hf|by subst].
    destruct (populate_list _); [apply ListUsers_answers|done].
  - unfold request_UserService_CreateUser_0, local_request_UserService_CreateUser_0.
    destruct (decode_create _) as [|err]; [|destruct (Is err EEOF); [|done]]; apply CreateUser_answers.
  - unfold request_UserService_UpdateUser_0, local_request_UserService_UpdateUser_0.
    rewrite lookup_singleton_eq.
    destruct (decode_update _) as [|err]; [|destruct (Is err EEOF); [|done]]; apply UpdateUser_answers.
  - apply DeleteUser_answers.
Qed.

Context (range : nat -> gmap string (list (handler (S := S))) -> list (string * list (handler (S := S)))).
Context (Hrange : forall n mux, range n mux ≡ₚ map_to_list mux).

(** C20: Registered over a client that answers as the service does, the gateway answers
    every request but those of streams, and of posted forms, as it does with the
    service registered itself; the stream methods, which it forwards, are refused
    there as unimplemented. *)
Theorem registrations_agree patience schedule header r ws :
  isPathLengthFallback r = false -> annotates_alike r -> HasPrefix (Path r) "/" = true ->
  ServeHTTP range (RegisterUserServiceHandlerServer ParseAddress server ∅) header r ws =
  if is_streaming (route_of (Method r) (segments r))
  then (HTTPError header
          (EStatus codes.Unimplemented "streaming calls are not yet supported in the in-process transport"), ws)
  else ServeHTTP range (RegisterUserServiceHandlerClient client patience schedule ∅) header r ws.
Proof using Answers0 Hrange.
  intros Hf Ha Hp. rewrite register_in_process, register_forwarded, !registered_routes, Hp by done.
  destruct (is_streaming _) eqn:Hs; [by destruct (route_of _ _)|].
  symmetry. apply handlers_agree; [done|done|]. apply lists_by_get.
Qed.
End agreement.

(** * Properties *)

(** C35: Registered over a connection to the gRPC server instead of the service
    itself, the gateway accounts for every change: when a request of the gateway
    changes the stored users, the trail gains an audit record of the method that
    was called, under the name of a principal whom the metadata made of that HTTP
    request prove, and whom the policy admits to the method. *)
Theorem forwarded_changes_are_attributed `{HK : PublicKeys} `{HL : !Libraries} `{HB : RateLimiter}
    `{HC : Codec} `{HF : StreamCodec} valid_utf8 ParseAddress cfg auth {S} (repository : Repository S) range range'
    view rinv norm conn arrived patience schedule st0 st header r w :
  (forall n mux, range n mux ≡ₚ map_to_list mux) -> (forall n mux, range' n mux ≡ₚ map_to_list mux) ->
  RepositorySafety repository view rinv norm ->
  Connected valid_utf8 ParseAddress cfg auth repository range conn arrived ->
  UserService.sinv ParseAddress (System.userService cfg repository) view rinv (System.users_of st0) ->
  rtc (System.step valid_utf8 ParseAddress cfg auth repository range) st0 st ->
  let st' := state_of (ServeHTTP range' (RegisterUserServiceHandler patience schedule conn ∅) header r) w st in
  view (System.users_of st') <> view (System.users_of st) ->
  exists events, trail_of st' = trail_of st ++ events /\
    Exists (fun e => exists r', passed_on r r' /\ attributed_to_request cfg auth arrived r' e) events.
Proof.
  intros Hrange Hrange' HS Hconn Hi Hs st' Hne. eapply System.sinv_served in Hi; [|done..].
  destruct (forwarded_accountable valid_utf8 ParseAddress cfg auth repository range view rinv norm conn arrived
    range' patience schedule header r w st Hrange' Hi) as (_ & events & Hl & [Hv|He]); [done|]. by exists events.
Qed.

(** * Witnesses *)

#[local] Existing Instance keys0.
#[local] Existing Instance libraries0.
#[local] Existing Instance Chain.limiter0.

(** The credential of the HTTP request becomes that of the call. *)
Definition stream_codec0 : StreamCodec := {|
  decode_metrics := fun _ => [];
  decode_chat := fun _ => [];
  populate_events := fun rq _ => Ok rq;
  AnnotateContext := fun r _ => Ok (Client.mkCall Background [("authorization", Header_Get r "Authorization")])
|}.
Definition signed_request : Request :=
  mkRequest (Some Background) "POST" "/v1/users" "" {[ "Authorization" := "Bearer 0123456789abcdef" ]} "" None.
Definition direct0 :=
  direct (fun _ => true) UserService.parse0 Config.sample (Some Chain.key_auth) MemoryRepository.repository.
Definition forwarded0 (r : Request) :=
  state_of (ServeHTTP (HC := codec0) range0
    (RegisterUserServiceHandler (HC := codec0) (HF := stream_codec0) 10 [] direct0 ∅) ∅ r)
    UserService.world1 System.empty0.

Lemma forwarded_changes_are_attributed_witness :
  exists events, trail_of (forwarded0 signed_request) = trail_of System.empty0 ++ events /\
    Exists (fun e => exists r', passed_on (HC := codec0) signed_request r' /\
              attributed_to_request (HF := stream_codec0) Config.sample (Some Chain.key_auth) arrives_unchanged r' e) events.
Proof.
  refine (forwarded_changes_are_attributed (HC := codec0) (HF := stream_codec0) (fun _ => true) UserService.parse0
    Config.sample (Some Chain.key_auth) MemoryRepository.repository range0 range0 MemoryRepository.users
    MemoryRepository.wf (fun u => u) direct0 arrives_unchanged 10 [] System.empty0 System.empty0 ∅ signed_request
    UserService.world1 (fun _ _ => reflexivity _) (fun _ _ => reflexivity _)
    (contract_safety _ _ _ _ MemoryRepository.memory_laws)
    (direct_connected (HC := codec0) (fun _ => true) UserService.parse0 Config.sample (Some Chain.key_auth)
       MemoryRepository.repository range0) _ (rtc_refl _ _) _).
  - split; [done|]. split; [done|]. vm_compute. discriminate.
  - intros H. apply (f_equal size) in H. vm_compute in H. discriminate H.
Defined.

Lemma registrations_agree_witness :
  Status (fst (ServeHTTP (HC := codec0) range0
    (RegisterUserServiceHandlerServer (HC := codec0) UserService.parse0 UserService.service0 ∅) ∅
    (request0 "POST" "/v1/users") (UserService.world1, MemoryRepository.NewMemoryRepository))) = 200.
Proof.
  rewrite (registrations_agree (HC := codec0) (HF := stream_codec0) UserService.parse0 UserService.service0
    (local_client UserService.parse0 UserService.service0) range0 (fun _ _ => reflexivity _) 10 [] ∅
    (request0 "POST" "/v1/users") (UserService.world1, MemoryRepository.NewMemoryRepository)
    eq_refl (fun _ => eq_refl) eq_refl).
  vm_compute. reflexivity.
Defined.

(** Without a credential nothing is created. *)
Example unsigned_request_changes_nothing :
  System.users_of (forwarded0 (request0 "POST" "/v1/users")) = System.users_of System.empty0.
Proof. vm_compute. reflexivity. Qed.

End Forwarding.
