(* ===== verification/EndToEnd.v ===== *)
(** The service over PostgreSQL behind the client's retries: what becomes of one
    request that is attempted again by the storage layer, by the client, or by
    both, when the acknowledgement of a commit is lost. *)
From S2P Require Import Prelude GoStrings GoErrors Storage CircuitBreaker Cache UserService Config ClientRetry Server.
From S2P Require Import Retry Engine Database Postgres.
Import Retry Postgres.

Module EndToEnd.

Section service.
Context `{HW : Waiting} `{HR : Rows} `{HD : !Engine Tables stmt}.

(** [PostgresRepository] as a [Repository]. The service refuses the nil context
    before it gets here; the panic of [database/sql] at one is an error of its
    own. *)
Definition repository (r : PostgresRepository) (nil_context : error) : Repository DB :=
  let on {A} (ctx : option Ctx) (fails : error -> A) (op : Ctx -> M DB A) : M DB A :=
    match ctx with Some ctx => op ctx | None => retM (fails nil_context) end in
  mkRepository
    (fun ctx user max => on ctx Some (fun ctx => Create r ctx user max))
    (fun ctx user max key => on ctx Err (fun ctx => CreateWithIdempotency r ctx user max key))
    (fun ctx id => on ctx Err (fun ctx => Get r ctx id))
    (fun ctx user => on ctx Some (fun ctx => Update r ctx user))
    (fun ctx id mutate => on ctx Err (fun ctx => ReadModifyUpdate r ctx id mutate))
    (fun ctx id => on ctx Some (fun ctx => Delete r ctx id))
    (fun ctx limit after => on ctx Err (fun ctx => List r ctx limit after))
    (Ping r)
    (Close r).

Context `{HDL : !DatabaseLaws HD}.

(** ** What PostgreSQL promises to the service *)

(** The constraints of the migrations, and no row under the empty id. *)
Definition rows_ok (d : DB) : Prop := schema_ok (content d) /\ t_users (content d) !! "" = None.

Lemma schema_keyed t : schema_ok t -> keyed t.
Proof using. intros [H _] id u Hu. by apply (H id u). Qed.

Lemma rows_ok_call cfg d d' :
  rows_ok d -> call (repository_of cfg) d d' -> t_users (content d') !! "" = None -> rows_ok d'.
Proof using HDL. intros [Hs _] Hc Hn. split; [by eapply call_schema|done]. Qed.

Lemma mutations_view id mutate t n lst t' :
  keyed t -> keeps_id mutate -> mutations id mutate t n lst t' ->
  keyed t' /\ rtc (mutation stored id mutate) (t_users t) (t_users t').
Proof using HDL.
  intros Hk Hid Hm. induction Hm as [|n lst t' u u' w w' _ [Hk' IH] Hu Hmu]; [by split|].
  split; [by apply keyed_insert_row|]. eapply rtc_r; [exact IH|].
  assert (Hid' : Id u' = id) by (rewrite (Hid _ _ _ _ Hmu); by apply Hk').
  cbn. rewrite Hid'. by econstructor.
Qed.

Lemma usable_id u : usable u = true -> Id u <> "".
Proof using. unfold usable. intros H Hid. by rewrite Hid in H. Qed.

(** An operation of PostgreSQL behind [repository]: at the nil context it does
    nothing, else it is one [call]. *)
Lemma operation_safe {A} cfg (op : option Ctx -> M DB A) (P : gmap string User -> gmap string User -> Prop) :
  (forall w d, state_of (op None) w d = d) -> (forall v, P v v) ->
  (forall ctx w d, call (repository_of cfg) d (state_of (op (Some ctx)) w d)) ->
  (forall ctx w d, rows_ok d -> let d' := state_of (op (Some ctx)) w d in
     P (t_users (content d)) (t_users (content d')) /\ t_users (content d') !! "" = None) ->
  forall ctx, spec rows_ok (op ctx)
    (fun d _ d' => rows_ok d' /\ P (t_users (content d)) (t_users (content d'))).
Proof using HDL.
  intros Hnil Hrefl Hcall Hop [ctx|] w d Hd; [|by rewrite Hnil].
  destruct (Hop ctx w d Hd) as [HP Hn]. split; [|exact HP]. by eapply rows_ok_call; [exact Hd|apply Hcall|].
Qed.

Lemma may_insert_ids (u : User) max (v v' : gmap string User) :
  may_insert stored u max v v' -> v !! "" = None -> v' !! "" = None.
Proof using. intros [->|(Hne & _ & _ & ->)]; [done|]. intros Hv. by rewrite lookup_insert_ne. Qed.

Lemma created_view (u : User) max t t' :
  Id u <> "" -> maybe_created u max t t' -> may_insert stored u max (t_users t) (t_users t').
Proof using. intros Hid [->|[(Hf & Hs & _) ->]]; [by left|right]. by split_and!. Qed.

Lemma keyed_view (u : User) max key t t' :
  Id u <> "" -> maybe_keyed u max key t t' -> may_insert stored u max (t_users t) (t_users t').
Proof using. intros Hid [->|((Hf & Hs & _) & _ & ->)]; [by left|right]. by split_and!. Qed.

Lemma mutation_ids id mutate (v v' : gmap string User) :
  rtc (mutation stored id mutate) v v' -> v !! "" = None -> v' !! "" = None.
Proof using.
  induction 1 as [v|v v1 v2 [u w u' w' Hu _] _ IH]; [done|]. intros Hv. apply IH.
  rewrite lookup_insert_ne; [done|]. intros ->. by rewrite Hv in Hu.
Qed.

Lemma create_view cfg ctx u max w d : rows_ok d ->
  let d' := state_of (Create (repository_of cfg) ctx (Some u) max) w d in
  may_insert stored u max (t_users (content d)) (t_users (content d')) /\ t_users (content d') !! "" = None.
Proof using HDL.
  intros [_ Hn] d'. assert (Hm : may_insert stored u max (t_users (content d)) (t_users (content d'))).
  { subst d'. unfold state_of. destruct (usable u) eqn:Hu.
    - destruct (Create _ _ _ _ (w, d)) as [o [w1 d1]] eqn:Hrun. apply create_run in Hrun.
      apply created_view; [by apply usable_id|]. destruct o; [apply Hrun|by right].
    - unfold Create. rewrite Hu. by left. }
  split; [done|]. by eapply may_insert_ids.
Qed.

Lemma keyed_create_view cfg ctx u max key w d : rows_ok d ->
  let d' := state_of (CreateWithIdempotency (repository_of cfg) ctx (Some u) max key) w d in
  may_insert stored u max (t_users (content d)) (t_users (content d')) /\ t_users (content d') !! "" = None.
Proof using HDL.
  intros Hd d'. destruct (decide (key = "")) as [Hk|Hk].
  { pose proof (create_view cfg ctx u max w d Hd) as Hc. subst d'. unfold CreateWithIdempotency, state_of in *.
    rewrite (bool_decide_eq_true_2 (key = "")) by done. unfold bindM, retM.
    by destruct (Create _ _ _ _ (w, d)) as [[?|] [? ?]]. }
  destruct Hd as [_ Hn]. assert (Hm : may_insert stored u max (t_users (content d)) (t_users (content d'))).
  { subst d'. unfold state_of. destruct (usable u) eqn:Hu.
    - destruct (CreateWithIdempotency _ _ _ _ _ (w, d)) as [o [w1 d1]] eqn:Hrun.
      apply keyed_create_run in Hrun as [Hm _]; [|done]. by eapply keyed_view; [apply usable_id|].
    - unfold CreateWithIdempotency. rewrite (bool_decide_eq_false_2 (key = "")) by done. rewrite Hu. by left. }
  split; [done|]. by eapply may_insert_ids.
Qed.

Lemma mutate_view cfg ctx id mutate w d : keeps_id mutate -> rows_ok d ->
  let d' := state_of (ReadModifyUpdate (repository_of cfg) ctx id (Some mutate)) w d in
  rtc (mutation stored id mutate) (t_users (content d)) (t_users (content d')) /\
  t_users (content d') !! "" = None.
Proof using HDL.
  intros Hid [Hs Hn] d'.
  assert (Hm : rtc (mutation stored id mutate) (t_users (content d)) (t_users (content d'))).
  { subst d'. unfold state_of. destruct (ReadModifyUpdate _ _ _ _ (w, d)) as [o [w1 d1]] eqn:Hrun.
    apply mutate_run in Hrun as (n & lst & _ & Hm & _); [|done|by apply schema_keyed].
    by eapply mutations_view; [apply schema_keyed| |]. }
  split; [done|]. by eapply mutation_ids.
Qed.

Lemma update_view cfg ctx u w d : rows_ok d ->
  let d' := state_of (Update (repository_of cfg) ctx (Some u)) w d in
  may_replace stored u (t_users (content d)) (t_users (content d')) /\ t_users (content d') !! "" = None.
Proof using HDL.
  intros [_ Hn] d'. subst d'. unfold state_of.
  destruct (Update _ _ _ (w, d)) as [o [w1 d1]] eqn:Hrun. apply update_run in Hrun. cbn [snd].
  assert (Hm : maybe_updated u (content d) (content d1)) by (destruct o; [done|by right]).
  destruct Hm as [->|[Hp ->]]; [by split; [left|]|]. split; [by right|]. cbn.
  rewrite lookup_insert_ne; [done|]. intros Hid. rewrite Hid, Hn in Hp. by destruct Hp.
Qed.

Lemma delete_view cfg ctx id w d : rows_ok d ->
  let d' := state_of (Delete (repository_of cfg) ctx id) w d in
  may_delete id (t_users (content d)) (t_users (content d')) /\ t_users (content d') !! "" = None.
Proof using HDL.
  intros [_ Hn] d'. subst d'. unfold state_of.
  destruct (Delete _ _ _ (w, d)) as [o [w1 d1]] eqn:Hrun. apply deletes_run in Hrun. cbn [snd].
  assert (Hm : maybe_deleted id (content d) (content d1)).
  { destruct o; [apply Hrun|by right]. }
  destruct Hm as [->|[_ ->]]; [by split; [left|]|]. split; [by right|]. cbn.
  rewrite lookup_delete. by case_decide.
Qed.

Lemma get_view cfg ctx id w d :
  content (state_of (Get (repository_of cfg) ctx id) w d) = content d.
Proof using HDL.
  unfold state_of, Get. destruct (retryOperation _ _ _ _ (w, d)) as [o [w1 d1]] eqn:Hrun. cbn [snd].
  eapply (reads_run cfg ctx (SelectUser id)); [| |exact Hrun]; [done|]. by intros [u|] w0 d0.
Qed.

Lemma list_view cfg ctx limit after w d :
  content (state_of (List (repository_of cfg) ctx limit after) w d) = content d.
Proof using HDL.
  unfold state_of, List. destruct (limit <=? 0); [done|].
  destruct (retryOperation _ _ _ _ (w, d)) as [o [w1 d1]] eqn:Hrun. cbn [snd].
  eapply (reads_run cfg ctx (SelectAfter after (wrap64 (limit + 1)))); [| |exact Hrun]; [done|].
  intros us w0 d0. by case_match.
Qed.

(** [PostgresRepository] keeps the contract without reliable answers. *)
#[global] Instance postgres_safety cfg nil_context :
  RepositorySafety (repository (repository_of cfg) nil_context) (fun d => t_users (content d)) rows_ok stored.
Proof using HDL.
  constructor.
  - apply stored_fields.
  - intros d id u [[Hs _] Hn] Hu. split; [by apply (Hs id u)|]. intros ->. by rewrite Hn in Hu.
  - intros ctx u max key. revert ctx. apply (operation_safe cfg); [done|by left|exact (fun ctx w d => call_keyed _ d ctx (Some u) max key w)|].
    intros. by apply keyed_create_view.
  - intros ctx u max. revert ctx. apply (operation_safe cfg); [done|by left|exact (fun ctx w d => call_create _ d ctx (Some u) max w)|].
    intros. by apply create_view.
  - intros ctx id. revert ctx. apply (operation_safe cfg _ (fun v v' => v' = v)); [done|done|exact (fun ctx w d => call_get _ d ctx id w)|].
    intros ctx w d [_ Hn] d'. by assert (content d' = content d) as -> by apply get_view.
  - intros ctx id mutate Hid. revert ctx. apply (operation_safe cfg); [done|done|exact (fun ctx w d => call_mutate _ d ctx id (Some mutate) w)|].
    intros. by apply mutate_view.
  - intros ctx u. revert ctx. apply (operation_safe cfg); [done|by left|exact (fun ctx w d => call_update _ d ctx (Some u) w)|].
    intros. by apply update_view.
  - intros ctx id. revert ctx. apply (operation_safe cfg); [done|by left|exact (fun ctx w d => call_delete _ d ctx id w)|].
    intros. by apply delete_view.
  - intros ctx limit after. revert ctx. apply (operation_safe cfg _ (fun v v' => v' = v)); [done|done|exact (fun ctx w d => call_list _ d ctx limit after w)|].
    intros ctx w d [_ Hn] d'. by assert (content d' = content d) as -> by apply list_view.
  - intros [ctx|] w d Hd; [|by split].
    destruct (PingContext ctx (w, d)) as [r [w1 d1]] eqn:Hp. pose proof (ping_content _ _ _ _ _ _ Hp) as Hc.
    change (rows_ok (snd (snd (PingContext ctx (w, d)))) /\
      t_users (content (snd (snd (PingContext ctx (w, d))))) = t_users (content d)).
    unfold rows_ok. by rewrite Hp; cbn [snd]; rewrite Hc.
  - intros w d Hd.
    destruct (CloseDB (w, d)) as [r [w1 d1]] eqn:Hp. pose proof (close_content _ _ _ _ _ Hp) as Hc.
    change (rows_ok (snd (snd (CloseDB (w, d)))) /\
      t_users (content (snd (snd (CloseDB (w, d))))) = t_users (content d)).
    unfold rows_ok. by rewrite Hp; cbn [snd]; rewrite Hc.
Qed.

(** C6: Whatever decorators the configuration enables, the repository opened for
    the PostgreSQL backend changes users only as its operations may, whatever
    connections fail, acknowledgements are lost and attempts repeated, from the
    rows in the tables at the start: so the server's users stay valid and within
    the capacity over it, too. *)
Theorem opened_postgres_is_safe range NewPostgresRepository Quote scfg cfg nil_context d :
  Config.Backend scfg = "postgres" ->
  NewPostgresRepository scfg
    = Ok (Server.mkOpened DB (repository (repository_of cfg) nil_context) d Server.PostgresType) ->
  rows_ok d ->
  exists o, Server.openRepository range NewPostgresRepository Quote scfg = Ok o /\
    Server.keeps_users stored (t_users (content d)) o.
Proof using HDL.
  intros Hb Hopen Hd. eapply Server.opened_keeps_users.
  - unfold Server.open_backend. rewrite Hb. exact Hopen.
  - exists (fun d => t_users (content d)), rows_ok. split; [exact (postgres_safety cfg nil_context)|by split].
Qed.

Context (ParseAddress : string -> option string) (cfg : PostgresConfig) (nil_context : error).
Context (s : UserService.Service DB)
  (Hs : UserService.repository s = Some (repository (repository_of cfg) nil_context)).

(** Requests with the same key, one after the other, and their answers. *)
Inductive keyed_requests (key : string) (d : DB)
  : list (UserService.CreateUserRequest * res User) -> DB -> Prop :=
| keyed_none : keyed_requests key d [] d
| keyed_one ctx rq w r w1 d1 rs d2 :
    keyed_requests key d rs d1 -> UserService.IdempotencyKey rq = key ->
    UserService.CreateUser ParseAddress s ctx (Some rq) (w, d1) = (r, (w1, d2)) ->
    keyed_requests key d (rs ++ [(rq, r)]) d2.

(** The user a request asks for, up to its id and times. *)
Definition requested (rq : UserService.CreateUserRequest) (u : User) : Prop :=
  UserService.validateUserFields ParseAddress (UserService.create_Name rq) (UserService.create_Email rq)
    (UserService.create_Age rq) (UserService.maxStringBytes s) = Ok (Name u, Email u) /\
  Age u = UserService.create_Age rq.

(** The tables as they were, or with one user under the key, whom one of the
    requests asked for. *)
Definition one_user_under (key : string) (t : Tables) (rs : list (UserService.CreateUserRequest * res User))
    (t' : Tables) : Prop :=
  (t' = t /\ forall rq u, (rq, Ok u) ∉ rs) \/
  (exists u, t' = insert_key key (Id u) (insert_row u t) /\
     (exists rq r, (rq, r) ∈ rs /\ requested rq u) /\
     forall rq v, (rq, Ok v) ∈ rs -> v = u \/ v = stored u).

(** A request changes nothing and fails, or runs the repository's create. *)
Lemma create_user_run ctx rq w d r w' d' :
  UserService.CreateUser ParseAddress s ctx (Some rq) (w, d) = (r, (w', d')) ->
  (d' = d /\ forall u, r <> Ok u) \/
  (exists c u w0 o, CreateWithIdempotency (repository_of cfg) c (Some u) (UserService.maxUsers s)
       (UserService.IdempotencyKey rq) (w0, d) = (o, (w', d')) /\ requested rq u /\
     forall v, r = Ok v -> exists replayed, o = Ok (v, replayed)).
Proof using Hs.
  unfold UserService.CreateUser. destruct ctx as [c|].
  2:{ unfold UserService.validateContext. unfold_monad. intros [= <- _ <-]. by left. }
  unfold UserService.validateContext, ctxErrM, UserService.newID, UserService.with_repository, UserService.mapped.
  rewrite Hs. unfold_monad. destruct (ctx_err_at c (w_tick w)) as [e|]; cbn [fmap option_fmap option_map].
  { intros [= <- _ <-]. by left. }
  unfold requested. destruct (UserService.validateUserFields _ _ _ _) as [[name email]|e]; [|intros [= <- _ <-]; by left].
  destruct (UserService.validateOptionalText _ _ _) as [e|]; [intros [= <- _ <-]; by left|].
  destruct (w_rand _ _) as [b|]; cbn [fmap option_fmap option_map fst snd]; [|intros [= <- _ <-]; by left].
  cbn [Storage.CreateWithIdempotency repository].
  match goal with |- context [CreateWithIdempotency ?r ?c ?u ?m ?k (?w0, d)] =>
    destruct (CreateWithIdempotency r c u m k (w0, d)) as [o [w2 d2]] eqn:Hrun end.
  intros Hr. right. do 4 eexists. destruct o as [[v rep]|e]; injection Hr as <- <- <-;
    (split; [exact Hrun|]); (split; [by split|]); [|done]. intros v' [= <-]. by exists rep.
Qed.

(** One more request under the key. *)
Lemma keyed_request_step key t rs ctx rq w d r w' d' :
  key <> "" -> t_keys t !! key = None -> one_user_under key t rs (content d) ->
  UserService.IdempotencyKey rq = key ->
  UserService.CreateUser ParseAddress s ctx (Some rq) (w, d) = (r, (w', d')) ->
  one_user_under key t (rs ++ [(rq, r)]) (content d').
Proof using Hs HDL.
  intros Hkey Hk Hone Hrq Hrun.
  assert (Hin : forall rq' v, (rq', Ok v) ∈ rs ++ [(rq, r)] -> (rq', Ok v) ∈ rs \/ r = Ok v).
  { intros rq' v. rewrite elem_of_app, list_elem_of_singleton. intros [H|[= _ H]]; auto. }
  assert (Hold : forall P : UserService.CreateUserRequest -> Prop, (exists rq' r', (rq', r') ∈ rs /\ P rq') ->
    exists rq' r', (rq', r') ∈ rs ++ [(rq, r)] /\ P rq').
  { intros P (rq' & r' & H & HP). exists rq', r'. split; [apply elem_of_app; by left|done]. }
  apply create_user_run in Hrun as [[-> Hr]|(c & u & w0 & o & Hrun & Hreq & Hr)].
  { destruct Hone as [[Hd Hn]|(u & Hd & Hq & Hn)]; [left|right; exists u].
    - split; [done|]. intros rq' v [H|H]%Hin; [by eapply Hn|by destruct (Hr v)].
    - split; [done|]. split; [by apply Hold|]. intros rq' v [H|H]%Hin; [by eapply Hn|by destruct (Hr v)]. }
  rewrite Hrq in Hrun. apply keyed_create_run in Hrun as [Hm Ho]; [|done].
  assert (Hv : forall v, r = Ok v -> exists id, t_keys (content d') !! key = Some id /\
    (o = Ok (v, true) /\ t_users (content d') !! id = Some v \/ v = u /\ t_keys (content d) !! key = None)).
  { intros v Hrv. destruct (Hr v Hrv) as [[] ->]; [destruct Ho as (id & H1 & H2); exists id; by auto|].
    destruct Ho as (-> & (id & H1 & _) & _ & H2). exists id. by auto. }
  clear Ho Hr Hrq. destruct Hone as [[Hd Hn]|(u0 & Hd & Hq & Hn)].
  - destruct Hm as [Hm|(_ & _ & Hm)].
    + left. split; [by rewrite Hm|]. intros rq' v [H|H]%Hin; [by eapply Hn|].
      destruct (Hv v H) as (id & Hid & _). by rewrite Hm, Hd, Hk in Hid.
    + right. exists u. rewrite Hm, Hd. split; [done|]. split.
      { exists rq, r. split; [|done]. apply elem_of_app. right. by apply list_elem_of_singleton. }
      intros rq' v [H|H]%Hin; [by destruct (Hn rq' v)|].
      destruct (Hv v H) as (id & Hid & [[_ Hu]|[-> _]]); [|by left].
      rewrite Hm in Hid, Hu. cbn in Hid, Hu. rewrite lookup_insert_eq in Hid. injection Hid as <-.
      rewrite lookup_insert_eq in Hu. injection Hu as <-. by right.
  - assert (Hkd : t_keys (content d) !! key = Some (Id u0)) by (rewrite Hd; apply lookup_insert_eq).
    destruct Hm as [Hm|(_ & Hm & _)]; [|by rewrite Hkd in Hm].
    right. exists u0. rewrite Hm. split; [done|]. split; [by apply Hold|].
    intros rq' v [H|H]%Hin; [by eapply Hn|].
    destruct (Hv v H) as (id & Hid & [[_ Hu]|[_ Hnone]]); [|by rewrite Hkd in Hnone].
    rewrite Hm, Hkd in Hid. injection Hid as <-. rewrite Hm, Hd in Hu. cbn in Hu.
    rewrite lookup_insert_eq in Hu. injection Hu as <-. by right.
Qed.

(** * Properties *)

(** C5: Requests that carry the same idempotency key store one user at most, however
    often the client, the server and the storage layer attempt them again, and
    whatever they lose on the way; every success returns that user. *)
Theorem keyed_requests_store_one_user key d rs d' :
  key <> "" -> t_keys (content d) !! key = None -> keyed_requests key d rs d' ->
  one_user_under key (content d) rs (content d').
Proof using Hs HDL.
  intros Hkey Hk H. induction H as [|ctx rq w r w1 d1 rs d2 _ IH Hrq Hrun].
  - left. split; [done|]. intros rq u. apply not_elem_of_nil.
  - by eapply keyed_request_step.
Qed.
End service.

(** * Without a key *)

#[local] Existing Instance waiting0.
#[local] Existing Instance rows0.

(** One call of the client without an idempotency key, made in the world [w] over
    the tables [t]: the connection loses one interaction, the commit of the first
    attempt, with the error [e] after it took effect. *)
Section unkeyed.
Context (ParseAddress : string -> option string) (s : UserService.Service Tables).
Context (cfg : PostgresConfig) (nil_context e : error) (n : nat).
Context (Hs : UserService.repository s =
  Some (repository (HD := faulty (lost_ack e n) violation) (repository_of cfg) nil_context)).

(** What the client calls: its retries see the error of each attempt. *)
Definition client_create (rq : UserService.CreateUserRequest) : M Tables (option error) :=
  r <-- UserService.CreateUser ParseAddress s (Some Background) (Some rq) ;;
  retM (match r with Ok _ => None | Err err => Some err end).

(** The id and the user the service makes of a request in a world: it looks at the
    context, draws the bytes of the id and reads the clock. *)
Definition drawn_id (w : World) : option string :=
  (fun b => "user-" +:+ HexEncode b) <$> w_rand w (S (w_tick w)).
Definition new_user (rq : UserService.CreateUserRequest) (name email id : string) (w : World) : User :=
  let now := Some (timestamp_of_ns (w_now w (S (S (w_tick w))))) in
  mkUser id name email (UserService.create_Age rq) now now.

Definition storage_unavailable : error :=
  EApp (appErrors.WithReason (appErrors.ErrUnavailable "storage temporarily unavailable") "STORAGE_UNAVAILABLE").

Context (rq : UserService.CreateUserRequest) (name email : string).
Context (Hkey : UserService.IdempotencyKey rq = "")
  (Hvalid : UserService.validateUserFields ParseAddress (UserService.create_Name rq) (UserService.create_Email rq)
              (UserService.create_Age rq) (UserService.maxStringBytes s) = Ok (name, email)).

Lemma create_attempt u max w t :
  usable u = true -> userTimes u = None -> admissible u max t ->
  isRetryableError (Some (EWrap "commit create" e)) = false -> (n = w_tick w + 4 \/ n < w_tick w)%nat ->
  Create (HD := faulty (lost_ack e n) violation) (repository_of cfg) Background (Some u) max (w, t)
    = (if Nat.eqb n (w_tick w + 4) then Some (EWrap "commit create" e) else None,
       (tick (tick (tick (tick (tick w)))), insert_row u t)).
Proof using.
  intros Hu Ht Hadm He Hn. unfold Create. rewrite Hu. unfold bindM, retM.
  erewrite (retry_once cfg (create_once (HD := faulty (lost_ack e n) violation) Background u max));
    [|by apply create_once_lost|by destruct (Nat.eqb _ _)]. by destruct (Nat.eqb _ _).
Qed.

(** An attempt at the request whose insertion the tables admit stores the user;
    it fails only when the interaction that is lost is its commit. *)
Lemma unkeyed_attempt w t id :
  let u := new_user rq name email id w in
  drawn_id w = Some id -> usable u = true -> userTimes u = None -> admissible u (UserService.maxUsers s) t ->
  isRetryableError (Some (EWrap "commit create" e)) = false ->
  (n = w_tick w + 7 \/ n < w_tick w)%nat ->
  exists w', client_create rq (w, t)
    = (if Nat.eqb n (w_tick w + 7) then Some (UserService.mapStorageError (EWrap "commit create" e)) else None,
       (w', insert_row u t)) /\
    w' = mkWorld (w_now w) (w_rand w) (w_tick w + 8).
Proof using Hs Hkey Hvalid.
  intros u Hid Hu Ht Hadm He Hn. unfold client_create, UserService.CreateUser, UserService.validateContext, ctxErrM.
  unfold UserService.newID, UserService.with_repository, UserService.mapped. rewrite Hs, Hkey. unfold_monad.
  cbn [ctx_err_at Background fmap option_fmap option_map]. rewrite Hvalid.
  unfold UserService.validateOptionalText. rewrite (bool_decide_eq_false_2 ("" <> "")) by tauto. cbn [andb].
  unfold drawn_id in Hid. cbn [w_rand w_tick tick fst snd]. destruct (w_rand w (S (w_tick w))) as [b|]; [|done].
  injection Hid as Hid. cbn [fmap option_fmap option_map Storage.CreateWithIdempotency repository].
  unfold CreateWithIdempotency. rewrite (bool_decide_eq_true_2 ("" = "")) by done. unfold_monad.
  change ("user" +:+ "-" +:+ HexEncode b) with ("user-" +:+ HexEncode b). rewrite Hid. cbn [w_now w_tick tick fst snd].
  fold (new_user rq name email id w). fold u.
  rewrite create_attempt by (try done; cbn; lia). cbn [w_tick tick].
  replace (S (S (S (w_tick w))) + 4)%nat with (w_tick w + 7)%nat by lia.
  eexists. split; [destruct (Nat.eqb _ _); reflexivity|]. unfold tick. cbn. f_equal. lia.
Qed.

(** A user whose row the schema takes, under an id that was drawn. *)
Lemma drawn_usable w w' id :
  drawn_id w = Some id -> row_ok (new_user rq name email id w') -> usable (new_user rq name email id w') = true.
Proof using.
  intros Hid (Hn & He & _). unfold usable. cbn in Hn, He |- *.
  rewrite !bool_decide_eq_false_2; [done| | |].
  - intros H. rewrite H in He. exact (proj1 He eq_refl).
  - intros H. rewrite H in Hn. exact (proj1 Hn eq_refl).
  - intros ->. unfold drawn_id in Hid. by destruct (w_rand w _).
Qed.

(** C38: One call of the client, without the opt-in for retries and without a key,
    stores its user twice when the acknowledgement of its commit is lost with an
    error the storage layer neither knows nor takes for transient: the commit has
    taken effect, the server answers Unavailable, and the client, which takes this
    for proof that nothing was processed, repeats the request, which the service
    gives a fresh id. The call succeeds, and the tables hold two users who differ
    in their ids and times alone. *)
Theorem client_retry_duplicates_user Int63n c ctx interrupted w t id1 id2 :
  let u1 := new_user rq name email id1 w in
  let w2 := mkWorld (w_now w) (w_rand w) (w_tick w + 10) in
  let u2 := new_user rq name email id2 w2 in
  isRetryableError (Some (EWrap "commit create" e)) = false ->
  UserService.mapStorageError (EWrap "commit create" e) = storage_unavailable ->
  n = (w_tick w + 7)%nat ->
  2 <= ClientRetry.MaxAttempts c -> ClientRetry.retryable ctx = false ->
  (forall i, ctx_err_at (ClientRetry.call_ctx ctx) i = None) -> (forall i d, interrupted i d = None) ->
  drawn_id w = Some id1 -> drawn_id w2 = Some id2 -> id1 <> id2 ->
  userTimes u1 = None -> userTimes u2 = None -> row_ok u1 ->
  t_users t !! id1 = None -> t_users t !! id2 = None ->
  Z.of_nat (size (t_users t)) + 1 < UserService.maxUsers s ->
  let t' := insert_row u2 (insert_row u1 t) in
  size (t_users t') = (size (t_users t) + 2)%nat /\
  exists w', ClientRetry.UnaryClientRetryInterceptor Int63n c ctx interrupted (client_create rq) (w, t)
    = (None, (w', t')).
Proof using Hs Hkey Hvalid.
  intros u1 w2 u2 He Hmap Hn Hmax Hopt Hctx Hint Hd1 Hd2 Hne Ht1 Ht2 Hrow Hf1 Hf2 Hroom.
  pose proof (drawn_usable w w id1 Hd1 Hrow) as Hu1. pose proof (drawn_usable w2 w2 id2 Hd2 Hrow) as Hu2.
  assert (Hsize : size (t_users (insert_row u1 t)) = S (size (t_users t))) by (apply map_size_insert_None, Hf1).
  assert (Hfresh : t_users (insert_row u1 t) !! id2 = None) by (cbn; by rewrite lookup_insert_ne).
  split; [cbn; rewrite map_size_insert_None by done; cbn in Hsize; lia|].
  destruct (unkeyed_attempt w t id1) as (w1 & H1 & Hw1); try done; [by split_and!; [|lia|]|by left|].
  destruct (unkeyed_attempt w2 (insert_row u1 t) id2) as (w3 & H2 & _); try done;
    [by split_and!; [|rewrite Hsize; lia|]|right; cbn; lia|].
  rewrite Hn, Nat.eqb_refl, Hmap in H1. rewrite Hn, (proj2 (Nat.eqb_neq _ _)) in H2 by (cbn; lia).
  unfold ClientRetry.UnaryClientRetryInterceptor.
  destruct (Z.to_nat _) as [|[|k]] eqn:Ek; [lia..|]. cbn [ClientRetry.unary_loop].
  change (0 <? 0 + 1) with true. change (0 <? 0) with false. cbv iota. unfold bindM, retM. rewrite H1.
  assert (Hr : ClientRetry.retries c ctx storage_unavailable = true)
    by (unfold ClientRetry.retries, ClientRetry.shouldRetry, ClientRetry.isRetryableOptIn; cbn; by rewrite Hopt).
  rewrite Hr. unfold ClientRetry.wait, ctxErrM, bindM. rewrite Hctx. cbn [fmap option_fmap option_map]. rewrite Hint.
  assert (Hw2 : tick (tick w1) = w2) by (rewrite Hw1; unfold w2, tick; cbn; f_equal; lia).
  cbn [fmap option_fmap option_map fst snd]. rewrite Hw2. fold u1. rewrite H2. by eexists.
Qed.
End unkeyed.

(** The connection is reset at one interaction, after it took effect. *)
Definition reset_at : nat -> nat -> option (error * bool) := lost_ack (EOther "connection reset by peer").

Lemma reset_laws n : DatabaseLaws (faulty (reset_at n) violation).
Proof. by apply lost_ack_laws. Qed.

Definition service_over (n : nat) : UserService.Service Tables :=
  UserService.mkService (Some (repository (HD := faulty (reset_at n) violation) (repository_of default_config)
    (EOther "nil context"))) 10 10 64 1.
Definition reset_world : World :=
  mkWorld (fun _ => 10 ^ 18) (fun n => Some (if Nat.eqb n 1 then "0123456789abcdef" else "fedcba9876543210")) 0.

(** The service over the cache in front of PostgreSQL, and three calls: a read,
    which fills the cache, an update, and a read. *)
Definition cached_service (n : nat) : UserService.Service (CacheRepository.State * Tables) :=
  UserService.mkService (Some (CacheRepository.wrap Server.range0
    (repository (HD := faulty (reset_at n) violation) (repository_of default_config) (EOther "nil context"))))
    10 10 64 1.
Definition read_user (n : nat) (id : string) : M (CacheRepository.State * Tables) (res User) :=
  UserService.GetUser (cached_service n) (Some Background) (Some (UserService.mkGetUser id)).
Definition read_update_read (n : nat) (rq : UserService.UpdateUserRequest)
  : M (CacheRepository.State * Tables) (res User * res User * res User) :=
  before <-- read_user n (UserService.update_Id rq) ;;
  updated <-- UserService.UpdateUser UserService.parse0 (cached_service n) (Some Background) (Some rq) ;;
  after <-- read_user n (UserService.update_Id rq) ;;
  retM (before, updated, after).

(** An update that reports a failure does not touch the cache: when its commit
    took effect and the acknowledgement was lost, the row is changed, the client
    is told otherwise, and reads go on serving the old user until the entry
    expires. *)
Theorem failed_update_is_hidden_by_cache :
  exists n rq c t e w' c' t',
    read_update_read n rq (start0, (c, t))
      = ((Ok (stored carol), Err e, Ok (stored carol)), (w', (c', t'))) /\
    (Name <$> t_users t !! Id carol) = Some (Name carol) /\
    (Name <$> t_users t' !! Id carol) = Some (UserService.update_Name rq) /\
    UserService.update_Name rq <> Name carol.
Proof.
  exists 8%nat, (UserService.mkUpdateUser "user-1" "Caroline" "" 0), (CacheRepository.NewCacheRepository 60), one_user.
  do 4 eexists. split; [vm_compute; reflexivity|]. split; [vm_compute; reflexivity|].
  split; [vm_compute; reflexivity|]. by vm_compute.
Qed.

(** * Witnesses *)

Definition opened_postgres (_ : Config.StorageConfig) : res Server.Opened :=
  Ok (Server.mkOpened Tables
    (repository (HD := faulty (reset_at 9) violation) (repository_of default_config) (EOther "nil context"))
    one_user Server.PostgresType).

Lemma opened_postgres_is_safe_witness :
  exists o, Server.openRepository Server.range0 opened_postgres id Server.cached_postgres = Ok o /\
    Server.keeps_users stored (t_users one_user) o.
Proof.
  refine (opened_postgres_is_safe (HD := faulty (reset_at 9) violation) (HDL := reset_laws 9)
    Server.range0 opened_postgres id Server.cached_postgres default_config (EOther "nil context") one_user
    eq_refl eq_refl _).
  split; [|vm_compute; reflexivity]. split.
  - intros id u. cbn. rewrite lookup_insert. case_decide; [|by rewrite lookup_empty].
    intros [= <-]. split; [done|]. vm_compute. by repeat split.
  - intros key id. cbn. by rewrite lookup_empty.
Defined.

Definition alice : UserService.CreateUserRequest := UserService.mkCreateUser "Alice" "alice@b.c" 30 "".
Definition alice_id (b : string) : string := "user-" +:+ HexEncode b.
Definition first_alice : User := new_user alice "Alice" "alice@b.c" (alice_id "0123456789abcdef") reset_world.
Definition second_alice : User := new_user alice "Alice" "alice@b.c" (alice_id "fedcba9876543210")
  (mkWorld (w_now reset_world) (w_rand reset_world) 10).

Lemma client_retry_duplicates_user_witness :
  exists w' u1 u2, Id u1 <> Id u2 /\ Name u1 = "Alice" /\ Name u2 = "Alice" /\
    ClientRetry.UnaryClientRetryInterceptor (fun _ k => k - 1) ClientRetry.DefaultRetryConfig
      (ClientRetry.mkCallCtx Background false) (fun _ _ => None)
      (client_create UserService.parse0 (service_over 7) alice)
      (reset_world, no_users) = (None, (w', insert_row u2 (insert_row u1 no_users))).
Proof.
  enough (H : exists w', ClientRetry.UnaryClientRetryInterceptor (fun _ k => k - 1) ClientRetry.DefaultRetryConfig
    (ClientRetry.mkCallCtx Background false) (fun _ _ => None) (client_create UserService.parse0 (service_over 7) alice)
    (reset_world, no_users) = (None, (w', insert_row second_alice (insert_row first_alice no_users)))).
  { destruct H as [w' Hw]. exists w', first_alice, second_alice.
    split; [vm_compute; discriminate|]. split; [reflexivity|]. split; [reflexivity|exact Hw]. }
  refine (proj2 (client_retry_duplicates_user UserService.parse0 (service_over 7) default_config (EOther "nil context")
    (EOther "connection reset by peer") 7 eq_refl alice "Alice" "alice@b.c"
    eq_refl _ (fun _ k => k - 1) ClientRetry.DefaultRetryConfig
    (ClientRetry.mkCallCtx Background false) (fun _ _ => None) reset_world no_users
    (alice_id "0123456789abcdef") (alice_id "fedcba9876543210") _ _ _ _ _ _ _ _ _ _ _ _ _ _ _ _));
  try (vm_compute; reflexivity); try (intros; reflexivity).
  - vm_compute. discriminate.
  - vm_compute. discriminate.
  - vm_compute. by repeat split.
Defined.

(** The first request is stored and reports a failure, the second one with the
    same key is answered with the stored user. *)
Definition keyed_request : UserService.CreateUserRequest := UserService.mkCreateUser "Alice" "alice@b.c" 30 "k".

Definition as_db (t : Tables) : @DB _ _ (faulty (reset_at 9) violation) := t.
Definition keyed_call (w : World) (t : Tables) : res User * (World * Tables) :=
  UserService.CreateUser UserService.parse0 (service_over 9) (Some Background) (Some keyed_request) (w, t).
Definition first_call := keyed_call reset_world no_users.
Definition second_call := keyed_call (fst (snd first_call)) (snd (snd first_call)).

Lemma keyed_requests_store_one_user_witness :
  is_ok (fst first_call) = false /\ is_ok (fst second_call) = true /\
  one_user_under (HD := faulty (reset_at 9) violation) UserService.parse0 (service_over 9) "k" no_users
    [(keyed_request, fst first_call); (keyed_request, fst second_call)] (snd (snd second_call)).
Proof.
  split; [vm_compute; reflexivity|]. split; [vm_compute; reflexivity|].
  destruct first_call as [r1 [w1 t1]] eqn:H1. unfold second_call. rewrite H1. cbn [fst snd].
  destruct (keyed_call w1 t1) as [r2 [w2 t2]] eqn:H2. cbn [fst snd].
  refine (keyed_requests_store_one_user (HD := faulty (reset_at 9) violation) (HDL := reset_laws 9)
    UserService.parse0 default_config (EOther "nil context") (service_over 9) eq_refl "k" (as_db no_users)
    [(keyed_request, r1); (keyed_request, r2)] (as_db t2) _ eq_refl _); [discriminate|].
  apply (keyed_one (HD := faulty (reset_at 9) violation) _ _ "k" (as_db no_users) (Some Background)
    keyed_request w1 r2 w2 (as_db t1) [(keyed_request, r1)] (as_db t2)); [|reflexivity|exact H2].
  apply (keyed_one (HD := faulty (reset_at 9) violation) _ _ "k" (as_db no_users) (Some Background)
    keyed_request reset_world r1 w1 (as_db no_users) [] (as_db t1)); [constructor|reflexivity|exact H1].
Defined.

End EndToEnd.
